(** * WMO content reviewer: a shallow embedding of the rule engine

    The two reviewers of the repository, [billie_jean.py] (class
    [BillieJean]) and [wmo_content_reviewer.py] (class
    [WMOContentReviewer]), are embedded as state-passing functions over a
    record that holds the fields of the Python object.  Operations that
    can raise in Python (true division, list indexing, [int()]) return
    in the error monad [res].

    Python strings are modelled by [string]; a character stands for the
    code point of the same number, so the model covers documents over
    the code points 0..255.  The classification of characters
    ([isspace], [lower], the classes of [re]) follows Python's on that
    range. *)

From Stdlib Require Import Ascii Floats Uint63.
From stdpp Require Import gmap strings list.


(** ** Python strings *)

Module Py.

Definition dquote : ascii := "034"%char.
Definition newline : ascii := "010"%char.
Definition degree_sign : ascii := "176"%char.

Definition str1 (c : ascii) : string := String c EmptyString.

Definition code (c : ascii) : nat := nat_of_ascii c.

Definition in_range (lo hi : nat) (c : ascii) : bool :=
  (lo <=? code c)%nat && (code c <=? hi)%nat.

(** [str.isspace] on one character: TAB..CR, FS..US, space, NEL, NBSP. *)
Definition isspace (c : ascii) : bool :=
  in_range 9 13 c || in_range 28 32 c || (code c =? 133)%nat || (code c =? 160)%nat.

Definition isupper (c : ascii) : bool :=
  in_range 65 90 c || (in_range 192 222 c && negb (code c =? 215)%nat).

Definition islower_cased (c : ascii) : bool :=
  in_range 97 122 c || (in_range 224 254 c && negb (code c =? 247)%nat).

Definition lower_char (c : ascii) : ascii :=
  if isupper c then ascii_of_nat (code c + 32) else c.

(** Upper-casing that stays inside the modelled range. *)
Definition upper_char (c : ascii) : ascii :=
  if islower_cased c then ascii_of_nat (code c - 32) else c.

Definition isdecimal (c : ascii) : bool := in_range 48 57 c.

(** [str.isalnum] on one character (letters, digits and numerics). *)
Definition isalnum (c : ascii) : bool :=
  isdecimal c || in_range 65 90 c || in_range 97 122 c
  || (code c =? 170)%nat || (code c =? 178)%nat || (code c =? 179)%nat
  || (code c =? 181)%nat || (code c =? 185)%nat || (code c =? 186)%nat
  || in_range 188 190 c
  || (in_range 192 255 c && negb (code c =? 215)%nat && negb (code c =? 247)%nat).

Fixpoint lower (s : string) : string :=
  match s with
  | EmptyString => EmptyString
  | String c s' => String (lower_char c) (lower s')
  end.

Fixpoint upper (s : string) : string :=
  match s with
  | EmptyString => EmptyString
  | String c s' => String (upper_char c) (upper s')
  end.

Fixpoint startswith (p s : string) : bool :=
  match p, s with
  | EmptyString, _ => true
  | String a p', String b s' => if Ascii.eqb a b then startswith p' s' else false
  | String _ _, EmptyString => false
  end.

(** [needle in hay]. *)
Fixpoint contains (needle hay : string) : bool :=
  startswith needle hay ||
  match hay with
  | EmptyString => false
  | String _ hay' => contains needle hay'
  end.

(** [s[:n]]. *)
Fixpoint take (n : nat) (s : string) : string :=
  match n, s with
  | S n', String c s' => String c (take n' s')
  | _, _ => EmptyString
  end.

(** [s[n:]]. *)
Fixpoint drop (n : nat) (s : string) : string :=
  match n, s with
  | S n', String _ s' => drop n' s'
  | _, _ => s
  end.

Fixpoint count_char (c : ascii) (s : string) : nat :=
  match s with
  | EmptyString => 0
  | String d s' => (if Ascii.eqb c d then 1 else 0) + count_char c s'
  end.

(** [s.split(sep)] for a one-character separator: the pieces between
    the separators, empty pieces included. *)
Fixpoint split_char_aux (sep : ascii) (acc s : string) : list string :=
  match s with
  | EmptyString => [String.rev acc]
  | String c s' =>
      if Ascii.eqb c sep then String.rev acc :: split_char_aux sep EmptyString s'
      else split_char_aux sep (String c acc) s'
  end.

Definition split_char (sep : ascii) (s : string) : list string :=
  split_char_aux sep EmptyString s.

(** [s.split()]: the maximal runs of non-whitespace characters. *)
Fixpoint split_ws_aux (acc s : string) : list string :=
  match s with
  | EmptyString =>
      match acc with EmptyString => [] | _ => [String.rev acc] end
  | String c s' =>
      if isspace c then
        match acc with
        | EmptyString => split_ws_aux EmptyString s'
        | _ => String.rev acc :: split_ws_aux EmptyString s'
        end
      else split_ws_aux (String c acc) s'
  end.

Definition split_ws (s : string) : list string := split_ws_aux EmptyString s.

Fixpoint lstrip (s : string) : string :=
  match s with
  | EmptyString => EmptyString
  | String c s' => if isspace c then lstrip s' else s
  end.

Definition rstrip (s : string) : string := String.rev (lstrip (String.rev s)).

Definition strip (s : string) : string := rstrip (lstrip s).

(** [str(n)] for a natural number. *)
Definition digit_char (d : nat) : ascii := ascii_of_nat (48 + d).

Fixpoint str_of_nat_aux (fuel n : nat) (acc : string) : string :=
  match fuel with
  | 0 => acc
  | S fuel' =>
      let acc' := String (digit_char (n mod 10)) acc in
      match n / 10 with
      | 0 => acc'
      | q => str_of_nat_aux fuel' q acc'
      end
  end.

Definition str_of_nat (n : nat) : string := str_of_nat_aux (S n) n EmptyString.

(** [enumerate(l, start)]. *)
Fixpoint enumerate {A} (start : nat) (l : list A) : list (nat * A) :=
  match l with
  | [] => []
  | x :: l' => (start, x) :: enumerate (S start) l'
  end.

Definition is_empty (s : string) : bool :=
  match s with EmptyString => true | String _ _ => false end.

(** Comparison of strings, by code points, and of [(str, int)] tuples. *)
Fixpoint str_ltb (a b : string) : bool :=
  match a, b with
  | _, EmptyString => false
  | EmptyString, String _ _ => true
  | String x a', String y b' =>
      if (code x <? code y)%nat then true
      else if (code y <? code x)%nat then false
      else str_ltb a' b'
  end.

Definition key_ltb (k1 k2 : string * nat) : bool :=
  str_ltb k1.1 k2.1 || (String.eqb k1.1 k2.1 && (k1.2 <? k2.2)%nat).

(** [sorted(l, key=key)]: the stable sort; an element is placed before
    the first one whose key is not smaller than its own. *)
Section Sorted.
Context {A : Type} (key : A -> string * nat).

Fixpoint insert (x : A) (l : list A) : list A :=
  match l with
  | [] => [x]
  | y :: l' => if key_ltb (key y) (key x) then y :: insert x l' else x :: l
  end.

Fixpoint sorted (l : list A) : list A :=
  match l with
  | [] => []
  | x :: l' => insert x (sorted l')
  end.

End Sorted.

(** *** Exceptions *)

Inductive exn := ZeroDivisionError | IndexError | ValueError | TypeError.

Inductive res (A : Type) :=
| Ok (a : A)
| Raise (e : exn).
Arguments Ok {A} a.
Arguments Raise {A} e.

#[global] Instance res_ret : MRet res := fun _ a => Ok a.
#[global] Instance res_bind : MBind res := fun _ _ f m =>
  match m with
  | Ok a => f a
  | Raise e => Raise e
  end.

(** A [for] loop that threads a state, and one whose body may raise. *)
Definition for_each {A S : Type} (l : list A) (s : S) (body : S -> A -> S) : S :=
  fold_left body l s.

Fixpoint for_eachM {A S : Type} (l : list A) (s : S) (body : S -> A -> res S)
    : res S :=
  match l with
  | [] => Ok s
  | x :: l' => s' ← body s x; for_eachM l' s' body
  end.

(** [l[i]]. *)
Definition index {A} (l : list A) (i : nat) : res A :=
  match l !! i with
  | Some x => Ok x
  | None => Raise IndexError
  end.

(** [int(s)] for a string of decimal digits; on anything else the model
    raises [ValueError]. *)
Fixpoint int_digits (acc : nat) (s : string) : option nat :=
  match s with
  | EmptyString => Some acc
  | String c s' =>
      if isdecimal c then int_digits (10 * acc + (code c - 48)) s' else None
  end.

Definition int (s : string) : res nat :=
  match s with
  | EmptyString => Raise ValueError
  | _ => match int_digits 0 s with Some n => Ok n | None => Raise ValueError end
  end.

(** A value that may be [None], used where Python needs a string. *)
Definition need_str (o : option string) : res string :=
  match o with
  | Some s => Ok s
  | None => Raise TypeError
  end.

(** [a or b] on optional strings: [None] and the empty string are false. *)
Definition str_or (a : option string) (b : string) : string :=
  match a with
  | Some (String c s) => String c s
  | _ => b
  end.

(** [range(a, b)]. *)
Definition range (a b : nat) : list nat := seq a (b - a).

(** *** Floats

    Python floats are IEEE 754 binary64, as are Rocq's primitive floats.
    Word and sentence counts are converted through 63-bit integers, on
    which the conversion is Python's up to 2^53. *)

Definition float_of_nat (n : nat) : float := PrimFloat.of_uint63 (Uint63.of_nat n).

(** [a / b] on integers. *)
Definition truediv (a b : nat) : res float :=
  match b with
  | 0 => Raise ZeroDivisionError
  | _ => Ok (float_of_nat a / float_of_nat b)%float
  end.

(** [f"{x:.1f}"]: the exact value of the float, rounded to one decimal,
    ties to even. *)
Definition round_half_even (num den : Z) : Z :=
  let q := (num / den)%Z in
  let r := (num mod den)%Z in
  if (den <? 2 * r)%Z then (q + 1)%Z
  else if (2 * r =? den)%Z then (if Z.even q then q else (q + 1)%Z)
  else q.

Definition tenths (m : positive) (e : Z) : Z :=
  if (0 <=? e)%Z then (Z.pos m * 10 * 2 ^ e)%Z
  else round_half_even (Z.pos m * 10) (2 ^ (- e)).

Definition format_tenths (t : Z) : string :=
  str_of_nat (Z.to_nat (t / 10)) +:+ "." +:+ str_of_nat (Z.to_nat (t mod 10)).

Definition format_1f (x : float) : string :=
  match Prim2SF x with
  | S754_zero s => (if s then "-" else EmptyString) +:+ "0.0"
  | S754_infinity s => if s then "-inf" else "inf"
  | S754_nan => "nan"
  | S754_finite s m e =>
      (if s then "-" else EmptyString) +:+ format_tenths (tenths m e)
  end.

End Py.

(** ** The fragment of Python's [re] used by the reviewers

    A pattern is a syntax tree; [exec] returns every way the pattern can
    match from a state, in the order in which Python's backtracking
    matcher tries them, so the head of the list is the match Python
    reports.  Repetition applies to one-character classes only, which is
    all the patterns of the repository need. *)

Module Re.
Import Py.

Inductive citem :=
| Ch (c : ascii)             (* a literal character *)
| Rg (lo hi : ascii)         (* a-z *)
| Sp                         (* \s *)
| Wd                         (* \w *)
| Dg.                        (* \d *)

Inductive cclass :=
| Any                        (* . *)
| One (i : citem)
| Set_ (items : list citem)  (* [...] *)
| NSet (items : list citem). (* [^...] *)

Inductive regex :=
| Eps
| Cls (c : cclass)
| Lit (s : string)
| Cat (r1 r2 : regex)
| Alt (r1 r2 : regex)
| Rep (c : cclass) (lo : nat) (hi : option nat) (lazy : bool)
| Opt (r : regex)            (* (?:r)? *)
| Grp (n : nat) (r : regex)  (* the n-th capturing group *)
| Ref (n : nat)              (* \n *)
| Bol                        (* ^ *)
| Eol                        (* $ *)
| Wb.                        (* \b *)

Definition Star c := Rep c 0 None false.
Definition Plus c := Rep c 1 None false.
Definition StarLazy c := Rep c 0 None true.
Definition PlusLazy c := Rep c 1 None true.
Definition Range c lo hi := Rep c lo (Some hi) false.

Fixpoint Seq (rs : list regex) : regex :=
  match rs with
  | [] => Eps
  | [r] => r
  | r :: rs' => Cat r (Seq rs')
  end.

Fixpoint Alts (rs : list regex) : regex :=
  match rs with
  | [] => Eps
  | [r] => r
  | r :: rs' => Alt r (Alts rs')
  end.

(** The flags [re.IGNORECASE] and [re.DOTALL]. *)
Record flags := { ignorecase : bool; dotall : bool }.
Definition no_flags := {| ignorecase := false; dotall := false |}.
Definition IGNORECASE := {| ignorecase := true; dotall := false |}.
Definition IGNORECASE_DOTALL := {| ignorecase := true; dotall := true |}.

Definition isword (c : ascii) : bool := isalnum c || Ascii.eqb c "_"%char.

Definition item_has (i : citem) (d : ascii) : bool :=
  match i with
  | Ch c => Ascii.eqb c d
  | Rg lo hi => in_range (code lo) (code hi) d
  | Sp => isspace d
  | Wd => isword d
  | Dg => isdecimal d
  end.

Definition item_matches (f : flags) (i : citem) (d : ascii) : bool :=
  item_has i d ||
  (ignorecase f && (item_has i (lower_char d) || item_has i (upper_char d))).

Definition class_matches (f : flags) (c : cclass) (d : ascii) : bool :=
  match c with
  | Any => dotall f || negb (Ascii.eqb d newline)
  | One i => item_matches f i d
  | Set_ items => existsb (fun i => item_matches f i d) items
  | NSet items => negb (existsb (fun i => item_matches f i d) items)
  end.

Definition char_eq (f : flags) (a b : ascii) : bool :=
  if ignorecase f then Ascii.eqb (lower_char a) (lower_char b) else Ascii.eqb a b.

(** A position in the subject: the character before it, the text from
    it on, its offset, and the groups captured so far. *)
Record mstate := {
  prev : option ascii;
  rest : string;
  pos : nat;
  caps : list (nat * string)
}.

Definition advance (st : mstate) : option mstate :=
  match rest st with
  | EmptyString => None
  | String d t =>
      Some {| prev := Some d; rest := t; pos := S (pos st); caps := caps st |}
  end.

Definition step_class (f : flags) (c : cclass) (st : mstate) : option mstate :=
  match rest st with
  | EmptyString => None
  | String d t =>
      if class_matches f c d
      then Some {| prev := Some d; rest := t; pos := S (pos st); caps := caps st |}
      else None
  end.

Fixpoint step_lit (f : flags) (l : string) (st : mstate) : option mstate :=
  match l with
  | EmptyString => Some st
  | String a l' =>
      match rest st with
      | EmptyString => None
      | String d t =>
          if char_eq f a d
          then step_lit f l'
                 {| prev := Some d; rest := t; pos := S (pos st); caps := caps st |}
          else None
      end
  end.

(** The states reached by consuming 0, 1, 2, ... characters of the class,
    at most [hi] of them, shortest first. *)
Fixpoint run_class (f : flags) (c : cclass) (hi : option nat)
    (p : option ascii) (n : nat) (cs : list (nat * string)) (s : string)
    : list mstate :=
  {| prev := p; rest := s; pos := n; caps := cs |} ::
  match s with
  | EmptyString => []
  | String d t =>
      if class_matches f c d then
        match hi with
        | Some 0 => []
        | Some (S h) => run_class f c (Some h) (Some d) (S n) cs t
        | None => run_class f c None (Some d) (S n) cs t
        end
      else []
  end.

Definition exec_rep (f : flags) (c : cclass) (lo : nat) (hi : option nat)
    (lazy : bool) (st : mstate) : list mstate :=
  let runs := List.skipn lo (run_class f c hi (prev st) (pos st) (caps st) (rest st)) in
  if lazy then runs else List.rev runs.

Definition at_word (o : option ascii) : bool :=
  match o with Some c => isword c | None => false end.

Definition next_char (st : mstate) : option ascii :=
  match rest st with EmptyString => None | String d _ => Some d end.

Definition at_boundary (st : mstate) : bool :=
  xorb (at_word (prev st)) (at_word (next_char st)).

Definition at_end (st : mstate) : bool :=
  match rest st with
  | EmptyString => true
  | String d EmptyString => Ascii.eqb d newline
  | _ => false
  end.

Definition get_cap (n : nat) (cs : list (nat * string)) : option string :=
  snd <$> List.find (fun p => (fst p =? n)%nat) cs.

Definition set_cap (n : nat) (start : mstate) (st : mstate) : mstate :=
  {| prev := prev st; rest := rest st; pos := pos st;
     caps := (n, take (pos st - pos start) (rest start)) :: caps st |}.

Definition guard (b : bool) (st : mstate) : list mstate :=
  if b then [st] else [].

Fixpoint exec (f : flags) (r : regex) (st : mstate) : list mstate :=
  match r with
  | Eps => [st]
  | Cls c => option_list (step_class f c st)
  | Lit l => option_list (step_lit f l st)
  | Cat r1 r2 => exec f r1 st ≫= exec f r2
  | Alt r1 r2 => exec f r1 st ++ exec f r2 st
  | Rep c lo hi lazy => exec_rep f c lo hi lazy st
  | Opt r1 => exec f r1 st ++ [st]
  | Grp n r1 => set_cap n st <$> exec f r1 st
  | Ref n =>
      match get_cap n (caps st) with
      | Some t => option_list (step_lit f t st)
      | None => []
      end
  | Bol => guard (pos st =? 0)%nat st
  | Eol => guard (at_end st) st
  | Wb => guard (at_boundary st) st
  end.

(** A match object: [start()], [end()], [group(0)] and the groups. *)
Record rmatch := {
  m_start : nat;
  m_end : nat;
  m_text : string;
  m_groups : list (nat * string)
}.

(** [m.group(n)] for n >= 1: [None] when the group took no part. *)
Definition group (n : nat) (m : rmatch) : option string := get_cap n (m_groups m).

Definition match_at (f : flags) (r : regex) (p : option ascii) (n : nat)
    (s : string) : option rmatch :=
  match exec f r {| prev := p; rest := s; pos := n; caps := [] |} with
  | [] => None
  | st :: _ =>
      Some {| m_start := n; m_end := pos st;
              m_text := take (pos st - n) s; m_groups := caps st |}
  end.

(** [re.match]: a match at the start of the subject only. *)
Definition re_match (f : flags) (r : regex) (s : string) : option rmatch :=
  match_at f r None 0 s.

Fixpoint search_from (f : flags) (r : regex) (p : option ascii) (n : nat)
    (s : string) : option rmatch :=
  match match_at f r p n s with
  | Some m => Some m
  | None =>
      match s with
      | EmptyString => None
      | String c s' => search_from f r (Some c) (S n) s'
      end
  end.

(** [re.search]: the first position at which the pattern matches. *)
Definition re_search (f : flags) (r : regex) (s : string) : option rmatch :=
  search_from f r None 0 s.

(** [re.finditer]: successive non-overlapping matches, left to right.
    [skip] counts the characters still covered by the previous match. *)
Fixpoint finditer_from (f : flags) (r : regex) (skip : nat) (p : option ascii)
    (n : nat) (s : string) : list rmatch :=
  let here := match skip with 0 => match_at f r p n s | S _ => None end in
  match here with
  | Some m =>
      m :: match s with
           | EmptyString => []
           | String c s' => finditer_from f r (m_end m - n - 1) (Some c) (S n) s'
           end
  | None =>
      match s with
      | EmptyString => []
      | String c s' => finditer_from f r (skip - 1) (Some c) (S n) s'
      end
  end.

Definition re_finditer (f : flags) (r : regex) (s : string) : list rmatch :=
  finditer_from f r 0 None 0 s.

(** The pieces of [s] outside the spans of the matches [ms], given the
    offset [n] of [s] in the subject. *)
Fixpoint pieces (ms : list rmatch) (n : nat) (s : string) : list string :=
  match ms with
  | [] => [s]
  | m :: ms' =>
      take (m_start m - n) s :: pieces ms' (m_end m) (drop (m_end m - n) s)
  end.

(** [re.split] and [re.sub(r, '', s)] for a pattern without groups that
    cannot match the empty string. *)
Definition re_split (f : flags) (r : regex) (s : string) : list string :=
  pieces (re_finditer f r s) 0 s.

Definition re_remove (f : flags) (r : regex) (s : string) : string :=
  String.concat EmptyString (re_split f r s).

End Re.

(** ** billie_jean.py *)

Module BillieJean.
Import Py Re.

Inductive ContentType := WEB_PAGE | NEWS_ARTICLE | UNKNOWN.

Inductive Severity := CRITICAL | ERROR | WARNING | SUGGESTION.

(** [severity.value]. *)
Definition value (s : Severity) : string :=
  match s with
  | CRITICAL => "CRITICAL"
  | ERROR => "ERROR"
  | WARNING => "WARNING"
  | SUGGESTION => "SUGGESTION"
  end.

Record ReviewIssue := {
  category : string;
  severity : Severity;
  message : string;
  suggestion : string;
  line_number : nat;
  context : string;
  flagged_text : string
}.

Record StrategicAlignment := {
  earth_system_monitoring : bool;
  early_warnings : bool;
  climate_action : bool;
  capacity_development : bool;
  hydrometeorological_services : bool
}.

(** [StrategicAlignment()]. *)
Definition StrategicAlignment_new : StrategicAlignment :=
  {| earth_system_monitoring := false; early_warnings := false;
     climate_action := false; capacity_development := false;
     hydrometeorological_services := false |}.

Definition count_true (l : list bool) : nat :=
  fold_left (fun n (b : bool) => if b then S n else n) l 0.

Definition get_coverage (self : StrategicAlignment) : res float :=
  let total := 5 in
  let covered := count_true [
    earth_system_monitoring self;
    early_warnings self;
    climate_action self;
    capacity_development self;
    hydrometeorological_services self
  ] in
  q ← truediv covered total;
  Ok (q * 100)%float.

(** The attribute names used as keys of [STRATEGIC_KEYWORDS]. *)
Inductive Priority :=
| p_earth_system_monitoring
| p_early_warnings
| p_climate_action
| p_capacity_development
| p_hydrometeorological_services.

Definition setattr (sa : StrategicAlignment) (p : Priority) (b : bool)
    : StrategicAlignment :=
  match p with
  | p_earth_system_monitoring =>
      {| earth_system_monitoring := b; early_warnings := early_warnings sa;
         climate_action := climate_action sa;
         capacity_development := capacity_development sa;
         hydrometeorological_services := hydrometeorological_services sa |}
  | p_early_warnings =>
      {| earth_system_monitoring := earth_system_monitoring sa; early_warnings := b;
         climate_action := climate_action sa;
         capacity_development := capacity_development sa;
         hydrometeorological_services := hydrometeorological_services sa |}
  | p_climate_action =>
      {| earth_system_monitoring := earth_system_monitoring sa;
         early_warnings := early_warnings sa; climate_action := b;
         capacity_development := capacity_development sa;
         hydrometeorological_services := hydrometeorological_services sa |}
  | p_capacity_development =>
      {| earth_system_monitoring := earth_system_monitoring sa;
         early_warnings := early_warnings sa;
         climate_action := climate_action sa; capacity_development := b;
         hydrometeorological_services := hydrometeorological_services sa |}
  | p_hydrometeorological_services =>
      {| earth_system_monitoring := earth_system_monitoring sa;
         early_warnings := early_warnings sa;
         climate_action := climate_action sa;
         capacity_development := capacity_development sa;
         hydrometeorological_services := b |}
  end.

Definition STRATEGIC_KEYWORDS : list (Priority * list string) := [
  (p_earth_system_monitoring, [
     "observation"; "monitoring"; "data collection"; "satellite"; "weather station";
     "WIGOS"; "Global Observing System"; "measurement"; "sensor"]);
  (p_early_warnings, [
     "early warning"; "forecast"; "prediction"; "alert"; "warning system";
     "preparedness"; "risk reduction"; "disaster"; "severe weather"]);
  (p_climate_action, [
     "climate change"; "climate action"; "adaptation"; "mitigation"; "greenhouse gas";
     "Paris Agreement"; "UNFCCC"; "global warming"; "carbon"; "climate services"]);
  (p_capacity_development, [
     "capacity"; "training"; "education"; "knowledge transfer"; "technical assistance";
     "development"; "partnership"; "cooperation"; "support"]);
  (p_hydrometeorological_services, [
     "water"; "hydrology"; "flood"; "drought"; "water resources"; "precipitation";
     "river"; "hydrological"; "water management"; "NMHS"])
].

Definition WMO_ABBREVIATIONS : list (string * string) := [
  ("WMO", "World Meteorological Organization");
  ("GCOS", "Global Climate Observing System");
  ("WIGOS", "WMO Integrated Global Observing System");
  ("WIS", "WMO Information System");
  ("GAW", "Global Atmosphere Watch");
  ("GDPFS", "Global Data-Processing and Forecasting System");
  ("IPCC", "Intergovernmental Panel on Climate Change");
  ("UNFCCC", "United Nations Framework Convention on Climate Change");
  ("GHG", "Greenhouse Gas");
  ("NMHS", "National Meteorological and Hydrological Services");
  ("AMDAR", "Aircraft Meteorological Data Relay");
  ("GTS", "Global Telecommunication System")
].

(** The fields of a [BillieJean] object. *)
Record t := {
  content_type : ContentType;
  issues : list ReviewIssue;
  content : string;
  content_lines : list string;
  strategic_alignment : StrategicAlignment;
  defined_abbreviations : gset string
}.

(** [BillieJean(content_type)]. *)
Definition init (ct : ContentType) : t :=
  {| content_type := ct; issues := []; content := EmptyString;
     content_lines := []; strategic_alignment := StrategicAlignment_new;
     defined_abbreviations := ∅ |}.

Definition set_issues (self : t) (v : list ReviewIssue) : t :=
  {| content_type := content_type self; issues := v; content := content self;
     content_lines := content_lines self;
     strategic_alignment := strategic_alignment self;
     defined_abbreviations := defined_abbreviations self |}.

Definition set_content (self : t) (v : string) : t :=
  {| content_type := content_type self; issues := issues self; content := v;
     content_lines := content_lines self;
     strategic_alignment := strategic_alignment self;
     defined_abbreviations := defined_abbreviations self |}.

Definition set_content_lines (self : t) (v : list string) : t :=
  {| content_type := content_type self; issues := issues self;
     content := content self; content_lines := v;
     strategic_alignment := strategic_alignment self;
     defined_abbreviations := defined_abbreviations self |}.

Definition set_strategic_alignment (self : t) (v : StrategicAlignment) : t :=
  {| content_type := content_type self; issues := issues self;
     content := content self; content_lines := content_lines self;
     strategic_alignment := v;
     defined_abbreviations := defined_abbreviations self |}.

Definition set_defined_abbreviations (self : t) (v : gset string) : t :=
  {| content_type := content_type self; issues := issues self;
     content := content self; content_lines := content_lines self;
     strategic_alignment := strategic_alignment self;
     defined_abbreviations := v |}.

(** [self.issues.append(i)]. *)
Definition emit (self : t) (i : ReviewIssue) : t :=
  set_issues self (issues self ++ [i]).

(** [self.content[:start].count('\n') + 1]. *)
Definition line_of (content : string) (start : nat) : nat :=
  count_char newline (take start content) + 1.

Definition matches (f : flags) (r : regex) (s : string) : bool :=
  bool_decide (is_Some (re_search f r s)).

(** *** check_strategic_alignment *)

Definition check_strategic_alignment (self : t) : res t :=
  let content_lower := lower (content self) in
  let self :=
    for_each STRATEGIC_KEYWORDS self (fun self '(priority, keywords) =>
      if existsb (fun keyword => contains (lower keyword) content_lower) keywords
      then set_strategic_alignment self
             (setattr (strategic_alignment self) priority true)
      else self) in
  coverage ← get_coverage (strategic_alignment self);
  if (coverage <? 20)%float then
    Ok (emit self {|
      category := "Strategic Alignment";
      severity := CRITICAL;
      message := "Content shows minimal alignment with WMO strategic priorities";
      suggestion := "Consider explicitly connecting content to WMO's mission: Earth system monitoring, early warnings, climate action, capacity development, or hydrometeorological services";
      line_number := 0; context := EmptyString; flagged_text := EmptyString |})
  else Ok self.

(** *** check_style_guide_compliance *)

(** [[.!?]+] *)
Definition rx_sentence_end : regex :=
  Plus (Set_ [Ch "."; Ch "!"; Ch "?"]).

(** [\bword\b] *)
Definition rx_whole_word (w : string) : regex := Seq [Wb; Lit w; Wb].

Definition passive_patterns : list (regex * string) := [
  (rx_whole_word "is being", "is being");
  (rx_whole_word "was being", "was being");
  (rx_whole_word "has been", "has been");
  (rx_whole_word "have been", "have been");
  (rx_whole_word "had been", "had been")
].

Definition abbrev_issues : list (regex * string * string) := [
  (rx_whole_word "temp", "temp", "temperature");
  (rx_whole_word "max", "max", "maximum");
  (rx_whole_word "min", "min", "minimum");
  (rx_whole_word "info", "info", "information")
].

(** [\*[^*]+\*|_[^_]+_|<em>|<i>] *)
Definition rx_italics : regex :=
  Alts [Seq [Lit "*"; Plus (NSet [Ch "*"]); Lit "*"];
        Seq [Lit "_"; Plus (NSet [Ch "_"]); Lit "_"];
        Lit "<em>";
        Lit "<i>"].

Definition _extract_phrase (line phrase : string) : string :=
  match re_search IGNORECASE (Lit phrase) line with
  | Some m => m_text m
  | None => phrase
  end.

Definition check_style_guide_compliance (self : t) : t :=
  for_each (enumerate 1 (content_lines self)) self (fun self '(i, line) =>
    let line_lower := lower line in
    (* proper WMO capitalization *)
    let self :=
      if contains "world meteorological organization" line_lower then
        if negb (contains "World Meteorological Organization" line) then
          emit self {|
            category := "Style Guide";
            severity := ERROR;
            message := "'World Meteorological Organization' must be properly capitalized";
            suggestion := "Use 'World Meteorological Organization' with capital letters";
            line_number := i; context := EmptyString;
            flagged_text := _extract_phrase line "world meteorological organization" |}
        else self
      else self in
    (* overly long sentences *)
    let sentences := re_split no_flags rx_sentence_end line in
    let self :=
      for_each sentences self (fun self sentence =>
        if is_empty (strip sentence) then self
        else
          let word_count := length (split_ws sentence) in
          if (30 <? word_count)%nat then
            emit self {|
              category := "Style Guide - Clarity";
              severity := WARNING;
              message := "Sentence is too long for web content ("
                         +:+ str_of_nat word_count +:+ " words)";
              suggestion := "Break into shorter sentences (aim for 20-25 words max) for better web readability";
              line_number := i;
              context := take 100 (strip sentence);
              flagged_text := EmptyString |}
          else self) in
    (* passive voice: the first pattern that matches, then break *)
    let self :=
      match List.find (fun '(pattern, phrase) => matches IGNORECASE pattern line)
                      passive_patterns with
      | Some (_, phrase) =>
          emit self {|
            category := "Style Guide - Voice";
            severity := SUGGESTION;
            message := "Passive voice detected";
            suggestion := "Consider using active voice for more direct, engaging communication";
            line_number := i; context := EmptyString;
            flagged_text := phrase |}
      | None => self
      end in
    (* abbreviations in formal writing *)
    let self :=
      for_each abbrev_issues self (fun self '(pattern, abbrev, full) =>
        if matches no_flags pattern line_lower then
          emit self {|
            category := "Style Guide - Abbreviations";
            severity := ERROR;
            message := "Avoid informal abbreviation '" +:+ abbrev
                       +:+ "' in formal content";
            suggestion := "Use '" +:+ full +:+ "' instead";
            line_number := i; context := EmptyString;
            flagged_text := abbrev |}
        else self) in
    (* italics used for emphasis *)
    if matches no_flags rx_italics line then
      emit self {|
        category := "Style Guide - Formatting";
        severity := WARNING;
        message := "Possible use of italics detected";
        suggestion := "Italics should only be used for publication titles, Latin names, etc., not for emphasis in web content";
        line_number := i; context := EmptyString; flagged_text := EmptyString |}
    else self).

(** *** check_accessibility_wcag *)

(** [<img[^>]+>] *)
Definition img_pattern : regex :=
  Seq [Lit "<img"; Plus (NSet [Ch ">"]); Lit ">"].

(** [alt=[DQ'][\s]*[DQ']].  In the comments DQ stands for the double quote,
    and a star is kept apart from a closing parenthesis. *)
Definition rx_empty_alt : regex :=
  Seq [Lit "alt="; Cls (Set_ [Ch dquote; Ch "'"]); Star (Set_ [Sp]);
       Cls (Set_ [Ch dquote; Ch "'"])].

(** [^(#{1,6})\s+(.+)$] *)
Definition rx_md_heading : regex :=
  Seq [Bol; Grp 1 (Range (One (Ch "#")) 1 6); Plus (One Sp); Grp 2 (Plus Any); Eol].

(** [<h([1-6])[^>]*>(.*?)</h\1>] *)
Definition rx_html_heading : regex :=
  Seq [Lit "<h"; Grp 1 (Cls (Set_ [Rg "1" "6"])); Star (NSet [Ch ">"]); Lit ">";
       Grp 2 (StarLazy Any); Lit "</h"; Ref 1; Lit ">"].

(** [<[^>]+>] *)
Definition rx_tag : regex :=
  Seq [Lit "<"; Plus (NSet [Ch ">"]); Lit ">"].

(** [<a[^>]*>([^<]+)</a>|\[([^\]]+)\]\([^)]+\)] *)
Definition link_pattern : regex :=
  Alt (Seq [Lit "<a"; Star (NSet [Ch ">"]); Lit ">"; Grp 1 (Plus (NSet [Ch "<"]));
            Lit "</a>"])
      (Seq [Lit "["; Grp 2 (Plus (NSet [Ch "]"])); Lit "]"; Lit "(";
            Plus (NSet [Ch ")"]); Lit ")"]).

Definition generic_texts : list string :=
  ["click here"; "read more"; "here"; "this link"; "link"].

(** A collected heading: [(line, level, text)]. *)
Definition heading : Type := nat * nat * string.
Definition h_line (h : heading) : nat := h.1.1.
Definition h_level (h : heading) : nat := h.1.2.

(** The loop that collects the headings. *)
Definition collect_headings (content_lines : list string) : res (list heading) :=
  for_eachM (enumerate 1 content_lines) [] (fun headings '(i, line) =>
    (* Markdown headings *)
    let md_match := re_match no_flags rx_md_heading line in
    headings ←
      match md_match with
      | Some m =>
          g1 ← need_str (group 1 m);
          let level := String.length g1 in
          g2 ← need_str (group 2 m);
          Ok (headings ++ [(i, level, g2)])
      | None => Ok headings
      end;
    (* HTML headings *)
    for_eachM (re_finditer IGNORECASE rx_html_heading line) headings
      (fun headings m =>
         g1 ← need_str (group 1 m);
         level ← int g1;
         g2 ← need_str (group 2 m);
         let text := re_remove no_flags rx_tag g2 in
         Ok (headings ++ [(i, level, text)]))).

(** The checks on the collected headings. *)
Definition check_hierarchy (headings : list heading) (self : t) : res t :=
  match headings with
  | [] => Ok self
  | _ :: _ =>
      h0 ← index headings 0;
      let self :=
        if negb (h_level h0 =? 1)%nat then
          emit self {|
            category := "Accessibility (WCAG 2.1)";
            severity := ERROR;
            message := "Document should start with H1 heading";
            suggestion := "Use H1 for main title, then H2 for sections, H3 for subsections";
            line_number := h_line h0;
            context := EmptyString; flagged_text := EmptyString |}
        else self in
      for_eachM (range 1 (length headings)) self (fun self idx =>
        hp ← index headings (idx - 1);
        hc ← index headings idx;
        let prev_level := h_level hp in
        let curr_level := h_level hc in
        if (prev_level + 1 <? curr_level)%nat then
          Ok (emit self {|
            category := "Accessibility (WCAG 2.1)";
            severity := ERROR;
            message := "Heading hierarchy skip: H" +:+ str_of_nat prev_level
                       +:+ " to H" +:+ str_of_nat curr_level;
            suggestion := "Maintain sequential heading levels for screen reader users";
            line_number := h_line hc;
            context := EmptyString; flagged_text := EmptyString |})
        else Ok self)
  end.

Definition check_accessibility_wcag (self : t) : res t :=
  (* images without alt text *)
  let self :=
    for_each (re_finditer IGNORECASE img_pattern (content self)) self (fun self m =>
      let img_tag := m_text m in
      let line_num := line_of (content self) (m_start m) in
      if negb (contains "alt=" (lower img_tag)) then
        emit self {|
          category := "Accessibility (WCAG 2.1)";
          severity := CRITICAL;
          message := "Image missing alt text (WCAG 2.1 Level A requirement)";
          suggestion := "Add descriptive alt text: alt='[description of image content and function]'";
          line_number := line_num; context := EmptyString;
          flagged_text := take 80 img_tag |}
      else if matches no_flags rx_empty_alt img_tag then
        emit self {|
          category := "Accessibility (WCAG 2.1)";
          severity := WARNING;
          message := "Image has empty alt text";
          suggestion := "If decorative, use alt=''. If meaningful, provide descriptive text";
          line_number := line_num; context := EmptyString;
          flagged_text := EmptyString |}
      else self) in
  (* heading hierarchy *)
  headings ← collect_headings (content_lines self);
  self ← check_hierarchy headings self;
  (* generic link text *)
  Ok (for_each (re_finditer IGNORECASE link_pattern (content self)) self (fun self m =>
    let link_text := lower (strip (str_or (group 1 m) (str_or (group 2 m) EmptyString))) in
    if bool_decide (link_text ∈ generic_texts) then
      let line_num := line_of (content self) (m_start m) in
      emit self {|
        category := "Accessibility (WCAG 2.1)";
        severity := ERROR;
        message := "Generic link text: '" +:+ link_text +:+ "'";
        suggestion := "Use descriptive link text that makes sense out of context (e.g., 'WMO Climate Report 2025' instead of 'click here')";
        line_number := line_num; context := EmptyString;
        flagged_text := link_text |}
    else self)).

(** *** check_readability *)

Definition technical_terms : list string := [
  "synoptic"; "baroclinic"; "geopotential"; "meridional"; "zonal";
  "advection"; "adiabatic"; "convection"; "parameterization"
].

(** [f'{term}[^.!?]*?(?:is|means|refers to|defined as)'] *)
Definition rx_explained (term : string) : regex :=
  Seq [Lit term; StarLazy (NSet [Ch "."; Ch "!"; Ch "?"]);
       Alts [Lit "is"; Lit "means"; Lit "refers to"; Lit "defined as"]].

Definition check_readability (self : t) : res t :=
  let total_words := length (split_ws (content self)) in
  let sentences := re_split no_flags rx_sentence_end (content self) in
  let sentence_count :=
    length (List.filter (fun s => negb (is_empty (strip s))) sentences) in
  self ←
    (if (0 <? sentence_count)%nat then
       avg_words_per_sentence ← truediv total_words sentence_count;
       if (25 <? avg_words_per_sentence)%float then
         Ok (emit self {|
           category := "Readability";
           severity := WARNING;
           message := "Average sentence length is high ("
                      +:+ format_1f avg_words_per_sentence +:+ " words)";
           suggestion := "Aim for average of 15-20 words per sentence for web content";
           line_number := 0; context := EmptyString; flagged_text := EmptyString |})
       else Ok self
     else Ok self);
  (* jargon without explanation *)
  let content_lower := lower (content self) in
  Ok (for_each technical_terms self (fun self term =>
    if contains term content_lower then
      if negb (matches IGNORECASE (rx_explained term) content_lower) then
        emit self {|
          category := "Readability - Jargon";
          severity := WARNING;
          message := "Technical term '" +:+ term +:+ "' may need explanation";
          suggestion := "Consider adding a brief explanation for general audiences or linking to a glossary";
          line_number := 0; context := EmptyString;
          flagged_text := term |}
      else self
    else self)).

(** *** check_terminology *)

Definition terminology_guide : list (string * (string * string)) := [
  ("global warming",
   ("climate change",
    "WMO prefers " +:+ str1 dquote +:+ "climate change" +:+ str1 dquote
    +:+ " for broader scientific accuracy"));
  ("weather prediction",
   ("weather forecast",
    "Use " +:+ str1 dquote +:+ "forecast" +:+ str1 dquote
    +:+ " as the standard meteorological term"));
  ("rainfall",
   ("precipitation",
    "Use " +:+ str1 dquote +:+ "precipitation" +:+ str1 dquote
    +:+ " for accuracy (includes rain, snow, etc.) unless specifically rain"))
].

Definition check_terminology (self : t) : t :=
  for_each (enumerate 1 (content_lines self)) self (fun self '(i, line) =>
    let line_lower := lower line in
    for_each terminology_guide self (fun self '(term, (preferred, reason)) =>
      if contains term line_lower then
        emit self {|
          category := "Terminology";
          severity := SUGGESTION;
          message := "Consider terminology: '" +:+ term +:+ "'";
          suggestion := "WMO prefers '" +:+ preferred +:+ "'. " +:+ reason;
          line_number := i; context := EmptyString;
          flagged_text := term |}
      else self)).

(** *** check_abbreviations *)

(** [f'{abbrev}\s*\([^)]*{re.escape(full_form)}[^)]*\)'] and
    [f'{re.escape(full_form)}\s*\({abbrev}\)'] *)
Definition definition_patterns (abbrev full_form : string) : list regex := [
  Seq [Lit abbrev; Star (One Sp); Lit "("; Star (NSet [Ch ")"]); Lit full_form;
       Star (NSet [Ch ")"]); Lit ")"];
  Seq [Lit full_form; Star (One Sp); Lit "("; Lit abbrev; Lit ")"]
].

Definition is_defined (abbrev full_form line : string) : bool :=
  existsb (fun p => matches IGNORECASE p line) (definition_patterns abbrev full_form).

Definition check_abbreviations (self : t) : t :=
  for_each (enumerate 1 (content_lines self)) self (fun self '(i, line) =>
    for_each WMO_ABBREVIATIONS self (fun self '(abbrev, full_form) =>
      if contains abbrev line then
        if is_defined abbrev full_form line then
          set_defined_abbreviations self ({[abbrev]} ∪ defined_abbreviations self)
        else if bool_decide (abbrev ∉ defined_abbreviations self)
                && negb (String.eqb abbrev "WMO") then
          let self := emit self {|
            category := "Style Guide - Abbreviations";
            severity := WARNING;
            message := "Abbreviation '" +:+ abbrev +:+ "' not defined on first use";
            suggestion := "Define as: " +:+ full_form +:+ " (" +:+ abbrev +:+ ")";
            line_number := i; context := EmptyString;
            flagged_text := abbrev |} in
          set_defined_abbreviations self ({[abbrev]} ∪ defined_abbreviations self)
        else self
      else self)).

(** *** check_news_article_standards *)

(** [^#\s+(.+)$] *)
Definition rx_md_title : regex :=
  Seq [Bol; Lit "#"; Plus (One Sp); Grp 1 (Plus Any); Eol].

(** [<h1[^>]*>(.+?)</h1>] *)
Definition rx_html_title : regex :=
  Seq [Lit "<h1"; Star (NSet [Ch ">"]); Lit ">"; Grp 1 (PlusLazy Any); Lit "</h1>"].

(** [\b[A-Z][a-z]*\b] *)
Definition rx_capitalized : regex :=
  Seq [Wb; Cls (Set_ [Rg "A" "Z"]); Star (Set_ [Rg "a" "z"]); Wb].

(** [\b\d{4}\b], [\btoday\b], [\byesterday\b], [\bthis week\b] *)
Definition when_patterns : list regex := [
  Seq [Wb; Rep (One Dg) 4 (Some 4) false; Wb];
  rx_whole_word "today";
  rx_whole_word "yesterday";
  rx_whole_word "this week"
].

Definition what_words : list string :=
  ["announce"; "reveal"; "show"; "report"; "find"].

(** The float [0.5]. *)
Definition one_half : float := 0x1p-1%float.

Definition check_news_article_standards (self : t) : t :=
  (* sentence case in title *)
  let first_heading :=
    List.find (fun '(i, line) =>
                 bool_decide (is_Some (re_match no_flags rx_md_title line))
                 || matches IGNORECASE rx_html_title line)
              (enumerate 1 (content_lines self)) in
  let self :=
    match first_heading with
    | Some (i, line) =>
        let words := re_finditer no_flags rx_capitalized line in
        if (float_of_nat (length (split_ws line)) * one_half
            <? float_of_nat (length words))%float then
          emit self {|
            category := "News Article Standards";
            severity := WARNING;
            message := "Title appears to use title case";
            suggestion := "News articles should use sentence case: 'New climate report shows...' not 'New Climate Report Shows...'";
            line_number := i; context := EmptyString; flagged_text := EmptyString |}
        else self
    | None => self
    end in
  (* engaging opening *)
  let first_paragraph :=
    List.find (fun line =>
                 negb (is_empty (strip line))
                 && negb (startswith "#" (strip line))
                 && negb (startswith "<" (strip line))
                 && (10 <? length (split_ws line))%nat)
              (List.firstn 20 (content_lines self)) in
  let self :=
    match first_paragraph with
    | Some (String c l) =>
        let first_paragraph := String c l in
        let has_what :=
          existsb (fun word => contains word (lower first_paragraph)) what_words in
        let has_when :=
          existsb (fun pattern => matches IGNORECASE pattern first_paragraph)
                  when_patterns in
        if negb (has_what || has_when) then
          emit self {|
            category := "News Article Standards - Storytelling";
            severity := SUGGESTION;
            message := "Opening paragraph could be more engaging";
            suggestion := "Lead with the news value: What happened? When? Why does it matter? Hook readers immediately";
            line_number := 0; context := EmptyString; flagged_text := EmptyString |}
        else self
    | _ => self
    end in
  (* article length *)
  let word_count := length (split_ws (content self)) in
  if (800 <? word_count)%nat then
    emit self {|
      category := "News Article Standards";
      severity := SUGGESTION;
      message := "Article is lengthy (" +:+ str_of_nat word_count +:+ " words)";
      suggestion := "Web news articles are most effective at 400-600 words. Consider breaking into multiple articles or adding subheadings";
      line_number := 0; context := EmptyString; flagged_text := EmptyString |}
  else self.

(** *** check_seo *)

Definition rx_quote : regex := Cls (Set_ [Ch dquote; Ch "'"]).

(** [<meta\s+name=[DQ']description[DQ']] *)
Definition rx_meta_description : regex :=
  Seq [Lit "<meta"; Plus (One Sp); Lit "name="; rx_quote; Lit "description"; rx_quote].

(** [<meta\s+name=[DQ']description[DQ']\s+content=[DQ']([^DQ']* )[DQ']] *)
Definition rx_meta_content : regex :=
  Seq [Lit "<meta"; Plus (One Sp); Lit "name="; rx_quote; Lit "description"; rx_quote;
       Plus (One Sp); Lit "content="; rx_quote;
       Grp 1 (Star (NSet [Ch dquote; Ch "'"])); rx_quote].

Definition check_seo (self : t) : res t :=
  let content_lower := lower (content self) in
  let has_meta_desc := matches IGNORECASE rx_meta_description (content self) in
  let self :=
    if contains "<meta" content_lower && negb has_meta_desc then
      emit self {|
        category := "SEO";
        severity := WARNING;
        message := "Missing meta description";
        suggestion := "Add meta description (150-160 characters) to improve search visibility";
        line_number := 0; context := EmptyString; flagged_text := EmptyString |}
    else self in
  if has_meta_desc then
    match re_search IGNORECASE rx_meta_content (content self) with
    | Some meta_match =>
        g1 ← need_str (group 1 meta_match);
        let desc_len := String.length g1 in
        if (desc_len <? 120)%nat then
          Ok (emit self {|
            category := "SEO";
            severity := SUGGESTION;
            message := "Meta description is short (" +:+ str_of_nat desc_len
                       +:+ " characters)";
            suggestion := "Aim for 150-160 characters for optimal search result display";
            line_number := 0; context := EmptyString; flagged_text := EmptyString |})
        else if (160 <? desc_len)%nat then
          Ok (emit self {|
            category := "SEO";
            severity := WARNING;
            message := "Meta description is too long (" +:+ str_of_nat desc_len
                       +:+ " characters)";
            suggestion := "Keep under 160 characters to avoid truncation in search results";
            line_number := 0; context := EmptyString; flagged_text := EmptyString |})
        else Ok self
    | None => Ok self
    end
  else Ok self.

(** *** check_target_audience *)

Definition audience_indicators : list string :=
  ["public"; "everyone"; "people"; "communities"; "citizens"].

(** [\b(?:parameter|algorithm|methodology|analysis|data|system)\b] *)
Definition rx_technical : regex :=
  Seq [Wb;
       Alts [Lit "parameter"; Lit "algorithm"; Lit "methodology"; Lit "analysis";
             Lit "data"; Lit "system"];
       Wb].

(** The float [0.05]. *)
Definition five_percent : float := 0x1.999999999999ap-5%float.

Definition check_target_audience (self : t) : res t :=
  let content_lower := lower (content self) in
  let technical_density := length (re_finditer no_flags rx_technical content_lower) in
  let total_words := length (split_ws (content self)) in
  highly_technical ←
    (if (0 <? total_words)%nat then
       ratio ← truediv technical_density total_words;
       Ok (five_percent <? ratio)%float
     else Ok false);
  if highly_technical : bool then
    let has_audience_consideration :=
      existsb (fun ind => contains ind content_lower) audience_indicators in
    if negb has_audience_consideration then
      Ok (emit self {|
        category := "Target Audience";
        severity := WARNING;
        message := "Content appears highly technical";
        suggestion := "WMO content serves diverse audiences (public, policymakers, journalists, scientists). Consider adding context or explanations for general readers";
        line_number := 0; context := EmptyString; flagged_text := EmptyString |})
    else Ok self
  else Ok self.

(** *** check_formatting *)

(** [\w[.!?,;:][A-Z]] *)
Definition rx_missing_space : regex :=
  Seq [Cls (One Wd);
       Cls (Set_ [Ch "."; Ch "!"; Ch "?"; Ch ","; Ch ";"; Ch ":"]);
       Cls (Set_ [Rg "A" "Z"])].

Definition check_formatting (self : t) : t :=
  for_each (enumerate 1 (content_lines self)) self (fun self '(i, line) =>
    (* multiple spaces *)
    let self :=
      if contains "  " line then
        emit self {|
          category := "Formatting";
          severity := ERROR;
          message := "Multiple consecutive spaces found";
          suggestion := "Use single spaces between words";
          line_number := i; context := EmptyString; flagged_text := EmptyString |}
      else self in
    (* punctuation spacing *)
    if matches no_flags rx_missing_space line then
      emit self {|
        category := "Formatting";
        severity := ERROR;
        message := "Missing space after punctuation";
        suggestion := "Add space after punctuation marks";
        line_number := i; context := EmptyString; flagged_text := EmptyString |}
    else self).

(** *** check_links_and_references *)

(** [<a\s+(?:[^>]*?\s+)?href=[DQ']([^DQ']* )[DQ']] *)
Definition rx_html_link : regex :=
  Seq [Lit "<a"; Plus (One Sp);
       Opt (Seq [StarLazy (NSet [Ch ">"]); Plus (One Sp)]);
       Lit "href="; rx_quote; Grp 1 (Star (NSet [Ch dquote; Ch "'"])); rx_quote].

(** [\[([^\]]+)\]\(([^)]+)\)] *)
Definition rx_md_link : regex :=
  Seq [Lit "["; Grp 1 (Plus (NSet [Ch "]"])); Lit "]"; Lit "(";
       Grp 2 (Plus (NSet [Ch ")"])); Lit ")"].

Definition check_links_and_references (self : t) : res t :=
  (* HTML links *)
  self ←
    for_eachM (re_finditer IGNORECASE rx_html_link (content self)) self (fun self m =>
      url ← need_str (group 1 m);
      let line_num := line_of (content self) (m_start m) in
      if is_empty url || bool_decide (url ∈ ["#"; EmptyString]) then
        Ok (emit self {|
          category := "Links";
          severity := ERROR;
          message := "Empty or placeholder link";
          suggestion := "Provide valid URL or remove link";
          line_number := line_num; context := EmptyString;
          flagged_text := EmptyString |})
      else if startswith "http://" url && negb (contains "localhost" url) then
        Ok (emit self {|
          category := "Links";
          severity := WARNING;
          message := "Link uses HTTP instead of HTTPS";
          suggestion := "Use HTTPS for security and SEO";
          line_number := line_num; context := EmptyString;
          flagged_text := url |})
      else Ok self);
  (* Markdown links *)
  for_eachM (re_finditer no_flags rx_md_link (content self)) self (fun self m =>
    url ← need_str (group 2 m);
    let line_num := line_of (content self) (m_start m) in
    if is_empty url || String.eqb url "#" then
      Ok (emit self {|
        category := "Links";
        severity := ERROR;
        message := "Empty or placeholder link";
        suggestion := "Provide valid URL or remove link";
        line_number := line_num; context := EmptyString;
        flagged_text := EmptyString |})
    else Ok self).

(** *** review *)

(** The sort key [(x.severity.value, x.line_number)]. *)
Definition sort_key (x : ReviewIssue) : string * nat :=
  (value (severity x), line_number x).

Definition review (self : t) (content : string)
    : res (list ReviewIssue * StrategicAlignment * t) :=
  let self := set_content self content in
  let self := set_content_lines self (split_char newline content) in
  let self := set_issues self [] in
  let self := set_strategic_alignment self StrategicAlignment_new in
  let self := set_defined_abbreviations self ∅ in
  (* core checks *)
  self ← check_strategic_alignment self;
  let self := check_style_guide_compliance self in
  self ← check_accessibility_wcag self;
  self ← check_readability self;
  let self := check_terminology self in
  let self := check_abbreviations self in
  (* content-type specific checks *)
  let self :=
    match content_type self with
    | NEWS_ARTICLE => check_news_article_standards self
    | _ => self
    end in
  (* additional checks *)
  self ← check_seo self;
  self ← check_target_audience self;
  let self := check_formatting self in
  self ← check_links_and_references self;
  Ok (sorted sort_key (issues self), strategic_alignment self, self).

(** The severity filter of [main]:
    [[i for i in issues if i.severity.value in severity_filter]]. *)
Definition filter_by_severity (severity_filter : gset string)
    (issues : list ReviewIssue) : list ReviewIssue :=
  filter (fun i => value (severity i) ∈ severity_filter) issues.

(** *** StrategicAlignment.get_covered_areas, get_missing_areas *)

Definition get_covered_areas (self : StrategicAlignment) : list string :=
  let areas := [] in
  let areas :=
    if earth_system_monitoring self then areas ++ ["Earth system monitoring"]
    else areas in
  let areas :=
    if early_warnings self then areas ++ ["Early warnings"] else areas in
  let areas :=
    if climate_action self then areas ++ ["Climate action"] else areas in
  let areas :=
    if capacity_development self then areas ++ ["Capacity development"]
    else areas in
  let areas :=
    if hydrometeorological_services self
    then areas ++ ["Hydrometeorological services"] else areas in
  areas.

Definition get_missing_areas (self : StrategicAlignment) : list string :=
  let areas := [] in
  let areas :=
    if negb (earth_system_monitoring self) then areas ++ ["Earth system monitoring"]
    else areas in
  let areas :=
    if negb (early_warnings self) then areas ++ ["Early warnings"] else areas in
  let areas :=
    if negb (climate_action self) then areas ++ ["Climate action"] else areas in
  let areas :=
    if negb (capacity_development self) then areas ++ ["Capacity development"]
    else areas in
  let areas :=
    if negb (hydrometeorological_services self)
    then areas ++ ["Hydrometeorological services"] else areas in
  areas.

(** *** The summary and the exit code of [main] *)

(** [a == b] on the members of the enumeration. *)
Definition Severity_eqb (a b : Severity) : bool :=
  match a, b with
  | CRITICAL, CRITICAL | ERROR, ERROR | WARNING, WARNING
  | SUGGESTION, SUGGESTION => true
  | _, _ => false
  end.

(** [sum(1 for i in issues if i.severity == sev)]. *)
Definition count_severity (sev : Severity) (issues : list ReviewIssue) : nat :=
  sum_list ((fun _ => 1) <$> List.filter (fun i => Severity_eqb (severity i) sev) issues).

(** The [summary] entry of the JSON output, and the counts of the
    report. *)
Record Summary := {
  total_issues : nat;
  critical : nat;
  errors : nat;
  warnings : nat;
  suggestions : nat
}.

Definition summary_of (filtered_issues : list ReviewIssue) : Summary := {|
  total_issues := length filtered_issues;
  critical := count_severity CRITICAL filtered_issues;
  errors := count_severity ERROR filtered_issues;
  warnings := count_severity WARNING filtered_issues;
  suggestions := count_severity SUGGESTION filtered_issues
|}.

(** [set(s.strip().upper() for s in args.severity.split(','))]; the
    names of the severities are ASCII. *)
Definition parse_severity (arg : string) : gset string :=
  list_to_set ((fun s => upper (strip s)) <$> split_char "," arg).

(** The default of [--severity]. *)
Definition default_severity : string := "CRITICAL,ERROR,WARNING,SUGGESTION".

(** The status [main] exits with: 1 if an issue that passed the filter
    is CRITICAL or an ERROR, and 0, by returning, otherwise. *)
Definition exit_code (filtered_issues : list ReviewIssue) : nat :=
  if existsb (fun i => Severity_eqb (severity i) CRITICAL
                       || Severity_eqb (severity i) ERROR) filtered_issues
  then 1 else 0.

(** [main] from the review on, for a content that was read: the issues
    that pass the filter, which become [reviewer.issues], the summary
    and the exit status. *)
Definition main_review (ct : ContentType) (content severity_arg : string)
    : res (t * StrategicAlignment * Summary * nat) :=
  let reviewer := init ct in
  '(issues, alignment, reviewer) ← review reviewer content;
  let severity_filter := parse_severity severity_arg in
  let filtered_issues := filter_by_severity severity_filter issues in
  let reviewer := set_issues reviewer filtered_issues in
  Ok (reviewer, alignment, summary_of filtered_issues, exit_code filtered_issues).

End BillieJean.

(** ** wmo_content_reviewer.py *)

Module WMOContentReviewer.
Import Py Re.

Inductive Severity := ERROR | WARNING | INFO | SUGGESTION.

(** [severity.value]. *)
Definition value (s : Severity) : string :=
  match s with
  | ERROR => "ERROR"
  | WARNING => "WARNING"
  | INFO => "INFO"
  | SUGGESTION => "SUGGESTION"
  end.

Record Issue := {
  category : string;
  severity : Severity;
  message : string;
  line_number : nat;
  context : string
}.

Definition WMO_ABBREVIATIONS : list string := [
  "WMO"; "GCOS"; "GCW"; "WIGOS"; "WIS"; "GAW"; "WWW"; "GDPFS";
  "IPCC"; "UNFCCC"; "GHG"; "UTC"; "NMHS"; "AMDAR"; "GTS"
].

Definition rx_whole_word (w : string) : regex := Seq [Wb; Lit w; Wb].

(** [\d+\s*degrees] *)
Definition rx_degrees : regex :=
  Seq [Plus (One Dg); Star (One Sp); Lit "degrees"].

Definition deg : string := str1 degree_sign.

Definition COMMON_ISSUES : list (regex * string) := [
  (rx_whole_word "temp",
   "Use 'temperature' instead of abbreviation 'temp' in formal content");
  (rx_whole_word "max",
   "Use 'maximum' instead of abbreviation 'max' in formal content");
  (rx_whole_word "min",
   "Use 'minimum' instead of abbreviation 'min' in formal content");
  (Lit "global warming",
   "Consider using 'climate change' as the preferred WMO term");
  (rx_degrees,
   "Ensure temperature units are specified (" +:+ deg +:+ "C, " +:+ deg +:+ "F, K)")
].

(** The fields of a [WMOContentReviewer] object. *)
Record t := {
  issues : list Issue;
  content_lines : list string;
  content : string
}.

(** [WMOContentReviewer()]. *)
Definition init : t :=
  {| issues := []; content_lines := []; content := EmptyString |}.

Definition set_issues (self : t) (v : list Issue) : t :=
  {| issues := v; content_lines := content_lines self; content := content self |}.

Definition set_content_lines (self : t) (v : list string) : t :=
  {| issues := issues self; content_lines := v; content := content self |}.

Definition set_content (self : t) (v : string) : t :=
  {| issues := issues self; content_lines := content_lines self; content := v |}.

(** [self.issues.append(i)]. *)
Definition emit (self : t) (i : Issue) : t :=
  set_issues self (issues self ++ [i]).

Definition line_of (content : string) (start : nat) : nat :=
  count_char newline (take start content) + 1.

Definition matches (f : flags) (r : regex) (s : string) : bool :=
  bool_decide (is_Some (re_search f r s)).

(** *** check_terminology *)

Definition check_terminology (self : t) : t :=
  for_each (enumerate 1 (content_lines self)) self (fun self '(i, line) =>
    let line_lower := lower line in
    for_each COMMON_ISSUES self (fun self '(pattern, message) =>
      if matches no_flags pattern line_lower then
        emit self {|
          category := "Terminology";
          severity := SUGGESTION;
          message := message;
          line_number := i;
          context := take 100 (strip line) |}
      else self)).

(** *** check_abbreviations *)

(** [rf"{abbrev}\s*\([^)]+\)|[^)]+\({abbrev}\)"] *)
Definition rx_defined (abbrev : string) : regex :=
  Alt (Seq [Lit abbrev; Star (One Sp); Lit "("; Plus (NSet [Ch ")"]); Lit ")"])
      (Seq [Plus (NSet [Ch ")"]); Lit "("; Lit abbrev; Lit ")"]).

(** The loop state is the object and the local set [defined_abbrevs]. *)
Definition check_abbreviations (self : t) : t :=
  let defined_abbrevs : gset string := ∅ in
  fst (for_each (enumerate 1 (content_lines self)) (self, defined_abbrevs)
    (fun st '(i, line) =>
      for_each WMO_ABBREVIATIONS st (fun '(self, defined_abbrevs) abbrev =>
        if contains abbrev line then
          if matches no_flags (rx_defined abbrev) line then
            (self, {[abbrev]} ∪ defined_abbrevs)
          else if bool_decide (abbrev ∉ defined_abbrevs)
                  && negb (String.eqb abbrev "WMO") then
            (emit self {|
               category := "Abbreviations";
               severity := WARNING;
               message := "Abbreviation '" +:+ abbrev
                          +:+ "' should be defined on first use";
               line_number := i;
               context := take 100 (strip line) |},
             {[abbrev]} ∪ defined_abbrevs)
          else (self, defined_abbrevs)
        else (self, defined_abbrevs)))).

(** *** check_style_guide *)

(** [[.!?]+] *)
Definition rx_sentence_end : regex :=
  Plus (Set_ [Ch "."; Ch "!"; Ch "?"]).

Definition passive_indicators : list regex := [
  rx_whole_word "is being"; rx_whole_word "was being"; rx_whole_word "has been";
  rx_whole_word "have been"; rx_whole_word "had been"; rx_whole_word "will be"
].

Definition check_style_guide (self : t) : t :=
  for_each (enumerate 1 (content_lines self)) self (fun self '(i, line) =>
    (* capitalization of the organization's name *)
    let self :=
      if matches IGNORECASE (Lit "world meteorological organization") line then
        if negb (contains "World Meteorological Organization" line) then
          emit self {|
            category := "Style Guide";
            severity := WARNING;
            message := "'World Meteorological Organization' should be properly capitalized";
            line_number := i;
            context := take 100 (strip line) |}
        else self
      else self in
    (* overly long sentences *)
    let sentences := re_split no_flags rx_sentence_end line in
    let self :=
      for_each sentences self (fun self sentence =>
        let word_count := length (split_ws sentence) in
        if (40 <? word_count)%nat then
          emit self {|
            category := "Style Guide";
            severity := SUGGESTION;
            message := "Sentence is very long (" +:+ str_of_nat word_count
                       +:+ " words). Consider breaking it up for clarity";
            line_number := i;
            context := take 100 (strip sentence) |}
        else self) in
    (* passive voice: only reported once per line *)
    if existsb (fun pattern => matches IGNORECASE pattern line) passive_indicators then
      emit self {|
        category := "Style Guide";
        severity := INFO;
        message := "Consider using active voice for clearer communication";
        line_number := i;
        context := take 100 (strip line) |}
    else self).

(** *** check_accessibility *)

(** [<img[^>]+>] *)
Definition img_pattern : regex :=
  Seq [Lit "<img"; Plus (NSet [Ch ">"]); Lit ">"].

(** [alt=[DQ'][\s]*[DQ']] *)
Definition rx_empty_alt : regex :=
  Seq [Lit "alt="; Cls (Set_ [Ch dquote; Ch "'"]); Star (Set_ [Sp]);
       Cls (Set_ [Ch dquote; Ch "'"])].

(** [<h([1-6])[^>]*>.*?</h\1>] *)
Definition rx_html_heading_any : regex :=
  Seq [Lit "<h"; Grp 1 (Cls (Set_ [Rg "1" "6"])); Star (NSet [Ch ">"]); Lit ">";
       StarLazy Any; Lit "</h"; Ref 1; Lit ">"].

(** [<a[^>]*>(.*?)</a>] *)
Definition link_pattern : regex :=
  Seq [Lit "<a"; Star (NSet [Ch ">"]); Lit ">"; Grp 1 (StarLazy Any); Lit "</a>"].

(** [<[^>]+>] *)
Definition rx_tag : regex :=
  Seq [Lit "<"; Plus (NSet [Ch ">"]); Lit ">"].

Definition generic_link_texts : list string :=
  ["click here"; "read more"; "link"; "here"].

(** [re.findall] for a pattern with one group: the text of the group. *)
Definition findall_group1 (f : flags) (r : regex) (s : string) : list string :=
  (fun m => default EmptyString (group 1 m)) <$> re_finditer f r s.

Definition check_accessibility (self : t) : res t :=
  (* images without alt text *)
  let self :=
    for_each (re_finditer IGNORECASE img_pattern (content self)) self (fun self m =>
      let img_tag := m_text m in
      if negb (contains "alt=" (lower img_tag)) then
        let line_num := line_of (content self) (m_start m) in
        emit self {|
          category := "Accessibility";
          severity := ERROR;
          message := "Image missing alt text attribute (required for WCAG compliance)";
          line_number := line_num;
          context := take 100 img_tag |}
      else if matches no_flags rx_empty_alt img_tag then
        let line_num := line_of (content self) (m_start m) in
        emit self {|
          category := "Accessibility";
          severity := WARNING;
          message := "Image has empty alt text. Provide descriptive text or use alt='' for decorative images";
          line_number := line_num;
          context := take 100 img_tag |}
      else self) in
  (* heading hierarchy *)
  let headings := findall_group1 IGNORECASE_DOTALL rx_html_heading_any (content self) in
  self ←
    match headings with
    | [] => Ok self
    | _ :: _ =>
        h0 ← index headings 0;
        if negb (String.eqb h0 "1") then
          Ok (emit self {|
            category := "Accessibility";
            severity := WARNING;
            message := "Page should start with an H1 heading for proper document structure";
            line_number := 0;
            context := EmptyString |})
        else Ok self
    end;
  (* links with generic text *)
  for_eachM (re_finditer IGNORECASE link_pattern (content self)) self (fun self m =>
    g1 ← need_str (group 1 m);
    let link_text := lower (strip (re_remove no_flags rx_tag g1)) in
    if bool_decide (link_text ∈ generic_link_texts) then
      let line_num := line_of (content self) (m_start m) in
      Ok (emit self {|
        category := "Accessibility";
        severity := WARNING;
        message := "Avoid generic link text '" +:+ link_text
                   +:+ "'. Use descriptive text instead";
        line_number := line_num;
        context := take 100 (m_text m) |})
    else Ok self).

(** *** check_grammar_and_clarity *)

(** [\bit's\b.*\b(own|properties|data)] *)
Definition rx_its : regex :=
  Seq [Wb; Lit "it's"; Wb; Star Any; Wb;
       Grp 1 (Alts [Lit "own"; Lit "properties"; Lit "data"])].

(** [^\s*(This|These|Those|They|It)\s] *)
Definition rx_pronoun : regex :=
  Seq [Bol; Star (One Sp);
       Grp 1 (Alts [Lit "This"; Lit "These"; Lit "Those"; Lit "They"; Lit "It"]);
       Cls (One Sp)].

Definition check_grammar_and_clarity (self : t) : t :=
  for_each (enumerate 1 (content_lines self)) self (fun self '(i, line) =>
    (* double spaces *)
    let self :=
      if contains "  " line then
        emit self {|
          category := "Grammar";
          severity := INFO;
          message := "Multiple consecutive spaces found";
          line_number := i;
          context := take 100 (strip line) |}
      else self in
    (* common grammar mistakes *)
    let self :=
      if matches IGNORECASE rx_its line then
        emit self {|
          category := "Grammar";
          severity := WARNING;
          message := "Check if 'it's' should be 'its' (possessive)";
          line_number := i;
          context := take 100 (strip line) |}
      else self in
    (* unclear pronouns *)
    if matches no_flags rx_pronoun line then
      emit self {|
        category := "Clarity";
        severity := INFO;
        message := "Sentence starts with pronoun. Ensure the reference is clear";
        line_number := i;
        context := take 100 (strip line) |}
    else self).

(** *** check_technical_accuracy *)

(** [\b\d+\s*degree(?:s)?\b] *)
Definition rx_temperature : regex :=
  Seq [Wb; Plus (One Dg); Star (One Sp); Lit "degree"; Opt (Lit "s"); Wb].

(** [°[CFK]|celsius|fahrenheit|kelvin] *)
Definition rx_unit : regex :=
  Alts [Seq [Lit deg; Cls (Set_ [Ch "C"; Ch "F"; Ch "K"])];
        Lit "celsius"; Lit "fahrenheit"; Lit "kelvin"].

(** [\b\d{1,2}[/-]\d{1,2}[/-]\d{2,4}\b] *)
Definition rx_date : regex :=
  Seq [Wb; Range (One Dg) 1 2; Cls (Set_ [Ch "/"; Ch "-"]);
       Range (One Dg) 1 2; Cls (Set_ [Ch "/"; Ch "-"]);
       Range (One Dg) 2 4; Wb].

Definition check_technical_accuracy (self : t) : t :=
  for_each (enumerate 1 (content_lines self)) self (fun self '(i, line) =>
    (* temperature values without units *)
    let self :=
      if matches IGNORECASE rx_temperature line then
        if negb (matches IGNORECASE rx_unit line) then
          emit self {|
            category := "Technical Accuracy";
            severity := ERROR;
            message := "Temperature mentioned without specifying unit ("
                       +:+ deg +:+ "C, " +:+ deg +:+ "F, or K)";
            line_number := i;
            context := take 100 (strip line) |}
        else self
      else self in
    (* inconsistent date formats *)
    let date_formats := re_finditer no_flags rx_date line in
    match date_formats with
    | _ :: _ =>
        emit self {|
          category := "Technical Accuracy";
          severity := SUGGESTION;
          message := "Use ISO 8601 date format (YYYY-MM-DD) for international consistency";
          line_number := i;
          context := take 100 (strip line) |}
    | [] => self
    end).

(** *** check_heading_structure *)

(** [^(#{1,6})\s+(.+)$] *)
Definition rx_md_heading : regex :=
  Seq [Bol; Grp 1 (Range (One (Ch "#")) 1 6); Plus (One Sp); Grp 2 (Plus Any); Eol].

(** [<h([1-6])[^>]*>(.*?)</h\1>] *)
Definition rx_html_heading : regex :=
  Seq [Lit "<h"; Grp 1 (Cls (Set_ [Rg "1" "6"])); Star (NSet [Ch ">"]); Lit ">";
       Grp 2 (StarLazy Any); Lit "</h"; Ref 1; Lit ">"].

(** A collected heading: [(line, level, text)]. *)
Definition heading : Type := nat * nat * string.
Definition h_line (h : heading) : nat := h.1.1.
Definition h_level (h : heading) : nat := h.1.2.
Definition h_text (h : heading) : string := h.2.

Definition collect_headings (content_lines : list string) : res (list heading) :=
  for_eachM (enumerate 1 content_lines) [] (fun headings '(i, line) =>
    (* Markdown headings *)
    let md_match := re_match no_flags rx_md_heading line in
    headings ←
      match md_match with
      | Some m =>
          g1 ← need_str (group 1 m);
          let level := String.length g1 in
          text ← need_str (group 2 m);
          Ok (headings ++ [(i, level, text)])
      | None => Ok headings
      end;
    (* HTML headings *)
    for_eachM (re_finditer IGNORECASE rx_html_heading line) headings
      (fun headings m =>
         g1 ← need_str (group 1 m);
         level ← int g1;
         g2 ← need_str (group 2 m);
         let text := re_remove no_flags rx_tag g2 in
         Ok (headings ++ [(i, level, text)]))).

Definition check_hierarchy (headings : list heading) (self : t) : res t :=
  for_eachM (enumerate 0 headings) self (fun self '(idx, (line_num, level, text)) =>
    self ←
      (if (0 <? idx)%nat then
         hp ← index headings (idx - 1);
         let prev_level := h_level hp in
         if (prev_level + 1 <? level)%nat then
           Ok (emit self {|
             category := "Document Structure";
             severity := WARNING;
             message := "Heading level jumps from H" +:+ str_of_nat prev_level
                        +:+ " to H" +:+ str_of_nat level
                        +:+ ". Maintain sequential hierarchy";
             line_number := line_num;
             context := take 100 text |})
         else Ok self
       else Ok self);
    (* heading length *)
    if (70 <? String.length text)%nat then
      Ok (emit self {|
        category := "Document Structure";
        severity := SUGGESTION;
        message := "Heading is very long (" +:+ str_of_nat (String.length text)
                   +:+ " characters). Consider shortening for clarity";
        line_number := line_num;
        context := take 100 text |})
    else Ok self).

Definition check_heading_structure (self : t) : res t :=
  headings ← collect_headings (content_lines self);
  check_hierarchy headings self.

(** *** check_links *)

Definition rx_quote : regex := Cls (Set_ [Ch dquote; Ch "'"]).

(** [<a\s+(?:[^>]*?\s+)?href=[DQ']([^DQ']* )[DQ'][^>]*>(.*?)</a>] *)
Definition html_link_pattern : regex :=
  Seq [Lit "<a"; Plus (One Sp);
       Opt (Seq [StarLazy (NSet [Ch ">"]); Plus (One Sp)]);
       Lit "href="; rx_quote; Grp 1 (Star (NSet [Ch dquote; Ch "'"])); rx_quote;
       Star (NSet [Ch ">"]); Lit ">"; Grp 2 (StarLazy Any); Lit "</a>"].

(** [\[([^\]]+)\]\(([^)]+)\)] *)
Definition md_link_pattern : regex :=
  Seq [Lit "["; Grp 1 (Plus (NSet [Ch "]"])); Lit "]"; Lit "(";
       Grp 2 (Plus (NSet [Ch ")"])); Lit ")"].

Definition check_links (self : t) : res t :=
  (* HTML links *)
  self ←
    for_eachM (re_finditer IGNORECASE html_link_pattern (content self)) self
      (fun self m =>
         url ← need_str (group 1 m);
         let line_num := line_of (content self) (m_start m) in
         let self :=
           if is_empty url || String.eqb url "#" then
             emit self {|
               category := "Links";
               severity := ERROR;
               message := "Link has empty or placeholder href";
               line_number := line_num;
               context := take 100 (m_text m) |}
           else self in
         (* external links to non-HTTPS *)
         if startswith "http://" url && negb (startswith "http://localhost" url) then
           Ok (emit self {|
             category := "Links";
             severity := WARNING;
             message := "External link uses HTTP instead of HTTPS (security concern)";
             line_number := line_num;
             context := url |})
         else Ok self);
  (* Markdown links *)
  for_eachM (re_finditer no_flags md_link_pattern (content self)) self (fun self m =>
    url ← need_str (group 2 m);
    let line_num := line_of (content self) (m_start m) in
    if is_empty url || String.eqb url "#" then
      Ok (emit self {|
        category := "Links";
        severity := ERROR;
        message := "Link has empty or placeholder URL";
        line_number := line_num;
        context := m_text m |})
    else Ok self).

(** *** check_seo *)

(** [<meta\s+name=[DQ']description[DQ']\s+content=[DQ']([^DQ']* )[DQ']] *)
Definition rx_meta_content : regex :=
  Seq [Lit "<meta"; Plus (One Sp); Lit "name="; rx_quote; Lit "description"; rx_quote;
       Plus (One Sp); Lit "content="; rx_quote;
       Grp 1 (Star (NSet [Ch dquote; Ch "'"])); rx_quote].

(** The text [name=DQ description DQ], without the spaces. *)
Definition name_description : string :=
  "name=" +:+ str1 dquote +:+ "description" +:+ str1 dquote.

Definition check_seo (self : t) : res t :=
  let content_lower := lower (content self) in
  (* meta description *)
  let self :=
    if contains "<meta" content_lower
       && negb (contains name_description content_lower) then
      emit self {|
        category := "SEO";
        severity := WARNING;
        message := "Missing meta description tag for search engine optimization";
        line_number := 0;
        context := EmptyString |}
    else self in
  (* meta description length *)
  self ←
    match re_search IGNORECASE rx_meta_content (content self) with
    | Some meta_desc =>
        g1 ← need_str (group 1 meta_desc);
        let desc_length := String.length g1 in
        if (desc_length <? 120)%nat then
          Ok (emit self {|
            category := "SEO";
            severity := SUGGESTION;
            message := "Meta description is short (" +:+ str_of_nat desc_length
                       +:+ " chars). Aim for 150-160 characters";
            line_number := 0;
            context := EmptyString |})
        else if (160 <? desc_length)%nat then
          Ok (emit self {|
            category := "SEO";
            severity := WARNING;
            message := "Meta description is too long (" +:+ str_of_nat desc_length
                       +:+ " chars). Keep it under 160 characters";
            line_number := 0;
            context := EmptyString |})
        else Ok self
    | None => Ok self
    end;
  (* title tag *)
  if negb (contains "<title>" content_lower) && negb (contains "# " (content self)) then
    Ok (emit self {|
      category := "SEO";
      severity := WARNING;
      message := "Missing title tag or H1 heading";
      line_number := 0;
      context := EmptyString |})
  else Ok self.

(** *** review *)

(** The sort key [(x.severity.value, x.line_number)]. *)
Definition sort_key (x : Issue) : string * nat :=
  (value (severity x), line_number x).

Definition review (self : t) (content : string) : res (list Issue * t) :=
  let self := set_content self content in
  let self := set_content_lines self (split_char newline content) in
  let self := set_issues self [] in
  (* run all checks *)
  let self := check_terminology self in
  let self := check_abbreviations self in
  let self := check_style_guide self in
  self ← check_accessibility self;
  let self := check_grammar_and_clarity self in
  let self := check_technical_accuracy self in
  self ← check_heading_structure self;
  self ← check_links self;
  self ← check_seo self;
  Ok (sorted sort_key (issues self), self).

(** The severity filter of [main]:
    [[i for i in issues if i.severity.value in severity_filter]]. *)
Definition filter_by_severity (severity_filter : gset string)
    (issues : list Issue) : list Issue :=
  filter (fun i => value (severity i) ∈ severity_filter) issues.

(** *** The summary and the exit code of [main] *)

(** [a == b] on the members of the enumeration. *)
Definition Severity_eqb (a b : Severity) : bool :=
  match a, b with
  | ERROR, ERROR | WARNING, WARNING | INFO, INFO | SUGGESTION, SUGGESTION => true
  | _, _ => false
  end.

(** [sum(1 for i in issues if i.severity == sev)]. *)
Definition count_severity (sev : Severity) (issues : list Issue) : nat :=
  sum_list ((fun _ => 1) <$> List.filter (fun i => Severity_eqb (severity i) sev) issues).

(** The counts of the JSON output and of the report. *)
Record Summary := {
  total_issues : nat;
  errors : nat;
  warnings : nat;
  info : nat;
  suggestions : nat
}.

Definition summary_of (filtered_issues : list Issue) : Summary := {|
  total_issues := length filtered_issues;
  errors := count_severity ERROR filtered_issues;
  warnings := count_severity WARNING filtered_issues;
  info := count_severity INFO filtered_issues;
  suggestions := count_severity SUGGESTION filtered_issues
|}.

(** [set(s.strip().upper() for s in args.severity.split(','))]; the
    names of the severities are ASCII. *)
Definition parse_severity (arg : string) : gset string :=
  list_to_set ((fun s => upper (strip s)) <$> split_char "," arg).

(** The default of [--severity]. *)
Definition default_severity : string := "ERROR,WARNING,INFO,SUGGESTION".

(** The status [main] exits with: 1 if an issue that passed the filter
    is an ERROR, and 0, by returning, otherwise. *)
Definition exit_code (filtered_issues : list Issue) : nat :=
  if existsb (fun i => Severity_eqb (severity i) ERROR) filtered_issues
  then 1 else 0.

(** [main] from the review on, for a content that was read. *)
Definition main_review (content severity_arg : string)
    : res (t * Summary * nat) :=
  let severity_filter := parse_severity severity_arg in
  let reviewer := init in
  '(issues, reviewer) ← review reviewer content;
  let filtered_issues := filter_by_severity severity_filter issues in
  let reviewer := set_issues reviewer filtered_issues in
  Ok (reviewer, summary_of filtered_issues, exit_code filtered_issues).

End WMOContentReviewer.

(** * Properties of the runtime model *)

Module PyFacts.
Import Py.

Lemma insert_Permutation {A} (key : A -> string * nat) x l :
  insert key x l ≡ₚ x :: l.
Proof.
  induction l as [|y l IH]; simpl; [done|].
  destruct (key_ltb (key y) (key x)); [|done].
  rewrite IH. apply Permutation_swap.
Qed.

Lemma sorted_Permutation {A} (key : A -> string * nat) l :
  sorted key l ≡ₚ l.
Proof.
  induction l as [|x l IH]; simpl; [done|].
  by rewrite insert_Permutation, IH.
Qed.

Lemma for_each_app {A S} (l1 l2 : list A) (s : S) body :
  for_each (l1 ++ l2) s body = for_each l2 (for_each l1 s body) body.
Proof. apply fold_left_app. Qed.

Lemma truediv_ok a b : b ≠ 0 → ∃ q, truediv a b = Ok q.
Proof. destruct b; [done|]. intros _. by eexists. Qed.

Lemma index_lt {A} (l : list A) i : i < length l → ∃ x, index l i = Ok x ∧ l !! i = Some x.
Proof.
  intros H. destruct (lookup_lt_is_Some_2 l i H) as [x Hx].
  exists x. unfold index. by rewrite Hx.
Qed.

Lemma filter_none {A} (P : A → Prop) `{!∀ x, Decision (P x)} (l : list A) :
  Forall (λ x, ¬ P x) l → filter P l = [].
Proof.
  induction 1 as [|x l Hx Hl IH]; [done|]. by rewrite filter_cons_False.
Qed.

Lemma filter_all {A} (P : A → Prop) `{!∀ x, Decision (P x)} (l : list A) :
  Forall P l → filter P l = l.
Proof.
  induction 1 as [|x l Hx Hl IH]; [done|]. by rewrite filter_cons_True, IH.
Qed.

Lemma filter_sublist_mono {A} (P : A → Prop) `{!∀ x, Decision (P x)} (l1 l2 : list A) :
  l1 `sublist_of` l2 → filter P l1 `sublist_of` filter P l2.
Proof.
  induction 1 as [|x l1 l2 _ IH|x l1 l2 _ IH]; [done|..].
  - rewrite !filter_cons. destruct (decide (P x)); [by constructor|done].
  - rewrite filter_cons. destruct (decide (P x)); [by constructor|done].
Qed.

Lemma Permutation_short {A} (l l' : list A) : l ≡ₚ l' → length l' ≤ 1 → l = l'.
Proof.
  intros H Hl. destruct l' as [|x [|y l']]; simpl in Hl; [| |lia].
  - by apply Permutation_nil_r.
  - by apply Permutation_singleton_r.
Qed.

Lemma bind_Ok {A B} (a : A) (k : A → res B) : Ok a ≫= k = k a.
Proof. done. Qed.

Lemma need_str_is_Some o : is_Some o → ∃ g, o = Some g ∧ need_str o = Ok g.
Proof. intros [g ->]. by exists g. Qed.

Lemma for_each_cons {A S} (x : A) (l : list A) (f : S → A → S) s :
  for_each (x :: l) s f = for_each l (f s x) f.
Proof. reflexivity. Qed.

Lemma for_each_ext {A S} (l : list A) (f g : S → A → S) s :
  (∀ s x, f s x = g s x) → for_each l s f = for_each l s g.
Proof.
  intros H. revert s. induction l as [|x l IH]; intros s; [done|].
  unfold for_each in *. cbn [fold_left]. by rewrite H, IH.
Qed.

Lemma for_eachM_ok {A S} (l : list A) (body : S → A → res S) s :
  (∀ s x, x ∈ l → ∃ s', body s x = Ok s') → ∃ s', for_eachM l s body = Ok s'.
Proof.
  revert s. induction l as [|x l IH]; intros s H; simpl; [by eexists|].
  destruct (H s x) as [s1 ->]; [by left|]. rewrite bind_Ok.
  apply IH. intros s' y Hy. apply H. by right.
Qed.

Lemma index_app_middle {A} (pre : list A) x tl :
  index (pre ++ x :: tl) (length pre) = Ok x.
Proof. unfold index. by rewrite list_lookup_middle. Qed.

(** ** The order of [sorted] *)

Lemma code_inj c1 c2 : code c1 = code c2 → c1 = c2.
Proof.
  unfold code. intros H. apply (f_equal ascii_of_nat) in H.
  by rewrite !ascii_nat_embedding in H.
Qed.

Lemma str_ltb_irrefl a : str_ltb a a = false.
Proof.
  induction a as [|x a IH]; [done|]. cbn [str_ltb].
  by rewrite Nat.ltb_irrefl.
Qed.

Lemma str_ltb_trans a : ∀ b c,
  str_ltb a b = true → str_ltb b c = true → str_ltb a c = true.
Proof.
  induction a as [|x a IH]; intros [|y b] [|z c]; cbn [str_ltb]; try done.
  destruct (Nat.ltb_spec (code x) (code y)), (Nat.ltb_spec (code y) (code x)),
    (Nat.ltb_spec (code y) (code z)), (Nat.ltb_spec (code z) (code y)),
    (Nat.ltb_spec (code x) (code z)), (Nat.ltb_spec (code z) (code x));
    try done; try lia.
  apply IH.
Qed.

Lemma str_ltb_asym a b : str_ltb a b = true → str_ltb b a = false.
Proof.
  intros H. destruct (str_ltb b a) eqn:E; [|done].
  pose proof (str_ltb_trans _ _ _ H E) as Hc. by rewrite str_ltb_irrefl in Hc.
Qed.

Lemma str_ltb_total a : ∀ b, str_ltb a b = false → str_ltb b a = false → a = b.
Proof.
  induction a as [|x a IH]; intros [|y b]; cbn [str_ltb]; try done.
  destruct (Nat.ltb_spec (code x) (code y)), (Nat.ltb_spec (code y) (code x));
    try done; try lia.
  intros H1 H2. assert (x = y) as -> by (apply code_inj; lia).
  f_equal. by apply IH.
Qed.

(** [k1 <= k2] on the sort keys: [k2 < k1] does not hold. *)
Definition key_le (k1 k2 : string * nat) : Prop := key_ltb k2 k1 = false.

Lemma key_le_iff k1 k2 :
  key_le k1 k2 ↔ str_ltb k1.1 k2.1 = true ∨ (k1.1 = k2.1 ∧ k1.2 ≤ k2.2).
Proof.
  destruct k1 as [s1 n1], k2 as [s2 n2]. unfold key_le, key_ltb. cbn [fst snd].
  rewrite orb_false_iff, andb_false_iff, Nat.ltb_ge. split.
  - intros [Hs [He|Hn]].
    + destruct (str_ltb s1 s2) eqn:E; [by left|].
      apply String.eqb_neq in He. destruct He. symmetry. by apply str_ltb_total.
    + destruct (str_ltb s1 s2) eqn:E; [by left|].
      right. split; [by apply str_ltb_total|done].
  - intros [H|[-> Hn]].
    + split; [by apply str_ltb_asym|]. left. apply String.eqb_neq.
      intros ->. by rewrite str_ltb_irrefl in H.
    + split; [apply str_ltb_irrefl|by right].
Qed.

Lemma key_le_trans k1 k2 k3 : key_le k1 k2 → key_le k2 k3 → key_le k1 k3.
Proof.
  rewrite !key_le_iff. intros [H1|[E1 H1]] [H2|[E2 H2]].
  - left. by eapply str_ltb_trans.
  - left. by rewrite <-E2.
  - left. by rewrite E1.
  - right. split; [congruence|lia].
Qed.

Lemma key_ltb_le k1 k2 : key_ltb k1 k2 = true → key_le k1 k2.
Proof.
  intros H. apply key_le_iff. unfold key_ltb in H.
  apply orb_true_iff in H as [H|H]; [by left|].
  apply andb_true_iff in H as [He Hn]. apply String.eqb_eq in He.
  apply Nat.ltb_lt in Hn. right. split; [done|lia].
Qed.

Section SortedFacts.
Context {A : Type} (key : A → string * nat).

(** No element has a key greater than the key of a later one. *)
Fixpoint key_ordered (l : list A) : Prop :=
  match l with
  | [] => True
  | x :: l' => Forall (λ y, key_le (key x) (key y)) l' ∧ key_ordered l'
  end.

Lemma insert_ordered x l : key_ordered l → key_ordered (insert key x l).
Proof.
  induction l as [|y l IH]; cbn [insert key_ordered].
  { by split. }
  intros [Hy Hl]. destruct (key_ltb (key y) (key x)) eqn:E; cbn [key_ordered].
  - split; [|by apply IH].
    rewrite (insert_Permutation key x l). constructor; [by apply key_ltb_le|done].
  - split; [|done]. constructor; [done|].
    eapply Forall_impl; [exact Hy|]. intros z Hz. by eapply key_le_trans.
Qed.

Lemma sorted_ordered l : key_ordered (sorted key l).
Proof.
  induction l as [|x l IH]; cbn [sorted]; [done|]. by apply insert_ordered.
Qed.

(** The elements of one key keep their order. *)
Lemma insert_stable k x l :
  filter (λ y, key y = k) (insert key x l) = filter (λ y, key y = k) (x :: l).
Proof.
  induction l as [|y l IH]; cbn [insert]; [done|].
  destruct (key_ltb (key y) (key x)) eqn:E; [|done].
  rewrite !filter_cons, IH, filter_cons.
  destruct (decide (key y = k)) as [Hy|Hy]; [|done].
  destruct (decide (key x = k)) as [Hx|Hx]; [|done].
  rewrite Hy, Hx in E. unfold key_ltb in E.
  rewrite str_ltb_irrefl, Nat.ltb_irrefl, andb_false_r in E. done.
Qed.

Lemma sorted_stable k l :
  filter (λ y, key y = k) (sorted key l) = filter (λ y, key y = k) l.
Proof.
  induction l as [|x l IH]; cbn [sorted]; [done|].
  by rewrite insert_stable, !filter_cons, IH.
Qed.

Lemma key_ordered_lookup l : ∀ i j a b,
  key_ordered l → i < j → l !! i = Some a → l !! j = Some b →
  key_le (key a) (key b).
Proof. induction l as [|y l IH]; intros i j a b Hl Hij Ha Hb; [done|].
  destruct Hl as [Hy Hl].
  destruct i as [|i], j as [|j]; try lia; cbn in Ha, Hb.
  - injection Ha as ->. rewrite Forall_forall in Hy. apply Hy.
    by eapply list_elem_of_lookup_2.
  - apply (IH i j); [done|lia|done..].
Qed.

End SortedFacts.

End PyFacts.

Module ReFacts.
Import Py Re.

(** The groups a pattern can set. *)
Fixpoint groups_of (r : regex) : list nat :=
  match r with
  | Cat r1 r2 | Alt r1 r2 => groups_of r1 ++ groups_of r2
  | Opt r1 => groups_of r1
  | Grp n r1 => n :: groups_of r1
  | _ => []
  end.

(** The pattern sets group [n] on every path. *)
Fixpoint captures (n : nat) (r : regex) : bool :=
  match r with
  | Cat r1 r2 => captures n r1 || captures n r2
  | Alt r1 r2 => captures n r1 && captures n r2
  | Grp m r1 => (m =? n)%nat || captures n r1
  | _ => false
  end.

Lemma step_lit_caps f l st st' : step_lit f l st = Some st' → caps st' = caps st.
Proof.
  revert st. induction l as [|a l IH]; intros st; simpl.
  - by intros [= ->].
  - destruct (rest st) as [|d t]; [done|].
    destruct (char_eq f a d); [|done].
    intros H. by apply IH in H.
Qed.

Lemma run_class_caps f c hi p n cs s st :
  st ∈ run_class f c hi p n cs s → caps st = cs.
Proof.
  revert hi p n. induction s as [|d t IH]; intros hi p n; simpl.
  - by intros ->%list_elem_of_singleton.
  - intros [->|H]%elem_of_cons; [done|].
    destruct (class_matches f c d); [|by apply elem_of_nil in H].
    destruct hi as [[|h]|]; [by apply elem_of_nil in H|by eapply IH..].
Qed.

Lemma exec_rep_caps f c lo hi lazy st st' :
  st' ∈ exec_rep f c lo hi lazy st → caps st' = caps st.
Proof.
  unfold exec_rep. intros H.
  assert (st' ∈ run_class f c hi (prev st) (pos st) (caps st) (rest st)) as H'.
  { destruct lazy.
    - by eapply subseteq_drop.
    - apply list_elem_of_In, in_rev, list_elem_of_In in H.
      by eapply subseteq_drop. }
  by apply run_class_caps in H'.
Qed.

Lemma guard_elem b (st st' : mstate) : st' ∈ guard b st → st' = st.
Proof.
  destruct b; simpl; [by intros ->%list_elem_of_singleton|by intros ?%elem_of_nil].
Qed.

(** Matching only adds captures, and only for the groups of the pattern. *)
Lemma exec_caps f r : ∀ st st',
  st' ∈ exec f r st →
  ∃ l, caps st' = l ++ caps st ∧ Forall (λ p, p.1 ∈ groups_of r) l.
Proof.
  induction r as [|c|l|r1 IH1 r2 IH2|r1 IH1 r2 IH2|c lo hi lazy|r1 IH1|n r1 IH1|n| | |];
    intros st st' H; simpl in *.
  - apply list_elem_of_singleton in H as ->. by exists [].
  - exists []. split; [|done]. unfold step_class in H.
    destruct (rest st); [by apply elem_of_nil in H|].
    destruct (class_matches f c a); [|by apply elem_of_nil in H].
    by apply list_elem_of_singleton in H as ->.
  - exists []. split; [|done].
    destruct (step_lit f l st) eqn:E; [|by apply elem_of_nil in H].
    apply list_elem_of_singleton in H as ->. by eapply step_lit_caps.
  - apply list_elem_of_bind in H as (st1 & H2 & H1).
    destruct (IH1 _ _ H1) as (l1 & E1 & F1), (IH2 _ _ H2) as (l2 & E2 & F2).
    exists (l2 ++ l1). split; [by rewrite E2, E1, (assoc_L (++))|].
    apply Forall_app. split; eapply Forall_impl; eauto; simpl; intros;
      apply elem_of_app; auto.
  - apply elem_of_app in H as [H|H].
    + destruct (IH1 _ _ H) as (l1 & E1 & F1). exists l1. split; [done|].
      eapply Forall_impl; eauto; simpl; intros; apply elem_of_app; auto.
    + destruct (IH2 _ _ H) as (l1 & E1 & F1). exists l1. split; [done|].
      eapply Forall_impl; eauto; simpl; intros; apply elem_of_app; auto.
  - exists []. split; [|done]. by eapply exec_rep_caps.
  - apply elem_of_app in H as [H|H]; [by apply IH1|].
    apply list_elem_of_singleton in H as ->. by exists [].
  - apply list_elem_of_fmap in H as (st1 & -> & H1).
    destruct (IH1 _ _ H1) as (l1 & E1 & F1).
    exists ((n, take (pos st1 - pos st) (rest st)) :: l1). simpl. split; [by rewrite E1|].
    constructor; [by left|].
    eapply Forall_impl; eauto; simpl; intros; by right.
  - exists []. split; [|done].
    destruct (get_cap n (caps st)); [|by apply elem_of_nil in H].
    destruct (step_lit f s st) eqn:E; [|by apply elem_of_nil in H].
    apply list_elem_of_singleton in H as ->. by eapply step_lit_caps.
  - apply guard_elem in H as ->. by exists [].
  - apply guard_elem in H as ->. by exists [].
  - apply guard_elem in H as ->. by exists [].
Qed.

Lemma get_cap_app_is_Some n l cs :
  is_Some (get_cap n cs) → is_Some (get_cap n (l ++ cs)).
Proof.
  unfold get_cap. intros H. induction l as [|[m x] l IH]; simpl; [done|].
  destruct (m =? n)%nat; [by eexists|done].
Qed.

Lemma get_cap_app_other n l cs :
  Forall (λ p : nat * string, p.1 ≠ n) l → get_cap n (l ++ cs) = get_cap n cs.
Proof.
  unfold get_cap. induction 1 as [|[m x] l Hx Hl IH]; simpl; [done|].
  simpl in Hx. destruct (Nat.eqb_spec m n); [done|]. apply IH.
Qed.

(** A group outside the pattern keeps its value. *)
Lemma exec_keeps_cap f r n st st' :
  n ∉ groups_of r → st' ∈ exec f r st → get_cap n (caps st') = get_cap n (caps st).
Proof.
  intros Hn H. apply exec_caps in H as (l & -> & Hl).
  apply get_cap_app_other. eapply Forall_impl; [done|].
  simpl. intros p Hp E. by rewrite E in Hp.
Qed.

Lemma exec_cap_mono f r n st st' :
  st' ∈ exec f r st → is_Some (get_cap n (caps st)) → is_Some (get_cap n (caps st')).
Proof.
  intros H Hs. apply exec_caps in H as (l & -> & _). by apply get_cap_app_is_Some.
Qed.

(** A group that is on every path is set after a match. *)
Lemma exec_captures f n r : ∀ st st',
  captures n r = true → st' ∈ exec f r st → is_Some (get_cap n (caps st')).
Proof.
  induction r as [|c|l|r1 IH1 r2 IH2|r1 IH1 r2 IH2|c lo hi lazy|r1 IH1|m r1 IH1|m| | |];
    intros st st' Hc H; simpl in *; try done.
  - apply list_elem_of_bind in H as (st1 & H2 & H1).
    apply orb_true_iff in Hc as [Hc|Hc]; [|by eapply IH2].
    eapply exec_cap_mono; [done|]. by eapply IH1.
  - apply andb_true_iff in Hc as [Hc1 Hc2].
    apply elem_of_app in H as [H|H]; [by eapply IH1|by eapply IH2].
  - apply list_elem_of_fmap in H as (st1 & -> & H1).
    unfold get_cap. simpl. destruct (Nat.eqb_spec m n); [by eexists|].
    simpl in Hc. by eapply IH1.
Qed.

Lemma match_at_Some f r p n s m :
  match_at f r p n s = Some m →
  ∃ st, st ∈ exec f r {| prev := p; rest := s; pos := n; caps := [] |}
        ∧ m_groups m = caps st ∧ m_start m = n.
Proof.
  unfold match_at. destruct (exec _ _ _) as [|st l] eqn:E; [done|].
  intros [= <-]. exists st. split; [by left|done].
Qed.

Lemma search_from_Some f r p n s m :
  search_from f r p n s = Some m → ∃ p' n' s', match_at f r p' n' s' = Some m.
Proof.
  revert p n. induction s as [|c s IH]; intros p n; simpl.
  - destruct (match_at f r p n EmptyString) eqn:E; [|done].
    intros [= <-]. eauto.
  - destruct (match_at f r p n (String c s)) eqn:E.
    + intros [= <-]. eauto.
    + apply IH.
Qed.

Lemma finditer_from_elem f r k p n s m :
  m ∈ finditer_from f r k p n s → ∃ p' n' s', match_at f r p' n' s' = Some m.
Proof.
  revert k p n. induction s as [|c s IH]; intros k p n; simpl.
  - destruct k; [|by intros ?%elem_of_nil].
    destruct (match_at f r p n EmptyString) eqn:E; [|by intros ?%elem_of_nil].
    intros ->%list_elem_of_singleton. eauto.
  - destruct k.
    + destruct (match_at f r p n (String c s)) eqn:E.
      * intros [->|H]%elem_of_cons; [eauto|by eapply IH].
      * apply IH.
    + apply IH.
Qed.

(** Every match of a pattern has the groups that are on every path. *)
Lemma match_at_group f r p n s m g :
  captures g r = true → match_at f r p n s = Some m → is_Some (group g m).
Proof.
  intros Hc (st & H & E & _)%match_at_Some. unfold group. rewrite E.
  by eapply exec_captures.
Qed.

Lemma re_match_group f r s m g :
  captures g r = true → re_match f r s = Some m → is_Some (group g m).
Proof. apply match_at_group. Qed.

Lemma re_search_group f r s m g :
  captures g r = true → re_search f r s = Some m → is_Some (group g m).
Proof.
  intros Hc (p & n & s' & H)%search_from_Some. by eapply match_at_group.
Qed.

Lemma re_finditer_group f r s m g :
  captures g r = true → m ∈ re_finditer f r s → is_Some (group g m).
Proof.
  intros Hc (p & n & s' & H)%finditer_from_elem. by eapply match_at_group.
Qed.

(** [re.search] finds a match exactly when [re.finditer] finds one. *)
Lemma search_from_finditer f r p n s :
  search_from f r p n s = head (finditer_from f r 0 p n s).
Proof.
  revert p n. induction s as [|c s IH]; intros p n; simpl.
  - by destruct (match_at f r p n EmptyString).
  - destruct (match_at f r p n (String c s)); [done|]. apply IH.
Qed.

Lemma re_search_finditer f r s : re_search f r s = head (re_finditer f r s).
Proof. apply search_from_finditer. Qed.

(** After [l(c)rest], where [(c)] is group [n] and [rest] does not set
    it, the group holds one character of the class. *)
Lemma exec_group_char f l n c tl st st' :
  n ∉ groups_of tl →
  st' ∈ exec f (Cat (Lit l) (Cat (Grp n (Cls c)) tl)) st →
  ∃ d, class_matches f c d = true ∧ get_cap n (caps st') = Some (String d EmptyString).
Proof.
  intros Hn H. simpl in H.
  apply list_elem_of_bind in H as (st1 & H & _).
  apply list_elem_of_bind in H as (st2 & H & H2).
  apply list_elem_of_fmap in H2 as (st3 & -> & H3).
  rewrite (exec_keeps_cap _ _ _ _ _ Hn H).
  unfold step_class in H3. destruct (rest st1) as [|d t] eqn:E; [by apply elem_of_nil in H3|].
  destruct (class_matches f c d) eqn:Ec; [|by apply elem_of_nil in H3].
  apply list_elem_of_singleton in H3 as ->.
  exists d. split; [done|]. unfold get_cap, set_cap. simpl. rewrite Nat.eqb_refl. simpl.
  rewrite E. by replace (S (pos st1) - pos st1) with 1 by lia.
Qed.

Lemma finditer_group_char f l n c tl s m :
  n ∉ groups_of tl →
  m ∈ re_finditer f (Cat (Lit l) (Cat (Grp n (Cls c)) tl)) s →
  ∃ d, class_matches f c d = true ∧ group n m = Some (String d EmptyString).
Proof.
  intros Hn (p & k & s' & (st & H & E & _)%match_at_Some)%finditer_from_elem.
  unfold group. rewrite E. by eapply exec_group_char.
Qed.

(** A character of [[1-6]] is a decimal digit, with or without
    [re.IGNORECASE]. *)
Lemma int_heading_digit f d :
  class_matches f (Set_ [Rg "1" "6"]) d = true →
  ∃ k, int (String d EmptyString) = Ok k ∧ 1 ≤ k ≤ 6.
Proof.
  destruct f as [[] []], d as [[] [] [] [] [] [] [] []]; vm_compute; intros [=];
    eexists; (split; [reflexivity|lia]).
Qed.

End ReFacts.

(** * Properties of billie_jean.py *)

Module BillieJeanFacts.
Import Py Re BillieJean PyFacts ReFacts.

#[global] Instance Severity_eq_dec : EqDecision Severity.
Proof. solve_decision. Defined.

(** [add_issues s l]: the object after [l] was appended to its issues. *)
Definition add_issues (s : t) (l : list ReviewIssue) : t :=
  set_issues s (issues s ++ l).

(** [s'] is [s] with issues appended that all satisfy [P]. *)
Definition appends (P : ReviewIssue → Prop) (s s' : t) : Prop :=
  ∃ l, s' = add_issues s l ∧ Forall P l.

Definition ok_appends (P : ReviewIssue → Prop) (s : t) (m : res t) : Prop :=
  ∃ s', m = Ok s' ∧ appends P s s'.

(** The pairs of category and severity a check can emit. *)
Definition has_sig (sig : list (string * Severity)) (i : ReviewIssue) : Prop :=
  (category i, severity i) ∈ sig.

Lemma add_issues_nil s : add_issues s [] = s.
Proof. destruct s. unfold add_issues, set_issues. simpl. by rewrite app_nil_r. Qed.

Lemma add_issues_app s l1 l2 : add_issues (add_issues s l1) l2 = add_issues s (l1 ++ l2).
Proof. destruct s. unfold add_issues, set_issues. simpl. by rewrite (assoc_L (++)). Qed.

Lemma appends_refl P s : appends P s s.
Proof. exists []. by rewrite add_issues_nil. Qed.

Lemma appends_trans P s1 s2 s3 : appends P s1 s2 → appends P s2 s3 → appends P s1 s3.
Proof.
  intros (l1 & -> & H1) (l2 & -> & H2). exists (l1 ++ l2).
  split; [apply add_issues_app|by apply Forall_app].
Qed.

Lemma appends_emit P s i : P i → appends P s (emit s i).
Proof. intros H. exists [i]. split; [done|by constructor]. Qed.

Lemma appends_weaken (P Q : ReviewIssue → Prop) s s' :
  (∀ i, P i → Q i) → appends P s s' → appends Q s s'.
Proof. intros H (l & -> & Hl). exists l. split; [done|]. by eapply Forall_impl. Qed.

Lemma appends_for_each {A} P (l : list A) body s :
  (∀ s x, x ∈ l → appends P s (body s x)) → appends P s (for_each l s body).
Proof.
  revert s. induction l as [|x l IH]; intros s H; simpl; [apply appends_refl|].
  eapply appends_trans; [apply H; by left|].
  apply IH. intros s' y Hy. apply H. by right.
Qed.

Lemma ok_appends_ret P s s' : appends P s s' → ok_appends P s (Ok s').
Proof. intros H. by exists s'. Qed.

Lemma ok_appends_bind P s m (k : t → res t) :
  ok_appends P s m → (∀ s', appends P s s' → ok_appends P s' (k s')) →
  ok_appends P s (m ≫= k).
Proof.
  intros (s1 & -> & H1) Hk. destruct (Hk s1 H1) as (s2 & E & H2).
  exists s2. split; [done|]. by eapply appends_trans.
Qed.

Lemma ok_appends_for_eachM {A} P (l : list A) body s :
  (∀ s x, x ∈ l → ok_appends P s (body s x)) → ok_appends P s (for_eachM l s body).
Proof.
  revert s. induction l as [|x l IH]; intros s H; simpl.
  - apply ok_appends_ret, appends_refl.
  - apply ok_appends_bind; [apply H; by left|].
    intros s' _. apply IH. intros s'' y Hy. apply H. by right.
Qed.

Lemma ok_appends_weaken (P Q : ReviewIssue → Prop) s m :
  (∀ i, P i → Q i) → ok_appends P s m → ok_appends Q s m.
Proof. intros H (s' & -> & Hs). exists s'. split; [done|]. by eapply appends_weaken. Qed.

Ltac solve_has_sig :=
  unfold has_sig; simpl category; simpl severity;
  solve [repeat first [by left | right]].

Ltac solve_sig :=
  cbv beta;
  first [solve_has_sig | split; [solve_has_sig | first [reflexivity | done]]].

Ltac frame :=
  cbv beta zeta iota;
  lazymatch goal with
  | |- appends _ ?s ?s => apply appends_refl
  | |- appends ?P ?s (emit ?X ?i) =>
      apply (appends_trans P s X); [frame | apply appends_emit; solve_sig]
  | |- appends ?P ?s (for_each ?l ?X ?f) =>
      apply (appends_trans P s X);
      [frame | apply appends_for_each; intros ? ? _; frame]
  | |- appends _ _ (if ?c then _ else _) => destruct c; frame
  | |- appends _ _ (match ?o with _ => _ end) => destruct o; frame
  end.

Definition sig_style : list (string * Severity) := [
  ("Style Guide", ERROR); ("Style Guide - Clarity", WARNING);
  ("Style Guide - Voice", SUGGESTION); ("Style Guide - Abbreviations", ERROR);
  ("Style Guide - Formatting", WARNING)].

Lemma check_style_guide_compliance_appends s :
  appends (has_sig sig_style) s (check_style_guide_compliance s).
Proof. unfold check_style_guide_compliance. frame. Qed.

Definition sig_terminology : list (string * Severity) := [("Terminology", SUGGESTION)].

Lemma check_terminology_appends s :
  appends (has_sig sig_terminology) s (check_terminology s).
Proof. unfold check_terminology. frame. Qed.

Definition sig_formatting : list (string * Severity) := [("Formatting", ERROR)].

Lemma check_formatting_appends s :
  appends (has_sig sig_formatting) s (check_formatting s).
Proof. unfold check_formatting. frame. Qed.

Definition sig_news : list (string * Severity) := [
  ("News Article Standards", WARNING);
  ("News Article Standards - Storytelling", SUGGESTION);
  ("News Article Standards", SUGGESTION)].

Lemma check_news_article_standards_appends s :
  appends (has_sig sig_news) s (check_news_article_standards s).
Proof. unfold check_news_article_standards. frame. Qed.

Ltac framem :=
  cbv beta zeta iota;
  lazymatch goal with
  | |- ok_appends _ _ (Ok _) => apply ok_appends_ret; frame
  | |- ok_appends _ _ (if ?c then _ else _) => destruct c; framem
  | |- ok_appends _ _ (@mbind res _ t t _ _) =>
      apply ok_appends_bind; [framem | intros ? _; framem]
  end.

Definition sig_readability : list (string * Severity) := [
  ("Readability", WARNING); ("Readability - Jargon", WARNING)].

Lemma check_readability_ok s :
  ok_appends (has_sig sig_readability) s (check_readability s).
Proof.
  unfold check_readability. cbv zeta.
  destruct (length (List.filter _ _)) as [|n].
  - change (0 <? 0)%nat with false. cbv iota. framem.
  - change (0 <? S n)%nat with true. cbv iota.
    unfold truediv at 1. rewrite bind_Ok. framem.
Qed.

Definition sig_seo : list (string * Severity) := [("SEO", WARNING); ("SEO", SUGGESTION)].

Lemma check_seo_ok s : ok_appends (has_sig sig_seo) s (check_seo s).
Proof.
  unfold check_seo. cbv zeta.
  destruct (matches IGNORECASE rx_meta_description (content s));
    destruct (contains "<meta" (lower (content s)));
    cbn [negb andb]; cbv beta iota; try framem;
    (destruct (re_search IGNORECASE rx_meta_content (content s)) as [m|] eqn:E;
      [|framem]);
    (destruct (need_str_is_Some (group 1 m)) as (g & _ & ->);
      [by eapply (re_search_group _ rx_meta_content); [vm_compute|exact E]|]);
    rewrite bind_Ok; framem.
Qed.

Definition sig_audience : list (string * Severity) := [("Target Audience", WARNING)].

Lemma check_target_audience_ok s :
  ok_appends (has_sig sig_audience) s (check_target_audience s).
Proof.
  unfold check_target_audience. cbv zeta.
  destruct (length (split_ws (content s))) as [|n].
  - change (0 <? 0)%nat with false. cbv iota. rewrite bind_Ok. framem.
  - change (0 <? S n)%nat with true. cbv iota.
    unfold truediv. rewrite !bind_Ok.
    destruct (_ <? _)%float; framem.
Qed.

Definition sig_links : list (string * Severity) := [("Links", ERROR); ("Links", WARNING)].

Lemma check_links_and_references_ok s :
  ok_appends (has_sig sig_links) s (check_links_and_references s).
Proof.
  unfold check_links_and_references.
  apply ok_appends_bind.
  - apply ok_appends_for_eachM. intros s1 m Hm.
    destruct (need_str_is_Some (group 1 m)) as (g & _ & ->).
    { by eapply (re_finditer_group _ rx_html_link); [vm_compute|exact Hm]. }
    rewrite bind_Ok. framem.
  - intros s1 _. apply ok_appends_for_eachM. intros s2 m Hm.
    destruct (need_str_is_Some (group 2 m)) as (g & _ & ->).
    { by eapply (re_finditer_group _ rx_md_link); [vm_compute|exact Hm]. }
    rewrite bind_Ok. framem.
Qed.

(** *** Strategic alignment *)

#[global] Instance Priority_eq_dec : EqDecision Priority.
Proof. solve_decision. Defined.

Definition keywords_of (p : Priority) : list string :=
  default [] (snd <$> List.find (λ e, bool_decide (e.1 = p)) STRATEGIC_KEYWORDS).

Definition has_keyword (content_lower : string) (p : Priority) : bool :=
  existsb (λ keyword, contains (lower keyword) content_lower) (keywords_of p).

(** The flags of a document, pillar by pillar. *)
Definition alignment_of (content : string) : StrategicAlignment :=
  let content_lower := lower content in
  {| earth_system_monitoring := has_keyword content_lower p_earth_system_monitoring;
     early_warnings := has_keyword content_lower p_early_warnings;
     climate_action := has_keyword content_lower p_climate_action;
     capacity_development := has_keyword content_lower p_capacity_development;
     hydrometeorological_services :=
       has_keyword content_lower p_hydrometeorological_services |}.

Definition strategic_issue : ReviewIssue := {|
  category := "Strategic Alignment";
  severity := CRITICAL;
  message := "Content shows minimal alignment with WMO strategic priorities";
  suggestion := "Consider explicitly connecting content to WMO's mission: Earth system monitoring, early warnings, climate action, capacity development, or hydrometeorological services";
  line_number := 0; context := EmptyString; flagged_text := EmptyString |}.

Definition flags_of (sa : StrategicAlignment) : list bool := [
  earth_system_monitoring sa; early_warnings sa; climate_action sa;
  capacity_development sa; hydrometeorological_services sa].

Lemma get_coverage_value sa :
  get_coverage sa = Ok (float_of_nat (20 * count_true (flags_of sa))).
Proof. destruct sa as [[] [] [] [] []]; vm_compute; reflexivity. Qed.

Lemma check_strategic_alignment_spec s :
  strategic_alignment s = StrategicAlignment_new →
  ∃ cov, get_coverage (alignment_of (content s)) = Ok cov ∧
    check_strategic_alignment s =
      Ok (let s' := set_strategic_alignment s (alignment_of (content s)) in
          if (cov <? 20)%float then emit s' strategic_issue else s').
Proof.
  destruct s as [ct iss c cl sa d]. simpl. intros ->.
  unfold check_strategic_alignment, alignment_of, has_keyword.
  unfold for_each, STRATEGIC_KEYWORDS. cbn [fold_left].
  repeat match goal with
  | |- context [keywords_of ?p] =>
      let v := eval cbv in (keywords_of p) in change (keywords_of p) with v
  end.
  simpl content. cbv zeta.
  repeat match goal with
  | |- context [if existsb ?f ?l then _ else _] => destruct (existsb f l) eqn:?
  end.
  all: eexists; split; [vm_compute; reflexivity|].
  all: reflexivity.
Qed.

(** *** Heading hierarchy *)

Definition h1_issue (h0 : heading) : ReviewIssue := {|
  category := "Accessibility (WCAG 2.1)";
  severity := ERROR;
  message := "Document should start with H1 heading";
  suggestion := "Use H1 for main title, then H2 for sections, H3 for subsections";
  line_number := h_line h0;
  context := EmptyString; flagged_text := EmptyString |}.

Definition skip_issue (hp hc : heading) : ReviewIssue := {|
  category := "Accessibility (WCAG 2.1)";
  severity := ERROR;
  message := "Heading hierarchy skip: H" +:+ str_of_nat (h_level hp)
             +:+ " to H" +:+ str_of_nat (h_level hc);
  suggestion := "Maintain sequential heading levels for screen reader users";
  line_number := h_line hc;
  context := EmptyString; flagged_text := EmptyString |}.

(** One issue for each heading deeper than its predecessor by more than
    one level. *)
Fixpoint skip_issues (prev : heading) (hs : list heading) : list ReviewIssue :=
  match hs with
  | [] => []
  | h :: hs' =>
      (if (h_level prev + 1 <? h_level h)%nat then [skip_issue prev h] else [])
      ++ skip_issues h hs'
  end.

Definition hierarchy_issues (hs : list heading) : list ReviewIssue :=
  match hs with
  | [] => []
  | h0 :: tl =>
      (if negb (h_level h0 =? 1)%nat then [h1_issue h0] else []) ++ skip_issues h0 tl
  end.

Lemma check_hierarchy_loop body_headings tl : ∀ pre prev s,
  body_headings = pre ++ prev :: tl →
  for_eachM (seq (S (length pre)) (length tl)) s (λ self idx,
    hp ← index body_headings (idx - 1);
    hc ← index body_headings idx;
    let prev_level := h_level hp in
    let curr_level := h_level hc in
    if (prev_level + 1 <? curr_level)%nat then
      Ok (emit self {|
        category := "Accessibility (WCAG 2.1)";
        severity := ERROR;
        message := "Heading hierarchy skip: H" +:+ str_of_nat prev_level
                   +:+ " to H" +:+ str_of_nat curr_level;
        suggestion := "Maintain sequential heading levels for screen reader users";
        line_number := h_line hc;
        context := EmptyString; flagged_text := EmptyString |})
    else Ok self)
  = Ok (add_issues s (skip_issues prev tl)).
Proof.
  induction tl as [|h tl IH]; intros pre prev s E.
  - simpl. by rewrite add_issues_nil.
  - assert (body_headings = (pre ++ [prev]) ++ h :: tl) as E'
      by by rewrite <-(assoc_L (++)).
    assert (index body_headings (length pre) = Ok prev) as Hp
      by (rewrite E; apply index_app_middle).
    assert (index body_headings (S (length pre)) = Ok h) as Hc.
    { rewrite E'. replace (S (length pre)) with (length (pre ++ [prev]))
        by (rewrite length_app; simpl; lia).
      apply index_app_middle. }
    cbn [length seq for_eachM].
    replace (S (length pre) - 1) with (length pre) by lia.
    rewrite Hp, bind_Ok, Hc, bind_Ok. cbv zeta.
    cbn [skip_issues].
    specialize (IH (pre ++ [prev]) h).
    replace (length (pre ++ [prev])) with (S (length pre)) in IH
      by (rewrite length_app; simpl; lia).
    destruct (h_level prev + 1 <? h_level h)%nat; cbv iota; rewrite bind_Ok.
    + rewrite (IH _ E'). by rewrite <-add_issues_app.
    + by rewrite (IH _ E').
Qed.

Lemma check_hierarchy_spec hs s :
  check_hierarchy hs s = Ok (add_issues s (hierarchy_issues hs)).
Proof.
  destruct hs as [|h0 tl]; [simpl; by rewrite add_issues_nil|].
  unfold check_hierarchy, hierarchy_issues.
  change (index (h0 :: tl) 0) with (Ok h0). rewrite bind_Ok. cbv zeta.
  unfold range. cbn [length]. replace (S (length tl) - 1) with (length tl) by lia.
  rewrite (check_hierarchy_loop (h0 :: tl) tl [] h0 _ eq_refl).
  destruct (negb (h_level h0 =? 1)%nat); cbv iota.
  - by rewrite <-add_issues_app.
  - done.
Qed.

(** *** Collecting the headings never fails *)

Lemma html_heading_level line m :
  m ∈ re_finditer IGNORECASE rx_html_heading line →
  ∃ k, (g1 ← need_str (group 1 m); int g1) = Ok k ∧ 1 ≤ k ≤ 6.
Proof.
  intros Hm. unfold rx_html_heading in Hm. cbn [Seq] in Hm.
  apply finditer_group_char in Hm as (d & Hd & ->).
  - simpl need_str. rewrite bind_Ok. by apply int_heading_digit in Hd.
  - cbn. by intros ?%list_elem_of_singleton.
Qed.

Lemma collect_headings_ok lines : ∃ hs, collect_headings lines = Ok hs.
Proof.
  unfold collect_headings. apply for_eachM_ok. intros hs [i line] _.
  cbv zeta.
  match goal with
  | |- ∃ s', _ ≫= ?k = Ok s' => assert (∀ hs0, ∃ hs', k hs0 = Ok hs') as Hin
  end.
  { intros hs0. apply for_eachM_ok. intros hs2 m Hm.
    destruct (html_heading_level _ _ Hm) as (k & Hk & _).
    destruct (need_str (group 1 m)) as [g1|]; [|done].
    change (int g1 = Ok k) in Hk. rewrite bind_Ok, Hk, bind_Ok.
    destruct (need_str_is_Some (group 2 m)) as (g2 & _ & ->);
      [by eapply (re_finditer_group _ rx_html_heading); [vm_compute|exact Hm]|].
    rewrite bind_Ok. by eexists. }
  destruct (re_match no_flags rx_md_heading line) as [m|] eqn:E;
    [|rewrite bind_Ok; apply Hin].
  destruct (need_str_is_Some (group 1 m)) as (g1 & _ & ->);
    [by eapply (re_match_group _ rx_md_heading); [vm_compute|exact E]|].
  destruct (need_str_is_Some (group 2 m)) as (g2 & _ & ->);
    [by eapply (re_match_group _ rx_md_heading); [vm_compute|exact E]|].
  rewrite !bind_Ok. apply Hin.
Qed.

(** *** check_accessibility_wcag *)

Definition is_hierarchy_message (msg : string) : bool :=
  startswith "Heading hierarchy skip" msg
  || String.eqb msg "Document should start with H1 heading".

Definition sig_accessibility : list (string * Severity) := [
  ("Accessibility (WCAG 2.1)", CRITICAL); ("Accessibility (WCAG 2.1)", WARNING);
  ("Accessibility (WCAG 2.1)", ERROR)].

(** The issues about images and link texts. *)
Definition image_or_link_issue (i : ReviewIssue) : Prop :=
  has_sig sig_accessibility i ∧ is_hierarchy_message (message i) = false.

Lemma check_accessibility_wcag_spec s :
  ∃ hs l_img l_link,
    collect_headings (content_lines s) = Ok hs
    ∧ check_accessibility_wcag s
      = Ok (add_issues s (l_img ++ hierarchy_issues hs ++ l_link))
    ∧ Forall image_or_link_issue l_img ∧ Forall image_or_link_issue l_link.
Proof.
  assert (∃ r, check_accessibility_wcag s = r) as [r Er] by eauto.
  rewrite Er. unfold check_accessibility_wcag in Er.
  match type of Er with
  | context [collect_headings (content_lines ?s1)] =>
      assert (appends image_or_link_issue s s1) as (l_img & E1 & H1) by frame;
      rewrite E1 in Er
  end.
  change (content_lines (add_issues s l_img)) with (content_lines s) in Er.
  destruct (collect_headings_ok (content_lines s)) as [hs Ehs].
  rewrite Ehs, bind_Ok, check_hierarchy_spec, bind_Ok in Er.
  match type of Er with
  | context [Ok (for_each ?l ?s2 ?f)] =>
      assert (appends image_or_link_issue s2 (for_each l s2 f))
        as (l_link & E2 & H2) by frame;
      rewrite E2 in Er
  end.
  exists hs, l_img, l_link. split; [done|]. split; [|done].
  by rewrite <-Er, !add_issues_app.
Qed.

(** *** check_abbreviations *)

Definition abbreviation_warning_issue (abbrev full_form : string) (i : nat)
    : ReviewIssue := {|
  category := "Style Guide - Abbreviations";
  severity := WARNING;
  message := "Abbreviation '" +:+ abbrev +:+ "' not defined on first use";
  suggestion := "Define as: " +:+ full_form +:+ " (" +:+ abbrev +:+ ")";
  line_number := i; context := EmptyString;
  flagged_text := abbrev |}.

(** The body of the loop over [WMO_ABBREVIATIONS], for one line. *)
Definition abbrev_step (i : nat) (line : string) (self : t) (e : string * string) : t :=
  let '(abbrev, full_form) := e in
  if contains abbrev line then
    if is_defined abbrev full_form line then
      set_defined_abbreviations self ({[abbrev]} ∪ defined_abbreviations self)
    else if bool_decide (abbrev ∉ defined_abbreviations self)
            && negb (String.eqb abbrev "WMO") then
      let self := emit self (abbreviation_warning_issue abbrev full_form i) in
      set_defined_abbreviations self ({[abbrev]} ∪ defined_abbreviations self)
    else self
  else self.

Definition abbrev_line (self : t) (il : nat * string) : t :=
  for_each WMO_ABBREVIATIONS self (abbrev_step il.1 il.2).

Lemma check_abbreviations_unfold s :
  check_abbreviations s = for_each (enumerate 1 (content_lines s)) s abbrev_line.
Proof.
  unfold check_abbreviations. apply for_each_ext. intros s1 [i line].
  unfold abbrev_line. apply for_each_ext. intros s2 [a f]. reflexivity.
Qed.

(** The WARNING issues of the abbreviation check about [abbrev]. *)
Definition is_abbreviation_warning (abbrev : string) (i : ReviewIssue) : bool :=
  String.eqb (category i) "Style Guide - Abbreviations"
  && bool_decide (severity i = WARNING)
  && String.eqb (flagged_text i) abbrev.

Definition warnings_for (abbrev : string) (l : list ReviewIssue) : list ReviewIssue :=
  filter (λ i, is_abbreviation_warning abbrev i = true) l.

(** The condition under which a line draws the warning for [a]. *)
Definition warns (a full line : string) (seen : gset string) : bool :=
  contains a line && negb (is_defined a full line)
  && bool_decide (a ∉ seen) && negb (String.eqb a "WMO").

Lemma warnings_for_app a l1 l2 :
  warnings_for a (l1 ++ l2) = warnings_for a l1 ++ warnings_for a l2.
Proof. apply filter_app. Qed.

Lemma warnings_for_other a b fb i :
  b ≠ a → warnings_for a [abbreviation_warning_issue b fb i] = [].
Proof.
  intros Hne. unfold warnings_for. rewrite filter_cons_False; [done|].
  unfold is_abbreviation_warning. cbn [flagged_text abbreviation_warning_issue].
  destruct (String.eqb_spec b a); [done|]. by rewrite andb_false_r.
Qed.

Lemma warnings_for_self a fa i :
  warnings_for a [abbreviation_warning_issue a fa i] = [abbreviation_warning_issue a fa i].
Proof.
  unfold warnings_for. rewrite filter_cons_True; [done|].
  unfold is_abbreviation_warning.
  cbn [flagged_text category severity abbreviation_warning_issue].
  rewrite !String.eqb_refl. reflexivity.
Qed.

Lemma abbrev_step_other a i line s b fb :
  b ≠ a →
  warnings_for a (issues (abbrev_step i line s (b, fb))) = warnings_for a (issues s)
  ∧ (a ∈ defined_abbreviations (abbrev_step i line s (b, fb))
     ↔ a ∈ defined_abbreviations s).
Proof.
  intros Hne. unfold abbrev_step.
  destruct (contains b line); [|done].
  destruct (is_defined b fb line).
  { cbn [issues defined_abbreviations set_defined_abbreviations].
    split; [done|]. rewrite elem_of_union, elem_of_singleton. naive_solver. }
  destruct (_ && _); [|done].
  cbn [issues defined_abbreviations set_defined_abbreviations emit set_issues].
  split.
  - by rewrite warnings_for_app, warnings_for_other, app_nil_r.
  - rewrite elem_of_union, elem_of_singleton. naive_solver.
Qed.

Lemma abbrev_step_self a full i line s :
  warnings_for a (issues (abbrev_step i line s (a, full)))
  = warnings_for a (issues s)
    ++ (if warns a full line (defined_abbreviations s)
        then [abbreviation_warning_issue a full i] else [])
  ∧ (a ∈ defined_abbreviations (abbrev_step i line s (a, full))
     ↔ a ∈ defined_abbreviations s
       ∨ (contains a line = true
          ∧ (is_defined a full line = true ∨ a ≠ "WMO"))).
Proof.
  unfold abbrev_step, warns.
  destruct (contains a line); cbn [andb];
    [|rewrite app_nil_r; split; [done|naive_solver]].
  destruct (is_defined a full line); cbn [andb negb].
  { cbn [issues defined_abbreviations set_defined_abbreviations].
    rewrite app_nil_r. split; [done|].
    rewrite elem_of_union, elem_of_singleton. naive_solver. }
  destruct (decide (a ∈ defined_abbreviations s)) as [Hin|Hin].
  { rewrite bool_decide_eq_false_2 by naive_solver. cbn [andb].
    rewrite app_nil_r. split; [done|naive_solver]. }
  rewrite bool_decide_eq_true_2 by done. cbn [andb].
  destruct (String.eqb_spec a "WMO") as [Hw|Hw]; cbn [negb].
  { rewrite app_nil_r. split; [done|naive_solver]. }
  cbn [issues defined_abbreviations set_defined_abbreviations emit set_issues].
  split.
  - by rewrite warnings_for_app, warnings_for_self.
  - rewrite elem_of_union, elem_of_singleton. naive_solver.
Qed.

Lemma warns_ext a full line (d1 d2 : gset string) :
  (a ∈ d1 ↔ a ∈ d2) → warns a full line d1 = warns a full line d2.
Proof.
  intros H. unfold warns.
  by rewrite (bool_decide_ext (a ∉ d1) (a ∉ d2)) by (by rewrite H).
Qed.

Lemma abbrev_loop_other a i line L : ∀ s,
  a ∉ L.*1 →
  warnings_for a (issues (for_each L s (abbrev_step i line)))
  = warnings_for a (issues s)
  ∧ (a ∈ defined_abbreviations (for_each L s (abbrev_step i line))
     ↔ a ∈ defined_abbreviations s).
Proof.
  induction L as [|[b fb] L IH]; intros s Hn; [done|].
  rewrite fmap_cons in Hn. apply not_elem_of_cons in Hn as [Hb HL].
  change (for_each ((b, fb) :: L) s (abbrev_step i line))
    with (for_each L (abbrev_step i line s (b, fb)) (abbrev_step i line)).
  destruct (IH (abbrev_step i line s (b, fb)) HL) as [-> ->].
  apply abbrev_step_other. by intros ->.
Qed.

Lemma abbrev_loop_self a full i line L : ∀ s,
  NoDup L.*1 → (a, full) ∈ L →
  warnings_for a (issues (for_each L s (abbrev_step i line)))
  = warnings_for a (issues s)
    ++ (if warns a full line (defined_abbreviations s)
        then [abbreviation_warning_issue a full i] else [])
  ∧ (a ∈ defined_abbreviations (for_each L s (abbrev_step i line))
     ↔ a ∈ defined_abbreviations s
       ∨ (contains a line = true
          ∧ (is_defined a full line = true ∨ a ≠ "WMO"))).
Proof.
  induction L as [|[b fb] L IH]; intros s Hnd Hin; [by apply elem_of_nil in Hin|].
  rewrite fmap_cons in Hnd. cbn [fst] in Hnd. apply NoDup_cons in Hnd as [Hb Hnd].
  change (for_each ((b, fb) :: L) s (abbrev_step i line))
    with (for_each L (abbrev_step i line s (b, fb)) (abbrev_step i line)).
  apply elem_of_cons in Hin as [[= <- <-]|Hin].
  - destruct (abbrev_loop_other a i line L (abbrev_step i line s (a, full)) Hb)
      as [-> ->].
    apply abbrev_step_self.
  - assert (b ≠ a) as Hne.
    { intros ->. apply Hb. apply list_elem_of_fmap. by exists (a, full). }
    destruct (IH (abbrev_step i line s (b, fb)) Hnd Hin) as [-> ->].
    destruct (abbrev_step_other a i line s b fb Hne) as [-> Hd].
    rewrite (warns_ext _ _ _ _ _ Hd). by rewrite Hd.
Qed.

Lemma WMO_ABBREVIATIONS_NoDup : NoDup WMO_ABBREVIATIONS.*1.
Proof. apply (bool_decide_unpack _). vm_compute. exact I. Qed.

(** One line, for an abbreviation of the table. *)
Lemma abbrev_line_spec a full s il :
  (a, full) ∈ WMO_ABBREVIATIONS →
  warnings_for a (issues (abbrev_line s il))
  = warnings_for a (issues s)
    ++ (if warns a full il.2 (defined_abbreviations s)
        then [abbreviation_warning_issue a full il.1] else [])
  ∧ (a ∈ defined_abbreviations (abbrev_line s il)
     ↔ a ∈ defined_abbreviations s
       ∨ (contains a il.2 = true
          ∧ (is_defined a full il.2 = true ∨ a ≠ "WMO"))).
Proof. apply abbrev_loop_self, WMO_ABBREVIATIONS_NoDup. Qed.

(** The lines from number [k] on. *)
Definition abbrev_run (k : nat) (lines : list string) (s : t) : t :=
  for_each (enumerate k lines) s abbrev_line.

Lemma abbrev_run_cons k line lines s :
  abbrev_run k (line :: lines) s = abbrev_run (S k) lines (abbrev_line s (k, line)).
Proof. unfold abbrev_run. cbn [enumerate]. apply for_each_cons. Qed.

Lemma abbrev_run_nil k s : abbrev_run k [] s = s.
Proof. reflexivity. Qed.

Lemma warns_true a full line d :
  warns a full line d = true →
  contains a line = true ∧ is_defined a full line = false ∧ (a ∉ d) ∧ (a ≠ "WMO").
Proof.
  unfold warns. intros H.
  apply andb_true_iff in H as [H Hw]. apply andb_true_iff in H as [H Hd].
  apply andb_true_iff in H as [Hc Hf].
  apply bool_decide_eq_true in Hd. apply negb_true_iff in Hf, Hw.
  apply String.eqb_neq in Hw. done.
Qed.

Lemma warns_seen a full line (d : gset string) : a ∈ d → warns a full line d = false.
Proof.
  intros H. unfold warns. rewrite (bool_decide_eq_false_2 (a ∉ d)) by tauto.
  by rewrite andb_false_r.
Qed.

(** Once an abbreviation is in the set, it draws no warning; before
    that, at most one. *)
Lemma abbrev_run_once a full lines : ∀ k s,
  (a, full) ∈ WMO_ABBREVIATIONS →
  (a ∈ defined_abbreviations s →
   warnings_for a (issues (abbrev_run k lines s)) = warnings_for a (issues s))
  ∧ (warnings_for a (issues (abbrev_run k lines s)) = warnings_for a (issues s)
     ∨ ∃ w, warnings_for a (issues (abbrev_run k lines s))
            = warnings_for a (issues s) ++ [w]).
Proof.
  induction lines as [|line lines IH]; intros k s Hin.
  { rewrite abbrev_run_nil. split; [tauto|by left]. }
  rewrite abbrev_run_cons.
  destruct (abbrev_line_spec a full s (k, line) Hin) as [HW HD].
  destruct (IH (S k) (abbrev_line s (k, line)) Hin) as [IH1 IH2].
  cbn [fst snd] in *.
  destruct (warns a full line (defined_abbreviations s)) eqn:Ew.
  - apply warns_true in Ew as (Hc & Hf & Hd & Hw). split; [done|].
    right. exists (abbreviation_warning_issue a full k).
    rewrite IH1, HW; [done|]. apply HD. right. split; [done|by right].
  - rewrite app_nil_r in HW. split.
    + intros Hd. rewrite IH1, HW; [done|]. apply HD. by left.
    + rewrite <-HW. done.
Qed.

(** The first line, counting from 0, in which [a] occurs. *)
Fixpoint first_line_with (a : string) (lines : list string) : option nat :=
  match lines with
  | [] => None
  | line :: lines' =>
      if contains a line then Some 0 else (S <$> first_line_with a lines')
  end.

(** An abbreviation that no line defines is warned about on its first
    line, and only there. *)
Lemma abbrev_run_undefined a full lines : ∀ k s,
  (a, full) ∈ WMO_ABBREVIATIONS → a ≠ "WMO" →
  Forall (λ line, is_defined a full line = false) lines →
  a ∉ defined_abbreviations s →
  warnings_for a (issues (abbrev_run k lines s))
  = warnings_for a (issues s)
    ++ match first_line_with a lines with
       | Some j => [abbreviation_warning_issue a full (k + j)]
       | None => []
       end.
Proof.
  induction lines as [|line lines IH]; intros k s Hin Hw Hnd Hd.
  { rewrite abbrev_run_nil. cbn [first_line_with]. by rewrite app_nil_r. }
  apply Forall_cons in Hnd as [Hf Hnd].
  rewrite abbrev_run_cons.
  destruct (abbrev_line_spec a full s (k, line) Hin) as [HW HD].
  cbn [fst snd first_line_with] in *.
  destruct (contains a line) eqn:Ec.
  - destruct (abbrev_run_once a full lines (S k) (abbrev_line s (k, line)) Hin)
      as [-> _].
    + rewrite HW. unfold warns. rewrite Ec, Hf.
      rewrite (bool_decide_eq_true_2 (a ∉ defined_abbreviations s)) by done.
      apply String.eqb_neq in Hw. rewrite Hw. simpl.
      by rewrite Nat.add_0_r.
    + apply HD. right. split; [done|by right].
  - rewrite IH; [|done..|].
    + rewrite HW. unfold warns. rewrite Ec. simpl. rewrite app_nil_r.
      destruct (first_line_with a lines); simpl; [|done].
      by rewrite Nat.add_succ_r.
    + rewrite HD. intros [?|[? _]]; done.
Qed.

(** The condition under which a line puts [a] into the set. *)
Definition marks (a full line : string) : Prop :=
  contains a line = true ∧ (is_defined a full line = true ∨ a ≠ "WMO").

(** An abbreviation is in the set after the run if it was before, or if
    a line defined it or drew the warning. *)
Lemma abbrev_run_seen a full lines : ∀ k s,
  (a, full) ∈ WMO_ABBREVIATIONS →
  a ∈ defined_abbreviations (abbrev_run k lines s)
  ↔ a ∈ defined_abbreviations s ∨ Exists (marks a full) lines.
Proof.
  induction lines as [|line lines IH]; intros k s Hin.
  { rewrite abbrev_run_nil, Exists_nil. tauto. }
  rewrite abbrev_run_cons, (IH _ _ Hin), Exists_cons.
  destruct (abbrev_line_spec a full s (k, line) Hin) as [_ ->].
  unfold marks. cbn [snd]. tauto.
Qed.

(** The check only appends to the issues and changes the set. *)
Definition appends_d (P : ReviewIssue → Prop) (s s' : t) : Prop :=
  ∃ l d, s' = set_defined_abbreviations (add_issues s l) d ∧ Forall P l.

Lemma appends_d_refl P s : appends_d P s s.
Proof.
  exists [], (defined_abbreviations s). split; [|done].
  rewrite add_issues_nil. by destruct s.
Qed.

Lemma appends_d_trans P s1 s2 s3 :
  appends_d P s1 s2 → appends_d P s2 s3 → appends_d P s1 s3.
Proof.
  intros (l1 & d1 & -> & H1) (l2 & d2 & -> & H2). exists (l1 ++ l2), d2.
  split; [|by apply Forall_app].
  destruct s1. unfold set_defined_abbreviations, add_issues, set_issues. simpl.
  by rewrite (assoc_L (++)).
Qed.

Lemma appends_d_for_each {A} P (l : list A) body s :
  (∀ s x, appends_d P s (body s x)) → appends_d P s (for_each l s body).
Proof.
  revert s. induction l as [|x l IH]; intros s H; simpl; [apply appends_d_refl|].
  eapply appends_d_trans; [apply H|]. by apply IH.
Qed.

Definition sig_abbreviations : list (string * Severity) :=
  [("Style Guide - Abbreviations", WARNING)].

Lemma abbrev_step_appends i line s e :
  appends_d (has_sig sig_abbreviations) s (abbrev_step i line s e).
Proof.
  destruct e as [a f]. unfold abbrev_step.
  destruct (contains a line); [|apply appends_d_refl].
  destruct (is_defined a f line).
  { exists [], ({[a]} ∪ defined_abbreviations s). by rewrite add_issues_nil. }
  destruct (_ && _); [|apply appends_d_refl].
  eexists [_], _. split; [done|]. constructor; [|done]. by left.
Qed.

Lemma check_abbreviations_appends s :
  appends_d (has_sig sig_abbreviations) s (check_abbreviations s).
Proof.
  rewrite check_abbreviations_unfold. apply appends_d_for_each. intros s1 il.
  unfold abbrev_line. apply appends_d_for_each. intros s2 e. apply abbrev_step_appends.
Qed.

(** *** review *)

Lemma emit_if (b : bool) s i :
  (if b then emit s i else s) = add_issues s (if b then [i] else []).
Proof. destruct b; [done|by rewrite add_issues_nil]. Qed.

Lemma add_issues_set_defined s d l :
  add_issues (set_defined_abbreviations s d) l
  = set_defined_abbreviations (add_issues s l) d.
Proof. by destruct s. Qed.

Lemma news_step_appends s :
  appends (has_sig sig_news) s
    match content_type s with
    | NEWS_ARTICLE => check_news_article_standards s
    | _ => s
    end.
Proof.
  destruct (content_type s);
    [apply appends_refl|apply check_news_article_standards_appends|apply appends_refl].
Qed.

(** *** Informal abbreviations *)

Definition informal_issue (abbrev full : string) (i : nat) : ReviewIssue := {|
  category := "Style Guide - Abbreviations";
  severity := ERROR;
  message := "Avoid informal abbreviation '" +:+ abbrev +:+ "' in formal content";
  suggestion := "Use '" +:+ full +:+ "' instead";
  line_number := i; context := EmptyString;
  flagged_text := abbrev |}.

(** The issues the loop over [abbrev_issues] emits for one line. *)
Definition informal_line (il : nat * string) : list ReviewIssue :=
  (λ e : regex * string * string, informal_issue e.1.2 e.2 il.1)
  <$> List.filter (λ e : regex * string * string, matches no_flags e.1.1 (lower il.2))
                  abbrev_issues.

(** The informal-abbreviation issue about [abbrev] at line [n]. *)
Definition is_informal (abbrev : string) (n : nat) (i : ReviewIssue) : Prop :=
  category i = "Style Guide - Abbreviations" ∧ severity i = ERROR
  ∧ flagged_text i = abbrev ∧ line_number i = n.

#[global] Instance is_informal_dec a n i : Decision (is_informal a n i).
Proof. unfold is_informal. apply _. Defined.

Lemma for_each_emit_if {A} (l : list A) (c : A → bool) (g : A → ReviewIssue) s :
  for_each l s (λ s x, if c x then emit s (g x) else s)
  = add_issues s (g <$> List.filter c l).
Proof.
  revert s. induction l as [|x l IH]; intros s.
  - simpl. by rewrite add_issues_nil.
  - rewrite for_each_cons, IH. cbn [List.filter].
    destruct (c x); [|done]. rewrite fmap_cons.
    change (emit s (g x)) with (add_issues s [g x]). by rewrite add_issues_app.
Qed.

(** The other issues of the style check. *)
Definition style_other (i : ReviewIssue) : Prop :=
  has_sig sig_style i ∧ category i ≠ "Style Guide - Abbreviations".

Lemma informal_line_eq i line :
  (λ e : regex * string * string, informal_issue e.1.2 e.2 i)
  <$> List.filter (λ e : regex * string * string, matches no_flags e.1.1 (lower line))
                  abbrev_issues
  = informal_line (i, line).
Proof. reflexivity. Qed.

Lemma informal_line_sig il : Forall (has_sig sig_style) (informal_line il).
Proof.
  unfold informal_line. apply Forall_fmap, Forall_forall. intros e _.
  unfold has_sig. simpl. by repeat first [left|right].
Qed.

Definition style_facts (lines : list (nat * string)) (l : list ReviewIssue) : Prop :=
  ∀ a n, filter (is_informal a n) l = filter (is_informal a n) (lines ≫= informal_line).

Lemma style_other_not_informal a n l :
  Forall style_other l → filter (is_informal a n) l = [].
Proof.
  intros H. apply filter_none. eapply Forall_impl; [done|].
  intros i [_ Hc] [Hc' _]. done.
Qed.

Lemma check_style_guide_compliance_spec s :
  ∃ l, check_style_guide_compliance s = add_issues s l
    ∧ Forall (has_sig sig_style) l
    ∧ style_facts (enumerate 1 (content_lines s)) l.
Proof.
  unfold check_style_guide_compliance.
  generalize (enumerate 1 (content_lines s)). intros lines. revert s.
  induction lines as [|[i line] lines IH]; intros s.
  { exists []. by rewrite add_issues_nil. }
  rewrite for_each_cons.
  match goal with |- context [for_each lines ?s1 _] =>
    assert (∃ r, s1 = r) as [r Er] by eauto; rewrite Er end.
  cbv beta iota zeta in Er.
  match type of Er with context [for_each abbrev_issues ?Y ?f] =>
    assert (appends style_other s Y) as (l1 & E1 & H1) by frame;
    rewrite E1 in Er;
    rewrite (for_each_ext _ f
      (λ s (e : regex * string * string),
         if matches no_flags e.1.1 (lower line)
         then emit s (informal_issue e.1.2 e.2 i) else s)) in Er
      by (by intros ? [[? ?] ?]);
    rewrite for_each_emit_if in Er
  end.
  rewrite emit_if, informal_line_eq in Er.
  destruct (IH r) as (l & -> & Hsig & Hf).
  subst r. rewrite !add_issues_app.
  eexists. split; [done|]. split.
  - repeat (apply Forall_app; split); try done.
    + eapply Forall_impl; [exact H1|]. by intros ? [? _].
    + apply informal_line_sig.
    + destruct (matches no_flags rx_italics line); [|done].
      constructor; [|done]. unfold has_sig. simpl. by repeat first [left|right].
  - intros a n. rewrite bind_cons, !filter_app, Hf.
    rewrite (style_other_not_informal _ _ l1 H1). cbn [app].
    f_equal.
    destruct (matches no_flags rx_italics line); [|done].
    rewrite filter_cons_False; [done|]. by intros [? _].
Qed.

Lemma informal_line_number il : Forall (λ i, line_number i = il.1) (informal_line il).
Proof. unfold informal_line. apply Forall_fmap, Forall_forall. by intros e _. Qed.

Lemma informal_other_lines a n (ls : list (nat * string)) :
  Forall (λ il, il.1 ≠ n) ls → filter (is_informal a n) (ls ≫= informal_line) = [].
Proof.
  induction 1 as [|il ls Hil Hls IH]; [done|].
  rewrite bind_cons, filter_app, IH, app_nil_r.
  apply filter_none. eapply Forall_impl; [apply informal_line_number|].
  intros i Hi (_ & _ & _ & Hn). congruence.
Qed.

Lemma enumerate_ge {A} k (l : list A) : Forall (λ il, k ≤ il.1) (enumerate k l).
Proof.
  revert k. induction l as [|x l IH]; intros k; simpl; [done|].
  constructor; [done|]. eapply Forall_impl; [apply IH|]. simpl. lia.
Qed.

Lemma informal_this_line a lines : ∀ k j line,
  lines !! j = Some line →
  filter (is_informal a (k + j)) (enumerate k lines ≫= informal_line)
  = filter (is_informal a (k + j)) (informal_line (k + j, line)).
Proof.
  induction lines as [|l0 lines IH]; intros k j line Hj; [done|].
  cbn [enumerate]. rewrite bind_cons, filter_app. destruct j as [|j].
  - injection Hj as ->. rewrite Nat.add_0_r.
    rewrite informal_other_lines, app_nil_r; [done|].
    eapply Forall_impl; [apply (enumerate_ge (S k))|]. simpl. lia.
  - simpl in Hj. rewrite (filter_none _ (informal_line (k, l0))).
    + replace (k + S j) with (S k + j) by lia. by apply IH.
    + eapply Forall_impl; [apply informal_line_number|].
      intros i Hi (_ & _ & _ & Hn). simpl in Hi. lia.
Qed.

(** The table names each abbreviation once. *)
Lemma informal_one_entry e n line :
  e ∈ abbrev_issues →
  filter (is_informal e.1.2 n) (informal_line (n, line))
  = if matches no_flags e.1.1 (lower line) then [informal_issue e.1.2 e.2 n] else [].
Proof.
  intros He. unfold informal_line, abbrev_issues in *. cbn [fst snd List.filter].
  repeat (apply elem_of_cons in He as [->|He]); [..|by apply elem_of_nil in He];
    cbn [fst snd];
    repeat match goal with
    | |- context [matches no_flags ?p ?l] => destruct (matches no_flags p l)
    end;
    cbn [fmap list_fmap fst snd];
    repeat first
      [ rewrite filter_cons_True by (by repeat split)
      | rewrite filter_cons_False by (by intros (_ & _ & ? & _)) ];
    reflexivity.
Qed.

(** One issue per abbreviation and line, whatever the number of
    occurrences. *)
Lemma informal_per_line lines j line e :
  lines !! j = Some line → e ∈ abbrev_issues →
  filter (is_informal e.1.2 (1 + j)) (enumerate 1 lines ≫= informal_line)
  = if matches no_flags e.1.1 (lower line)
    then [informal_issue e.1.2 e.2 (1 + j)] else [].
Proof.
  intros Hj He. rewrite (informal_this_line _ lines 1 j line Hj).
  by apply informal_one_entry.
Qed.

(** The state [review] starts the checks from. *)
Definition reset (self : t) (text : string) : t :=
  {| content_type := content_type self; issues := []; content := text;
     content_lines := split_char newline text;
     strategic_alignment := StrategicAlignment_new;
     defined_abbreviations := ∅ |}.

(** What [review] returns: the parts of the issue list, check by check. *)
Record review_parts := {
  rp_cov : float;
  rp_hs : list heading;
  rp_style : list ReviewIssue;
  rp_img : list ReviewIssue;
  rp_link : list ReviewIssue;
  rp_read : list ReviewIssue;
  rp_term : list ReviewIssue;
  rp_abbr : list ReviewIssue;
  rp_seen : gset string;
  rp_news : list ReviewIssue;
  rp_seo : list ReviewIssue;
  rp_aud : list ReviewIssue;
  rp_fmt : list ReviewIssue;
  rp_links : list ReviewIssue
}.

Definition l_strategic (p : review_parts) : list ReviewIssue :=
  if (rp_cov p <? 20)%float then [strategic_issue] else [].

Definition all_issues (p : review_parts) : list ReviewIssue :=
  l_strategic p ++ rp_style p ++ (rp_img p ++ hierarchy_issues (rp_hs p) ++ rp_link p)
  ++ rp_read p ++ rp_term p ++ rp_abbr p ++ rp_news p ++ rp_seo p ++ rp_aud p
  ++ rp_fmt p ++ rp_links p.

Definition final_state (self : t) (text : string) (p : review_parts) : t :=
  {| content_type := content_type self; issues := all_issues p; content := text;
     content_lines := split_char newline text;
     strategic_alignment := alignment_of text;
     defined_abbreviations := rp_seen p |}.

Definition abbreviation_facts (lines : list string) (l : list ReviewIssue) : Prop :=
  ∀ a full, (a, full) ∈ WMO_ABBREVIATIONS →
    length (warnings_for a l) ≤ 1
    ∧ (a ≠ "WMO" → Forall (λ line, is_defined a full line = false) lines →
       warnings_for a l
       = match first_line_with a lines with
         | Some j => [abbreviation_warning_issue a full (1 + j)]
         | None => []
         end).

Definition seen_facts (lines : list string) (seen : gset string) : Prop :=
  ∀ a full, (a, full) ∈ WMO_ABBREVIATIONS →
    a ∈ seen ↔ Exists (marks a full) lines.

Definition parts_ok (text : string) (p : review_parts) : Prop :=
  get_coverage (alignment_of text) = Ok (rp_cov p)
  ∧ collect_headings (split_char newline text) = Ok (rp_hs p)
  ∧ Forall (has_sig sig_style) (rp_style p)
  ∧ Forall image_or_link_issue (rp_img p)
  ∧ Forall image_or_link_issue (rp_link p)
  ∧ Forall (has_sig sig_readability) (rp_read p)
  ∧ Forall (has_sig sig_terminology) (rp_term p)
  ∧ Forall (has_sig sig_abbreviations) (rp_abbr p)
  ∧ abbreviation_facts (split_char newline text) (rp_abbr p)
  ∧ Forall (has_sig sig_news) (rp_news p)
  ∧ Forall (has_sig sig_seo) (rp_seo p)
  ∧ Forall (has_sig sig_audience) (rp_aud p)
  ∧ Forall (has_sig sig_formatting) (rp_fmt p)
  ∧ Forall (has_sig sig_links) (rp_links p)
  ∧ style_facts (enumerate 1 (split_char newline text)) (rp_style p)
  ∧ seen_facts (split_char newline text) (rp_seen p).

Lemma abbreviation_facts_of s l d :
  defined_abbreviations s = ∅ →
  check_abbreviations s = set_defined_abbreviations (add_issues s l) d →
  abbreviation_facts (content_lines s) l.
Proof.
  intros Hd E a full Hin.
  assert (warnings_for a (issues (abbrev_run 1 (content_lines s) s))
          = warnings_for a (issues s) ++ warnings_for a l) as Hl.
  { unfold abbrev_run. rewrite <-check_abbreviations_unfold, E.
    destruct s. cbn [issues set_defined_abbreviations add_issues set_issues].
    apply warnings_for_app. }
  split.
  - destruct (abbrev_run_once a full (content_lines s) 1 s Hin) as [_ [H|[w H]]];
      rewrite Hl in H.
    + rewrite <-(app_nil_r (warnings_for a (issues s))) in H at 2.
      apply app_inv_head in H. rewrite H. simpl. lia.
    + apply app_inv_head in H. rewrite H. simpl. lia.
  - intros Hw Hnd.
    rewrite (abbrev_run_undefined a full _ 1 s Hin Hw Hnd) in Hl
      by (rewrite Hd; apply not_elem_of_empty).
    by apply app_inv_head in Hl.
Qed.

Lemma seen_facts_of s l d :
  defined_abbreviations s = ∅ →
  check_abbreviations s = set_defined_abbreviations (add_issues s l) d →
  seen_facts (content_lines s) d.
Proof.
  intros Hd E a full Hin.
  assert (defined_abbreviations (abbrev_run 1 (content_lines s) s) = d) as <-.
  { unfold abbrev_run. rewrite <-check_abbreviations_unfold, E. by destruct s. }
  rewrite (abbrev_run_seen a full _ 1 s Hin), Hd.
  split; [intros [H|H]; [by apply not_elem_of_empty in H|done]|by right].
Qed.

Lemma add_issues_mk ct iss c cl sa d l :
  add_issues {| content_type := ct; issues := iss; content := c; content_lines := cl;
                strategic_alignment := sa; defined_abbreviations := d |} l
  = {| content_type := ct; issues := iss ++ l; content := c; content_lines := cl;
       strategic_alignment := sa; defined_abbreviations := d |}.
Proof. reflexivity. Qed.

Lemma set_defined_abbreviations_mk ct iss c cl sa d d' :
  set_defined_abbreviations
    {| content_type := ct; issues := iss; content := c; content_lines := cl;
       strategic_alignment := sa; defined_abbreviations := d |} d'
  = {| content_type := ct; issues := iss; content := c; content_lines := cl;
       strategic_alignment := sa; defined_abbreviations := d' |}.
Proof. reflexivity. Qed.

Lemma set_strategic_alignment_mk ct iss c cl sa d sa' :
  set_strategic_alignment
    {| content_type := ct; issues := iss; content := c; content_lines := cl;
       strategic_alignment := sa; defined_abbreviations := d |} sa'
  = {| content_type := ct; issues := iss; content := c; content_lines := cl;
       strategic_alignment := sa'; defined_abbreviations := d |}.
Proof. reflexivity. Qed.

Lemma review_spec self text :
  ∃ p, parts_ok text p
    ∧ review self text
      = Ok (sorted sort_key (all_issues p), alignment_of text,
            final_state self text p).
Proof.
  assert (∃ r, review self text = r) as [r Er] by eauto.
  rewrite Er. unfold review in Er.
  change (set_defined_abbreviations _ ∅) with (reset self text) in Er.
  cbv zeta in Er.
  destruct (check_strategic_alignment_spec (reset self text) eq_refl)
    as (cov & Ecov & E1).
  change (content (reset self text)) with text in Ecov, E1.
  rewrite E1, bind_Ok in Er. cbv zeta in Er. rewrite emit_if in Er. clear E1.
  match type of Er with context [check_style_guide_compliance ?s] =>
    destruct (check_style_guide_compliance_spec s) as (l_style & E & H_style & F_style);
    rewrite E in Er; clear E end.
  match type of Er with context [check_accessibility_wcag ?s] =>
    destruct (check_accessibility_wcag_spec s)
      as (hs & l_img & l_link & Ehs & E & H_img & H_link);
    rewrite E, bind_Ok in Er; clear E end.
  match type of Er with context [check_readability ?s] =>
    destruct (check_readability_ok s) as (s' & E & (l_read & -> & H_read));
    rewrite E, bind_Ok in Er; clear E end.
  match type of Er with context [check_terminology ?s] =>
    destruct (check_terminology_appends s) as (l_term & E & H_term);
    rewrite E in Er; clear E end.
  match type of Er with context [check_abbreviations ?s] =>
    destruct (check_abbreviations_appends s) as (l_abbr & seen & E & H_abbr);
    pose proof (abbreviation_facts_of s l_abbr seen eq_refl E) as F_abbr;
    pose proof (seen_facts_of s l_abbr seen eq_refl E) as F_seen;
    rewrite E in Er; clear E end.
  match type of Er with context [check_news_article_standards ?s] =>
    destruct (news_step_appends s) as (l_news & E & H_news);
    rewrite E in Er; clear E end.
  match type of Er with context [check_seo ?s] =>
    destruct (check_seo_ok s) as (s' & E & (l_seo & -> & H_seo));
    rewrite E, bind_Ok in Er; clear E end.
  match type of Er with context [check_target_audience ?s] =>
    destruct (check_target_audience_ok s) as (s' & E & (l_aud & -> & H_aud));
    rewrite E, bind_Ok in Er; clear E end.
  match type of Er with context [check_formatting ?s] =>
    destruct (check_formatting_appends s) as (l_fmt & E & H_fmt);
    rewrite E in Er; clear E end.
  match type of Er with context [check_links_and_references ?s] =>
    destruct (check_links_and_references_ok s) as (s' & E & (l_links & -> & H_links));
    rewrite E, bind_Ok in Er; clear E end.
  exists {| rp_cov := cov; rp_hs := hs; rp_style := l_style; rp_img := l_img;
            rp_link := l_link; rp_read := l_read; rp_term := l_term;
            rp_abbr := l_abbr; rp_seen := seen; rp_news := l_news; rp_seo := l_seo;
            rp_aud := l_aud; rp_fmt := l_fmt; rp_links := l_links |}.
  split; [done|].
  rewrite <-Er. unfold final_state, all_issues, l_strategic, reset.
  cbn [rp_cov rp_hs rp_style rp_img rp_link rp_read
       rp_term rp_abbr rp_seen rp_news rp_seo rp_aud rp_fmt rp_links].
  repeat first [rewrite set_strategic_alignment_mk | rewrite add_issues_mk
               | rewrite set_defined_abbreviations_mk].
  cbn [issues strategic_alignment].
  rewrite app_nil_l, <-!(assoc_L (++)). reflexivity.
Qed.

(** ** Filtering the issue list of a review *)

(** An issue outside the signature of a check. *)
Definition outside (sig : list (string * Severity)) (P : ReviewIssue → Prop) : Prop :=
  ∀ i, has_sig sig i → ¬ P i.

Lemma filter_sig sig (P : ReviewIssue → Prop) `{!∀ x, Decision (P x)} l :
  outside sig P → Forall (has_sig sig) l → filter P l = [].
Proof.
  intros Ho Hl. apply filter_none. eapply Forall_impl; [done|]. apply Ho.
Qed.

Lemma has_sig_inv sig i :
  has_sig sig i → ∃ c v, (c, v) ∈ sig ∧ category i = c ∧ severity i = v.
Proof. intros H. by exists (category i), (severity i). Qed.

Lemma image_or_link_sig l :
  Forall image_or_link_issue l → Forall (has_sig sig_accessibility) l.
Proof. intros H. eapply Forall_impl; [done|]. by intros i [Hi _]. Qed.

Lemma skip_issues_sig prev hs : Forall (has_sig sig_accessibility) (skip_issues prev hs).
Proof.
  revert prev. induction hs as [|h hs IH]; intros prev; simpl; [done|].
  apply Forall_app. split; [|done].
  destruct (_ <? _)%nat; [|done]. constructor; [|done]. by repeat first [left|right].
Qed.

Lemma hierarchy_issues_sig hs : Forall (has_sig sig_accessibility) (hierarchy_issues hs).
Proof.
  destruct hs as [|h0 tl]; simpl; [done|].
  apply Forall_app. split; [|apply skip_issues_sig].
  destruct (negb _); [|done]. constructor; [|done]. by repeat first [left|right].
Qed.

(** Cases on the signature an issue belongs to. *)
Ltac sig_cases H :=
  unfold has_sig in H;
  repeat (apply elem_of_cons in H as [H|H]);
  [..|by apply elem_of_nil in H];
  injection H as ? ?.

(** *** Strategic alignment *)

Definition is_strategic (i : ReviewIssue) : Prop := category i = "Strategic Alignment".

#[global] Instance is_strategic_dec i : Decision (is_strategic i).
Proof. unfold is_strategic. apply _. Defined.

Ltac outside_by_category :=
  let i := fresh "i" in let H := fresh "H" in let HP := fresh "HP" in
  intros i H HP; sig_cases H; hnf in HP; congruence.

Lemma strategic_issues_of_review text p :
  parts_ok text p → filter is_strategic (all_issues p) = l_strategic p.
Proof.
  intros (_ & _ & Hstyle & Himg & Hlink & Hread & Hterm & Habbr & _ & Hnews & Hseo
          & Haud & Hfmt & Hlinks & _).
  unfold all_issues. rewrite !filter_app.
  rewrite (filter_sig sig_style _ (rp_style p)),
    (filter_sig sig_accessibility _ (rp_img p)),
    (filter_sig sig_accessibility _ (hierarchy_issues _)),
    (filter_sig sig_accessibility _ (rp_link p)),
    (filter_sig sig_readability _ (rp_read p)),
    (filter_sig sig_terminology _ (rp_term p)),
    (filter_sig sig_abbreviations _ (rp_abbr p)),
    (filter_sig sig_news _ (rp_news p)), (filter_sig sig_seo _ (rp_seo p)),
    (filter_sig sig_audience _ (rp_aud p)), (filter_sig sig_formatting _ (rp_fmt p)),
    (filter_sig sig_links _ (rp_links p));
    try done; try outside_by_category;
    try (by apply image_or_link_sig); try apply hierarchy_issues_sig.
  rewrite !app_nil_r. unfold l_strategic.
  destruct (_ <? _)%float; [by rewrite filter_cons_True|reflexivity].
Qed.

(** Every keyword of every pillar. *)
Definition all_keywords : list string := mjoin (snd <$> STRATEGIC_KEYWORDS).

(** The document mentions the keyword: case-insensitive substring. *)
Definition mentions (text keyword : string) : bool :=
  contains (lower keyword) (lower text).

Lemma keywords_of_all p k : k ∈ keywords_of p → k ∈ all_keywords.
Proof.
  intros Hk. apply list_elem_of_join. exists (keywords_of p). split; [done|].
  destruct p; apply (bool_decide_unpack _); vm_compute; exact I.
Qed.

Lemma has_keyword_false text p :
  (∀ k, k ∈ keywords_of p → mentions text k = false) →
  has_keyword (lower text) p = false.
Proof.
  intros H. unfold has_keyword. apply not_true_iff_false.
  intros (k & Hk & Hm)%existsb_exists. apply list_elem_of_In in Hk.
  specialize (H k Hk). unfold mentions in H. congruence.
Qed.

Lemma has_keyword_true text p k :
  k ∈ keywords_of p → mentions text k = true → has_keyword (lower text) p = true.
Proof.
  intros Hk Hm. unfold has_keyword. apply existsb_exists. exists k.
  split; [by apply list_elem_of_In|done].
Qed.

Definition flood_only : StrategicAlignment :=
  {| earth_system_monitoring := false; early_warnings := false;
     climate_action := false; capacity_development := false;
     hydrometeorological_services := true |}.

Lemma not_flood p :
  p ≠ p_hydrometeorological_services → "flood" ∉ keywords_of p.
Proof. destruct p; intros Hp; [| | | |done]; apply (bool_decide_unpack _); vm_compute; exact I. Qed.

Lemma alignment_of_flood text :
  mentions text "flood" = true →
  (∀ k, k ∈ all_keywords → k ≠ "flood" → mentions text k = false) →
  alignment_of text = flood_only.
Proof.
  intros Hf Ho. unfold alignment_of. cbv zeta.
  assert (∀ p, p ≠ p_hydrometeorological_services →
               has_keyword (lower text) p = false) as Hp.
  { intros p Hp. apply has_keyword_false. intros k Hk.
    apply Ho; [by eapply keywords_of_all|]. intros ->. by apply (not_flood p). }
  rewrite (Hp p_earth_system_monitoring), (Hp p_early_warnings),
    (Hp p_climate_action), (Hp p_capacity_development) by done.
  rewrite (has_keyword_true _ _ "flood"); [done| |done].
  apply (bool_decide_unpack _). vm_compute. exact I.
Qed.

Lemma alignment_of_none text :
  (∀ k, k ∈ all_keywords → mentions text k = false) →
  alignment_of text = StrategicAlignment_new.
Proof.
  intros Ho. unfold alignment_of. cbv zeta.
  rewrite !has_keyword_false; [done|..];
    intros k Hk; apply Ho; by eapply keywords_of_all.
Qed.

Lemma filter_sorted (P : ReviewIssue → Prop) `{!∀ x, Decision (P x)} l :
  filter P (sorted sort_key l) ≡ₚ filter P l.
Proof. by rewrite sorted_Permutation. Qed.

(** A filter that selects at most one issue selects the same from the
    sorted list. *)
Lemma filter_sorted_short (P : ReviewIssue → Prop) `{!∀ x, Decision (P x)} l :
  length (filter P l) ≤ 1 → filter P (sorted sort_key l) = filter P l.
Proof. intros Hlen. apply Permutation_short; [apply filter_sorted|done]. Qed.

Lemma review_strategic self text :
  ∃ issues s' cov,
    review self text = Ok (issues, alignment_of text, s')
    ∧ get_coverage (alignment_of text) = Ok cov
    ∧ filter is_strategic issues
      = if (cov <? 20)%float then [strategic_issue] else [].
Proof.
  destruct (review_spec self text) as (p & Hp & E).
  exists (sorted sort_key (all_issues p)), (final_state self text p), (rp_cov p).
  split; [done|]. split; [apply Hp|].
  assert (filter is_strategic (all_issues p) = l_strategic p) as Hs
    by by eapply strategic_issues_of_review.
  rewrite filter_sorted_short; rewrite Hs; [done|].
  unfold l_strategic. destruct (_ <? _)%float; simpl; lia.
Qed.





(** *** Abbreviations *)

Definition occurs_at (a : string) (lines : list string) (j : nat) : Prop :=
  ∃ line, lines !! j = Some line ∧ contains a line = true.

Definition first_occurrence (a : string) (lines : list string) (j : nat) : Prop :=
  occurs_at a lines j ∧ ∀ j', j' < j → ¬ occurs_at a lines j'.

Lemma first_line_with_first a lines j :
  first_line_with a lines = Some j → first_occurrence a lines j.
Proof.
  revert j. induction lines as [|line lines IH]; intros j; [done|].
  cbn [first_line_with]. destruct (contains a line) eqn:Ec.
  - intros [= <-]. split; [by exists line|]. intros j' Hj'. lia.
  - destruct (first_line_with a lines) as [k|]; [|done].
    intros [= <-]. destruct (IH k eq_refl) as [(l & Hl & Hc) Hfirst].
    split; [by exists l|].
    intros [|j'] Hj' (l' & Hl' & Hc'); simpl in Hl'.
    + injection Hl' as ->. congruence.
    + apply (Hfirst j'); [lia|]. by exists l'.
Qed.

Lemma occurs_first a lines j1 :
  occurs_at a lines j1 → ∃ j, first_line_with a lines = Some j ∧ j ≤ j1.
Proof.
  revert j1. induction lines as [|line lines IH]; intros j1 (l & Hl & Hc); [done|].
  cbn [first_line_with]. destruct (contains a line) eqn:Ec.
  - exists 0. split; [done|lia].
  - destruct j1 as [|j1]; simpl in Hl; [injection Hl as ->; congruence|].
    destruct (IH j1) as (j & -> & Hj); [by exists l|].
    exists (S j). split; [done|lia].
Qed.

Lemma abbreviation_warning_outside a sig :
  ("Style Guide - Abbreviations", WARNING) ∉ sig →
  outside sig (λ i, is_abbreviation_warning a i = true).
Proof.
  intros Hn i Hi HP. apply Hn. unfold has_sig in Hi.
  unfold is_abbreviation_warning in HP.
  apply andb_true_iff in HP as [HP _]. apply andb_true_iff in HP as [Hc Hs].
  apply String.eqb_eq in Hc. apply bool_decide_eq_true in Hs.
  by rewrite Hc, Hs in Hi.
Qed.

Ltac not_in_sig := apply (bool_decide_unpack _); vm_compute; exact I.

Lemma abbreviation_warnings_of_review text p a :
  parts_ok text p → warnings_for a (all_issues p) = warnings_for a (rp_abbr p).
Proof.
  intros (_ & _ & Hstyle & Himg & Hlink & Hread & Hterm & Habbr & _ & Hnews & Hseo
          & Haud & Hfmt & Hlinks & _).
  unfold all_issues, warnings_for. rewrite !filter_app.
  rewrite (filter_sig sig_style _ (rp_style p)),
    (filter_sig sig_accessibility _ (rp_img p)),
    (filter_sig sig_accessibility _ (hierarchy_issues _)),
    (filter_sig sig_accessibility _ (rp_link p)),
    (filter_sig sig_readability _ (rp_read p)),
    (filter_sig sig_terminology _ (rp_term p)),
    (filter_sig sig_news _ (rp_news p)), (filter_sig sig_seo _ (rp_seo p)),
    (filter_sig sig_audience _ (rp_aud p)), (filter_sig sig_formatting _ (rp_fmt p)),
    (filter_sig sig_links _ (rp_links p));
    try done; try (apply abbreviation_warning_outside; not_in_sig);
    try (by apply image_or_link_sig); try apply hierarchy_issues_sig.
  assert (filter (λ i, is_abbreviation_warning a i = true) (l_strategic p) = [])
    as ->.
  { unfold l_strategic. destruct (_ <? _)%float; [|done].
    rewrite filter_cons_False; [done|]. by vm_compute. }
  cbn [app]. by rewrite !app_nil_r.
Qed.

Lemma review_abbreviation_warnings self text a full :
  (a, full) ∈ WMO_ABBREVIATIONS →
  ∃ issues sa s',
    review self text = Ok (issues, sa, s')
    ∧ length (warnings_for a issues) ≤ 1
    ∧ (a ≠ "WMO" →
       Forall (λ line, is_defined a full line = false) (split_char newline text) →
       warnings_for a issues
       = match first_line_with a (split_char newline text) with
         | Some j => [abbreviation_warning_issue a full (1 + j)]
         | None => []
         end)
    ∧ (a ∈ defined_abbreviations s'
       ↔ Exists (marks a full) (split_char newline text)).
Proof.
  intros Hin. destruct (review_spec self text) as (p & Hp & E).
  exists (sorted sort_key (all_issues p)), (alignment_of text), (final_state self text p).
  split; [done|].
  pose proof (abbreviation_warnings_of_review text p a Hp) as Hw.
  assert (seen_facts (split_char newline text) (rp_seen p)) as Hseen
    by (repeat (destruct Hp as [_ Hp]); exact Hp).
  destruct Hp as (_ & _ & _ & _ & _ & _ & _ & _ & Hf & _).
  destruct (Hf a full Hin) as [Hlen Hfirst].
  assert (warnings_for a (sorted sort_key (all_issues p)) = warnings_for a (rp_abbr p))
    as ->.
  { rewrite <-Hw. unfold warnings_for. apply filter_sorted_short.
    fold (warnings_for a (all_issues p)). by rewrite Hw. }
  split; [done|]. split; [apply Hfirst|]. apply (Hseen a full Hin).
Qed.

(** *** Heading hierarchy *)

Definition is_hierarchy_issue (i : ReviewIssue) : Prop :=
  category i = "Accessibility (WCAG 2.1)" ∧ is_hierarchy_message (message i) = true.

#[global] Instance is_hierarchy_issue_dec i : Decision (is_hierarchy_issue i).
Proof. unfold is_hierarchy_issue. apply _. Defined.

Lemma hierarchy_outside sig :
  Forall (λ e, e.1 ≠ "Accessibility (WCAG 2.1)") sig → outside sig is_hierarchy_issue.
Proof.
  intros Hn i Hi [Hc _]. unfold has_sig in Hi.
  rewrite Forall_forall in Hn. specialize (Hn _ Hi). by simpl in Hn.
Qed.

Lemma skip_issues_hierarchy prev hs : Forall is_hierarchy_issue (skip_issues prev hs).
Proof.
  revert prev. induction hs as [|h hs IH]; intros prev; simpl; [done|].
  apply Forall_app. split; [|done].
  destruct (_ <? _)%nat; [|done]. constructor; [|done]. by split.
Qed.

Lemma hierarchy_issues_hierarchy hs : Forall is_hierarchy_issue (hierarchy_issues hs).
Proof.
  destruct hs as [|h0 tl]; simpl; [done|].
  apply Forall_app. split; [|apply skip_issues_hierarchy].
  destruct (negb _); [|done]. constructor; [|done]. by split.
Qed.

Lemma hierarchy_issues_of_review text p :
  parts_ok text p → filter is_hierarchy_issue (all_issues p) = hierarchy_issues (rp_hs p).
Proof.
  intros (_ & _ & Hstyle & Himg & Hlink & Hread & Hterm & Habbr & _ & Hnews & Hseo
          & Haud & Hfmt & Hlinks & _).
  unfold all_issues. rewrite !filter_app.
  rewrite (filter_sig sig_style _ (rp_style p)),
    (filter_sig sig_readability _ (rp_read p)),
    (filter_sig sig_terminology _ (rp_term p)),
    (filter_sig sig_abbreviations _ (rp_abbr p)),
    (filter_sig sig_news _ (rp_news p)), (filter_sig sig_seo _ (rp_seo p)),
    (filter_sig sig_audience _ (rp_aud p)), (filter_sig sig_formatting _ (rp_fmt p)),
    (filter_sig sig_links _ (rp_links p));
    try done; try (apply hierarchy_outside; not_in_sig).
  rewrite (filter_none _ (rp_img p)), (filter_none _ (rp_link p)).
  - rewrite (filter_all _ (hierarchy_issues _)) by apply hierarchy_issues_hierarchy.
    assert (filter is_hierarchy_issue (l_strategic p) = []) as ->.
    { unfold l_strategic. destruct (_ <? _)%float; [|done].
      rewrite filter_cons_False; [done|]. by intros [? _]. }
    cbn [app]. by rewrite !app_nil_r.
  - eapply Forall_impl; [exact Hlink|]. intros i [_ Hm] [_ Hm']. congruence.
  - eapply Forall_impl; [exact Himg|]. intros i [_ Hm] [_ Hm']. congruence.
Qed.

(** No heading is more than one level deeper than the one before it. *)
Definition no_skip (hs : list heading) : Prop :=
  ∀ k hp hc, hs !! k = Some hp → hs !! S k = Some hc → h_level hc ≤ h_level hp + 1.

Lemma skip_issues_none prev hs : no_skip (prev :: hs) → skip_issues prev hs = [].
Proof.
  revert prev. induction hs as [|h hs IH]; intros prev H; [done|].
  cbn [skip_issues]. rewrite IH.
  - pose proof (H 0 prev h eq_refl eq_refl) as H0.
    destruct (Nat.ltb_spec (h_level prev + 1) (h_level h)); [lia|done].
  - intros k hp hc Hp Hc. by apply (H (S k)).
Qed.

Lemma skip_issues_elem prev hs k hp hc :
  (prev :: hs) !! k = Some hp → (prev :: hs) !! S k = Some hc →
  h_level hp + 1 < h_level hc → skip_issue hp hc ∈ skip_issues prev hs.
Proof.
  revert prev k. induction hs as [|h hs IH]; intros prev k Hp Hc Hlt.
  { destruct k; done. }
  cbn [skip_issues]. destruct k as [|k].
  - simpl in Hp, Hc. injection Hp as ->. injection Hc as ->.
    destruct (Nat.ltb_spec (h_level hp + 1) (h_level hc)); [|lia].
    apply elem_of_app. left. by left.
  - apply elem_of_app. right. by apply (IH h k).
Qed.

Lemma review_hierarchy self text :
  ∃ issues sa s' hs,
    review self text = Ok (issues, sa, s')
    ∧ collect_headings (split_char newline text) = Ok hs
    ∧ filter is_hierarchy_issue issues ≡ₚ hierarchy_issues hs.
Proof.
  destruct (review_spec self text) as (p & Hp & E).
  exists (sorted sort_key (all_issues p)), (alignment_of text),
    (final_state self text p), (rp_hs p).
  split; [done|]. split; [apply Hp|].
  rewrite filter_sorted. by erewrite hierarchy_issues_of_review.
Qed.

(** *** Informal abbreviations *)

Lemma informal_outside a n sig :
  ("Style Guide - Abbreviations", ERROR) ∉ sig → outside sig (is_informal a n).
Proof.
  intros Hn i Hi (Hc & Hs & _). apply Hn. unfold has_sig in Hi. by rewrite Hc, Hs in Hi.
Qed.

Lemma informal_of_review text p a n :
  parts_ok text p →
  filter (is_informal a n) (all_issues p) = filter (is_informal a n) (rp_style p).
Proof.
  intros (_ & _ & Hstyle & Himg & Hlink & Hread & Hterm & Habbr & _ & Hnews & Hseo
          & Haud & Hfmt & Hlinks & _).
  unfold all_issues. rewrite !filter_app.
  rewrite (filter_sig sig_accessibility _ (rp_img p)),
    (filter_sig sig_accessibility _ (hierarchy_issues _)),
    (filter_sig sig_accessibility _ (rp_link p)),
    (filter_sig sig_readability _ (rp_read p)),
    (filter_sig sig_terminology _ (rp_term p)),
    (filter_sig sig_abbreviations _ (rp_abbr p)),
    (filter_sig sig_news _ (rp_news p)), (filter_sig sig_seo _ (rp_seo p)),
    (filter_sig sig_audience _ (rp_aud p)), (filter_sig sig_formatting _ (rp_fmt p)),
    (filter_sig sig_links _ (rp_links p));
    try done; try (apply informal_outside; not_in_sig);
    try (by apply image_or_link_sig); try apply hierarchy_issues_sig.
  assert (filter (is_informal a n) (l_strategic p) = []) as ->.
  { unfold l_strategic. destruct (_ <? _)%float; [|done].
    rewrite filter_cons_False; [done|]. by intros [? _]. }
  cbn [app]. by rewrite !app_nil_r.
Qed.

Lemma review_informal self text :
  ∃ issues sa s',
    review self text = Ok (issues, sa, s')
    ∧ ∀ j line e,
        split_char newline text !! j = Some line → e ∈ abbrev_issues →
        filter (is_informal e.1.2 (1 + j)) issues
        = if matches no_flags e.1.1 (lower line)
          then [informal_issue e.1.2 e.2 (1 + j)] else [].
Proof.
  destruct (review_spec self text) as (p & Hp & E).
  exists (sorted sort_key (all_issues p)), (alignment_of text), (final_state self text p).
  split; [done|]. intros j line e Hj He.
  pose proof (informal_of_review text p e.1.2 (1 + j) Hp) as Hw.
  assert (style_facts (enumerate 1 (split_char newline text)) (rp_style p)) as Hf
    by (destruct Hp as (_ & _ & _ & _ & _ & _ & _ & _ & _ & _ & _ & _ & _ & _ & Hf & _);
        exact Hf).
  rewrite Hf, (informal_per_line _ j line e Hj He) in Hw.
  rewrite filter_sorted_short; rewrite Hw; [done|].
  destruct (matches _ _ _); simpl; lia.
Qed.

(** *** The state a review starts from *)

Lemma review_reset self text : review self text = review (reset self text) text.
Proof.
  unfold review.
  change (set_defined_abbreviations _ ∅) with (reset self text) at 1.
  change (set_defined_abbreviations _ ∅) with (reset (reset self text) text).
  reflexivity.
Qed.

Lemma reset_content_type self1 self2 text :
  content_type self1 = content_type self2 → reset self1 text = reset self2 text.
Proof. intros H. unfold reset. by rewrite H. Qed.

Lemma review_final_content_type self text issues sa s' :
  review self text = Ok (issues, sa, s') → content_type s' = content_type self.
Proof.
  destruct (review_spec self text) as (p & _ & E). rewrite E. by intros [= _ _ <-].
Qed.

(** *** Checks that find nothing *)

Lemma check_accessibility_wcag_nothing s :
  re_finditer IGNORECASE img_pattern (content s) = [] →
  collect_headings (content_lines s) = Ok [] →
  re_finditer IGNORECASE link_pattern (content s) = [] →
  check_accessibility_wcag s = Ok s.
Proof.
  intros Hi Hh Hl. unfold check_accessibility_wcag. cbv zeta.
  rewrite Hi. cbn [for_each fold_left]. rewrite Hh, bind_Ok.
  rewrite check_hierarchy_spec. cbn [hierarchy_issues]. rewrite add_issues_nil, bind_Ok.
  by rewrite Hl.
Qed.

Lemma check_readability_empty s : content s = EmptyString → check_readability s = Ok s.
Proof.
  destruct s as [ct iss c cl sa d]. cbn [content]. intros ->. vm_compute. reflexivity.
Qed.

Lemma skip_issues_error prev hs :
  Forall (λ i, severity i = ERROR) (skip_issues prev hs).
Proof.
  revert prev. induction hs as [|h hs IH]; intros prev; cbn [skip_issues]; [done|].
  apply Forall_app. split; [|done].
  destruct (_ <? _)%nat; [|done]. by constructor.
Qed.

Lemma hierarchy_issues_error hs :
  Forall (λ i, severity i = ERROR) (hierarchy_issues hs).
Proof.
  destruct hs as [|h0 tl]; [done|]. cbn [hierarchy_issues].
  apply Forall_app. split; [|apply skip_issues_error].
  destruct (negb _); [|done]. by constructor.
Qed.

End BillieJeanFacts.

(** * Facts about [WMOContentReviewer] *)

Module WMOFacts.
Import Py Re WMOContentReviewer PyFacts ReFacts.

#[global] Instance wmo_Severity_eq_dec : EqDecision Severity.
Proof. solve_decision. Defined.

(** [wmo_add_issues s l]: the object after [l] was appended to its issues. *)
Definition wmo_add_issues (s : t) (l : list Issue) : t :=
  set_issues s (issues s ++ l).

Definition wmo_appends (P : Issue → Prop) (s s' : t) : Prop :=
  ∃ l, s' = wmo_add_issues s l ∧ Forall P l.

Definition wmo_ok_appends (P : Issue → Prop) (s : t) (m : res t) : Prop :=
  ∃ s', m = Ok s' ∧ wmo_appends P s s'.

Definition wmo_has_sig (sig : list (string * Severity)) (i : Issue) : Prop :=
  (category i, severity i) ∈ sig.

Lemma wmo_add_issues_nil s : wmo_add_issues s [] = s.
Proof. destruct s. unfold wmo_add_issues, set_issues. simpl. by rewrite app_nil_r. Qed.

Lemma wmo_add_issues_app s l1 l2 :
  wmo_add_issues (wmo_add_issues s l1) l2 = wmo_add_issues s (l1 ++ l2).
Proof. destruct s. unfold wmo_add_issues, set_issues. simpl. by rewrite (assoc_L (++)). Qed.

Lemma wmo_appends_refl P s : wmo_appends P s s.
Proof. exists []. by rewrite wmo_add_issues_nil. Qed.

Lemma wmo_appends_trans P s1 s2 s3 :
  wmo_appends P s1 s2 → wmo_appends P s2 s3 → wmo_appends P s1 s3.
Proof.
  intros (l1 & -> & H1) (l2 & -> & H2). exists (l1 ++ l2).
  split; [apply wmo_add_issues_app|by apply Forall_app].
Qed.

Lemma wmo_appends_emit P s i : P i → wmo_appends P s (emit s i).
Proof. intros H. exists [i]. split; [done|by constructor]. Qed.

Lemma wmo_appends_for_each {A} P (l : list A) body s :
  (∀ s x, x ∈ l → wmo_appends P s (body s x)) → wmo_appends P s (for_each l s body).
Proof.
  revert s. induction l as [|x l IH]; intros s H; simpl; [apply wmo_appends_refl|].
  eapply wmo_appends_trans; [apply H; by left|].
  apply IH. intros s' y Hy. apply H. by right.
Qed.

Lemma wmo_ok_appends_ret P s s' : wmo_appends P s s' → wmo_ok_appends P s (Ok s').
Proof. intros H. by exists s'. Qed.

Lemma wmo_ok_appends_bind P s m (k : t → res t) :
  wmo_ok_appends P s m → (∀ s', wmo_appends P s s' → wmo_ok_appends P s' (k s')) →
  wmo_ok_appends P s (m ≫= k).
Proof.
  intros (s1 & -> & H1) Hk. destruct (Hk s1 H1) as (s2 & E & H2).
  exists s2. split; [done|]. by eapply wmo_appends_trans.
Qed.

Lemma wmo_ok_appends_for_eachM {A} P (l : list A) body s :
  (∀ s x, x ∈ l → wmo_ok_appends P s (body s x)) →
  wmo_ok_appends P s (for_eachM l s body).
Proof.
  revert s. induction l as [|x l IH]; intros s H; simpl.
  - apply wmo_ok_appends_ret, wmo_appends_refl.
  - apply wmo_ok_appends_bind; [apply H; by left|].
    intros s' _. apply IH. intros s'' y Hy. apply H. by right.
Qed.

Ltac wmo_solve_has_sig :=
  unfold wmo_has_sig; simpl category; simpl severity;
  solve [repeat first [by left | right]].

Ltac wmo_solve_sig :=
  cbv beta;
  first [wmo_solve_has_sig | split; [wmo_solve_has_sig | first [reflexivity | done]]].

Ltac wmo_frame :=
  cbv beta zeta iota;
  lazymatch goal with
  | |- wmo_appends _ ?s ?s => apply wmo_appends_refl
  | |- wmo_appends ?P ?s (emit ?X ?i) =>
      apply (wmo_appends_trans P s X); [wmo_frame | apply wmo_appends_emit; wmo_solve_sig]
  | |- wmo_appends ?P ?s (for_each ?l ?X ?f) =>
      apply (wmo_appends_trans P s X);
      [wmo_frame | apply wmo_appends_for_each; intros ? ? _; wmo_frame]
  | |- wmo_appends _ _ (if ?c then _ else _) => destruct c; wmo_frame
  | |- wmo_appends _ _ (match ?o with _ => _ end) => destruct o; wmo_frame
  end.

Ltac wmo_framem :=
  cbv beta zeta iota;
  lazymatch goal with
  | |- wmo_ok_appends _ _ (Ok _) => apply wmo_ok_appends_ret; wmo_frame
  | |- wmo_ok_appends _ _ (if ?c then _ else _) => destruct c; wmo_framem
  | |- wmo_ok_appends _ _ (@mbind res _ t t _ _) =>
      apply wmo_ok_appends_bind; [wmo_framem | intros ? _; wmo_framem]
  end.

Definition wmo_sig_terminology : list (string * Severity) := [("Terminology", SUGGESTION)].

Lemma wmo_check_terminology_appends s :
  wmo_appends (wmo_has_sig wmo_sig_terminology) s (check_terminology s).
Proof. unfold check_terminology. wmo_frame. Qed.

Definition wmo_sig_style : list (string * Severity) := [
  ("Style Guide", WARNING); ("Style Guide", SUGGESTION); ("Style Guide", INFO)].

Lemma wmo_check_style_guide_appends s :
  wmo_appends (wmo_has_sig wmo_sig_style) s (check_style_guide s).
Proof. unfold check_style_guide. wmo_frame. Qed.

Definition wmo_sig_grammar : list (string * Severity) := [
  ("Grammar", INFO); ("Grammar", WARNING); ("Clarity", INFO)].

Lemma wmo_check_grammar_and_clarity_appends s :
  wmo_appends (wmo_has_sig wmo_sig_grammar) s (check_grammar_and_clarity s).
Proof. unfold check_grammar_and_clarity. wmo_frame. Qed.

Definition wmo_sig_technical : list (string * Severity) := [
  ("Technical Accuracy", ERROR); ("Technical Accuracy", SUGGESTION)].

Lemma wmo_check_technical_accuracy_appends s :
  wmo_appends (wmo_has_sig wmo_sig_technical) s (check_technical_accuracy s).
Proof. unfold check_technical_accuracy. wmo_frame. Qed.

Definition wmo_sig_accessibility : list (string * Severity) := [
  ("Accessibility", ERROR); ("Accessibility", WARNING)].

Lemma wmo_check_accessibility_ok s :
  wmo_ok_appends (wmo_has_sig wmo_sig_accessibility) s (check_accessibility s).
Proof.
  unfold check_accessibility. cbv zeta. apply wmo_ok_appends_bind.
  - match goal with |- context [findall_group1 ?f ?r ?c] =>
      destruct (findall_group1 f r c) as [|h0 hs'] end.
    + wmo_framem.
    + change (index (h0 :: hs') 0) with (Ok h0). rewrite bind_Ok. wmo_framem.
  - intros s1 _. apply wmo_ok_appends_for_eachM. intros s2 m Hm.
    destruct (need_str_is_Some (group 1 m)) as (g & _ & ->).
    { by eapply (re_finditer_group _ link_pattern); [vm_compute|exact Hm]. }
    rewrite bind_Ok. wmo_framem.
Qed.

Definition wmo_sig_links : list (string * Severity) := [("Links", ERROR); ("Links", WARNING)].

Lemma wmo_check_links_ok s :
  wmo_ok_appends (wmo_has_sig wmo_sig_links) s (check_links s).
Proof.
  unfold check_links. apply wmo_ok_appends_bind.
  - apply wmo_ok_appends_for_eachM. intros s1 m Hm.
    destruct (need_str_is_Some (group 1 m)) as (g & _ & ->).
    { by eapply (re_finditer_group _ html_link_pattern); [vm_compute|exact Hm]. }
    rewrite bind_Ok. wmo_framem.
  - intros s1 _. apply wmo_ok_appends_for_eachM. intros s2 m Hm.
    destruct (need_str_is_Some (group 2 m)) as (g & _ & ->).
    { by eapply (re_finditer_group _ md_link_pattern); [vm_compute|exact Hm]. }
    rewrite bind_Ok. wmo_framem.
Qed.

Definition wmo_sig_seo : list (string * Severity) := [("SEO", WARNING); ("SEO", SUGGESTION)].

Lemma wmo_check_seo_ok s : wmo_ok_appends (wmo_has_sig wmo_sig_seo) s (check_seo s).
Proof.
  unfold check_seo. cbv zeta. apply wmo_ok_appends_bind.
  - destruct (re_search IGNORECASE rx_meta_content _) as [m|] eqn:E.
    + destruct (need_str_is_Some (group 1 m)) as (g & _ & ->).
      { by eapply (re_search_group _ rx_meta_content); [vm_compute|exact E]. }
      rewrite bind_Ok. wmo_framem.
    + wmo_framem.
  - intros s1 _. wmo_framem.
Qed.

(** *** Heading structure *)

Definition jump_issue (hp h : heading) : Issue := {|
  category := "Document Structure";
  severity := WARNING;
  message := "Heading level jumps from H" +:+ str_of_nat (h_level hp)
             +:+ " to H" +:+ str_of_nat (h_level h)
             +:+ ". Maintain sequential hierarchy";
  line_number := h_line h;
  context := take 100 (h_text h) |}.

Definition long_heading_issue (h : heading) : Issue := {|
  category := "Document Structure";
  severity := SUGGESTION;
  message := "Heading is very long (" +:+ str_of_nat (String.length (h_text h))
             +:+ " characters). Consider shortening for clarity";
  line_number := h_line h;
  context := take 100 (h_text h) |}.

(** The issues of the walk over the headings, given the heading before
    the first one, if any. *)
Fixpoint heading_walk (prev : option heading) (hs : list heading) : list Issue :=
  match hs with
  | [] => []
  | h :: hs' =>
      match prev with
      | Some hp => if (h_level hp + 1 <? h_level h)%nat then [jump_issue hp h] else []
      | None => []
      end
      ++ (if (70 <? String.length (h_text h))%nat then [long_heading_issue h] else [])
      ++ heading_walk (Some h) hs'
  end.

Lemma wmo_check_hierarchy_loop headings tl : ∀ pre s,
  headings = pre ++ tl →
  for_eachM (enumerate (length pre) tl) s (λ self '(idx, (line_num, level, text)),
    self ←
      (if (0 <? idx)%nat then
         hp ← index headings (idx - 1);
         let prev_level := h_level hp in
         if (prev_level + 1 <? level)%nat then
           Ok (emit self {|
             category := "Document Structure";
             severity := WARNING;
             message := "Heading level jumps from H" +:+ str_of_nat prev_level
                        +:+ " to H" +:+ str_of_nat level
                        +:+ ". Maintain sequential hierarchy";
             line_number := line_num;
             context := take 100 text |})
         else Ok self
       else Ok self);
    if (70 <? String.length text)%nat then
      Ok (emit self {|
        category := "Document Structure";
        severity := SUGGESTION;
        message := "Heading is very long (" +:+ str_of_nat (String.length text)
                   +:+ " characters). Consider shortening for clarity";
        line_number := line_num;
        context := take 100 text |})
    else Ok self)
  = Ok (wmo_add_issues s (heading_walk (last pre) tl)).
Proof.
  induction tl as [|h tl IH]; intros pre s E.
  - simpl. by rewrite wmo_add_issues_nil.
  - assert (headings = (pre ++ [h]) ++ tl) as E' by by rewrite <-(assoc_L (++)).
    specialize (IH (pre ++ [h])).
    rewrite last_snoc in IH.
    replace (length (pre ++ [h])) with (S (length pre)) in IH
      by (rewrite length_app; simpl; lia).
    cbn [enumerate for_eachM heading_walk]. destruct h as [[line_num level] text].
    change (h_level (line_num, level, text)) with level.
    change (h_text (line_num, level, text)) with text.
    destruct pre as [|p0 pre' _] using rev_ind.
    + cbn [length last]. change (0 <? 0)%nat with false. cbv iota.
      rewrite bind_Ok.
      destruct (70 <? String.length text)%nat; cbv iota; rewrite ?bind_Ok;
        rewrite (IH _ E'); rewrite ?app_nil_l; try done.
      by rewrite <-wmo_add_issues_app.
    + rewrite last_snoc. rewrite length_app. cbn [length].
      replace (length pre' + 1) with (S (length pre')) by lia.
      change (0 <? S (length pre'))%nat with true. cbv iota.
      replace (S (length pre') - 1) with (length pre') by lia.
      assert (index headings (length pre') = Ok p0) as ->.
      { rewrite E, <-(assoc_L (++)). apply index_app_middle. }
      rewrite bind_Ok. cbv zeta.
      rewrite length_app in IH. cbn [length] in IH.
      replace (length pre' + 1) with (S (length pre')) in IH by lia.
      destruct (h_level p0 + 1 <? level)%nat; cbv iota; rewrite bind_Ok;
        destruct (70 <? String.length text)%nat; cbv iota; rewrite ?bind_Ok;
        rewrite (IH _ E'); rewrite ?app_nil_l, <-?wmo_add_issues_app; done.
Qed.

Lemma wmo_check_hierarchy_spec hs s :
  check_hierarchy hs s = Ok (wmo_add_issues s (heading_walk None hs)).
Proof. unfold check_hierarchy. by apply (wmo_check_hierarchy_loop hs hs []). Qed.

(** *** check_abbreviations *)

Lemma length_append a b :
  String.length (a +:+ b) = String.length a + String.length b.
Proof. induction a as [|c a IH]; simpl; [done|by rewrite IH]. Qed.

Lemma append_inj_r q : ∀ a b, a +:+ q = b +:+ q → a = b.
Proof.
  assert (∀ c b, q ≠ String c (b +:+ q)) as Hlen.
  { intros c b H. apply (f_equal String.length) in H. simpl in H.
    rewrite length_append in H. lia. }
  induction a as [|c a IH]; intros [|c' b]; simpl; intros H.
  - done.
  - by apply Hlen in H.
  - symmetry in H. by apply Hlen in H.
  - injection H as -> H. f_equal. by apply IH.
Qed.

Definition abbreviation_message (a : string) : string :=
  "Abbreviation '" +:+ a +:+ "' should be defined on first use".

Lemma abbreviation_message_inj a b :
  abbreviation_message a = abbreviation_message b → a = b.
Proof.
  unfold abbreviation_message. intros H.
  apply (inj (String.app _)) in H. by apply append_inj_r in H.
Qed.

Definition wmo_abbreviation_warning (a : string) (i : nat) (line : string) : Issue := {|
  category := "Abbreviations";
  severity := WARNING;
  message := abbreviation_message a;
  line_number := i;
  context := take 100 (strip line) |}.

(** The body of the loop over [WMO_ABBREVIATIONS], for one line. *)
Definition wmo_abbrev_step (i : nat) (line : string) (st : t * gset string)
    (abbrev : string) : t * gset string :=
  let '(self, defined_abbrevs) := st in
  if contains abbrev line then
    if matches no_flags (rx_defined abbrev) line then
      (self, {[abbrev]} ∪ defined_abbrevs)
    else if bool_decide (abbrev ∉ defined_abbrevs)
            && negb (String.eqb abbrev "WMO") then
      (emit self (wmo_abbreviation_warning abbrev i line),
       {[abbrev]} ∪ defined_abbrevs)
    else (self, defined_abbrevs)
  else (self, defined_abbrevs).

Definition wmo_abbrev_line (st : t * gset string) (il : nat * string)
    : t * gset string :=
  for_each WMO_ABBREVIATIONS st (wmo_abbrev_step il.1 il.2).

(** The lines from number [k] on. *)
Definition wmo_abbrev_run (k : nat) (lines : list string) (st : t * gset string)
    : t * gset string :=
  for_each (enumerate k lines) st wmo_abbrev_line.

Lemma wmo_check_abbreviations_unfold s :
  check_abbreviations s = (wmo_abbrev_run 1 (content_lines s) (s, ∅)).1.
Proof.
  unfold check_abbreviations, wmo_abbrev_run. cbv zeta. f_equal.
  apply for_each_ext. intros s1 [i line].
  unfold wmo_abbrev_line. apply for_each_ext. intros [s2 d] a. reflexivity.
Qed.

(** The warnings of the abbreviation check about [abbrev]. *)
Definition wmo_is_abbreviation_warning (abbrev : string) (i : Issue) : bool :=
  String.eqb (category i) "Abbreviations"
  && bool_decide (severity i = WARNING)
  && String.eqb (message i) (abbreviation_message abbrev).

Definition wmo_warnings_for (abbrev : string) (l : list Issue) : list Issue :=
  filter (λ i, wmo_is_abbreviation_warning abbrev i = true) l.

(** The condition under which a line draws the warning for [a]. *)
Definition wmo_warns (a line : string) (seen : gset string) : bool :=
  contains a line && negb (matches no_flags (rx_defined a) line)
  && bool_decide (a ∉ seen) && negb (String.eqb a "WMO").

Lemma wmo_warnings_for_app a l1 l2 :
  wmo_warnings_for a (l1 ++ l2) = wmo_warnings_for a l1 ++ wmo_warnings_for a l2.
Proof. apply filter_app. Qed.

Lemma wmo_warnings_for_other a b i line :
  b ≠ a → wmo_warnings_for a [wmo_abbreviation_warning b i line] = [].
Proof.
  intros Hne. unfold wmo_warnings_for. rewrite filter_cons_False; [done|].
  unfold wmo_is_abbreviation_warning. cbn [message wmo_abbreviation_warning].
  destruct (String.eqb_spec (abbreviation_message b) (abbreviation_message a))
    as [E|E]; [by apply abbreviation_message_inj in E|].
  by rewrite andb_false_r.
Qed.

Lemma wmo_warnings_for_self a i line :
  wmo_warnings_for a [wmo_abbreviation_warning a i line]
  = [wmo_abbreviation_warning a i line].
Proof.
  unfold wmo_warnings_for. rewrite filter_cons_True; [done|].
  unfold wmo_is_abbreviation_warning.
  cbn [message category severity wmo_abbreviation_warning].
  rewrite !String.eqb_refl. reflexivity.
Qed.

Lemma wmo_abbrev_step_other a i line st b :
  b ≠ a →
  wmo_warnings_for a (issues (wmo_abbrev_step i line st b).1)
  = wmo_warnings_for a (issues st.1)
  ∧ (a ∈ (wmo_abbrev_step i line st b).2 ↔ a ∈ st.2).
Proof.
  intros Hne. destruct st as [s d]. unfold wmo_abbrev_step.
  destruct (contains b line); [|done].
  destruct (matches no_flags (rx_defined b) line).
  { cbn [fst snd]. split; [done|]. rewrite elem_of_union, elem_of_singleton.
    naive_solver. }
  destruct (_ && _); [|done].
  cbn [fst snd issues emit set_issues].
  split.
  - by rewrite wmo_warnings_for_app, wmo_warnings_for_other, app_nil_r.
  - rewrite elem_of_union, elem_of_singleton. naive_solver.
Qed.

Lemma wmo_abbrev_step_self a i line st :
  wmo_warnings_for a (issues (wmo_abbrev_step i line st a).1)
  = wmo_warnings_for a (issues st.1)
    ++ (if wmo_warns a line st.2 then [wmo_abbreviation_warning a i line] else [])
  ∧ (a ∈ (wmo_abbrev_step i line st a).2
     ↔ a ∈ st.2
       ∨ (contains a line = true
          ∧ (matches no_flags (rx_defined a) line = true ∨ a ≠ "WMO"))).
Proof.
  destruct st as [s d]. unfold wmo_abbrev_step, wmo_warns. cbn [fst snd].
  destruct (contains a line); cbn [andb];
    [|rewrite app_nil_r; split; [done|naive_solver]].
  destruct (matches no_flags (rx_defined a) line); cbn [andb negb].
  { cbn [fst snd]. rewrite app_nil_r. split; [done|].
    rewrite elem_of_union, elem_of_singleton. naive_solver. }
  destruct (decide (a ∈ d)) as [Hin|Hin].
  { rewrite bool_decide_eq_false_2 by naive_solver. cbn [andb fst snd].
    rewrite app_nil_r. split; [done|naive_solver]. }
  rewrite bool_decide_eq_true_2 by done. cbn [andb].
  destruct (String.eqb_spec a "WMO") as [Hw|Hw]; cbn [negb fst snd].
  { rewrite app_nil_r. split; [done|naive_solver]. }
  cbn [issues emit set_issues].
  split.
  - by rewrite wmo_warnings_for_app, wmo_warnings_for_self.
  - rewrite elem_of_union, elem_of_singleton. naive_solver.
Qed.

Lemma wmo_warns_ext a line (d1 d2 : gset string) :
  (a ∈ d1 ↔ a ∈ d2) → wmo_warns a line d1 = wmo_warns a line d2.
Proof.
  intros H. unfold wmo_warns.
  by rewrite (bool_decide_ext (a ∉ d1) (a ∉ d2)) by (by rewrite H).
Qed.

Lemma wmo_abbrev_loop_other a i line L : ∀ st,
  a ∉ L →
  wmo_warnings_for a (issues (for_each L st (wmo_abbrev_step i line)).1)
  = wmo_warnings_for a (issues st.1)
  ∧ (a ∈ (for_each L st (wmo_abbrev_step i line)).2 ↔ a ∈ st.2).
Proof.
  induction L as [|b L IH]; intros st Hn; [done|].
  apply not_elem_of_cons in Hn as [Hb HL].
  rewrite for_each_cons.
  destruct (IH (wmo_abbrev_step i line st b) HL) as [-> ->].
  by apply wmo_abbrev_step_other.
Qed.

Lemma wmo_abbrev_loop_self a i line L : ∀ st,
  NoDup L → a ∈ L →
  wmo_warnings_for a (issues (for_each L st (wmo_abbrev_step i line)).1)
  = wmo_warnings_for a (issues st.1)
    ++ (if wmo_warns a line st.2 then [wmo_abbreviation_warning a i line] else [])
  ∧ (a ∈ (for_each L st (wmo_abbrev_step i line)).2
     ↔ a ∈ st.2
       ∨ (contains a line = true
          ∧ (matches no_flags (rx_defined a) line = true ∨ a ≠ "WMO"))).
Proof.
  induction L as [|b L IH]; intros st Hnd Hin; [by apply elem_of_nil in Hin|].
  apply NoDup_cons in Hnd as [Hb Hnd].
  rewrite for_each_cons.
  apply elem_of_cons in Hin as [<-|Hin].
  - destruct (wmo_abbrev_loop_other a i line L (wmo_abbrev_step i line st a) Hb)
      as [-> ->].
    apply wmo_abbrev_step_self.
  - assert (b ≠ a) as Hne by (by intros ->).
    destruct (IH (wmo_abbrev_step i line st b) Hnd Hin) as [-> ->].
    destruct (wmo_abbrev_step_other a i line st b Hne) as [-> Hd].
    rewrite (wmo_warns_ext _ _ _ _ Hd). by rewrite Hd.
Qed.

Lemma wmo_WMO_ABBREVIATIONS_NoDup : NoDup WMO_ABBREVIATIONS.
Proof. apply (bool_decide_unpack _). vm_compute. exact I. Qed.

Lemma wmo_abbrev_line_spec a st il :
  a ∈ WMO_ABBREVIATIONS →
  wmo_warnings_for a (issues (wmo_abbrev_line st il).1)
  = wmo_warnings_for a (issues st.1)
    ++ (if wmo_warns a il.2 st.2 then [wmo_abbreviation_warning a il.1 il.2] else [])
  ∧ (a ∈ (wmo_abbrev_line st il).2
     ↔ a ∈ st.2
       ∨ (contains a il.2 = true
          ∧ (matches no_flags (rx_defined a) il.2 = true ∨ a ≠ "WMO"))).
Proof. apply wmo_abbrev_loop_self, wmo_WMO_ABBREVIATIONS_NoDup. Qed.

Lemma wmo_abbrev_run_cons k line lines st :
  wmo_abbrev_run k (line :: lines) st
  = wmo_abbrev_run (S k) lines (wmo_abbrev_line st (k, line)).
Proof. unfold wmo_abbrev_run. cbn [enumerate]. apply for_each_cons. Qed.

Lemma wmo_abbrev_run_nil k st : wmo_abbrev_run k [] st = st.
Proof. reflexivity. Qed.

Lemma wmo_warns_true a line d :
  wmo_warns a line d = true →
  contains a line = true ∧ matches no_flags (rx_defined a) line = false
  ∧ (a ∉ d) ∧ (a ≠ "WMO").
Proof.
  unfold wmo_warns. intros H.
  apply andb_true_iff in H as [H Hw]. apply andb_true_iff in H as [H Hd].
  apply andb_true_iff in H as [Hc Hf].
  apply bool_decide_eq_true in Hd. apply negb_true_iff in Hf, Hw.
  apply String.eqb_neq in Hw. done.
Qed.

(** Once an abbreviation is in the set, it draws no warning; before
    that, at most one. *)
Lemma wmo_abbrev_run_once a lines : ∀ k st,
  a ∈ WMO_ABBREVIATIONS →
  (a ∈ st.2 →
   wmo_warnings_for a (issues (wmo_abbrev_run k lines st).1)
   = wmo_warnings_for a (issues st.1))
  ∧ (wmo_warnings_for a (issues (wmo_abbrev_run k lines st).1)
     = wmo_warnings_for a (issues st.1)
     ∨ ∃ w, wmo_warnings_for a (issues (wmo_abbrev_run k lines st).1)
            = wmo_warnings_for a (issues st.1) ++ [w]).
Proof.
  induction lines as [|line lines IH]; intros k st Hin.
  { rewrite wmo_abbrev_run_nil. split; [tauto|by left]. }
  rewrite wmo_abbrev_run_cons.
  destruct (wmo_abbrev_line_spec a st (k, line) Hin) as [HW HD].
  destruct (IH (S k) (wmo_abbrev_line st (k, line)) Hin) as [IH1 IH2].
  cbn [fst snd] in *.
  destruct (wmo_warns a line st.2) eqn:Ew.
  - apply wmo_warns_true in Ew as (Hc & Hf & Hd & Hw). split; [done|].
    right. exists (wmo_abbreviation_warning a k line).
    rewrite IH1, HW; [done|]. apply HD. right. split; [done|by right].
  - rewrite app_nil_r in HW. split.
    + intros Hd. rewrite IH1, HW; [done|]. apply HD. by left.
    + rewrite <-HW. done.
Qed.

(** The first line, counting from 0, in which [a] occurs, with the line. *)
Fixpoint wmo_first_line_with (a : string) (lines : list string)
    : option (nat * string) :=
  match lines with
  | [] => None
  | line :: lines' =>
      if contains a line then Some (0, line)
      else (prod_map S id <$> wmo_first_line_with a lines')
  end.

(** An abbreviation that no line defines is warned about on its first
    line, and only there. *)
Lemma wmo_abbrev_run_undefined a lines : ∀ k st,
  a ∈ WMO_ABBREVIATIONS → a ≠ "WMO" →
  Forall (λ line, matches no_flags (rx_defined a) line = false) lines →
  a ∉ st.2 →
  wmo_warnings_for a (issues (wmo_abbrev_run k lines st).1)
  = wmo_warnings_for a (issues st.1)
    ++ match wmo_first_line_with a lines with
       | Some (j, line) => [wmo_abbreviation_warning a (k + j) line]
       | None => []
       end.
Proof.
  induction lines as [|line lines IH]; intros k st Hin Hw Hnd Hd.
  { rewrite wmo_abbrev_run_nil. cbn [wmo_first_line_with]. by rewrite app_nil_r. }
  apply Forall_cons in Hnd as [Hf Hnd].
  rewrite wmo_abbrev_run_cons.
  destruct (wmo_abbrev_line_spec a st (k, line) Hin) as [HW HD].
  cbn [fst snd wmo_first_line_with] in *.
  destruct (contains a line) eqn:Ec.
  - destruct (wmo_abbrev_run_once a lines (S k) (wmo_abbrev_line st (k, line)) Hin)
      as [-> _].
    + rewrite HW. unfold wmo_warns. rewrite Ec, Hf.
      rewrite (bool_decide_eq_true_2 (a ∉ st.2)) by done.
      apply String.eqb_neq in Hw. rewrite Hw. simpl.
      by rewrite Nat.add_0_r.
    + apply HD. right. split; [done|by right].
  - rewrite IH; [|done..|].
    + rewrite HW. unfold wmo_warns. rewrite Ec. simpl. rewrite app_nil_r.
      destruct (wmo_first_line_with a lines) as [[j l]|]; simpl; [|done].
      by rewrite Nat.add_succ_r.
    + rewrite HD. intros [?|[? _]]; done.
Qed.

Definition wmo_sig_abbreviations : list (string * Severity) :=
  [("Abbreviations", WARNING)].

Lemma wmo_abbrev_step_appends i line st a :
  wmo_appends (wmo_has_sig wmo_sig_abbreviations) st.1 (wmo_abbrev_step i line st a).1.
Proof.
  destruct st as [s d]. unfold wmo_abbrev_step. cbn [fst].
  destruct (contains a line); [|apply wmo_appends_refl].
  destruct (matches no_flags (rx_defined a) line); [apply wmo_appends_refl|].
  destruct (_ && _); [|apply wmo_appends_refl].
  apply wmo_appends_emit. by left.
Qed.

Lemma wmo_appends_for_each_fst {A D} P (l : list A) (body : t * D → A → t * D) st :
  (∀ st x, wmo_appends P st.1 (body st x).1) →
  wmo_appends P st.1 (for_each l st body).1.
Proof.
  revert st. induction l as [|x l IH]; intros st H; [apply wmo_appends_refl|].
  rewrite for_each_cons. eapply wmo_appends_trans; [apply H|]. by apply IH.
Qed.

Lemma wmo_check_abbreviations_appends s :
  wmo_appends (wmo_has_sig wmo_sig_abbreviations) s (check_abbreviations s).
Proof.
  rewrite wmo_check_abbreviations_unfold.
  apply (wmo_appends_for_each_fst _ _ _ (s, ∅)). intros st il.
  apply (wmo_appends_for_each_fst _ _ _ st). intros st' a.
  apply wmo_abbrev_step_appends.
Qed.

(** *** Collecting the headings never fails *)

Lemma wmo_html_heading_level line m :
  m ∈ re_finditer IGNORECASE rx_html_heading line →
  ∃ k, (g1 ← need_str (group 1 m); int g1) = Ok k ∧ 1 ≤ k ≤ 6.
Proof.
  intros Hm. unfold rx_html_heading in Hm. cbn [Seq] in Hm.
  apply finditer_group_char in Hm as (d & Hd & ->).
  - simpl need_str. rewrite bind_Ok. by apply int_heading_digit in Hd.
  - cbn. by intros ?%list_elem_of_singleton.
Qed.

Lemma wmo_collect_headings_ok lines : ∃ hs, collect_headings lines = Ok hs.
Proof.
  unfold collect_headings. apply for_eachM_ok. intros hs [i line] _.
  cbv zeta.
  match goal with
  | |- ∃ s', _ ≫= ?k = Ok s' => assert (∀ hs0, ∃ hs', k hs0 = Ok hs') as Hin
  end.
  { intros hs0. apply for_eachM_ok. intros hs2 m Hm.
    destruct (wmo_html_heading_level _ _ Hm) as (k & Hk & _).
    destruct (need_str (group 1 m)) as [g1|]; [|done].
    change (int g1 = Ok k) in Hk. rewrite bind_Ok, Hk, bind_Ok.
    destruct (need_str_is_Some (group 2 m)) as (g2 & _ & ->);
      [by eapply (re_finditer_group _ rx_html_heading); [vm_compute|exact Hm]|].
    rewrite bind_Ok. by eexists. }
  destruct (re_match no_flags rx_md_heading line) as [m|] eqn:E;
    [|rewrite bind_Ok; apply Hin].
  destruct (need_str_is_Some (group 1 m)) as (g1 & _ & ->);
    [by eapply (re_match_group _ rx_md_heading); [vm_compute|exact E]|].
  destruct (need_str_is_Some (group 2 m)) as (g2 & _ & ->);
    [by eapply (re_match_group _ rx_md_heading); [vm_compute|exact E]|].
  rewrite !bind_Ok. apply Hin.
Qed.

Lemma wmo_check_heading_structure_spec s :
  ∃ hs, collect_headings (content_lines s) = Ok hs
    ∧ check_heading_structure s = Ok (wmo_add_issues s (heading_walk None hs)).
Proof.
  destruct (wmo_collect_headings_ok (content_lines s)) as [hs E]. exists hs.
  split; [done|]. unfold check_heading_structure.
  rewrite E, bind_Ok. apply wmo_check_hierarchy_spec.
Qed.

(** *** check_terminology, exactly *)

Definition terminology_issue (msg : string) (i : nat) (line : string) : Issue := {|
  category := "Terminology";
  severity := SUGGESTION;
  message := msg;
  line_number := i;
  context := take 100 (strip line) |}.

(** The issues the loop over [COMMON_ISSUES] emits for one line. *)
Definition terminology_line (il : nat * string) : list Issue :=
  (λ e : regex * string, terminology_issue e.2 il.1 il.2)
  <$> List.filter (λ e : regex * string, matches no_flags e.1 (lower il.2))
                  COMMON_ISSUES.

Lemma wmo_for_each_emit_if {A} (l : list A) (c : A → bool) (g : A → Issue) s :
  for_each l s (λ s x, if c x then emit s (g x) else s)
  = wmo_add_issues s (g <$> List.filter c l).
Proof.
  revert s. induction l as [|x l IH]; intros s.
  - simpl. by rewrite wmo_add_issues_nil.
  - rewrite for_each_cons, IH. cbn [List.filter].
    destruct (c x); [|done]. rewrite fmap_cons.
    change (emit s (g x)) with (wmo_add_issues s [g x]). by rewrite wmo_add_issues_app.
Qed.

Lemma wmo_for_each_add {A} (l : list A) (g : A → list Issue) s :
  for_each l s (λ s x, wmo_add_issues s (g x)) = wmo_add_issues s (l ≫= g).
Proof.
  revert s. induction l as [|x l IH]; intros s.
  - simpl. by rewrite wmo_add_issues_nil.
  - rewrite for_each_cons, IH, bind_cons. by rewrite wmo_add_issues_app.
Qed.

Lemma wmo_check_terminology_spec s :
  check_terminology s
  = wmo_add_issues s (enumerate 1 (content_lines s) ≫= terminology_line).
Proof.
  unfold check_terminology. rewrite <-wmo_for_each_add.
  apply for_each_ext. intros s1 [i line]. cbv zeta.
  unfold terminology_line. rewrite <-wmo_for_each_emit_if.
  apply for_each_ext. by intros s2 [pattern msg].
Qed.

(** The terminology issue with message [msg] at line [n]. *)
Definition is_terminology (msg : string) (n : nat) (i : Issue) : Prop :=
  category i = "Terminology" ∧ message i = msg ∧ line_number i = n.

#[global] Instance is_terminology_dec msg n i : Decision (is_terminology msg n i).
Proof. unfold is_terminology. apply _. Defined.

Lemma terminology_line_number il :
  Forall (λ i, line_number i = il.1) (terminology_line il).
Proof. unfold terminology_line. apply Forall_fmap, Forall_forall. by intros e _. Qed.

Lemma terminology_other_lines msg n (ls : list (nat * string)) :
  Forall (λ il, il.1 ≠ n) ls →
  filter (is_terminology msg n) (ls ≫= terminology_line) = [].
Proof.
  induction 1 as [|il ls Hil Hls IH]; [done|].
  rewrite bind_cons, filter_app, IH, app_nil_r.
  apply filter_none. eapply Forall_impl; [apply terminology_line_number|].
  intros i Hi (_ & _ & Hn). congruence.
Qed.

Lemma wmo_enumerate_ge {A} k (l : list A) : Forall (λ il, k ≤ il.1) (enumerate k l).
Proof.
  revert k. induction l as [|x l IH]; intros k; simpl; [done|].
  constructor; [done|]. eapply Forall_impl; [apply IH|]. simpl. lia.
Qed.

Lemma terminology_this_line msg lines : ∀ k j line,
  lines !! j = Some line →
  filter (is_terminology msg (k + j)) (enumerate k lines ≫= terminology_line)
  = filter (is_terminology msg (k + j)) (terminology_line (k + j, line)).
Proof.
  induction lines as [|l0 lines IH]; intros k j line Hj; [done|].
  cbn [enumerate]. rewrite bind_cons, filter_app. destruct j as [|j].
  - injection Hj as ->. rewrite Nat.add_0_r.
    rewrite terminology_other_lines, app_nil_r; [done|].
    eapply Forall_impl; [apply (wmo_enumerate_ge (S k))|]. simpl. lia.
  - simpl in Hj. rewrite (filter_none _ (terminology_line (k, l0))).
    + replace (k + S j) with (S k + j) by lia. by apply IH.
    + eapply Forall_impl; [apply terminology_line_number|].
      intros i Hi (_ & _ & Hn). simpl in Hi. lia.
Qed.

(** The table names each message once. *)
Lemma terminology_one_entry e n line :
  e ∈ COMMON_ISSUES →
  filter (is_terminology e.2 n) (terminology_line (n, line))
  = if matches no_flags e.1 (lower line) then [terminology_issue e.2 n line] else [].
Proof.
  intros He. unfold terminology_line, COMMON_ISSUES in *. cbn [fst snd List.filter].
  repeat (apply elem_of_cons in He as [->|He]); [..|by apply elem_of_nil in He];
    cbn [fst snd];
    repeat match goal with
    | |- context [matches no_flags ?p ?l] => destruct (matches no_flags p l)
    end;
    cbn [fmap list_fmap fst snd];
    repeat first
      [ rewrite filter_cons_True by (by repeat split)
      | rewrite filter_cons_False by (intros (_ & Hm & _); by vm_compute in Hm) ];
    reflexivity.
Qed.

(** One issue per entry and line, whatever the number of occurrences. *)
Lemma terminology_per_line lines j line e :
  lines !! j = Some line → e ∈ COMMON_ISSUES →
  filter (is_terminology e.2 (1 + j)) (enumerate 1 lines ≫= terminology_line)
  = if matches no_flags e.1 (lower line)
    then [terminology_issue e.2 (1 + j) line] else [].
Proof.
  intros Hj He. rewrite (terminology_this_line _ lines 1 j line Hj).
  by apply terminology_one_entry.
Qed.

(** *** review *)

(** The state [review] starts the checks from. *)
Definition wmo_reset (text : string) : t :=
  {| issues := []; content_lines := split_char newline text; content := text |}.

(** What [review] returns: the parts of the issue list, check by check. *)
Record wmo_review_parts := {
  wp_term : list Issue;
  wp_abbr : list Issue;
  wp_style : list Issue;
  wp_acc : list Issue;
  wp_gram : list Issue;
  wp_tech : list Issue;
  wp_hs : list heading;
  wp_links : list Issue;
  wp_seo : list Issue
}.

Definition wmo_all_issues (p : wmo_review_parts) : list Issue :=
  wp_term p ++ wp_abbr p ++ wp_style p ++ wp_acc p ++ wp_gram p ++ wp_tech p
  ++ heading_walk None (wp_hs p) ++ wp_links p ++ wp_seo p.

Definition wmo_final_state (text : string) (p : wmo_review_parts) : t :=
  {| issues := wmo_all_issues p; content_lines := split_char newline text;
     content := text |}.

Definition wmo_abbreviation_facts (lines : list string) (l : list Issue) : Prop :=
  ∀ a, a ∈ WMO_ABBREVIATIONS →
    length (wmo_warnings_for a l) ≤ 1
    ∧ (a ≠ "WMO" →
       Forall (λ line, matches no_flags (rx_defined a) line = false) lines →
       wmo_warnings_for a l
       = match wmo_first_line_with a lines with
         | Some (j, line) => [wmo_abbreviation_warning a (1 + j) line]
         | None => []
         end).

Definition wmo_parts_ok (text : string) (p : wmo_review_parts) : Prop :=
  collect_headings (split_char newline text) = Ok (wp_hs p)
  ∧ wp_term p = enumerate 1 (split_char newline text) ≫= terminology_line
  ∧ Forall (wmo_has_sig wmo_sig_terminology) (wp_term p)
  ∧ Forall (wmo_has_sig wmo_sig_abbreviations) (wp_abbr p)
  ∧ wmo_abbreviation_facts (split_char newline text) (wp_abbr p)
  ∧ Forall (wmo_has_sig wmo_sig_style) (wp_style p)
  ∧ Forall (wmo_has_sig wmo_sig_accessibility) (wp_acc p)
  ∧ Forall (wmo_has_sig wmo_sig_grammar) (wp_gram p)
  ∧ Forall (wmo_has_sig wmo_sig_technical) (wp_tech p)
  ∧ Forall (wmo_has_sig wmo_sig_links) (wp_links p)
  ∧ Forall (wmo_has_sig wmo_sig_seo) (wp_seo p).

Lemma wmo_abbreviation_facts_of s l :
  check_abbreviations s = wmo_add_issues s l →
  wmo_abbreviation_facts (content_lines s) l.
Proof.
  intros E a Hin.
  assert (wmo_warnings_for a (issues (wmo_abbrev_run 1 (content_lines s) (s, ∅)).1)
          = wmo_warnings_for a (issues s) ++ wmo_warnings_for a l) as Hl.
  { rewrite <-wmo_check_abbreviations_unfold, E.
    destruct s. cbn [issues wmo_add_issues set_issues].
    apply wmo_warnings_for_app. }
  split.
  - destruct (wmo_abbrev_run_once a (content_lines s) 1 (s, ∅) Hin) as [_ [H|[w H]]];
      rewrite Hl in H; cbn [fst] in H.
    + rewrite <-(app_nil_r (wmo_warnings_for a (issues s))) in H at 2.
      apply app_inv_head in H. rewrite H. simpl. lia.
    + apply app_inv_head in H. rewrite H. simpl. lia.
  - intros Hw Hnd.
    rewrite (wmo_abbrev_run_undefined a _ 1 (s, ∅) Hin Hw Hnd) in Hl
      by apply not_elem_of_empty.
    by apply app_inv_head in Hl.
Qed.

Lemma wmo_add_issues_inj s l1 l2 :
  wmo_add_issues s l1 = wmo_add_issues s l2 → l1 = l2.
Proof.
  intros H. apply (f_equal issues) in H. destruct s.
  cbn [issues wmo_add_issues set_issues] in H. by apply app_inv_head in H.
Qed.

Lemma wmo_add_issues_mk iss cl c l :
  wmo_add_issues {| issues := iss; content_lines := cl; content := c |} l
  = {| issues := iss ++ l; content_lines := cl; content := c |}.
Proof. reflexivity. Qed.

Lemma wmo_review_spec self text :
  ∃ p, wmo_parts_ok text p
    ∧ review self text
      = Ok (sorted sort_key (wmo_all_issues p), wmo_final_state text p).
Proof.
  assert (∃ r, review self text = r) as [r Er] by eauto.
  rewrite Er. unfold review in Er.
  change (set_issues _ []) with (wmo_reset text) in Er.
  cbv zeta in Er.
  match type of Er with context [check_terminology ?s] =>
    destruct (wmo_check_terminology_appends s) as (l_term & E & H_term);
    pose proof E as F_term; rewrite wmo_check_terminology_spec in F_term;
    apply wmo_add_issues_inj in F_term; symmetry in F_term;
    rewrite E in Er; clear E end.
  match type of Er with context [check_abbreviations ?s] =>
    destruct (wmo_check_abbreviations_appends s) as (l_abbr & E & H_abbr);
    pose proof (wmo_abbreviation_facts_of s l_abbr E) as F_abbr;
    rewrite E in Er; clear E end.
  match type of Er with context [check_style_guide ?s] =>
    destruct (wmo_check_style_guide_appends s) as (l_style & E & H_style);
    rewrite E in Er; clear E end.
  match type of Er with context [check_accessibility ?s] =>
    destruct (wmo_check_accessibility_ok s) as (s' & E & (l_acc & -> & H_acc));
    rewrite E, bind_Ok in Er; clear E end.
  match type of Er with context [check_grammar_and_clarity ?s] =>
    destruct (wmo_check_grammar_and_clarity_appends s) as (l_gram & E & H_gram);
    rewrite E in Er; clear E end.
  match type of Er with context [check_technical_accuracy ?s] =>
    destruct (wmo_check_technical_accuracy_appends s) as (l_tech & E & H_tech);
    rewrite E in Er; clear E end.
  match type of Er with context [check_heading_structure ?s] =>
    destruct (wmo_check_heading_structure_spec s) as (hs & Ehs & E);
    rewrite E, bind_Ok in Er; clear E end.
  match type of Er with context [check_links ?s] =>
    destruct (wmo_check_links_ok s) as (s' & E & (l_links & -> & H_links));
    rewrite E, bind_Ok in Er; clear E end.
  match type of Er with context [check_seo ?s] =>
    destruct (wmo_check_seo_ok s) as (s' & E & (l_seo & -> & H_seo));
    rewrite E, bind_Ok in Er; clear E end.
  exists {| wp_term := l_term; wp_abbr := l_abbr; wp_style := l_style;
            wp_acc := l_acc; wp_gram := l_gram; wp_tech := l_tech; wp_hs := hs;
            wp_links := l_links; wp_seo := l_seo |}.
  split; [done|].
  rewrite <-Er. unfold wmo_final_state, wmo_all_issues, wmo_reset.
  cbn [wp_term wp_abbr wp_style wp_acc wp_gram wp_tech wp_hs wp_links wp_seo].
  rewrite !wmo_add_issues_mk.
  cbn [issues].
  rewrite app_nil_l, <-!(assoc_L (++)). reflexivity.
Qed.

(** ** Filtering the issue list of a review *)

Definition wmo_outside (sig : list (string * Severity)) (P : Issue → Prop) : Prop :=
  ∀ i, wmo_has_sig sig i → ¬ P i.

Lemma wmo_filter_sig sig (P : Issue → Prop) `{!∀ x, Decision (P x)} l :
  wmo_outside sig P → Forall (wmo_has_sig sig) l → filter P l = [].
Proof.
  intros Ho Hl. apply filter_none. eapply Forall_impl; [done|]. apply Ho.
Qed.

Lemma wmo_filter_sorted (P : Issue → Prop) `{!∀ x, Decision (P x)} l :
  filter P (sorted sort_key l) ≡ₚ filter P l.
Proof. by rewrite sorted_Permutation. Qed.

Lemma wmo_filter_sorted_short (P : Issue → Prop) `{!∀ x, Decision (P x)} l :
  length (filter P l) ≤ 1 → filter P (sorted sort_key l) = filter P l.
Proof. intros Hlen. apply Permutation_short; [apply wmo_filter_sorted|done]. Qed.

Ltac wmo_not_in_sig := apply (bool_decide_unpack _); vm_compute; exact I.

(** *** Abbreviations *)

Lemma wmo_abbreviation_warning_outside a sig :
  ("Abbreviations", WARNING) ∉ sig →
  wmo_outside sig (λ i, wmo_is_abbreviation_warning a i = true).
Proof.
  intros Hn i Hi HP. apply Hn. unfold wmo_has_sig in Hi.
  unfold wmo_is_abbreviation_warning in HP.
  apply andb_true_iff in HP as [HP _]. apply andb_true_iff in HP as [Hc Hs].
  apply String.eqb_eq in Hc. apply bool_decide_eq_true in Hs.
  by rewrite Hc, Hs in Hi.
Qed.

Definition wmo_sig_structure : list (string * Severity) := [
  ("Document Structure", WARNING); ("Document Structure", SUGGESTION)].

Lemma heading_walk_sig prev hs :
  Forall (wmo_has_sig wmo_sig_structure) (heading_walk prev hs).
Proof.
  revert prev. induction hs as [|h hs IH]; intros prev; cbn [heading_walk]; [done|].
  apply Forall_app. split; [|apply Forall_app; split; [|done]].
  - destruct prev as [hp|]; [|done]. destruct (_ <? _)%nat; [|done].
    constructor; [|done]. by left.
  - destruct (_ <? _)%nat; [|done]. constructor; [|done]. right. by left.
Qed.

Lemma wmo_abbreviation_warnings_of_review text p a :
  wmo_parts_ok text p →
  wmo_warnings_for a (wmo_all_issues p) = wmo_warnings_for a (wp_abbr p).
Proof.
  intros (_ & _ & Hterm & Habbr & _ & Hstyle & Hacc & Hgram & Htech & Hlinks & Hseo).
  unfold wmo_all_issues, wmo_warnings_for. rewrite !filter_app.
  rewrite (wmo_filter_sig wmo_sig_terminology _ (wp_term p)),
    (wmo_filter_sig wmo_sig_style _ (wp_style p)),
    (wmo_filter_sig wmo_sig_accessibility _ (wp_acc p)),
    (wmo_filter_sig wmo_sig_grammar _ (wp_gram p)),
    (wmo_filter_sig wmo_sig_technical _ (wp_tech p)),
    (wmo_filter_sig wmo_sig_structure _ (heading_walk None (wp_hs p))),
    (wmo_filter_sig wmo_sig_links _ (wp_links p)),
    (wmo_filter_sig wmo_sig_seo _ (wp_seo p));
    try done; try (apply wmo_abbreviation_warning_outside; wmo_not_in_sig);
    try apply heading_walk_sig.
  cbn [app]. by rewrite !app_nil_r.
Qed.

Lemma wmo_review_abbreviation_warnings self text a :
  a ∈ WMO_ABBREVIATIONS →
  ∃ issues s',
    review self text = Ok (issues, s')
    ∧ length (wmo_warnings_for a issues) ≤ 1
    ∧ (a ≠ "WMO" →
       Forall (λ line, matches no_flags (rx_defined a) line = false)
              (split_char newline text) →
       wmo_warnings_for a issues
       = match wmo_first_line_with a (split_char newline text) with
         | Some (j, line) => [wmo_abbreviation_warning a (1 + j) line]
         | None => []
         end).
Proof.
  intros Hin. destruct (wmo_review_spec self text) as (p & Hp & E).
  exists (sorted sort_key (wmo_all_issues p)), (wmo_final_state text p).
  split; [done|].
  pose proof (wmo_abbreviation_warnings_of_review text p a Hp) as Hw.
  destruct Hp as (_ & _ & _ & _ & Hf & _).
  destruct (Hf a Hin) as [Hlen Hfirst].
  assert (wmo_warnings_for a (sorted sort_key (wmo_all_issues p))
          = wmo_warnings_for a (wp_abbr p)) as ->.
  { rewrite <-Hw. unfold wmo_warnings_for. apply wmo_filter_sorted_short.
    fold (wmo_warnings_for a (wmo_all_issues p)). by rewrite Hw. }
  split; [done|]. apply Hfirst.
Qed.

Lemma wmo_first_line_with_lookup a lines j line :
  wmo_first_line_with a lines = Some (j, line) →
  lines !! j = Some line ∧ contains a line = true
  ∧ ∀ j' l', j' < j → lines !! j' = Some l' → contains a l' = false.
Proof.
  revert j. induction lines as [|l0 lines IH]; intros j; [done|].
  cbn [wmo_first_line_with]. destruct (contains a l0) eqn:Ec.
  - intros [= <- <-]. split; [done|]. split; [done|]. intros j' l' Hj'. lia.
  - destruct (wmo_first_line_with a lines) as [[k l]|]; [|done].
    intros [= <- <-]. destruct (IH k eq_refl) as (Hl & Hc & Hfirst).
    split; [done|]. split; [done|].
    intros [|j'] l' Hj' Hl'; simpl in Hl'.
    + by injection Hl' as <-.
    + apply (Hfirst j'); [lia|done].
Qed.

Lemma wmo_occurs_first a lines j1 l1 :
  lines !! j1 = Some l1 → contains a l1 = true →
  ∃ j line, wmo_first_line_with a lines = Some (j, line) ∧ j ≤ j1.
Proof.
  revert j1. induction lines as [|l0 lines IH]; intros j1 Hl Hc; [done|].
  cbn [wmo_first_line_with]. destruct (contains a l0) eqn:Ec.
  - exists 0, l0. split; [done|lia].
  - destruct j1 as [|j1]; simpl in Hl; [injection Hl as ->; congruence|].
    destruct (IH j1 Hl Hc) as (j & line & -> & Hj).
    exists (S j), line. split; [done|lia].
Qed.

(** *** Heading hierarchy *)

(** The level jumps among consecutive headings. *)
Fixpoint jump_issues (prev : heading) (hs : list heading) : list Issue :=
  match hs with
  | [] => []
  | h :: hs' =>
      (if (h_level prev + 1 <? h_level h)%nat then [jump_issue prev h] else [])
      ++ jump_issues h hs'
  end.

Definition wmo_is_jump (i : Issue) : Prop :=
  category i = "Document Structure" ∧ severity i = WARNING.

#[global] Instance wmo_is_jump_dec i : Decision (wmo_is_jump i).
Proof. unfold wmo_is_jump. apply _. Defined.

Lemma heading_walk_jumps_from prev hs :
  filter wmo_is_jump (heading_walk (Some prev) hs) = jump_issues prev hs.
Proof.
  revert prev. induction hs as [|h hs IH]; intros prev; [done|].
  cbn [heading_walk jump_issues]. rewrite !filter_app, IH. f_equal.
  - destruct (_ <? _)%nat; [|done]. by rewrite filter_cons_True.
  - destruct (70 <? _)%nat; [|done].
    rewrite filter_cons_False; [done|]. by intros [_ ?].
Qed.

Lemma heading_walk_jumps hs :
  filter wmo_is_jump (heading_walk None hs)
  = match hs with [] => [] | h0 :: tl => jump_issues h0 tl end.
Proof.
  destruct hs as [|h0 tl]; [done|].
  cbn [heading_walk]. rewrite !filter_app, heading_walk_jumps_from.
  destruct (70 <? _)%nat; [|done].
  rewrite filter_cons_False; [done|]. by intros [_ ?].
Qed.

Lemma wmo_jump_outside sig :
  ("Document Structure", WARNING) ∉ sig → wmo_outside sig wmo_is_jump.
Proof.
  intros Hn i Hi [Hc Hs]. apply Hn. unfold wmo_has_sig in Hi. by rewrite Hc, Hs in Hi.
Qed.

Lemma wmo_jumps_of_review text p :
  wmo_parts_ok text p →
  filter wmo_is_jump (wmo_all_issues p)
  = match wp_hs p with [] => [] | h0 :: tl => jump_issues h0 tl end.
Proof.
  intros (_ & _ & Hterm & Habbr & _ & Hstyle & Hacc & Hgram & Htech & Hlinks & Hseo).
  unfold wmo_all_issues. rewrite !filter_app.
  rewrite (wmo_filter_sig wmo_sig_terminology _ (wp_term p)),
    (wmo_filter_sig wmo_sig_abbreviations _ (wp_abbr p)),
    (wmo_filter_sig wmo_sig_style _ (wp_style p)),
    (wmo_filter_sig wmo_sig_accessibility _ (wp_acc p)),
    (wmo_filter_sig wmo_sig_grammar _ (wp_gram p)),
    (wmo_filter_sig wmo_sig_technical _ (wp_tech p)),
    (wmo_filter_sig wmo_sig_links _ (wp_links p)),
    (wmo_filter_sig wmo_sig_seo _ (wp_seo p));
    try done; try (apply wmo_jump_outside; wmo_not_in_sig).
  cbn [app]. rewrite !app_nil_r. apply heading_walk_jumps.
Qed.

Lemma wmo_review_hierarchy self text :
  ∃ issues s' hs,
    review self text = Ok (issues, s')
    ∧ collect_headings (split_char newline text) = Ok hs
    ∧ filter wmo_is_jump issues
      ≡ₚ match hs with [] => [] | h0 :: tl => jump_issues h0 tl end.
Proof.
  destruct (wmo_review_spec self text) as (p & Hp & E).
  exists (sorted sort_key (wmo_all_issues p)), (wmo_final_state text p), (wp_hs p).
  split; [done|]. split; [apply Hp|].
  rewrite wmo_filter_sorted. by erewrite wmo_jumps_of_review.
Qed.

(** *** Terminology *)

Lemma wmo_terminology_outside msg n sig :
  Forall (λ e, e.1 ≠ "Terminology") sig → wmo_outside sig (is_terminology msg n).
Proof.
  intros Hn i Hi [Hc _]. unfold wmo_has_sig in Hi.
  rewrite Forall_forall in Hn. specialize (Hn _ Hi). by simpl in Hn.
Qed.

Lemma wmo_terminology_of_review text p msg n :
  wmo_parts_ok text p →
  filter (is_terminology msg n) (wmo_all_issues p)
  = filter (is_terminology msg n) (wp_term p).
Proof.
  intros (_ & _ & Hterm & Habbr & _ & Hstyle & Hacc & Hgram & Htech & Hlinks & Hseo).
  unfold wmo_all_issues. rewrite !filter_app.
  rewrite (wmo_filter_sig wmo_sig_abbreviations _ (wp_abbr p)),
    (wmo_filter_sig wmo_sig_style _ (wp_style p)),
    (wmo_filter_sig wmo_sig_accessibility _ (wp_acc p)),
    (wmo_filter_sig wmo_sig_grammar _ (wp_gram p)),
    (wmo_filter_sig wmo_sig_technical _ (wp_tech p)),
    (wmo_filter_sig wmo_sig_structure _ (heading_walk None (wp_hs p))),
    (wmo_filter_sig wmo_sig_links _ (wp_links p)),
    (wmo_filter_sig wmo_sig_seo _ (wp_seo p));
    try done; try (apply wmo_terminology_outside; wmo_not_in_sig);
    try apply heading_walk_sig.
  by rewrite !app_nil_r.
Qed.

Lemma wmo_review_terminology self text :
  ∃ issues s',
    review self text = Ok (issues, s')
    ∧ ∀ j line e,
        split_char newline text !! j = Some line → e ∈ COMMON_ISSUES →
        filter (is_terminology e.2 (1 + j)) issues
        = if matches no_flags e.1 (lower line)
          then [terminology_issue e.2 (1 + j) line] else [].
Proof.
  destruct (wmo_review_spec self text) as (p & Hp & E).
  exists (sorted sort_key (wmo_all_issues p)), (wmo_final_state text p).
  split; [done|]. intros j line e Hj He.
  pose proof (wmo_terminology_of_review text p e.2 (1 + j) Hp) as Hw.
  destruct Hp as (_ & Hterm & _).
  rewrite Hterm, (terminology_per_line _ j line e Hj He) in Hw.
  rewrite wmo_filter_sorted_short; rewrite Hw; [done|].
  destruct (matches _ _ _); simpl; lia.
Qed.

(** *** The state a review starts from *)

Lemma wmo_review_reset self text : review self text = review (wmo_reset text) text.
Proof.
  unfold review.
  change (set_issues _ []) with (wmo_reset text) at 1.
  change (set_issues _ []) with (wmo_reset text).
  reflexivity.
Qed.

(** No heading is more than one level deeper than the one before it. *)
Definition wmo_no_skip (hs : list heading) : Prop :=
  ∀ k hp hc, hs !! k = Some hp → hs !! S k = Some hc → h_level hc ≤ h_level hp + 1.

Lemma jump_issues_none prev hs : wmo_no_skip (prev :: hs) → jump_issues prev hs = [].
Proof.
  revert prev. induction hs as [|h hs IH]; intros prev H; [done|].
  cbn [jump_issues]. rewrite IH.
  - pose proof (H 0 prev h eq_refl eq_refl) as H0.
    destruct (Nat.ltb_spec (h_level prev + 1) (h_level h)); [lia|done].
  - intros k hp hc Hp Hc. by apply (H (S k)).
Qed.

Lemma jump_issues_elem prev hs k hp hc :
  (prev :: hs) !! k = Some hp → (prev :: hs) !! S k = Some hc →
  h_level hp + 1 < h_level hc → jump_issue hp hc ∈ jump_issues prev hs.
Proof.
  revert prev k. induction hs as [|h hs IH]; intros prev k Hp Hc Hlt.
  { destruct k; done. }
  cbn [jump_issues]. destruct k as [|k].
  - simpl in Hp, Hc. injection Hp as ->. injection Hc as ->.
    destruct (Nat.ltb_spec (h_level hp + 1) (h_level hc)); [|lia].
    apply elem_of_app. left. by left.
  - apply elem_of_app. right. by apply (IH h k).
Qed.

Lemma jump_issues_warning prev hs :
  Forall (λ i, severity i = WARNING) (jump_issues prev hs).
Proof.
  revert prev. induction hs as [|h hs IH]; intros prev; cbn [jump_issues]; [done|].
  apply Forall_app. split; [|done]. destruct (_ <? _)%nat; [|done]. by constructor.
Qed.

End WMOFacts.

(** * Where the issues point: lines and excerpts *)

Module Bounds.
Import Py PyFacts.

Lemma take_length n s : String.length (take n s) ≤ n.
Proof.
  revert s. induction n as [|n IH]; intros [|c s]; cbn; try lia.
  specialize (IH s). lia.
Qed.

Lemma count_char_take c n s : count_char c (take n s) ≤ count_char c s.
Proof.
  revert s. induction n as [|n IH]; intros [|d s]; cbn; try lia.
  specialize (IH s). lia.
Qed.

Lemma split_char_aux_length sep s : ∀ acc,
  length (split_char_aux sep acc s) = count_char sep s + 1.
Proof.
  induction s as [|c s IH]; intros acc; cbn [split_char_aux count_char]; [done|].
  rewrite (Ascii.eqb_sym sep c).
  destruct (Ascii.eqb c sep); cbn [length]; rewrite IH; lia.
Qed.

(** A text has one line more than it has newlines. *)
Lemma split_char_length sep s :
  length (split_char sep s) = count_char sep s + 1.
Proof. apply split_char_aux_length. Qed.

Lemma enumerate_bounds {A} (l : list A) : ∀ k i x,
  (i, x) ∈ enumerate k l → k ≤ i < k + length l.
Proof.
  induction l as [|y l IH]; intros k i x H; cbn in H.
  { by apply elem_of_nil in H. }
  apply elem_of_cons in H as [[= -> ->]|H]; cbn [length]; [lia|].
  apply IH in H. lia.
Qed.

Lemma enumerate_lookup {A} (l : list A) : ∀ k i x,
  (i, x) ∈ enumerate k l → l !! (i - k) = Some x.
Proof.
  induction l as [|y l IH]; intros k i x H; cbn in H.
  { by apply elem_of_nil in H. }
  apply elem_of_cons in H as [[= -> ->]|H].
  - by rewrite Nat.sub_diag.
  - pose proof (enumerate_bounds _ _ _ _ H) as Hb. apply IH in H.
    replace (i - k) with (S (i - S k)) by lia. done.
Qed.

End Bounds.

Module BillieJeanLines.
Import Py Re BillieJean PyFacts ReFacts BillieJeanFacts Bounds.

Lemma content_add_issues s l : content (add_issues s l) = content s.
Proof. by destruct s. Qed.

Lemma content_lines_add_issues s l : content_lines (add_issues s l) = content_lines s.
Proof. by destruct s. Qed.

Lemma content_type_add_issues s l : content_type (add_issues s l) = content_type s.
Proof. by destruct s. Qed.

(** The reviewer holds a text and its lines. *)
Definition holds_text (s : t) : Prop :=
  content_lines s = split_char newline (content s).

(** An issue that points at the document (line 0) or at one of its [n]
    lines, with an excerpt of at most 100 characters. *)
Definition located (n : nat) (i : ReviewIssue) : Prop :=
  line_number i ≤ n ∧ String.length (context i) ≤ 100.

Lemma line_of_bound s start :
  holds_text s → line_of (content s) start ≤ length (content_lines s).
Proof.
  intros ->. rewrite split_char_length. unfold line_of.
  pose proof (count_char_take newline start (content s)). lia.
Qed.

Lemma appends_for_each_from {A} P (l : list A) body s :
  (∀ l0 x, x ∈ l → appends P (add_issues s l0) (body (add_issues s l0) x)) →
  appends P s (for_each l s body).
Proof.
  intros H.
  assert (∀ l0, Forall P l0 →
            ∃ l', for_each l (add_issues s l0) body = add_issues s l' ∧ Forall P l')
    as Hgen.
  { induction l as [|x l IH]; intros l0 H0; [by exists l0|].
    rewrite for_each_cons.
    destruct (H l0 x ltac:(by left)) as (l1 & -> & H1).
    rewrite add_issues_app.
    apply IH; [intros l2 y Hy; apply H; by right|by apply Forall_app]. }
  destruct (Hgen [] ltac:(done)) as (l' & E & H').
  rewrite add_issues_nil in E. by exists l'.
Qed.

Lemma ok_appends_for_eachM_from {A} P (l : list A) body s :
  (∀ l0 x, x ∈ l → ok_appends P (add_issues s l0) (body (add_issues s l0) x)) →
  ok_appends P s (for_eachM l s body).
Proof.
  intros H.
  assert (∀ l0, Forall P l0 →
            ∃ l', for_eachM l (add_issues s l0) body = Ok (add_issues s l')
                  ∧ Forall P l') as Hgen.
  { induction l as [|x l IH]; intros l0 H0; [by exists l0|].
    cbn [for_eachM].
    destruct (H l0 x ltac:(by left)) as (s1 & -> & (l1 & -> & H1)).
    rewrite bind_Ok, add_issues_app.
    apply IH; [intros l2 y Hy; apply H; by right|by apply Forall_app]. }
  destruct (Hgen [] ltac:(done)) as (l' & E & H').
  rewrite add_issues_nil in E. exists (add_issues s l'). split; [done|by exists l'].
Qed.

(** The state a step starts from is the reviewer with issues appended. *)
Ltac from_base P s X tac :=
  first
    [ constr_eq s X
    | let l := fresh "l" in let E := fresh "E" in let Hl := fresh "Hl" in
      assert (appends P s X) as (l & E & Hl) by tac;
      rewrite E; clear E;
      apply (appends_trans P s (add_issues s l)); [by exists l|] ].

Ltac located_leaf :=
  split;
  [ cbn [line_number];
    rewrite ?content_lines_add_issues, ?content_add_issues in *;
    first
      [ lia
      | by apply line_of_bound
      | match goal with
        | H : (_, _) ∈ enumerate 1 _ |- _ => apply enumerate_bounds in H; lia
        end ]
  | cbn [context]; first [cbn; lia | apply take_length] ].

Ltac bframe :=
  cbv beta zeta iota;
  lazymatch goal with
  | |- appends _ ?s ?s => apply appends_refl
  | |- appends ?P ?s (emit ?X ?i) =>
      from_base P s X bframe; apply appends_emit; located_leaf
  | |- appends ?P ?s (for_each ?l ?X ?f) =>
      from_base P s X bframe;
      apply appends_for_each_from; intros ? ? ?; bframe
  | |- appends _ _ (if ?c then _ else _) => destruct c; bframe
  | |- appends _ _ (match ?o with _ => _ end) => destruct o; bframe
  end.

Lemma check_terminology_located s :
  appends (located (length (content_lines s))) s (check_terminology s).
Proof. unfold check_terminology. bframe. Qed.

Lemma check_style_guide_compliance_located s :
  appends (located (length (content_lines s))) s (check_style_guide_compliance s).
Proof. unfold check_style_guide_compliance. bframe. Qed.

Lemma check_formatting_located s :
  holds_text s →
  appends (located (length (content_lines s))) s (check_formatting s).
Proof. intros Hs. unfold check_formatting. bframe. Qed.

Lemma check_news_article_standards_located s :
  appends (located (length (content_lines s))) s (check_news_article_standards s).
Proof.
  unfold check_news_article_standards. cbv zeta.
  destruct (List.find _ (enumerate 1 (content_lines s))) as [[i line]|] eqn:E;
    [apply find_some in E as [E _]; apply list_elem_of_In in E|]; bframe.
Qed.

Ltac bframem :=
  cbv beta zeta iota;
  lazymatch goal with
  | |- ok_appends _ _ (Ok _) => apply ok_appends_ret; bframe
  | |- ok_appends _ _ (if ?c then _ else _) => destruct c; bframem
  | |- ok_appends ?P ?s (@mbind res _ t t _ _) =>
      apply ok_appends_bind; [bframem | intros ? (? & -> & _); bframem]
  end.

Lemma check_readability_located s :
  ok_appends (located (length (content_lines s))) s (check_readability s).
Proof.
  unfold check_readability. cbv zeta.
  destruct (length (List.filter _ _)) as [|n].
  - change (0 <? 0)%nat with false. cbv iota. bframem.
  - change (0 <? S n)%nat with true. cbv iota.
    unfold truediv at 1. rewrite bind_Ok. bframem.
Qed.

Lemma check_seo_located s :
  ok_appends (located (length (content_lines s))) s (check_seo s).
Proof.
  unfold check_seo. cbv zeta.
  destruct (matches IGNORECASE rx_meta_description (content s));
    destruct (contains "<meta" (lower (content s)));
    cbn [negb andb]; cbv beta iota; try bframem;
    (destruct (re_search IGNORECASE rx_meta_content (content s)) as [m|] eqn:E;
      [|bframem]);
    (destruct (need_str_is_Some (group 1 m)) as (g & _ & ->);
      [by eapply (re_search_group _ rx_meta_content); [vm_compute|exact E]|]);
    rewrite bind_Ok; bframem.
Qed.

Lemma check_target_audience_located s :
  ok_appends (located (length (content_lines s))) s (check_target_audience s).
Proof.
  unfold check_target_audience. cbv zeta.
  destruct (length (split_ws (content s))) as [|n].
  - change (0 <? 0)%nat with false. cbv iota. rewrite bind_Ok. bframem.
  - change (0 <? S n)%nat with true. cbv iota.
    unfold truediv. rewrite !bind_Ok.
    destruct (_ <? _)%float; bframem.
Qed.

Lemma check_links_and_references_located s :
  holds_text s →
  ok_appends (located (length (content_lines s))) s (check_links_and_references s).
Proof.
  intros Hs. unfold check_links_and_references.
  apply ok_appends_bind.
  - apply ok_appends_for_eachM_from. intros l0 m Hm.
    destruct (need_str_is_Some (group 1 m)) as (g & _ & ->).
    { by eapply (re_finditer_group _ rx_html_link); [vm_compute|exact Hm]. }
    rewrite bind_Ok. bframem.
  - intros s1 (l1 & -> & _). apply ok_appends_for_eachM_from. intros l0 m Hm.
    destruct (need_str_is_Some (group 2 m)) as (g & _ & ->).
    { by eapply (re_finditer_group _ rx_md_link); [vm_compute|exact Hm]. }
    rewrite bind_Ok. bframem.
Qed.

(** *** The headings and their lines *)

Lemma for_eachM_invariant {A S} (I : S → Prop) (l : list A) (body : S → A → res S) :
  ∀ s, I s →
  (∀ s x, x ∈ l → I s → ∃ s', body s x = Ok s' ∧ I s') →
  ∃ s', for_eachM l s body = Ok s' ∧ I s'.
Proof.
  induction l as [|x l IH]; intros s Hs H; cbn [for_eachM]; [by exists s|].
  destruct (H s x ltac:(by left) Hs) as (s1 & -> & H1). rewrite bind_Ok.
  apply IH; [done|]. intros s' y Hy. apply H. by right.
Qed.

(** Every collected heading is on a line of the text, and has a level
    from 1 to 6 when it is an HTML heading. *)
Lemma collect_headings_lines lines :
  ∃ hs, collect_headings lines = Ok hs
        ∧ Forall (λ h, 1 ≤ h_line h ≤ length lines) hs.
Proof.
  unfold collect_headings.
  apply (for_eachM_invariant (Forall (λ h, 1 ≤ h_line h ≤ length lines))); [done|].
  intros hs [i line] Hi Hhs. apply enumerate_bounds in Hi. cbv zeta.
  match goal with
  | |- ∃ s', _ ≫= ?k = Ok s' ∧ _ =>
      assert (∀ hs0, Forall (λ h, 1 ≤ h_line h ≤ length lines) hs0 →
                ∃ hs', k hs0 = Ok hs'
                       ∧ Forall (λ h, 1 ≤ h_line h ≤ length lines) hs') as Hin
  end.
  { intros hs0 H0.
    apply (for_eachM_invariant (Forall (λ h, 1 ≤ h_line h ≤ length lines))); [done|].
    intros hs2 m Hm H2.
    destruct (html_heading_level _ _ Hm) as (k & Hk & _).
    destruct (need_str (group 1 m)) as [g1|]; [|done].
    change (int g1 = Ok k) in Hk. rewrite bind_Ok, Hk, bind_Ok.
    destruct (need_str_is_Some (group 2 m)) as (g2 & _ & ->);
      [by eapply (re_finditer_group _ rx_html_heading); [vm_compute|exact Hm]|].
    rewrite bind_Ok. eexists. split; [done|].
    apply Forall_app. split; [done|]. constructor; [|done]. cbn. lia. }
  destruct (re_match no_flags rx_md_heading line) as [m|] eqn:E;
    [|rewrite bind_Ok; by apply Hin].
  destruct (need_str_is_Some (group 1 m)) as (g1 & _ & ->);
    [by eapply (re_match_group _ rx_md_heading); [vm_compute|exact E]|].
  destruct (need_str_is_Some (group 2 m)) as (g2 & _ & ->);
    [by eapply (re_match_group _ rx_md_heading); [vm_compute|exact E]|].
  rewrite !bind_Ok. apply Hin.
  apply Forall_app. split; [done|]. constructor; [|done]. cbn. lia.
Qed.

Lemma skip_issues_located n prev hs :
  Forall (λ h, 1 ≤ h_line h ≤ n) hs → Forall (located n) (skip_issues prev hs).
Proof.
  revert prev. induction hs as [|h hs IH]; intros prev H; cbn [skip_issues]; [done|].
  apply Forall_cons in H as [Hh H]. apply Forall_app. split; [|by apply IH].
  destruct (_ <? _)%nat; [|done]. constructor; [|done]. split; cbn; lia.
Qed.

Lemma hierarchy_issues_located n hs :
  Forall (λ h, 1 ≤ h_line h ≤ n) hs → Forall (located n) (hierarchy_issues hs).
Proof.
  destruct hs as [|h0 tl]; [done|]. intros H. apply Forall_cons in H as [H0 H].
  cbn [hierarchy_issues]. apply Forall_app. split; [|by apply skip_issues_located].
  destruct (negb _); [|done]. constructor; [|done]. split; cbn; lia.
Qed.

Lemma check_accessibility_wcag_located s :
  holds_text s →
  ok_appends (located (length (content_lines s))) s (check_accessibility_wcag s).
Proof.
  intros Hs.
  assert (∃ r, check_accessibility_wcag s = r) as [r Er] by eauto.
  rewrite Er. unfold check_accessibility_wcag in Er.
  match type of Er with
  | context [collect_headings (content_lines ?s1)] =>
      assert (appends (located (length (content_lines s))) s s1)
        as (l_img & E1 & H1) by bframe;
      rewrite E1 in Er
  end.
  rewrite content_lines_add_issues in Er.
  destruct (collect_headings_lines (content_lines s)) as (hs & Ehs & Hhs).
  rewrite Ehs, bind_Ok, check_hierarchy_spec, bind_Ok in Er.
  rewrite add_issues_app in Er.
  match type of Er with
  | context [Ok (for_each ?l ?s2 ?f)] =>
      assert (appends (located (length (content_lines s))) s2 (for_each l s2 f))
        as (l_link & E2 & H2) by bframe;
      rewrite E2 in Er
  end.
  rewrite add_issues_app in Er. rewrite <-Er.
  eexists. split; [done|]. eexists. split; [done|].
  repeat (apply Forall_app; split); try done. by apply hierarchy_issues_located.
Qed.

(** *** check_abbreviations *)

Lemma appends_d_weaken (P Q : ReviewIssue → Prop) s s' :
  (∀ i, P i → Q i) → appends_d P s s' → appends_d Q s s'.
Proof.
  intros H (l & d & -> & Hl). exists l, d. split; [done|]. by eapply Forall_impl.
Qed.

Lemma abbrev_step_line i line s e :
  appends_d (λ x, line_number x = i ∧ context x = EmptyString) s (abbrev_step i line s e).
Proof.
  destruct e as [a f]. unfold abbrev_step.
  destruct (contains a line); [|apply appends_d_refl].
  destruct (is_defined a f line).
  { exists [], ({[a]} ∪ defined_abbreviations s). by rewrite add_issues_nil. }
  destruct (_ && _); [|apply appends_d_refl].
  eexists [_], _. split; [done|]. by constructor.
Qed.

Lemma abbrev_run_located lines : ∀ k s,
  appends_d (λ x, k ≤ line_number x < k + length lines ∧ context x = EmptyString)
            s (abbrev_run k lines s).
Proof.
  induction lines as [|line lines IH]; intros k s.
  { rewrite abbrev_run_nil. apply appends_d_refl. }
  rewrite abbrev_run_cons.
  apply (appends_d_trans _ s (abbrev_line s (k, line))).
  - apply (appends_d_weaken (λ x, line_number x = k ∧ context x = EmptyString)).
    + intros x [-> Hc]. cbn [length]. split; [lia|done].
    + unfold abbrev_line. cbn [fst snd]. apply appends_d_for_each. intros s1 e.
      apply abbrev_step_line.
  - eapply appends_d_weaken; [|apply (IH (S k))].
    intros x [Hl Hc]. cbn [length]. split; [lia|done].
Qed.

Lemma check_abbreviations_located s :
  appends_d (located (length (content_lines s))) s (check_abbreviations s).
Proof.
  rewrite check_abbreviations_unfold.
  eapply appends_d_weaken; [|apply (abbrev_run_located (content_lines s) 1 s)].
  intros x [Hl Hc]. split; [lia|]. rewrite Hc. cbn. lia.
Qed.

(** *** review *)

Lemma holds_text_reset self text : holds_text (reset self text).
Proof. reflexivity. Qed.

(** Every issue of a review points at the document or at one of its
    lines, with an excerpt of at most 100 characters. *)
Lemma news_step_located s :
  appends (located (length (content_lines s))) s
    match content_type s with
    | NEWS_ARTICLE => check_news_article_standards s
    | _ => s
    end.
Proof.
  destruct (content_type s);
    [apply appends_refl|apply check_news_article_standards_located|apply appends_refl].
Qed.

Lemma holds_text_mk ct iss text sa d :
  holds_text {| content_type := ct; issues := iss; content := text;
                content_lines := split_char newline text;
                strategic_alignment := sa; defined_abbreviations := d |}.
Proof. reflexivity. Qed.

Ltac normalise_in H :=
  repeat first [rewrite set_strategic_alignment_mk in H | rewrite add_issues_mk in H
               | rewrite set_defined_abbreviations_mk in H].

Lemma review_located self text :
  ∃ l s',
    review self text = Ok (sorted sort_key l, alignment_of text, s')
    ∧ Forall (located (length (split_char newline text))) l.
Proof.
  assert (∃ r, review self text = r) as [r Er] by eauto.
  rewrite Er. unfold review in Er.
  change (set_defined_abbreviations _ ∅) with (reset self text) in Er.
  cbv zeta in Er.
  destruct (check_strategic_alignment_spec (reset self text) eq_refl)
    as (cov & Ecov & E1).
  change (content (reset self text)) with text in Ecov, E1.
  rewrite E1, bind_Ok in Er. cbv zeta in Er. rewrite emit_if in Er. clear E1.
  assert (Forall (located (length (split_char newline text)))
                 (if (cov <? 20)%float then [strategic_issue] else []))
    as H_strat.
  { destruct (_ <? _)%float; [|done]. constructor; [|done]. split; cbn; lia. }
  unfold reset in Er. normalise_in Er.
  match type of Er with context [check_style_guide_compliance ?s] =>
    destruct (check_style_guide_compliance_located s) as (l_style & E & H_style);
    cbn [content_lines] in H_style;
    rewrite E in Er; clear E end.
  normalise_in Er.
  match type of Er with context [check_accessibility_wcag ?s] =>
    destruct (check_accessibility_wcag_located s (holds_text_mk _ _ _ _ _))
      as (s' & E & (l_acc & -> & H_acc));
    cbn [content_lines] in H_acc;
    rewrite E, bind_Ok in Er; clear E end.
  normalise_in Er.
  match type of Er with context [check_readability ?s] =>
    destruct (check_readability_located s) as (s' & E & (l_read & -> & H_read));
    cbn [content_lines] in H_read;
    rewrite E, bind_Ok in Er; clear E end.
  normalise_in Er.
  match type of Er with context [check_terminology ?s] =>
    destruct (check_terminology_located s) as (l_term & E & H_term);
    cbn [content_lines] in H_term;
    rewrite E in Er; clear E end.
  normalise_in Er.
  match type of Er with context [check_abbreviations ?s] =>
    destruct (check_abbreviations_located s) as (l_abbr & seen & E & H_abbr);
    cbn [content_lines] in H_abbr;
    rewrite E in Er; clear E end.
  normalise_in Er.
  match type of Er with context [check_news_article_standards ?s] =>
    destruct (news_step_located s) as (l_news & E & H_news);
    cbn [content_lines] in H_news;
    rewrite E in Er; clear E end.
  normalise_in Er.
  match type of Er with context [check_seo ?s] =>
    destruct (check_seo_located s) as (s' & E & (l_seo & -> & H_seo));
    cbn [content_lines] in H_seo;
    rewrite E, bind_Ok in Er; clear E end.
  normalise_in Er.
  match type of Er with context [check_target_audience ?s] =>
    destruct (check_target_audience_located s) as (s' & E & (l_aud & -> & H_aud));
    cbn [content_lines] in H_aud;
    rewrite E, bind_Ok in Er; clear E end.
  normalise_in Er.
  match type of Er with context [check_formatting ?s] =>
    destruct (check_formatting_located s (holds_text_mk _ _ _ _ _))
      as (l_fmt & E & H_fmt);
    cbn [content_lines] in H_fmt;
    rewrite E in Er; clear E end.
  normalise_in Er.
  match type of Er with context [check_links_and_references ?s] =>
    destruct (check_links_and_references_located s (holds_text_mk _ _ _ _ _))
      as (s' & E & (l_links & -> & H_links));
    cbn [content_lines] in H_links;
    rewrite E, bind_Ok in Er; clear E end.
  normalise_in Er.
  cbn [issues strategic_alignment] in Er. rewrite <-Er.
  eexists _, _. split; [reflexivity|].
  repeat (apply Forall_app; split); done.
Qed.

End BillieJeanLines.

Module WMOLines.
Import Py Re WMOContentReviewer PyFacts ReFacts WMOFacts Bounds.

Lemma wmo_content_add_issues s l : content (wmo_add_issues s l) = content s.
Proof. by destruct s. Qed.

Lemma wmo_content_lines_add_issues s l :
  content_lines (wmo_add_issues s l) = content_lines s.
Proof. by destruct s. Qed.

(** The reviewer holds a text and its lines. *)
Definition wmo_holds_text (s : t) : Prop :=
  content_lines s = split_char newline (content s).

(** An issue that points at the document (line 0) or at one of its [n]
    lines; unless it is about a link, its excerpt has at most 100
    characters. *)
Definition wmo_located (n : nat) (i : Issue) : Prop :=
  line_number i ≤ n ∧ (category i ≠ "Links" → String.length (context i) ≤ 100).

Lemma wmo_line_of_bound s start :
  wmo_holds_text s → line_of (content s) start ≤ length (content_lines s).
Proof.
  intros ->. rewrite split_char_length. unfold line_of.
  pose proof (count_char_take newline start (content s)). lia.
Qed.

Lemma wmo_appends_for_each_from {A} P (l : list A) body s :
  (∀ l0 x, x ∈ l →
     wmo_appends P (wmo_add_issues s l0) (body (wmo_add_issues s l0) x)) →
  wmo_appends P s (for_each l s body).
Proof.
  intros H.
  assert (∀ l0, Forall P l0 →
            ∃ l', for_each l (wmo_add_issues s l0) body = wmo_add_issues s l'
                  ∧ Forall P l') as Hgen.
  { induction l as [|x l IH]; intros l0 H0; [by exists l0|].
    rewrite for_each_cons.
    destruct (H l0 x ltac:(by left)) as (l1 & -> & H1).
    rewrite wmo_add_issues_app.
    apply IH; [intros l2 y Hy; apply H; by right|by apply Forall_app]. }
  destruct (Hgen [] ltac:(done)) as (l' & E & H').
  rewrite wmo_add_issues_nil in E. by exists l'.
Qed.

Lemma wmo_ok_appends_for_eachM_from {A} P (l : list A) body s :
  (∀ l0 x, x ∈ l →
     wmo_ok_appends P (wmo_add_issues s l0) (body (wmo_add_issues s l0) x)) →
  wmo_ok_appends P s (for_eachM l s body).
Proof.
  intros H.
  assert (∀ l0, Forall P l0 →
            ∃ l', for_eachM l (wmo_add_issues s l0) body = Ok (wmo_add_issues s l')
                  ∧ Forall P l') as Hgen.
  { induction l as [|x l IH]; intros l0 H0; [by exists l0|].
    cbn [for_eachM].
    destruct (H l0 x ltac:(by left)) as (s1 & -> & (l1 & -> & H1)).
    rewrite bind_Ok, wmo_add_issues_app.
    apply IH; [intros l2 y Hy; apply H; by right|by apply Forall_app]. }
  destruct (Hgen [] ltac:(done)) as (l' & E & H').
  rewrite wmo_add_issues_nil in E. exists (wmo_add_issues s l').
  split; [done|by exists l'].
Qed.

Ltac wmo_from_base P s X tac :=
  first
    [ constr_eq s X
    | let l := fresh "l" in let E := fresh "E" in let Hl := fresh "Hl" in
      assert (wmo_appends P s X) as (l & E & Hl) by tac;
      rewrite E; clear E;
      apply (wmo_appends_trans P s (wmo_add_issues s l)); [by exists l|] ].

Ltac wmo_located_leaf :=
  split;
  [ cbn [line_number];
    rewrite ?wmo_content_lines_add_issues, ?wmo_content_add_issues in *;
    first
      [ lia
      | by apply wmo_line_of_bound
      | match goal with
        | H : (_, _) ∈ enumerate 1 _ |- _ => apply enumerate_bounds in H; lia
        end ]
  | cbn [category context]; intros Hcat;
    first [done | cbn; lia | apply take_length] ].

Ltac wmo_bframe :=
  cbv beta zeta iota;
  lazymatch goal with
  | |- wmo_appends _ ?s ?s => apply wmo_appends_refl
  | |- wmo_appends ?P ?s (emit ?X ?i) =>
      wmo_from_base P s X wmo_bframe; apply wmo_appends_emit; wmo_located_leaf
  | |- wmo_appends ?P ?s (for_each ?l ?X ?f) =>
      wmo_from_base P s X wmo_bframe;
      apply wmo_appends_for_each_from; intros ? ? ?; wmo_bframe
  | |- wmo_appends _ _ (if ?c then _ else _) => destruct c; wmo_bframe
  | |- wmo_appends _ _ (match ?o with _ => _ end) => destruct o; wmo_bframe
  end.

Ltac wmo_bframem :=
  cbv beta zeta iota;
  lazymatch goal with
  | |- wmo_ok_appends _ _ (Ok _) => apply wmo_ok_appends_ret; wmo_bframe
  | |- wmo_ok_appends _ _ (if ?c then _ else _) => destruct c; wmo_bframem
  | |- wmo_ok_appends _ _ (@mbind res _ t t _ _) =>
      apply wmo_ok_appends_bind; [wmo_bframem | intros ? (? & -> & _); wmo_bframem]
  end.

Lemma wmo_check_terminology_located s :
  wmo_appends (wmo_located (length (content_lines s))) s (check_terminology s).
Proof. unfold check_terminology. wmo_bframe. Qed.

Lemma wmo_check_style_guide_located s :
  wmo_appends (wmo_located (length (content_lines s))) s (check_style_guide s).
Proof. unfold check_style_guide. wmo_bframe. Qed.

Lemma wmo_check_grammar_and_clarity_located s :
  wmo_holds_text s →
  wmo_appends (wmo_located (length (content_lines s))) s (check_grammar_and_clarity s).
Proof. intros Hs. unfold check_grammar_and_clarity. wmo_bframe. Qed.

Lemma wmo_check_technical_accuracy_located s :
  wmo_holds_text s →
  wmo_appends (wmo_located (length (content_lines s))) s (check_technical_accuracy s).
Proof. intros Hs. unfold check_technical_accuracy. wmo_bframe. Qed.

Lemma wmo_check_accessibility_located s :
  wmo_holds_text s →
  wmo_ok_appends (wmo_located (length (content_lines s))) s (check_accessibility s).
Proof.
  intros Hs. unfold check_accessibility. cbv zeta. apply wmo_ok_appends_bind.
  - match goal with |- context [findall_group1 ?f ?r ?c] =>
      destruct (findall_group1 f r c) as [|h0 hs'] end.
    + wmo_bframem.
    + change (index (h0 :: hs') 0) with (Ok h0). rewrite bind_Ok. wmo_bframem.
  - intros s1 (l1 & -> & _). apply wmo_ok_appends_for_eachM_from. intros l0 m Hm.
    destruct (need_str_is_Some (group 1 m)) as (g & _ & ->).
    { by eapply (re_finditer_group _ link_pattern); [vm_compute|exact Hm]. }
    rewrite bind_Ok. wmo_bframem.
Qed.

Lemma wmo_check_links_located s :
  wmo_holds_text s →
  wmo_ok_appends (wmo_located (length (content_lines s))) s (check_links s).
Proof.
  intros Hs. unfold check_links. apply wmo_ok_appends_bind.
  - apply wmo_ok_appends_for_eachM_from. intros l0 m Hm.
    destruct (need_str_is_Some (group 1 m)) as (g & _ & ->).
    { by eapply (re_finditer_group _ html_link_pattern); [vm_compute|exact Hm]. }
    rewrite bind_Ok. wmo_bframem.
  - intros s1 (l1 & -> & _). apply wmo_ok_appends_for_eachM_from. intros l0 m Hm.
    destruct (need_str_is_Some (group 2 m)) as (g & _ & ->).
    { by eapply (re_finditer_group _ md_link_pattern); [vm_compute|exact Hm]. }
    rewrite bind_Ok. wmo_bframem.
Qed.

Lemma wmo_check_seo_located s :
  wmo_ok_appends (wmo_located (length (content_lines s))) s (check_seo s).
Proof.
  unfold check_seo. cbv zeta. apply wmo_ok_appends_bind.
  - destruct (re_search IGNORECASE rx_meta_content _) as [m|] eqn:E.
    + destruct (need_str_is_Some (group 1 m)) as (g & _ & ->).
      { by eapply (re_search_group _ rx_meta_content); [vm_compute|exact E]. }
      rewrite bind_Ok. wmo_bframem.
    + wmo_bframem.
  - intros s1 (l1 & -> & _). wmo_bframem.
Qed.

(** *** check_abbreviations *)

Lemma wmo_appends_weaken (P Q : Issue → Prop) s s' :
  (∀ i, P i → Q i) → wmo_appends P s s' → wmo_appends Q s s'.
Proof. intros H (l & -> & Hl). exists l. split; [done|]. by eapply Forall_impl. Qed.

Lemma wmo_abbrev_step_line i line st a :
  wmo_appends (λ x, line_number x = i ∧ String.length (context x) ≤ 100)
              st.1 (wmo_abbrev_step i line st a).1.
Proof.
  destruct st as [s d]. unfold wmo_abbrev_step. cbn [fst].
  destruct (contains a line); [|apply wmo_appends_refl].
  destruct (matches no_flags (rx_defined a) line); [apply wmo_appends_refl|].
  destruct (_ && _); [|apply wmo_appends_refl].
  apply wmo_appends_emit. split; [done|]. apply take_length.
Qed.

Lemma wmo_abbrev_run_located lines : ∀ k st,
  wmo_appends (λ x, k ≤ line_number x < k + length lines
                    ∧ String.length (context x) ≤ 100)
              st.1 (wmo_abbrev_run k lines st).1.
Proof.
  induction lines as [|line lines IH]; intros k st.
  { rewrite wmo_abbrev_run_nil. apply wmo_appends_refl. }
  rewrite wmo_abbrev_run_cons.
  apply (wmo_appends_trans _ st.1 (wmo_abbrev_line st (k, line)).1).
  - apply (wmo_appends_weaken
             (λ x, line_number x = k ∧ String.length (context x) ≤ 100)).
    + intros x [-> Hc]. cbn [length]. split; [lia|done].
    + unfold wmo_abbrev_line. cbn [fst snd].
      apply (wmo_appends_for_each_fst _ _ _ st). intros st' a.
      apply wmo_abbrev_step_line.
  - eapply wmo_appends_weaken; [|apply (IH (S k))].
    intros x [Hl Hc]. cbn [length]. split; [lia|done].
Qed.

Lemma wmo_check_abbreviations_located s :
  wmo_appends (wmo_located (length (content_lines s))) s (check_abbreviations s).
Proof.
  rewrite wmo_check_abbreviations_unfold.
  eapply wmo_appends_weaken;
    [|apply (wmo_abbrev_run_located (content_lines s) 1 (s, ∅))].
  intros x [Hl Hc]. split; [lia|done].
Qed.

(** *** check_heading_structure *)

Lemma wmo_for_eachM_invariant {A S} (I : S → Prop) (l : list A)
    (body : S → A → res S) :
  ∀ s, I s →
  (∀ s x, x ∈ l → I s → ∃ s', body s x = Ok s' ∧ I s') →
  ∃ s', for_eachM l s body = Ok s' ∧ I s'.
Proof.
  induction l as [|x l IH]; intros s Hs H; cbn [for_eachM]; [by exists s|].
  destruct (H s x ltac:(by left) Hs) as (s1 & -> & H1). rewrite bind_Ok.
  apply IH; [done|]. intros s' y Hy. apply H. by right.
Qed.

Lemma wmo_collect_headings_lines lines :
  ∃ hs, collect_headings lines = Ok hs
        ∧ Forall (λ h, 1 ≤ h_line h ≤ length lines) hs.
Proof.
  unfold collect_headings.
  apply (wmo_for_eachM_invariant (Forall (λ h, 1 ≤ h_line h ≤ length lines))); [done|].
  intros hs [i line] Hi Hhs. apply enumerate_bounds in Hi. cbv zeta.
  match goal with
  | |- ∃ s', _ ≫= ?k = Ok s' ∧ _ =>
      assert (∀ hs0, Forall (λ h, 1 ≤ h_line h ≤ length lines) hs0 →
                ∃ hs', k hs0 = Ok hs'
                       ∧ Forall (λ h, 1 ≤ h_line h ≤ length lines) hs') as Hin
  end.
  { intros hs0 H0.
    apply (wmo_for_eachM_invariant (Forall (λ h, 1 ≤ h_line h ≤ length lines)));
      [done|].
    intros hs2 m Hm H2.
    destruct (wmo_html_heading_level _ _ Hm) as (k & Hk & _).
    destruct (need_str (group 1 m)) as [g1|]; [|done].
    change (int g1 = Ok k) in Hk. rewrite bind_Ok, Hk, bind_Ok.
    destruct (need_str_is_Some (group 2 m)) as (g2 & _ & ->);
      [by eapply (re_finditer_group _ rx_html_heading); [vm_compute|exact Hm]|].
    rewrite bind_Ok. eexists. split; [done|].
    apply Forall_app. split; [done|]. constructor; [|done]. cbn. lia. }
  destruct (re_match no_flags rx_md_heading line) as [m|] eqn:E;
    [|rewrite bind_Ok; by apply Hin].
  destruct (need_str_is_Some (group 1 m)) as (g1 & _ & ->);
    [by eapply (re_match_group _ rx_md_heading); [vm_compute|exact E]|].
  destruct (need_str_is_Some (group 2 m)) as (g2 & _ & ->);
    [by eapply (re_match_group _ rx_md_heading); [vm_compute|exact E]|].
  rewrite !bind_Ok. apply Hin.
  apply Forall_app. split; [done|]. constructor; [|done]. cbn. lia.
Qed.

Lemma heading_walk_located n prev hs :
  Forall (λ h, 1 ≤ h_line h ≤ n) hs → Forall (wmo_located n) (heading_walk prev hs).
Proof.
  revert prev. induction hs as [|h hs IH]; intros prev H; cbn [heading_walk]; [done|].
  apply Forall_cons in H as [Hh H].
  apply Forall_app. split; [|apply Forall_app; split; [|by apply IH]].
  - destruct prev as [hp|]; [|done]. destruct (_ <? _)%nat; [|done].
    constructor; [|done]. split; [cbn; lia|]. intros _. apply take_length.
  - destruct (_ <? _)%nat; [|done].
    constructor; [|done]. split; [cbn; lia|]. intros _. apply take_length.
Qed.

Lemma wmo_check_heading_structure_located s :
  wmo_ok_appends (wmo_located (length (content_lines s))) s (check_heading_structure s).
Proof.
  destruct (wmo_collect_headings_lines (content_lines s)) as (hs & E & Hhs).
  unfold check_heading_structure. rewrite E, bind_Ok, wmo_check_hierarchy_spec.
  eexists. split; [done|]. eexists. split; [done|]. by apply heading_walk_located.
Qed.

(** *** review *)

Lemma wmo_holds_text_mk iss text :
  wmo_holds_text {| issues := iss; content_lines := split_char newline text;
                    content := text |}.
Proof. reflexivity. Qed.

(** Every issue of a review points at the document or at one of its
    lines. *)
Lemma wmo_review_located self text :
  ∃ l s',
    review self text = Ok (sorted sort_key l, s')
    ∧ Forall (wmo_located (length (split_char newline text))) l.
Proof.
  assert (∃ r, review self text = r) as [r Er] by eauto.
  rewrite Er. unfold review in Er.
  change (set_issues _ []) with (wmo_reset text) in Er.
  cbv zeta in Er. unfold wmo_reset in Er.
  match type of Er with context [check_terminology ?s] =>
    destruct (wmo_check_terminology_located s) as (l_term & E & H_term);
    cbn [content_lines] in H_term;
    rewrite E in Er; clear E end.
  rewrite ?wmo_add_issues_mk in Er.
  match type of Er with context [check_abbreviations ?s] =>
    destruct (wmo_check_abbreviations_located s) as (l_abbr & E & H_abbr);
    cbn [content_lines] in H_abbr;
    rewrite E in Er; clear E end.
  rewrite ?wmo_add_issues_mk in Er.
  match type of Er with context [check_style_guide ?s] =>
    destruct (wmo_check_style_guide_located s) as (l_style & E & H_style);
    cbn [content_lines] in H_style;
    rewrite E in Er; clear E end.
  rewrite ?wmo_add_issues_mk in Er.
  match type of Er with context [check_accessibility ?s] =>
    destruct (wmo_check_accessibility_located s (wmo_holds_text_mk _ _))
      as (s' & E & (l_acc & -> & H_acc));
    cbn [content_lines] in H_acc;
    rewrite E, bind_Ok in Er; clear E end.
  rewrite ?wmo_add_issues_mk in Er.
  match type of Er with context [check_grammar_and_clarity ?s] =>
    destruct (wmo_check_grammar_and_clarity_located s (wmo_holds_text_mk _ _))
      as (l_gram & E & H_gram);
    cbn [content_lines] in H_gram;
    rewrite E in Er; clear E end.
  rewrite ?wmo_add_issues_mk in Er.
  match type of Er with context [check_technical_accuracy ?s] =>
    destruct (wmo_check_technical_accuracy_located s (wmo_holds_text_mk _ _))
      as (l_tech & E & H_tech);
    cbn [content_lines] in H_tech;
    rewrite E in Er; clear E end.
  rewrite ?wmo_add_issues_mk in Er.
  match type of Er with context [check_heading_structure ?s] =>
    destruct (wmo_check_heading_structure_located s)
      as (s' & E & (l_head & -> & H_head));
    cbn [content_lines] in H_head;
    rewrite E, bind_Ok in Er; clear E end.
  rewrite ?wmo_add_issues_mk in Er.
  match type of Er with context [check_links ?s] =>
    destruct (wmo_check_links_located s (wmo_holds_text_mk _ _))
      as (s' & E & (l_links & -> & H_links));
    cbn [content_lines] in H_links;
    rewrite E, bind_Ok in Er; clear E end.
  rewrite ?wmo_add_issues_mk in Er.
  match type of Er with context [check_seo ?s] =>
    destruct (wmo_check_seo_located s) as (s' & E & (l_seo & -> & H_seo));
    cbn [content_lines] in H_seo;
    rewrite E, bind_Ok in Er; clear E end.
  rewrite ?wmo_add_issues_mk in Er.
  cbn [issues] in Er. rewrite <-Er.
  eexists _, _. split; [reflexivity|].
  repeat (apply Forall_app; split); done.
Qed.

End WMOLines.

(** * The checks inside a review *)

Module BillieJeanSteps.
Import Py Re BillieJean PyFacts ReFacts BillieJeanFacts BillieJeanLines.

(** A state a check of the review of [text] by [self] starts from. *)
Definition at_review (self : t) (text : string) (s : t) : Prop :=
  content_type s = content_type self ∧ content s = text
  ∧ content_lines s = split_char newline text.

(** The step of [review] for the news article standards. *)
Definition news_step (s : t) : t :=
  match content_type s with
  | NEWS_ARTICLE => check_news_article_standards s
  | _ => s
  end.

(** Each part of the issue list is what its check appends to a state of
    the review. *)
Definition steps_ok (self : t) (text : string) (p : review_parts) : Prop :=
  (∃ s, at_review self text s
        ∧ check_style_guide_compliance s = add_issues s (rp_style p))
  ∧ (∃ s, at_review self text s
          ∧ check_accessibility_wcag s
            = Ok (add_issues s (rp_img p ++ hierarchy_issues (rp_hs p) ++ rp_link p)))
  ∧ (∃ s, at_review self text s ∧ check_readability s = Ok (add_issues s (rp_read p)))
  ∧ (∃ s, at_review self text s ∧ check_terminology s = add_issues s (rp_term p))
  ∧ (∃ s, at_review self text s ∧ defined_abbreviations s = ∅
          ∧ check_abbreviations s
            = set_defined_abbreviations (add_issues s (rp_abbr p)) (rp_seen p))
  ∧ (∃ s, at_review self text s ∧ news_step s = add_issues s (rp_news p))
  ∧ (∃ s, at_review self text s ∧ check_seo s = Ok (add_issues s (rp_seo p)))
  ∧ (∃ s, at_review self text s ∧ check_target_audience s = Ok (add_issues s (rp_aud p)))
  ∧ (∃ s, at_review self text s ∧ check_formatting s = add_issues s (rp_fmt p))
  ∧ (∃ s, at_review self text s
          ∧ check_links_and_references s = Ok (add_issues s (rp_links p))).

Lemma at_review_mk self text iss sa d :
  at_review self text
    {| content_type := content_type self; issues := iss; content := text;
       content_lines := split_char newline text;
       strategic_alignment := sa; defined_abbreviations := d |}.
Proof. by repeat split. Qed.

Lemma review_steps self text :
  ∃ p, parts_ok text p ∧ steps_ok self text p
    ∧ review self text
      = Ok (sorted sort_key (all_issues p), alignment_of text,
            final_state self text p).
Proof.
  assert (∃ r, review self text = r) as [r Er] by eauto.
  rewrite Er. unfold review in Er.
  change (set_defined_abbreviations _ ∅) with (reset self text) in Er.
  cbv zeta in Er.
  destruct (check_strategic_alignment_spec (reset self text) eq_refl)
    as (cov & Ecov & E1).
  change (content (reset self text)) with text in Ecov, E1.
  rewrite E1, bind_Ok in Er. cbv zeta in Er. rewrite emit_if in Er. clear E1.
  unfold reset in Er. normalise_in Er.
  match type of Er with context [check_style_guide_compliance ?s] =>
    destruct (check_style_guide_compliance_spec s) as (l_style & E & H_style & F_style);
    cbn [content_lines] in F_style;
    assert (∃ s0, at_review self text s0
                  ∧ check_style_guide_compliance s0 = add_issues s0 l_style) as S_style
      by (exists s; split; [apply at_review_mk|exact E]);
    rewrite E in Er; clear E end.
  normalise_in Er.
  match type of Er with context [check_accessibility_wcag ?s] =>
    destruct (check_accessibility_wcag_spec s)
      as (hs & l_img & l_link & Ehs & E & H_img & H_link);
    cbn [content_lines] in Ehs;
    assert (∃ s0, at_review self text s0
                  ∧ check_accessibility_wcag s0
                    = Ok (add_issues s0 (l_img ++ hierarchy_issues hs ++ l_link)))
      as S_acc by (exists s; split; [apply at_review_mk|exact E]);
    rewrite E, bind_Ok in Er; clear E end.
  normalise_in Er.
  match type of Er with context [check_readability ?s] =>
    destruct (check_readability_ok s) as (s' & E & (l_read & -> & H_read));
    assert (∃ s0, at_review self text s0
                  ∧ check_readability s0 = Ok (add_issues s0 l_read)) as S_read
      by (exists s; split; [apply at_review_mk|exact E]);
    rewrite E, bind_Ok in Er; clear E end.
  normalise_in Er.
  match type of Er with context [check_terminology ?s] =>
    destruct (check_terminology_appends s) as (l_term & E & H_term);
    assert (∃ s0, at_review self text s0
                  ∧ check_terminology s0 = add_issues s0 l_term) as S_term
      by (exists s; split; [apply at_review_mk|exact E]);
    rewrite E in Er; clear E end.
  normalise_in Er.
  match type of Er with context [check_abbreviations ?s] =>
    destruct (check_abbreviations_appends s) as (l_abbr & seen & E & H_abbr);
    pose proof (abbreviation_facts_of s l_abbr seen eq_refl E) as F_abbr;
    pose proof (seen_facts_of s l_abbr seen eq_refl E) as F_seen;
    cbn [content_lines] in F_abbr, F_seen;
    assert (∃ s0, at_review self text s0 ∧ defined_abbreviations s0 = ∅
                  ∧ check_abbreviations s0
                    = set_defined_abbreviations (add_issues s0 l_abbr) seen) as S_abbr
      by (exists s; split; [apply at_review_mk|split; [reflexivity|exact E]]);
    rewrite E in Er; clear E end.
  normalise_in Er.
  match type of Er with context [check_news_article_standards ?s] =>
    destruct (news_step_appends s) as (l_news & E & H_news);
    assert (∃ s0, at_review self text s0 ∧ news_step s0 = add_issues s0 l_news)
      as S_news by (exists s; split; [apply at_review_mk|exact E]);
    rewrite E in Er; clear E end.
  normalise_in Er.
  match type of Er with context [check_seo ?s] =>
    destruct (check_seo_ok s) as (s' & E & (l_seo & -> & H_seo));
    assert (∃ s0, at_review self text s0 ∧ check_seo s0 = Ok (add_issues s0 l_seo))
      as S_seo by (exists s; split; [apply at_review_mk|exact E]);
    rewrite E, bind_Ok in Er; clear E end.
  normalise_in Er.
  match type of Er with context [check_target_audience ?s] =>
    destruct (check_target_audience_ok s) as (s' & E & (l_aud & -> & H_aud));
    assert (∃ s0, at_review self text s0
                  ∧ check_target_audience s0 = Ok (add_issues s0 l_aud))
      as S_aud by (exists s; split; [apply at_review_mk|exact E]);
    rewrite E, bind_Ok in Er; clear E end.
  normalise_in Er.
  match type of Er with context [check_formatting ?s] =>
    destruct (check_formatting_appends s) as (l_fmt & E & H_fmt);
    assert (∃ s0, at_review self text s0 ∧ check_formatting s0 = add_issues s0 l_fmt)
      as S_fmt by (exists s; split; [apply at_review_mk|exact E]);
    rewrite E in Er; clear E end.
  normalise_in Er.
  match type of Er with context [check_links_and_references ?s] =>
    destruct (check_links_and_references_ok s) as (s' & E & (l_links & -> & H_links));
    assert (∃ s0, at_review self text s0
                  ∧ check_links_and_references s0 = Ok (add_issues s0 l_links))
      as S_links by (exists s; split; [apply at_review_mk|exact E]);
    rewrite E, bind_Ok in Er; clear E end.
  normalise_in Er.
  exists {| rp_cov := cov; rp_hs := hs; rp_style := l_style; rp_img := l_img;
            rp_link := l_link; rp_read := l_read; rp_term := l_term;
            rp_abbr := l_abbr; rp_seen := seen; rp_news := l_news; rp_seo := l_seo;
            rp_aud := l_aud; rp_fmt := l_fmt; rp_links := l_links |}.
  split; [done|]. split; [done|].
  rewrite <-Er. unfold final_state, all_issues, l_strategic.
  cbn [rp_cov rp_hs rp_style rp_img rp_link rp_read
       rp_term rp_abbr rp_seen rp_news rp_seo rp_aud rp_fmt rp_links].
  cbn [issues strategic_alignment].
  rewrite app_nil_l, <-!(assoc_L (++)). reflexivity.
Qed.

(** *** The first use of an abbreviation *)

(** The warning, if any, that the first line with [a] draws. *)
Definition first_use_warning (a full : string) (k : nat) (lines : list string)
    : list ReviewIssue :=
  match WMOFacts.wmo_first_line_with a lines with
  | Some (j, line) =>
      if negb (is_defined a full line) && negb (String.eqb a "WMO")
      then [abbreviation_warning_issue a full (k + j)] else []
  | None => []
  end.

Lemma abbrev_run_never_WMO full lines : ∀ k s,
  ("WMO", full) ∈ WMO_ABBREVIATIONS →
  warnings_for "WMO" (issues (abbrev_run k lines s)) = warnings_for "WMO" (issues s).
Proof.
  induction lines as [|line lines IH]; intros k s Hin; [done|].
  rewrite abbrev_run_cons, IH by done.
  destruct (abbrev_line_spec "WMO" full s (k, line) Hin) as [-> _].
  unfold warns. cbn [snd]. by rewrite String.eqb_refl, andb_false_r, app_nil_r.
Qed.

Lemma abbrev_run_first a full lines : ∀ k s,
  (a, full) ∈ WMO_ABBREVIATIONS → a ∉ defined_abbreviations s →
  warnings_for a (issues (abbrev_run k lines s))
  = warnings_for a (issues s) ++ first_use_warning a full k lines.
Proof.
  intros k s Hin. destruct (String.eqb_spec a "WMO") as [->|Hw].
  { intros _. rewrite (abbrev_run_never_WMO full) by done.
    unfold first_use_warning. destruct (WMOFacts.wmo_first_line_with _ _) as [[j l]|];
      by rewrite ?andb_false_r, app_nil_r. }
  revert k s. induction lines as [|line lines IH]; intros k s Hd.
  { rewrite abbrev_run_nil. unfold first_use_warning. cbn. by rewrite app_nil_r. }
  rewrite abbrev_run_cons.
  destruct (abbrev_line_spec a full s (k, line) Hin) as [HW HD].
  unfold first_use_warning. cbn [fst snd WMOFacts.wmo_first_line_with] in *.
  destruct (contains a line) eqn:Ec.
  - destruct (abbrev_run_once a full lines (S k) (abbrev_line s (k, line)) Hin)
      as [-> _].
    + rewrite HW. unfold warns. rewrite Ec.
      rewrite (bool_decide_eq_true_2 (a ∉ defined_abbreviations s)) by done.
      apply String.eqb_neq in Hw. rewrite Hw. cbn [andb negb].
      rewrite andb_true_r, Nat.add_0_r. done.
    + apply HD. right. split; [done|].
      destruct (is_defined a full line); [by left|by right].
  - rewrite IH.
    + rewrite HW. unfold warns. rewrite Ec. cbn [andb]. rewrite app_nil_r.
      unfold first_use_warning.
      destruct (WMOFacts.wmo_first_line_with a lines) as [[j l]|]; cbn; [|done].
      by rewrite Nat.add_succ_r.
    + rewrite HD. intros [?|[? _]]; done.
Qed.

Lemma first_use_warning_of s l d :
  defined_abbreviations s = ∅ →
  check_abbreviations s = set_defined_abbreviations (add_issues s l) d →
  ∀ a full, (a, full) ∈ WMO_ABBREVIATIONS →
    warnings_for a l = first_use_warning a full 1 (content_lines s).
Proof.
  intros Hd E a full Hin.
  assert (warnings_for a (issues (abbrev_run 1 (content_lines s) s))
          = warnings_for a (issues s) ++ warnings_for a l) as Hl.
  { unfold abbrev_run. rewrite <-check_abbreviations_unfold, E.
    destruct s. cbn [issues set_defined_abbreviations add_issues set_issues].
    apply warnings_for_app. }
  rewrite (abbrev_run_first a full _ 1 s Hin) in Hl
    by (rewrite Hd; apply not_elem_of_empty).
  by apply app_inv_head in Hl.
Qed.

Lemma review_first_use self text a full :
  (a, full) ∈ WMO_ABBREVIATIONS →
  ∃ issues sa s',
    review self text = Ok (issues, sa, s')
    ∧ warnings_for a issues = first_use_warning a full 1 (split_char newline text).
Proof.
  intros Hin. destruct (review_steps self text) as (p & Hp & Hs & E).
  eexists _, _, _. split; [exact E|].
  destruct Hs as (_ & _ & _ & _ & (s & (_ & _ & Hl) & Hd & Ea) & _).
  pose proof (first_use_warning_of s _ _ Hd Ea a full Hin) as Hf. rewrite Hl in Hf.
  pose proof (abbreviation_warnings_of_review text p a Hp) as Hw.
  unfold warnings_for at 1. rewrite filter_sorted_short.
  - fold (warnings_for a (all_issues p)). by rewrite Hw.
  - fold (warnings_for a (all_issues p)). rewrite Hw, Hf. unfold first_use_warning.
    destruct (WMOFacts.wmo_first_line_with _ _) as [[j l]|]; [|cbn; lia].
    destruct (_ && _); cbn; lia.
Qed.

Lemma news_step_other s :
  content_type s ≠ NEWS_ARTICLE → news_step s = s.
Proof. unfold news_step. by destruct (content_type s). Qed.

(** The categories of the news article standards. *)
Definition news_categories : list string :=
  ["News Article Standards"; "News Article Standards - Storytelling"].

(** Only the review of a news article runs the news article standards. *)
Lemma review_news_only self text :
  content_type self ≠ NEWS_ARTICLE →
  ∃ issues sa s',
    review self text = Ok (issues, sa, s')
    ∧ Forall (λ i, category i ∉ news_categories) issues.
Proof.
  intros Hct. destruct (review_steps self text) as (p & Hp & Hs & E).
  eexists _, _, _. split; [exact E|].
  destruct Hs as (_ & _ & _ & _ & _ & (s & (Hc & _ & _) & En) & _).
  rewrite news_step_other in En by (by rewrite Hc).
  rewrite <-(add_issues_nil s) in En at 1.
  assert (rp_news p = []) as Hn.
  { apply (f_equal issues) in En. destruct s.
    cbn [issues add_issues set_issues] in En. apply app_inv_head in En. done. }
  rewrite sorted_Permutation.
  destruct Hp as (_ & _ & Hstyle & Himg & Hlink & Hread & Hterm & Habbr & _ & Hnews
                  & Hseo & Haud & Hfmt & Hlinks & _).
  unfold all_issues. rewrite Hn.
  assert (∀ sig l, Forall (has_sig sig) l →
            Forall (λ e, e.1 ∉ news_categories) sig →
            Forall (λ i, category i ∉ news_categories) l) as Hout.
  { intros sig l Hl Hsig. eapply Forall_impl; [exact Hl|].
    intros i Hi. rewrite Forall_forall in Hsig. apply (Hsig _ Hi). }
  repeat (apply Forall_app; split); try done.
  - unfold l_strategic. destruct (_ <? _)%float; [|done].
    constructor; [|done]. not_in_sig.
  - apply (Hout sig_style); [done|]. not_in_sig.
  - apply (Hout sig_accessibility); [by apply image_or_link_sig|]. not_in_sig.
  - apply (Hout sig_accessibility); [apply hierarchy_issues_sig|]. not_in_sig.
  - apply (Hout sig_accessibility); [by apply image_or_link_sig|]. not_in_sig.
  - apply (Hout sig_readability); [done|]. not_in_sig.
  - apply (Hout sig_terminology); [done|]. not_in_sig.
  - apply (Hout sig_abbreviations); [done|]. not_in_sig.
  - apply (Hout sig_seo); [done|]. not_in_sig.
  - apply (Hout sig_audience); [done|]. not_in_sig.
  - apply (Hout sig_formatting); [done|]. not_in_sig.
  - apply (Hout sig_links); [done|]. not_in_sig.
Qed.

End BillieJeanSteps.

Module WMOSteps.
Import Py Re WMOContentReviewer PyFacts ReFacts WMOFacts WMOLines.

(** A state a check of the review of [text] starts from. *)
Definition wmo_at_review (text : string) (s : t) : Prop :=
  content s = text ∧ content_lines s = split_char newline text.

Lemma wmo_at_review_mk text iss :
  wmo_at_review text
    {| issues := iss; content_lines := split_char newline text; content := text |}.
Proof. by split. Qed.

(** Each part of the issue list is what its check appends to a state of
    the review. *)
Definition wmo_steps_ok (text : string) (p : wmo_review_parts) : Prop :=
  (∃ s, wmo_at_review text s ∧ check_terminology s = wmo_add_issues s (wp_term p))
  ∧ (∃ s, wmo_at_review text s ∧ check_abbreviations s = wmo_add_issues s (wp_abbr p))
  ∧ (∃ s, wmo_at_review text s ∧ check_style_guide s = wmo_add_issues s (wp_style p))
  ∧ (∃ s, wmo_at_review text s
          ∧ check_accessibility s = Ok (wmo_add_issues s (wp_acc p)))
  ∧ (∃ s, wmo_at_review text s
          ∧ check_grammar_and_clarity s = wmo_add_issues s (wp_gram p))
  ∧ (∃ s, wmo_at_review text s
          ∧ check_technical_accuracy s = wmo_add_issues s (wp_tech p))
  ∧ (∃ s, wmo_at_review text s ∧ check_links s = Ok (wmo_add_issues s (wp_links p)))
  ∧ (∃ s, wmo_at_review text s ∧ check_seo s = Ok (wmo_add_issues s (wp_seo p))).

Lemma wmo_review_steps self text :
  ∃ p, wmo_parts_ok text p ∧ wmo_steps_ok text p
    ∧ review self text
      = Ok (sorted sort_key (wmo_all_issues p), wmo_final_state text p).
Proof.
  assert (∃ r, review self text = r) as [r Er] by eauto.
  rewrite Er. unfold review in Er.
  change (set_issues _ []) with (wmo_reset text) in Er.
  cbv zeta in Er. unfold wmo_reset in Er.
  match type of Er with context [check_terminology ?s] =>
    destruct (wmo_check_terminology_appends s) as (l_term & E & H_term);
    pose proof E as F_term; rewrite wmo_check_terminology_spec in F_term;
    apply wmo_add_issues_inj in F_term; symmetry in F_term;
    cbn [content_lines] in F_term;
    assert (∃ s0, wmo_at_review text s0
                  ∧ check_terminology s0 = wmo_add_issues s0 l_term) as S_term
      by (exists s; split; [apply wmo_at_review_mk|exact E]);
    rewrite E in Er; clear E end.
  rewrite ?wmo_add_issues_mk in Er.
  match type of Er with context [check_abbreviations ?s] =>
    destruct (wmo_check_abbreviations_appends s) as (l_abbr & E & H_abbr);
    pose proof (wmo_abbreviation_facts_of s l_abbr E) as F_abbr;
    cbn [content_lines] in F_abbr;
    assert (∃ s0, wmo_at_review text s0
                  ∧ check_abbreviations s0 = wmo_add_issues s0 l_abbr) as S_abbr
      by (exists s; split; [apply wmo_at_review_mk|exact E]);
    rewrite E in Er; clear E end.
  rewrite ?wmo_add_issues_mk in Er.
  match type of Er with context [check_style_guide ?s] =>
    destruct (wmo_check_style_guide_appends s) as (l_style & E & H_style);
    assert (∃ s0, wmo_at_review text s0
                  ∧ check_style_guide s0 = wmo_add_issues s0 l_style) as S_style
      by (exists s; split; [apply wmo_at_review_mk|exact E]);
    rewrite E in Er; clear E end.
  rewrite ?wmo_add_issues_mk in Er.
  match type of Er with context [check_accessibility ?s] =>
    destruct (wmo_check_accessibility_ok s) as (s' & E & (l_acc & -> & H_acc));
    assert (∃ s0, wmo_at_review text s0
                  ∧ check_accessibility s0 = Ok (wmo_add_issues s0 l_acc)) as S_acc
      by (exists s; split; [apply wmo_at_review_mk|exact E]);
    rewrite E, bind_Ok in Er; clear E end.
  rewrite ?wmo_add_issues_mk in Er.
  match type of Er with context [check_grammar_and_clarity ?s] =>
    destruct (wmo_check_grammar_and_clarity_appends s) as (l_gram & E & H_gram);
    assert (∃ s0, wmo_at_review text s0
                  ∧ check_grammar_and_clarity s0 = wmo_add_issues s0 l_gram) as S_gram
      by (exists s; split; [apply wmo_at_review_mk|exact E]);
    rewrite E in Er; clear E end.
  rewrite ?wmo_add_issues_mk in Er.
  match type of Er with context [check_technical_accuracy ?s] =>
    destruct (wmo_check_technical_accuracy_appends s) as (l_tech & E & H_tech);
    assert (∃ s0, wmo_at_review text s0
                  ∧ check_technical_accuracy s0 = wmo_add_issues s0 l_tech) as S_tech
      by (exists s; split; [apply wmo_at_review_mk|exact E]);
    rewrite E in Er; clear E end.
  rewrite ?wmo_add_issues_mk in Er.
  match type of Er with context [check_heading_structure ?s] =>
    destruct (wmo_check_heading_structure_spec s) as (hs & Ehs & E);
    cbn [content_lines] in Ehs;
    rewrite E, bind_Ok in Er; clear E end.
  rewrite ?wmo_add_issues_mk in Er.
  match type of Er with context [check_links ?s] =>
    destruct (wmo_check_links_ok s) as (s' & E & (l_links & -> & H_links));
    assert (∃ s0, wmo_at_review text s0
                  ∧ check_links s0 = Ok (wmo_add_issues s0 l_links)) as S_links
      by (exists s; split; [apply wmo_at_review_mk|exact E]);
    rewrite E, bind_Ok in Er; clear E end.
  rewrite ?wmo_add_issues_mk in Er.
  match type of Er with context [check_seo ?s] =>
    destruct (wmo_check_seo_ok s) as (s' & E & (l_seo & -> & H_seo));
    assert (∃ s0, wmo_at_review text s0
                  ∧ check_seo s0 = Ok (wmo_add_issues s0 l_seo)) as S_seo
      by (exists s; split; [apply wmo_at_review_mk|exact E]);
    rewrite E, bind_Ok in Er; clear E end.
  rewrite ?wmo_add_issues_mk in Er.
  exists {| wp_term := l_term; wp_abbr := l_abbr; wp_style := l_style;
            wp_acc := l_acc; wp_gram := l_gram; wp_tech := l_tech; wp_hs := hs;
            wp_links := l_links; wp_seo := l_seo |}.
  split; [done|]. split; [done|].
  rewrite <-Er. unfold wmo_final_state, wmo_all_issues.
  cbn [wp_term wp_abbr wp_style wp_acc wp_gram wp_tech wp_hs wp_links wp_seo].
  cbn [issues].
  rewrite app_nil_l, <-!(assoc_L (++)). reflexivity.
Qed.

(** *** The first use of an abbreviation *)

Definition wmo_first_use_warning (a : string) (k : nat) (lines : list string)
    : list Issue :=
  match wmo_first_line_with a lines with
  | Some (j, line) =>
      if negb (matches no_flags (rx_defined a) line) && negb (String.eqb a "WMO")
      then [wmo_abbreviation_warning a (k + j) line] else []
  | None => []
  end.

Lemma wmo_abbrev_run_never_WMO lines : ∀ k st,
  wmo_warnings_for "WMO" (issues (wmo_abbrev_run k lines st).1)
  = wmo_warnings_for "WMO" (issues st.1).
Proof.
  assert ("WMO" ∈ WMO_ABBREVIATIONS) as Hin by (by left).
  induction lines as [|line lines IH]; intros k st; [done|].
  rewrite wmo_abbrev_run_cons, IH.
  destruct (wmo_abbrev_line_spec "WMO" st (k, line) Hin) as [-> _].
  unfold wmo_warns. cbn [snd]. by rewrite String.eqb_refl, andb_false_r, app_nil_r.
Qed.

Lemma wmo_abbrev_run_first a lines : ∀ k st,
  a ∈ WMO_ABBREVIATIONS → a ∉ st.2 →
  wmo_warnings_for a (issues (wmo_abbrev_run k lines st).1)
  = wmo_warnings_for a (issues st.1) ++ wmo_first_use_warning a k lines.
Proof.
  intros k st Hin. destruct (String.eqb_spec a "WMO") as [->|Hw].
  { intros _. rewrite wmo_abbrev_run_never_WMO.
    unfold wmo_first_use_warning. destruct (wmo_first_line_with _ _) as [[j l]|];
      by rewrite ?andb_false_r, app_nil_r. }
  revert k st. induction lines as [|line lines IH]; intros k st Hd.
  { rewrite wmo_abbrev_run_nil. unfold wmo_first_use_warning. cbn.
    by rewrite app_nil_r. }
  rewrite wmo_abbrev_run_cons.
  destruct (wmo_abbrev_line_spec a st (k, line) Hin) as [HW HD].
  unfold wmo_first_use_warning. cbn [fst snd wmo_first_line_with] in *.
  destruct (contains a line) eqn:Ec.
  - destruct (wmo_abbrev_run_once a lines (S k) (wmo_abbrev_line st (k, line)) Hin)
      as [-> _].
    + rewrite HW. unfold wmo_warns. rewrite Ec.
      rewrite (bool_decide_eq_true_2 (a ∉ st.2)) by done.
      apply String.eqb_neq in Hw. rewrite Hw. cbn [andb negb].
      rewrite andb_true_r, Nat.add_0_r. done.
    + apply HD. right. split; [done|].
      destruct (matches no_flags (rx_defined a) line); [by left|by right].
  - rewrite IH.
    + rewrite HW. unfold wmo_warns. rewrite Ec. cbn [andb]. rewrite app_nil_r.
      unfold wmo_first_use_warning.
      destruct (wmo_first_line_with a lines) as [[j l]|]; cbn; [|done].
      by rewrite Nat.add_succ_r.
    + rewrite HD. intros [?|[? _]]; done.
Qed.

Lemma wmo_first_use_warning_of s l :
  check_abbreviations s = wmo_add_issues s l →
  ∀ a, a ∈ WMO_ABBREVIATIONS →
    wmo_warnings_for a l = wmo_first_use_warning a 1 (content_lines s).
Proof.
  intros E a Hin.
  assert (wmo_warnings_for a (issues (wmo_abbrev_run 1 (content_lines s) (s, ∅)).1)
          = wmo_warnings_for a (issues s) ++ wmo_warnings_for a l) as Hl.
  { rewrite <-wmo_check_abbreviations_unfold, E.
    destruct s. cbn [issues wmo_add_issues set_issues].
    apply wmo_warnings_for_app. }
  rewrite (wmo_abbrev_run_first a _ 1 (s, ∅) Hin) in Hl by apply not_elem_of_empty.
  by apply app_inv_head in Hl.
Qed.

Lemma wmo_review_first_use self text a :
  a ∈ WMO_ABBREVIATIONS →
  ∃ issues s',
    review self text = Ok (issues, s')
    ∧ wmo_warnings_for a issues = wmo_first_use_warning a 1 (split_char newline text).
Proof.
  intros Hin. destruct (wmo_review_steps self text) as (p & Hp & Hs & E).
  eexists _, _. split; [exact E|].
  destruct Hs as (_ & (s & (_ & Hl) & Ea) & _).
  pose proof (wmo_first_use_warning_of s _ Ea a Hin) as Hf. rewrite Hl in Hf.
  pose proof (wmo_abbreviation_warnings_of_review text p a Hp) as Hw.
  unfold wmo_warnings_for at 1. rewrite wmo_filter_sorted_short.
  - fold (wmo_warnings_for a (wmo_all_issues p)). by rewrite Hw.
  - fold (wmo_warnings_for a (wmo_all_issues p)). rewrite Hw, Hf.
    unfold wmo_first_use_warning.
    destruct (wmo_first_line_with _ _) as [[j l]|]; [|cbn; lia].
    destruct (_ && _); cbn; lia.
Qed.

End WMOSteps.

(** * Documents made of heading lines *)

Module HeadingDocs.
Import Py Re PyFacts ReFacts.

(** A line of a document: a Markdown heading or an HTML heading of some
    level, or a line of text. *)
Inductive heading_line : Type :=
  | Md (level : nat)
  | Html (level : nat)
  | Plain.

Definition hashes (k : nat) : string :=
  String.string_of_list_ascii (replicate k "#"%char).

Definition render_line (h : heading_line) : string :=
  match h with
  | Md k => hashes k +:+ " Title"
  | Html k => "<h" +:+ str_of_nat k +:+ ">Title</h" +:+ str_of_nat k +:+ ">"
  | Plain => "plain text"
  end.

(** The heading levels of Markdown and HTML are 1 to 6. *)
Definition valid (h : heading_line) : Prop :=
  match h with
  | Md k | Html k => 1 ≤ k ≤ 6
  | Plain => True
  end.

#[global] Instance valid_dec h : Decision (valid h).
Proof. destruct h; simpl; apply _. Defined.

(** The lines, joined by newlines. *)
Fixpoint render (ls : list heading_line) : string :=
  match ls with
  | [] => EmptyString
  | h :: ls' =>
      match ls' with
      | [] => render_line h
      | _ :: _ => render_line h +:+ String newline (render ls')
      end
  end.

(** The headings of the lines [ls], the first of which is line [i]:
    line, level and text of each heading line. *)
Fixpoint headings_of (i : nat) (ls : list heading_line) : list (nat * nat * string) :=
  match ls with
  | [] => []
  | Md k :: ls' | Html k :: ls' => (i, k, "Title") :: headings_of (S i) ls'
  | Plain :: ls' => headings_of (S i) ls'
  end.

Definition line_headings (i : nat) (h : heading_line) : list (nat * nat * string) :=
  match h with
  | Md k | Html k => [(i, k, "Title")]
  | Plain => []
  end.

Lemma headings_of_cons i h ls :
  headings_of i (h :: ls) = line_headings i h ++ headings_of (S i) ls.
Proof. by destruct h. Qed.

(** The thirteen lines there are. *)
Lemma valid_cases (P : heading_line → Prop) :
  P (Md 1) → P (Md 2) → P (Md 3) → P (Md 4) → P (Md 5) → P (Md 6) →
  P (Html 1) → P (Html 2) → P (Html 3) → P (Html 4) → P (Html 5) → P (Html 6) →
  P Plain → ∀ h, valid h → P h.
Proof.
  intros M1 M2 M3 M4 M5 M6 H1 H2 H3 H4 H5 H6 HP [k|k|] Hv; [| |done];
    simpl in Hv; destruct k as [|[|[|[|[|[|[|k]]]]]]]; try done; lia.
Qed.

Lemma split_render_line h rest :
  valid h →
  split_char newline (render_line h +:+ String newline rest)
  = render_line h :: split_char newline rest.
Proof. revert h. apply valid_cases; reflexivity. Qed.

Lemma split_render_last h :
  valid h → split_char newline (render_line h) = [render_line h].
Proof. revert h. apply valid_cases; reflexivity. Qed.

Lemma split_render ls :
  ls ≠ [] → Forall valid ls → split_char newline (render ls) = render_line <$> ls.
Proof.
  induction ls as [|h ls IH]; [done|]. intros _ Hv.
  apply Forall_cons in Hv as [Hh Hv]. destruct ls as [|h' ls].
  - by apply split_render_last.
  - change (render (h :: h' :: ls))
      with (render_line h +:+ String newline (render (h' :: ls))).
    rewrite split_render_line by done. rewrite IH by done. reflexivity.
Qed.

Lemma collect_headings_render ls :
  ls ≠ [] → Forall valid ls →
  BillieJean.collect_headings (split_char newline (render ls)) = Ok (headings_of 1 ls).
Proof.
  intros Hne Hv. rewrite split_render by done. clear Hne.
  unfold BillieJean.collect_headings.
  match goal with |- for_eachM _ _ ?b = _ => set (body := b) end.
  assert (∀ h, valid h → ∀ i acc,
            body acc (i, render_line h) = Ok (acc ++ line_headings i h)) as Hstep.
  { apply (valid_cases (λ h, ∀ i acc,
             body acc (i, render_line h) = Ok (acc ++ line_headings i h)));
      intros i acc; subst body; cbn [line_headings];
      rewrite ?app_nil_r; vm_compute; reflexivity. }
  assert (∀ i acc, for_eachM (enumerate i (render_line <$> ls)) acc body
                   = Ok (acc ++ headings_of i ls)) as Hall.
  { induction Hv as [|h ls Hh Hv IH]; intros i acc.
    - cbn. by rewrite app_nil_r.
    - cbn [fmap list_fmap enumerate for_eachM]. rewrite Hstep by done.
      rewrite bind_Ok, IH, headings_of_cons. by rewrite (assoc_L (++)). }
  apply (Hall 1 []).
Qed.

Lemma wmo_collect_headings_render ls :
  ls ≠ [] → Forall valid ls →
  WMOContentReviewer.collect_headings (split_char newline (render ls))
  = Ok (headings_of 1 ls).
Proof.
  intros Hne Hv. rewrite split_render by done. clear Hne.
  unfold WMOContentReviewer.collect_headings.
  match goal with |- for_eachM _ _ ?b = _ => set (body := b) end.
  assert (∀ h, valid h → ∀ i acc,
            body acc (i, render_line h) = Ok (acc ++ line_headings i h)) as Hstep.
  { apply (valid_cases (λ h, ∀ i acc,
             body acc (i, render_line h) = Ok (acc ++ line_headings i h)));
      intros i acc; subst body; cbn [line_headings];
      rewrite ?app_nil_r; vm_compute; reflexivity. }
  assert (∀ i acc, for_eachM (enumerate i (render_line <$> ls)) acc body
                   = Ok (acc ++ headings_of i ls)) as Hall.
  { induction Hv as [|h ls Hh Hv IH]; intros i acc.
    - cbn. by rewrite app_nil_r.
    - cbn [fmap list_fmap enumerate for_eachM]. rewrite Hstep by done.
      rewrite bind_Ok, IH, headings_of_cons. by rewrite (assoc_L (++)). }
  apply (Hall 1 []).
Qed.

(** With the short text of these headings, the walk of the simpler
    reviewer reports the level jumps and nothing else. *)
Lemma heading_walk_render prev i ls :
  WMOFacts.heading_walk (Some prev) (headings_of i ls)
  = WMOFacts.jump_issues prev (headings_of i ls).
Proof.
  revert prev i. induction ls as [|h ls IH]; intros prev i; [done|].
  destruct h as [k|k|]; cbn [headings_of]; [| |apply IH];
    cbn [WMOFacts.heading_walk WMOFacts.jump_issues]; by rewrite IH.
Qed.

Lemma heading_walk_render_all ls :
  WMOFacts.heading_walk None (headings_of 1 ls)
  = match headings_of 1 ls with
    | [] => []
    | h0 :: tl => WMOFacts.jump_issues h0 tl
    end.
Proof.
  generalize 1 as i. induction ls as [|h ls IH]; intros i; [done|].
  destruct h as [k|k|]; cbn [headings_of]; [| |apply IH];
    cbn [WMOFacts.heading_walk]; apply heading_walk_render.
Qed.

End HeadingDocs.

(** * The heading rules of the simpler reviewer *)

Module WMOHeadings.
Import Py Re WMOContentReviewer PyFacts ReFacts WMOFacts WMOSteps.

(** The issue of [check_accessibility] about the first HTML heading. *)
Definition page_start_issue : Issue := {|
  category := "Accessibility";
  severity := WARNING;
  message := "Page should start with an H1 heading for proper document structure";
  line_number := 0;
  context := EmptyString |}.

Definition is_page_start (i : Issue) : Prop :=
  category i = "Accessibility"
  ∧ message i = "Page should start with an H1 heading for proper document structure".

#[global] Instance is_page_start_dec i : Decision (is_page_start i).
Proof. unfold is_page_start. apply _. Defined.

(** [headings and headings[0] != '1'], on the HTML headings of the whole
    text. *)
Definition page_start_issues (text : string) : list Issue :=
  match findall_group1 IGNORECASE_DOTALL rx_html_heading_any text with
  | [] => []
  | h0 :: _ => if negb (String.eqb h0 "1") then [page_start_issue] else []
  end.

(** The issues of the heading check. *)
Definition is_structure (i : Issue) : Prop := category i = "Document Structure".

#[global] Instance is_structure_dec i : Decision (is_structure i).
Proof. unfold is_structure. apply _. Defined.

Lemma wmo_content_kept s l : content (wmo_add_issues s l) = content s.
Proof. by destruct s. Qed.

Lemma wmo_check_accessibility_page_start s :
  ∃ l, check_accessibility s = Ok (wmo_add_issues s l)
       ∧ filter is_page_start l = page_start_issues (content s).
Proof.
  unfold check_accessibility. cbv zeta.
  match goal with |- context [for_each ?l s ?b] =>
    assert (wmo_appends (λ i, ¬ is_page_start i) s (for_each l s b))
      as (l1 & -> & H1) end.
  { apply wmo_appends_for_each. intros s1 m _. cbv beta zeta.
    destruct (negb _); [apply wmo_appends_emit; by intros [_ ?]|].
    destruct (matches _ _ _); [apply wmo_appends_emit; by intros [_ ?]|].
    apply wmo_appends_refl. }
  rewrite wmo_content_kept. unfold page_start_issues.
  set (first := match findall_group1 IGNORECASE_DOTALL rx_html_heading_any (content s)
                with
                | [] => []
                | h0 :: _ => if negb (String.eqb h0 "1") then [page_start_issue] else []
                end).
  match goal with |- context [@mbind res _ t t ?k ?m] =>
    assert (m = Ok (wmo_add_issues s (l1 ++ first))) as -> end.
  { subst first.
    destruct (findall_group1 _ _ _) as [|h0 hs'].
    - by rewrite app_nil_r.
    - change (index (h0 :: hs') 0) with (Ok h0). rewrite bind_Ok.
      destruct (negb _); [|by rewrite app_nil_r].
      by rewrite <-wmo_add_issues_app. }
  rewrite bind_Ok.
  match goal with |- context [for_eachM ?l ?s0 ?b] =>
    assert (wmo_ok_appends (λ i, ¬ is_page_start i) s0 (for_eachM l s0 b))
      as (s3 & -> & (l3 & -> & H3)) end.
  { apply wmo_ok_appends_for_eachM. intros s2 m Hm.
    destruct (need_str_is_Some (group 1 m)) as (g & _ & ->).
    { by eapply (re_finditer_group _ link_pattern); [vm_compute|exact Hm]. }
    rewrite bind_Ok. cbv zeta.
    destruct (bool_decide _); apply wmo_ok_appends_ret;
      [apply wmo_appends_emit|apply wmo_appends_refl].
    intros [_ Hmsg]. cbn [message] in Hmsg. discriminate Hmsg. }
  exists ((l1 ++ first) ++ l3). split; [by rewrite wmo_add_issues_app|].
  rewrite !filter_app.
  rewrite (filter_none _ l1), (filter_none _ l3) by done.
  rewrite app_nil_r. cbn [app]. subst first.
  destruct (findall_group1 _ _ _) as [|h0 hs']; [done|].
  destruct (negb _); [|done]. by rewrite filter_cons_True.
Qed.

Lemma wmo_page_start_outside sig :
  Forall (λ e, e.1 ≠ "Accessibility") sig → wmo_outside sig is_page_start.
Proof.
  intros Hn i Hi [Hc _]. unfold wmo_has_sig in Hi.
  rewrite Forall_forall in Hn. specialize (Hn _ Hi). by simpl in Hn.
Qed.

Lemma wmo_structure_outside sig :
  Forall (λ e, e.1 ≠ "Document Structure") sig → wmo_outside sig is_structure.
Proof.
  intros Hn i Hi Hc. unfold wmo_has_sig in Hi.
  rewrite Forall_forall in Hn. specialize (Hn _ Hi). by simpl in Hn.
Qed.

Lemma heading_walk_structure prev hs : Forall is_structure (heading_walk prev hs).
Proof.
  eapply Forall_impl; [apply heading_walk_sig|]. intros i Hi.
  unfold wmo_has_sig, wmo_sig_structure in Hi. unfold is_structure.
  apply elem_of_cons in Hi as [Hi|Hi]; [by injection Hi|].
  apply list_elem_of_singleton in Hi. by injection Hi.
Qed.

Ltac wmo_other_category :=
  repeat (apply Forall_cons; split; [simpl; discriminate|]); by apply Forall_nil.

(** What the review holds about headings: the issues of the heading
    check are those of the walk over the collected headings, and the
    accessibility check adds its warning about the first HTML heading. *)
Lemma wmo_review_headings self text :
  ∃ issues s' hs,
    review self text = Ok (issues, s')
    ∧ collect_headings (split_char newline text) = Ok hs
    ∧ filter wmo_is_jump issues
      ≡ₚ match hs with [] => [] | h0 :: tl => jump_issues h0 tl end
    ∧ filter is_structure issues ≡ₚ heading_walk None hs
    ∧ filter is_page_start issues = page_start_issues text.
Proof.
  destruct (wmo_review_steps self text) as (p & Hp & Hs & E).
  exists (sorted sort_key (wmo_all_issues p)), (wmo_final_state text p), (wp_hs p).
  split; [done|]. split; [apply Hp|].
  split; [rewrite wmo_filter_sorted; by rewrite (wmo_jumps_of_review text p)|].
  pose proof Hp as
    (_ & _ & Hterm & Habbr & _ & Hstyle & Hacc & Hgram & Htech & Hlinks & Hseo).
  split.
  - rewrite wmo_filter_sorted. unfold wmo_all_issues. rewrite !filter_app.
    rewrite (wmo_filter_sig wmo_sig_terminology _ (wp_term p)),
      (wmo_filter_sig wmo_sig_abbreviations _ (wp_abbr p)),
      (wmo_filter_sig wmo_sig_style _ (wp_style p)),
      (wmo_filter_sig wmo_sig_accessibility _ (wp_acc p)),
      (wmo_filter_sig wmo_sig_grammar _ (wp_gram p)),
      (wmo_filter_sig wmo_sig_technical _ (wp_tech p)),
      (wmo_filter_sig wmo_sig_links _ (wp_links p)),
      (wmo_filter_sig wmo_sig_seo _ (wp_seo p));
      try done; try (apply wmo_structure_outside; wmo_other_category).
    cbn [app]. rewrite !app_nil_r.
    rewrite (filter_all _ (heading_walk None (wp_hs p)))
      by apply heading_walk_structure.
    done.
  - destruct Hs as (_ & _ & _ & (s0 & [Hc _] & E0) & _).
    destruct (wmo_check_accessibility_page_start s0) as (l & El & Hl).
    rewrite E0 in El. injection El as El. apply app_inv_head in El.
    subst l. rewrite Hc in Hl.
    assert (filter is_page_start (wmo_all_issues p) = page_start_issues text) as Hf.
    { unfold wmo_all_issues. rewrite !filter_app.
      rewrite (wmo_filter_sig wmo_sig_terminology _ (wp_term p)),
        (wmo_filter_sig wmo_sig_abbreviations _ (wp_abbr p)),
        (wmo_filter_sig wmo_sig_style _ (wp_style p)),
        (wmo_filter_sig wmo_sig_grammar _ (wp_gram p)),
        (wmo_filter_sig wmo_sig_technical _ (wp_tech p)),
        (wmo_filter_sig wmo_sig_structure _ (heading_walk None (wp_hs p))),
        (wmo_filter_sig wmo_sig_links _ (wp_links p)),
        (wmo_filter_sig wmo_sig_seo _ (wp_seo p));
        try done; try (apply wmo_page_start_outside; wmo_other_category);
        try apply heading_walk_sig.
      cbn [app]. by rewrite !app_nil_r. }
    rewrite wmo_filter_sorted_short; [done|].
    rewrite Hf. unfold page_start_issues.
    destruct (findall_group1 _ _ _) as [|h0 hs']; [simpl; lia|].
    destruct (negb _); simpl; lia.
Qed.

(** Every issue of the walk is about two consecutive headings, the
    second more than one level deeper than the first, or about a heading
    of more than 70 characters: none is about the level of the first
    heading. *)
Lemma heading_walk_elem_from prev hs i :
  i ∈ heading_walk (Some prev) hs →
  (∃ k hp hc, (prev :: hs) !! k = Some hp ∧ (prev :: hs) !! S k = Some hc
              ∧ h_level hp + 1 < h_level hc ∧ i = jump_issue hp hc)
  ∨ (∃ h, h ∈ hs ∧ 70 < String.length (h_text h) ∧ i = long_heading_issue h).
Proof.
  revert prev. induction hs as [|h hs IH]; intros prev Hi.
  { by apply elem_of_nil in Hi. }
  cbn [heading_walk] in Hi. rewrite !elem_of_app in Hi.
  destruct Hi as [Hi|[Hi|Hi]].
  - destruct (Nat.ltb_spec (h_level prev + 1) (h_level h)) as [Hlt|];
      [|by apply elem_of_nil in Hi].
    apply list_elem_of_singleton in Hi as ->. left. by exists 0, prev, h.
  - destruct (Nat.ltb_spec 70 (String.length (h_text h))) as [Hlt|];
      [|by apply elem_of_nil in Hi].
    apply list_elem_of_singleton in Hi as ->. right. exists h.
    split; [by left|done].
  - destruct (IH h Hi) as [(k & hp & hc & Hp & Hc & Hlt & ->)|(h' & Hin & Hlen & ->)].
    + left. by exists (S k), hp, hc.
    + right. exists h'. split; [by right|done].
Qed.

Lemma heading_walk_elem hs i :
  i ∈ heading_walk None hs →
  (∃ k hp hc, hs !! k = Some hp ∧ hs !! S k = Some hc
              ∧ h_level hp + 1 < h_level hc ∧ i = jump_issue hp hc)
  ∨ (∃ h, h ∈ hs ∧ 70 < String.length (h_text h) ∧ i = long_heading_issue h).
Proof.
  destruct hs as [|h0 tl]; intros Hi.
  { by apply elem_of_nil in Hi. }
  cbn [heading_walk] in Hi. cbn [app] in Hi. rewrite elem_of_app in Hi.
  destruct Hi as [Hi|Hi].
  - destruct (Nat.ltb_spec 70 (String.length (h_text h0))) as [Hlt|];
      [|by apply elem_of_nil in Hi].
    apply list_elem_of_singleton in Hi as ->. right. exists h0.
    split; [by left|done].
  - destruct (heading_walk_elem_from h0 tl i Hi)
      as [(k & hp & hc & Hp & Hc & Hlt & ->)|(h' & Hin & Hlen & ->)].
    + left. by exists k, hp, hc.
    + right. exists h'. split; [by right|done].
Qed.

End WMOHeadings.

(** * Checks that find nothing *)

Module Quiet.
Import Py Re PyFacts ReFacts.

Lemma for_each_nothing {A S} (l : list A) (s : S) (body : S → A → S) :
  (∀ x, x ∈ l → body s x = s) → for_each l s body = s.
Proof.
  induction l as [|x l IH]; intros H; [done|].
  rewrite for_each_cons, H by left. apply IH. intros y Hy. apply H. by right.
Qed.

Lemma for_eachM_nothing {A S} (l : list A) (s : S) (body : S → A → res S) :
  (∀ x, x ∈ l → body s x = Ok s) → for_eachM l s body = Ok s.
Proof.
  induction l as [|x l IH]; intros H; [done|].
  cbn [for_eachM]. rewrite H by left. rewrite bind_Ok.
  apply IH. intros y Hy. apply H. by right.
Qed.

Lemma find_nothing {A} (f : A → bool) (l : list A) :
  Forall (λ x, f x = false) l → List.find f l = None.
Proof. induction 1 as [|x l Hx _ IH]; [done|]. cbn [List.find]. by rewrite Hx. Qed.

Lemma existsb_nothing {A} (f : A → bool) (l : list A) :
  Forall (λ x, f x = false) l → existsb f l = false.
Proof. induction 1 as [|x l Hx _ IH]; [done|]. cbn [existsb]. by rewrite Hx. Qed.

Lemma enumerate_elem {A} (l : list A) : ∀ k i x, (i, x) ∈ enumerate k l → x ∈ l.
Proof.
  induction l as [|y l IH]; intros k i x H; cbn [enumerate] in H.
  - by apply elem_of_nil in H.
  - apply elem_of_cons in H as [[= _ ->]|H]; [by left|]. right. by eapply IH.
Qed.

Lemma Forall_eval {A} (P : A → Prop) (l l' : list A) :
  l = l' → Forall P l' → Forall P l.
Proof. by intros ->. Qed.

(** Conditions about a given text, by evaluation: first the lists, then
    what is said of each element. *)
Ltac nothing_there :=
  repeat match goal with
    | |- Forall _ [] => apply Forall_nil_2
    | |- Forall _ (_ :: _) => apply Forall_cons_2; cbv beta
    | |- Forall _ _ => eapply Forall_eval; [vm_compute; reflexivity|]
    | |- _ ∧ _ => split
    | |- _ ≤ _ => vm_compute; lia
    | |- _ = _ => vm_compute; reflexivity
    end.

(** No technical term among the words: the ratio is zero, or not a
    number, and not above five percent. *)
Lemma zero_ratio (x : float) :
  (BillieJean.five_percent <? float_of_nat 0 / x)%float = false.
Proof.
  rewrite FloatAxioms.ltb_spec, FloatAxioms.div_spec.
  change (Prim2SF (float_of_nat 0)) with (SpecFloat.S754_zero false).
  destruct (Prim2SF x) as [sx|sx| |sx mx ex]; reflexivity.
Qed.

End Quiet.

Module BillieJeanQuiet.
Import Py Re BillieJean PyFacts ReFacts BillieJeanFacts Quiet.

Lemma matches_nothing f r s : re_search f r s = None → matches f r s = false.
Proof.
  intros H. unfold matches. rewrite H. apply bool_decide_eq_false. by intros [? ?].
Qed.

(** The strategic check is about what is absent: with no keyword in the
    text it adds its CRITICAL issue. *)
Lemma check_strategic_alignment_nothing s :
  strategic_alignment s = StrategicAlignment_new →
  Forall (λ k, contains (lower k) (lower (content s)) = false) all_keywords →
  check_strategic_alignment s = Ok (emit s strategic_issue).
Proof.
  intros Hsa Hk. destruct (check_strategic_alignment_spec s Hsa) as (cov & Ec & E).
  rewrite E. rewrite alignment_of_none in Ec |- *
    by (intros k Hin; rewrite Forall_forall in Hk; by apply Hk).
  vm_compute in Ec. injection Ec as <-. cbv zeta.
  assert (set_strategic_alignment s StrategicAlignment_new = s) as ->
    by (destruct s; cbn in Hsa; by subst).
  reflexivity.
Qed.

Lemma check_style_guide_compliance_nothing s :
  Forall (λ line,
    contains "world meteorological organization" (lower line) = false
    ∧ Forall (λ sentence, length (split_ws sentence) ≤ 30)
             (re_split no_flags rx_sentence_end line)
    ∧ Forall (λ e, re_search IGNORECASE e.1 line = None) passive_patterns
    ∧ Forall (λ e, re_search no_flags e.1.1 (lower line) = None) abbrev_issues
    ∧ re_search no_flags rx_italics line = None) (content_lines s) →
  check_style_guide_compliance s = s.
Proof.
  intros H. unfold check_style_guide_compliance. apply for_each_nothing.
  intros [i line] Hin. apply enumerate_elem in Hin.
  rewrite Forall_forall in H. destruct (H line Hin) as (Hw & Hs & Hp & Ha & Hi).
  cbv zeta. rewrite Hw. cbv iota.
  rewrite (for_each_nothing (re_split no_flags rx_sentence_end line)).
  2:{ intros sentence Hsent. rewrite Forall_forall in Hs. specialize (Hs _ Hsent).
      destruct (is_empty _); [done|].
      destruct (Nat.ltb_spec 30 (length (split_ws sentence))); [lia|done]. }
  rewrite find_nothing.
  2:{ eapply Forall_impl; [exact Hp|]. intros [p phrase] Hn. by apply matches_nothing. }
  rewrite (for_each_nothing abbrev_issues).
  2:{ intros [[p a] f] He. rewrite Forall_forall in Ha. specialize (Ha _ He).
      cbn [fst] in Ha. by rewrite (matches_nothing _ _ _ Ha). }
  by rewrite (matches_nothing _ _ _ Hi).
Qed.

Lemma collect_headings_nothing lines :
  Forall (λ line, re_match no_flags rx_md_heading line = None
                  ∧ re_finditer IGNORECASE rx_html_heading line = []) lines →
  collect_headings lines = Ok [].
Proof.
  intros H. unfold collect_headings. apply for_eachM_nothing.
  intros [i line] Hin. apply enumerate_elem in Hin.
  rewrite Forall_forall in H. destruct (H line Hin) as [Hm Hh].
  by rewrite Hm, Hh.
Qed.

Lemma check_accessibility_wcag_quiet s :
  re_finditer IGNORECASE img_pattern (content s) = [] →
  Forall (λ line, re_match no_flags rx_md_heading line = None
                  ∧ re_finditer IGNORECASE rx_html_heading line = [])
         (content_lines s) →
  re_finditer IGNORECASE link_pattern (content s) = [] →
  check_accessibility_wcag s = Ok s.
Proof.
  intros Hi Hh Hl. apply check_accessibility_wcag_nothing; try done.
  by apply collect_headings_nothing.
Qed.

Lemma check_readability_nothing s :
  Forall (λ sentence, is_empty (strip sentence) = true)
         (re_split no_flags rx_sentence_end (content s)) →
  Forall (λ term, contains term (lower (content s)) = false) technical_terms →
  check_readability s = Ok s.
Proof.
  intros Hs Ht. unfold check_readability. cbv zeta.
  assert (List.filter (λ s0, negb (is_empty (strip s0)))
            (re_split no_flags rx_sentence_end (content s)) = []) as ->.
  { induction Hs as [|x l Hx _ IH]; [done|]. cbn [List.filter]. by rewrite Hx. }
  cbn [length]. change (0 <? 0)%nat with false. cbv iota. rewrite bind_Ok.
  f_equal. apply for_each_nothing. intros term Hin.
  rewrite Forall_forall in Ht. by rewrite (Ht _ Hin).
Qed.

Lemma check_terminology_nothing s :
  Forall (λ line, Forall (λ e, contains e.1 (lower line) = false) terminology_guide)
         (content_lines s) →
  check_terminology s = s.
Proof.
  intros H. unfold check_terminology. apply for_each_nothing.
  intros [i line] Hin. apply enumerate_elem in Hin.
  rewrite Forall_forall in H. specialize (H line Hin). cbv zeta.
  apply for_each_nothing. intros [term [preferred reason]] He.
  rewrite Forall_forall in H. specialize (H _ He). cbn [fst] in H. by rewrite H.
Qed.

Lemma check_abbreviations_nothing s :
  Forall (λ line, Forall (λ e, contains e.1 line = false) WMO_ABBREVIATIONS)
         (content_lines s) →
  check_abbreviations s = s.
Proof.
  intros H. unfold check_abbreviations. apply for_each_nothing.
  intros [i line] Hin. apply enumerate_elem in Hin.
  rewrite Forall_forall in H. specialize (H line Hin).
  apply for_each_nothing. intros [abbrev full_form] He.
  rewrite Forall_forall in H. specialize (H _ He). cbn [fst] in H. by rewrite H.
Qed.

Lemma check_news_article_standards_nothing s :
  Forall (λ line, re_match no_flags rx_md_title line = None
                  ∧ re_search IGNORECASE rx_html_title line = None)
         (content_lines s) →
  Forall (λ line, length (split_ws line) ≤ 10) (firstn 20 (content_lines s)) →
  length (split_ws (content s)) ≤ 800 →
  check_news_article_standards s = s.
Proof.
  intros Hh Hp Hw. unfold check_news_article_standards. cbv zeta.
  rewrite (find_nothing _ (enumerate 1 (content_lines s))).
  2:{ rewrite Forall_forall. intros [i line] Hin. apply enumerate_elem in Hin.
      rewrite Forall_forall in Hh. destruct (Hh line Hin) as [Hm Hs].
      rewrite Hm, (matches_nothing _ _ _ Hs). apply orb_false_iff. split; [|done].
      apply bool_decide_eq_false. by intros [? ?]. }
  rewrite (find_nothing _ (firstn 20 (content_lines s))).
  2:{ eapply Forall_impl; [exact Hp|]. intros line Hl. cbv beta in Hl |- *.
      destruct (Nat.ltb_spec 10 (length (split_ws line))); [lia|].
      by rewrite andb_false_r. }
  by destruct (Nat.ltb_spec 800 (length (split_ws (content s)))); [lia|].
Qed.

Lemma check_seo_nothing s :
  contains "<meta" (lower (content s)) = false →
  re_search IGNORECASE rx_meta_description (content s) = None →
  check_seo s = Ok s.
Proof.
  intros Hm Hd. unfold check_seo. cbv zeta.
  by rewrite Hm, (matches_nothing _ _ _ Hd).
Qed.

Lemma check_target_audience_nothing s :
  re_finditer no_flags rx_technical (lower (content s)) = [] →
  check_target_audience s = Ok s.
Proof.
  intros H. unfold check_target_audience. cbv zeta. rewrite H. cbn [length].
  destruct (length (split_ws (content s))) as [|n].
  - change (0 <? 0)%nat with false. cbv iota. by rewrite bind_Ok.
  - change (0 <? S n)%nat with true. cbv iota.
    unfold truediv. rewrite !bind_Ok. by rewrite zero_ratio.
Qed.

Lemma check_formatting_nothing s :
  Forall (λ line, contains "  " line = false
                  ∧ re_search no_flags rx_missing_space line = None)
         (content_lines s) →
  check_formatting s = s.
Proof.
  intros H. unfold check_formatting. apply for_each_nothing.
  intros [i line] Hin. apply enumerate_elem in Hin.
  rewrite Forall_forall in H. destruct (H line Hin) as [Hs Hm].
  cbv zeta. by rewrite Hs, (matches_nothing _ _ _ Hm).
Qed.

Lemma check_links_and_references_nothing s :
  re_finditer IGNORECASE rx_html_link (content s) = [] →
  re_finditer no_flags rx_md_link (content s) = [] →
  check_links_and_references s = Ok s.
Proof.
  intros Hh Hm. unfold check_links_and_references. rewrite Hh.
  cbn [for_eachM]. rewrite bind_Ok. by rewrite Hm.
Qed.

End BillieJeanQuiet.

Module WMOQuiet.
Import Py Re WMOContentReviewer PyFacts ReFacts WMOFacts Quiet.

Lemma wmo_matches_nothing f r s : re_search f r s = None → matches f r s = false.
Proof.
  intros H. unfold matches. rewrite H. apply bool_decide_eq_false. by intros [? ?].
Qed.

Lemma wmo_check_terminology_nothing s :
  Forall (λ line, Forall (λ e, re_search no_flags e.1 (lower line) = None)
                         COMMON_ISSUES)
         (content_lines s) →
  check_terminology s = s.
Proof.
  intros H. unfold check_terminology. apply for_each_nothing.
  intros [i line] Hin. apply enumerate_elem in Hin.
  rewrite Forall_forall in H. specialize (H line Hin). cbv zeta.
  apply for_each_nothing. intros [pattern msg] He.
  rewrite Forall_forall in H. specialize (H _ He). cbn [fst] in H.
  by rewrite (wmo_matches_nothing _ _ _ H).
Qed.

Lemma wmo_check_abbreviations_nothing s :
  Forall (λ line, Forall (λ a, contains a line = false) WMO_ABBREVIATIONS)
         (content_lines s) →
  check_abbreviations s = s.
Proof.
  intros H. unfold check_abbreviations. cbv zeta.
  rewrite (for_each_nothing (enumerate 1 (content_lines s)) (s, ∅)); [done|].
  intros [i line] Hin. apply enumerate_elem in Hin.
  rewrite Forall_forall in H. specialize (H line Hin).
  apply for_each_nothing. intros abbrev He.
  rewrite Forall_forall in H. by rewrite (H _ He).
Qed.

Lemma wmo_check_style_guide_nothing s :
  Forall (λ line,
    re_search IGNORECASE (Lit "world meteorological organization") line = None
    ∧ Forall (λ sentence, length (split_ws sentence) ≤ 40)
             (re_split no_flags rx_sentence_end line)
    ∧ Forall (λ p, re_search IGNORECASE p line = None) passive_indicators)
    (content_lines s) →
  check_style_guide s = s.
Proof.
  intros H. unfold check_style_guide. apply for_each_nothing.
  intros [i line] Hin. apply enumerate_elem in Hin.
  rewrite Forall_forall in H. destruct (H line Hin) as (Hw & Hs & Hp).
  cbv zeta. rewrite (wmo_matches_nothing _ _ _ Hw). cbv iota.
  rewrite (for_each_nothing (re_split no_flags rx_sentence_end line)).
  2:{ intros sentence Hsent. rewrite Forall_forall in Hs. specialize (Hs _ Hsent).
      cbv zeta.
      destruct (Nat.ltb_spec 40 (length (split_ws sentence))); [lia|done]. }
  rewrite existsb_nothing; [done|].
  eapply Forall_impl; [exact Hp|]. intros p Hn. by apply wmo_matches_nothing.
Qed.

Lemma wmo_check_accessibility_nothing s :
  re_finditer IGNORECASE img_pattern (content s) = [] →
  findall_group1 IGNORECASE_DOTALL rx_html_heading_any (content s) = [] →
  re_finditer IGNORECASE link_pattern (content s) = [] →
  check_accessibility s = Ok s.
Proof.
  intros Hi Hh Hl. unfold check_accessibility. cbv zeta.
  rewrite Hi. cbn [for_each fold_left]. rewrite Hh, bind_Ok. by rewrite Hl.
Qed.

Lemma wmo_check_grammar_and_clarity_nothing s :
  Forall (λ line, contains "  " line = false
                  ∧ re_search IGNORECASE rx_its line = None
                  ∧ re_search no_flags rx_pronoun line = None)
         (content_lines s) →
  check_grammar_and_clarity s = s.
Proof.
  intros H. unfold check_grammar_and_clarity. apply for_each_nothing.
  intros [i line] Hin. apply enumerate_elem in Hin.
  rewrite Forall_forall in H. destruct (H line Hin) as (Hs & Hi & Hp).
  cbv zeta.
  by rewrite Hs, (wmo_matches_nothing _ _ _ Hi), (wmo_matches_nothing _ _ _ Hp).
Qed.

Lemma wmo_check_technical_accuracy_nothing s :
  Forall (λ line, re_search IGNORECASE rx_temperature line = None
                  ∧ re_finditer no_flags rx_date line = [])
         (content_lines s) →
  check_technical_accuracy s = s.
Proof.
  intros H. unfold check_technical_accuracy. apply for_each_nothing.
  intros [i line] Hin. apply enumerate_elem in Hin.
  rewrite Forall_forall in H. destruct (H line Hin) as (Ht & Hd).
  cbv zeta. by rewrite (wmo_matches_nothing _ _ _ Ht), Hd.
Qed.

Lemma wmo_check_heading_structure_nothing s :
  Forall (λ line, re_match no_flags rx_md_heading line = None
                  ∧ re_finditer IGNORECASE rx_html_heading line = [])
         (content_lines s) →
  check_heading_structure s = Ok s.
Proof.
  intros H. unfold check_heading_structure.
  assert (collect_headings (content_lines s) = Ok []) as ->; [|done].
  unfold collect_headings. apply for_eachM_nothing.
  intros [i line] Hin. apply enumerate_elem in Hin.
  rewrite Forall_forall in H. destruct (H line Hin) as [Hm Hh].
  by rewrite Hm, Hh.
Qed.

Lemma wmo_check_links_nothing s :
  re_finditer IGNORECASE html_link_pattern (content s) = [] →
  re_finditer no_flags md_link_pattern (content s) = [] →
  check_links s = Ok s.
Proof.
  intros Hh Hm. unfold check_links. rewrite Hh.
  cbn [for_eachM]. rewrite bind_Ok. by rewrite Hm.
Qed.

(** The issue of [check_seo] about a missing title. *)
Definition missing_title_issue : Issue := {|
  category := "SEO";
  severity := WARNING;
  message := "Missing title tag or H1 heading";
  line_number := 0;
  context := EmptyString |}.

(** The SEO check is about what is absent: with no meta tag in the text,
    it adds its warning when there is neither a title tag nor a hash
    followed by a space. *)
Lemma wmo_check_seo_nothing s :
  contains "<meta" (lower (content s)) = false →
  re_search IGNORECASE rx_meta_content (content s) = None →
  check_seo s
  = Ok (if negb (contains "<title>" (lower (content s)))
           && negb (contains "# " (content s))
        then emit s missing_title_issue else s).
Proof.
  intros Hm Hd. unfold check_seo. cbv zeta. rewrite Hm.
  cbn [andb]. cbv iota. rewrite Hd, bind_Ok. by destruct (_ && _).
Qed.

End WMOQuiet.

(** * The properties of the reviewers *)

Import Py Re PyFacts ReFacts.

(** The severity and the line of each issue, in order. *)
Definition severities_and_lines (issues : list BillieJean.ReviewIssue)
    : list (BillieJean.Severity * nat) :=
  (λ i, (BillieJean.severity i, BillieJean.line_number i)) <$> issues.

Definition wmo_severities_and_lines (issues : list WMOContentReviewer.Issue)
    : list (WMOContentReviewer.Severity * nat) :=
  (λ i, (WMOContentReviewer.severity i, WMOContentReviewer.line_number i)) <$> issues.

(** C1.  The order of the returned issues.  [review] sorts on the name of
    the severity, a string, so that SUGGESTION (and INFO) come before
    WARNING: on the document [GCOS rainfall] the richer reviewer returns
    a CRITICAL, then a SUGGESTION, then a WARNING issue, and on
    [GCOS temp] the simpler one returns a SUGGESTION of line 1 before the
    WARNING issues of lines 0 and 1. *)
Theorem review_orders_by_severity_name :
  (∃ issues sa s',
     BillieJean.review (BillieJean.init BillieJean.UNKNOWN) "GCOS rainfall"
     = Ok (issues, sa, s')
     ∧ severities_and_lines issues
       = [(BillieJean.CRITICAL, 0); (BillieJean.SUGGESTION, 1); (BillieJean.WARNING, 1)])
  ∧ (∃ issues s',
       WMOContentReviewer.review WMOContentReviewer.init "GCOS temp" = Ok (issues, s')
       ∧ wmo_severities_and_lines issues
         = [(WMOContentReviewer.SUGGESTION, 1); (WMOContentReviewer.WARNING, 0);
            (WMOContentReviewer.WARNING, 1)]).
Proof.
  split.
  - remember (BillieJean.review _ _) as r eqn:Er. vm_compute in Er. subst r.
    eexists _, _, _. split; [reflexivity|]. vm_compute. reflexivity.
  - remember (WMOContentReviewer.review _ _) as r eqn:Er. vm_compute in Er. subst r.
    eexists _, _. split; [reflexivity|]. vm_compute. reflexivity.
Qed.

(** A Markdown link whose text is 120 characters long. *)
Definition long_link : string :=
  "[" +:+ String.string_of_list_ascii (replicate 120 "a"%char) +:+ "](#)".

(** C2.  The length of [context].  The Markdown branch of [check_links]
    stores the whole match as the context: for the link [long_link],
    whose target is [#], the reviewer returns an issue of category Links
    whose context is the whole link, 125 characters. *)
Theorem check_links_context_is_whole_match :
  ∃ issues s',
    WMOContentReviewer.review WMOContentReviewer.init ("# T " +:+ long_link)
    = Ok (issues, s')
    ∧ Exists (λ i, WMOContentReviewer.category i = "Links"
                   ∧ WMOContentReviewer.context i = long_link
                   ∧ String.length (WMOContentReviewer.context i) = 125) issues.
Proof.
  remember (WMOContentReviewer.review _ _) as r eqn:Er. vm_compute in Er. subst r.
  eexists _, _. split; [reflexivity|].
  apply (bool_decide_unpack _). vm_compute. exact I.
Qed.

(** The number of pillar flags that are set, counted flag by flag. *)
Definition true_flags (sa : BillieJean.StrategicAlignment) : nat :=
  Nat.b2n (BillieJean.earth_system_monitoring sa)
  + Nat.b2n (BillieJean.early_warnings sa)
  + Nat.b2n (BillieJean.climate_action sa)
  + Nat.b2n (BillieJean.capacity_development sa)
  + Nat.b2n (BillieJean.hydrometeorological_services sa).

(** C10.  [get_coverage] returns, without raising, the entry of
    0.0, 20.0, 40.0, 60.0, 80.0, 100.0 whose index is the number of
    flags that are set, which is 20 times that number; and each of the
    six values is the coverage of some alignment. *)
Theorem get_coverage_six_values (sa : BillieJean.StrategicAlignment) :
  true_flags sa ≤ 5
  ∧ (∃ c, BillieJean.get_coverage sa = Ok c
          ∧ [0; 20; 40; 60; 80; 100]%float !! true_flags sa = Some c
          ∧ c = (20 * float_of_nat (true_flags sa))%float
          ∧ c ∈ [0; 20; 40; 60; 80; 100]%float)
  ∧ (∀ n, n ≤ 5 →
       ∃ sa' c, true_flags sa' = n
                ∧ BillieJean.get_coverage sa' = Ok c
                ∧ [0; 20; 40; 60; 80; 100]%float !! n = Some c)
  ∧ (∀ sa', true_flags sa' = true_flags sa →
            BillieJean.get_coverage sa' = BillieJean.get_coverage sa)
  ∧ (∀ sa', BillieJean.get_coverage sa' = BillieJean.get_coverage sa →
            true_flags sa' = true_flags sa).
Proof.
  assert (∀ s1, ∃ c, BillieJean.get_coverage s1 = Ok c
            ∧ [0; 20; 40; 60; 80; 100]%float !! true_flags s1 = Some c
            ∧ c = (20 * float_of_nat (true_flags s1))%float) as Hv.
  { intros [[] [] [] [] []]; eexists;
      (split; [vm_compute; reflexivity|]); split; vm_compute; reflexivity. }
  assert (∀ n m c, [0; 20; 40; 60; 80; 100]%float !! n = Some c →
            [0; 20; 40; 60; 80; 100]%float !! m = Some c → n = m) as Hd.
  { intros n m c Hn Hm.
    assert (n < 6) as Ln by (apply lookup_lt_Some in Hn; exact Hn).
    assert (m < 6) as Lm by (apply lookup_lt_Some in Hm; exact Hm).
    rewrite <- Hn in Hm. clear Hn.
    do 6 (destruct n as [|n]; [do 6 (destruct m as [|m];
      [first [reflexivity
             | exfalso;
               apply (f_equal (λ o, match o with
                 | Some z => PrimFloat.ltb z 10 :: PrimFloat.ltb z 30
                     :: PrimFloat.ltb z 50 :: PrimFloat.ltb z 70
                     :: PrimFloat.ltb z 90 :: nil
                 | None => nil end)) in Hm;
               vm_compute in Hm; discriminate Hm]|]); lia|]).
    lia. }
  split; [destruct sa as [[] [] [] [] []]; vm_compute; lia|].
  split.
  { destruct (Hv sa) as (c & E & L & M). exists c. repeat split; try done.
    by eapply list_elem_of_lookup_2. }
  split.
  { intros n Hn.
    destruct n as [|[|[|[|[|[|n]]]]]]; [| | | | | |lia].
    - exists (BillieJean.Build_StrategicAlignment false false false false false).
      eexists. repeat split; vm_compute; reflexivity.
    - exists (BillieJean.Build_StrategicAlignment true false false false false).
      eexists. repeat split; vm_compute; reflexivity.
    - exists (BillieJean.Build_StrategicAlignment true true false false false).
      eexists. repeat split; vm_compute; reflexivity.
    - exists (BillieJean.Build_StrategicAlignment true true true false false).
      eexists. repeat split; vm_compute; reflexivity.
    - exists (BillieJean.Build_StrategicAlignment true true true true false).
      eexists. repeat split; vm_compute; reflexivity.
    - exists (BillieJean.Build_StrategicAlignment true true true true true).
      eexists. repeat split; vm_compute; reflexivity. }
  split.
  { intros sa' E. destruct (Hv sa) as (c & E1 & L1 & _).
    destruct (Hv sa') as (c' & E2 & L2 & _). rewrite E in L2.
    rewrite E1, E2. congruence. }
  intros sa' E. destruct (Hv sa) as (c & E1 & L1 & _).
  destruct (Hv sa') as (c' & E2 & L2 & _).
  rewrite E1, E2 in E. injection E as ->. by eapply Hd.
Qed.

(** C3.  The strategic-alignment issue is emitted exactly when the
    coverage is below 20, once, at line 0 and CRITICAL.  A document that
    mentions [flood] and no other keyword has only the
    hydrometeorological flag, coverage 20.0 and no such issue; a
    document that mentions no keyword has coverage 0.0 and exactly one. *)
Theorem strategic_coverage (self : BillieJean.t) (text : string) :
  (∃ issues sa s' cov,
     BillieJean.review self text = Ok (issues, sa, s')
     ∧ BillieJean.get_coverage sa = Ok cov
     ∧ filter BillieJeanFacts.is_strategic issues
       = if (cov <? 20)%float then [BillieJeanFacts.strategic_issue] else [])
  ∧ BillieJean.severity BillieJeanFacts.strategic_issue = BillieJean.CRITICAL
  ∧ BillieJean.line_number BillieJeanFacts.strategic_issue = 0
  ∧ (BillieJeanFacts.mentions text "flood" = true →
     (∀ k, k ∈ BillieJeanFacts.all_keywords → k ≠ "flood" →
           BillieJeanFacts.mentions text k = false) →
     ∃ issues s',
       BillieJean.review self text = Ok (issues, BillieJeanFacts.flood_only, s')
       ∧ BillieJean.get_coverage BillieJeanFacts.flood_only = Ok 20%float
       ∧ filter BillieJeanFacts.is_strategic issues = [])
  ∧ ((∀ k, k ∈ BillieJeanFacts.all_keywords → BillieJeanFacts.mentions text k = false) →
     ∃ issues s',
       BillieJean.review self text = Ok (issues, BillieJean.StrategicAlignment_new, s')
       ∧ BillieJean.get_coverage BillieJean.StrategicAlignment_new = Ok 0%float
       ∧ filter BillieJeanFacts.is_strategic issues = [BillieJeanFacts.strategic_issue]).
Proof.
  destruct (BillieJeanFacts.review_strategic self text)
    as (issues & s' & cov & E & Ec & Hf).
  split; [by exists issues, (BillieJeanFacts.alignment_of text), s', cov|].
  split; [done|]. split; [done|]. split.
  - intros H1 H2. rewrite (BillieJeanFacts.alignment_of_flood text H1 H2) in E, Ec.
    exists issues, s'. split; [done|]. split; [reflexivity|].
    rewrite Hf. by injection Ec as <-.
  - intros H. rewrite (BillieJeanFacts.alignment_of_none text H) in E, Ec.
    exists issues, s'. split; [done|]. split; [reflexivity|].
    rewrite Hf. by injection Ec as <-.
Qed.

Lemma forall_keywords (P : string → Prop) `{!∀ k, Decision (P k)} :
  bool_decide (Forall P BillieJeanFacts.all_keywords) →
  ∀ k, k ∈ BillieJeanFacts.all_keywords → P k.
Proof. intros Hb. apply Forall_forall. exact (bool_decide_unpack _ Hb). Defined.

Lemma strategic_coverage_witness :
  (∃ issues s',
     BillieJean.review (BillieJean.init BillieJean.UNKNOWN) "Flood risk"
     = Ok (issues, BillieJeanFacts.flood_only, s')
     ∧ BillieJean.get_coverage BillieJeanFacts.flood_only = Ok 20%float
     ∧ filter BillieJeanFacts.is_strategic issues = [])
  ∧ (∃ issues s',
       BillieJean.review (BillieJean.init BillieJean.UNKNOWN) "Hello"
       = Ok (issues, BillieJean.StrategicAlignment_new, s')
       ∧ BillieJean.get_coverage BillieJean.StrategicAlignment_new = Ok 0%float
       ∧ filter BillieJeanFacts.is_strategic issues = [BillieJeanFacts.strategic_issue]).
Proof.
  split.
  - apply (proj1 (proj2 (proj2 (proj2
             (strategic_coverage (BillieJean.init BillieJean.UNKNOWN) "Flood risk"))))).
    + vm_compute. reflexivity.
    + apply (forall_keywords
               (λ k, k ≠ "flood" → BillieJeanFacts.mentions "Flood risk" k = false)).
      vm_compute. exact I.
  - apply (proj2 (proj2 (proj2 (proj2
             (strategic_coverage (BillieJean.init BillieJean.UNKNOWN) "Hello"))))).
    apply (forall_keywords (λ k, BillieJeanFacts.mentions "Hello" k = false)).
    vm_compute. exact I.
Defined.

(** C4.  An abbreviation of the table, other than WMO, that occurs on
    three lines and that no line defines draws exactly one warning, at
    the first line on which it occurs; the richer reviewer has the
    abbreviation in its set of seen abbreviations afterwards; and no
    abbreviation of the table draws more than one warning in a review.
    Both reviewers. *)
Theorem abbreviation_warned_once_at_first_use
    (text a : string) (j1 j2 j3 : nat) :
  a ≠ "WMO" → j1 < j2 < j3 →
  BillieJeanFacts.occurs_at a (split_char newline text) j1 →
  BillieJeanFacts.occurs_at a (split_char newline text) j2 →
  BillieJeanFacts.occurs_at a (split_char newline text) j3 →
  (∀ self full,
     (a, full) ∈ BillieJean.WMO_ABBREVIATIONS →
     Forall (λ line, BillieJean.is_defined a full line = false)
            (split_char newline text) →
     ∃ issues sa s' j,
       BillieJean.review self text = Ok (issues, sa, s')
       ∧ BillieJeanFacts.first_occurrence a (split_char newline text) j
       ∧ BillieJeanFacts.warnings_for a issues
         = [BillieJeanFacts.abbreviation_warning_issue a full (1 + j)]
       ∧ a ∈ BillieJean.defined_abbreviations s'
       ∧ ∀ b fb, (b, fb) ∈ BillieJean.WMO_ABBREVIATIONS →
                 length (BillieJeanFacts.warnings_for b issues) ≤ 1)
  ∧ (∀ self,
       a ∈ WMOContentReviewer.WMO_ABBREVIATIONS →
       Forall (λ line, WMOContentReviewer.matches no_flags
                         (WMOContentReviewer.rx_defined a) line = false)
              (split_char newline text) →
       ∃ issues s' j line,
         WMOContentReviewer.review self text = Ok (issues, s')
         ∧ split_char newline text !! j = Some line
         ∧ BillieJeanFacts.first_occurrence a (split_char newline text) j
         ∧ WMOFacts.wmo_warnings_for a issues
           = [WMOFacts.wmo_abbreviation_warning a (1 + j) line]
         ∧ ∀ b, b ∈ WMOContentReviewer.WMO_ABBREVIATIONS →
                length (WMOFacts.wmo_warnings_for b issues) ≤ 1).
Proof.
  intros Hw Hj H1 _ _. split.
  - intros self full Hin Hnd.
    destruct (BillieJeanFacts.review_abbreviation_warnings self text a full Hin)
      as (issues & sa & s' & E & _ & Hfirst & Hseen).
    destruct (BillieJeanFacts.occurs_first _ _ _ H1) as (j & Ej & _).
    exists issues, sa, s', j. split; [done|].
    split; [by apply BillieJeanFacts.first_line_with_first|].
    split; [by rewrite (Hfirst Hw Hnd), Ej|].
    split.
    + apply Hseen. destruct H1 as (line & Hl & Hc).
      apply Exists_exists. exists line.
      split; [by eapply list_elem_of_lookup_2|]. split; [done|by right].
    + intros b fb Hb.
      destruct (BillieJeanFacts.review_abbreviation_warnings self text b fb Hb)
        as (issues' & sa' & s'' & E' & Hlen & _).
      rewrite E in E'. by injection E' as <- <- <-.
  - intros self Hin Hnd.
    destruct (WMOFacts.wmo_review_abbreviation_warnings self text a Hin)
      as (issues & s' & E & _ & Hfirst).
    destruct H1 as (l1 & Hl1 & Hc1).
    destruct (WMOFacts.wmo_occurs_first _ _ _ _ Hl1 Hc1) as (j & line & Ej & _).
    destruct (WMOFacts.wmo_first_line_with_lookup _ _ _ _ Ej) as (Hl & Hc & Hmin).
    exists issues, s', j, line. split; [done|]. split; [done|].
    split.
    { split; [by exists line|]. intros j' Hj' (l' & Hl' & Hc').
      rewrite (Hmin j' l' Hj' Hl') in Hc'. done. }
    split; [by rewrite (Hfirst Hw Hnd), Ej|].
    intros b Hb.
    destruct (WMOFacts.wmo_review_abbreviation_warnings self text b Hb)
      as (issues' & s'' & E' & Hlen & _).
    rewrite E in E'. by injection E' as <- <-.
Qed.

(** The abbreviation GCOS on three lines, never defined. *)
Definition three_lines : string :=
  "GCOS data" +:+ str1 newline +:+ "more GCOS" +:+ str1 newline +:+ "GCOS again".

Lemma abbreviation_warned_once_at_first_use_witness :
  (∃ issues sa s' j,
     BillieJean.review (BillieJean.init BillieJean.UNKNOWN) three_lines
     = Ok (issues, sa, s')
     ∧ BillieJeanFacts.first_occurrence "GCOS" (split_char newline three_lines) j
     ∧ BillieJeanFacts.warnings_for "GCOS" issues
       = [BillieJeanFacts.abbreviation_warning_issue
            "GCOS" "Global Climate Observing System" (1 + j)]
     ∧ "GCOS" ∈ BillieJean.defined_abbreviations s'
     ∧ ∀ b fb, (b, fb) ∈ BillieJean.WMO_ABBREVIATIONS →
               length (BillieJeanFacts.warnings_for b issues) ≤ 1)
  ∧ (∃ issues s' j line,
       WMOContentReviewer.review WMOContentReviewer.init three_lines = Ok (issues, s')
       ∧ split_char newline three_lines !! j = Some line
       ∧ BillieJeanFacts.first_occurrence "GCOS" (split_char newline three_lines) j
       ∧ WMOFacts.wmo_warnings_for "GCOS" issues
         = [WMOFacts.wmo_abbreviation_warning "GCOS" (1 + j) line]
       ∧ ∀ b, b ∈ WMOContentReviewer.WMO_ABBREVIATIONS →
              length (WMOFacts.wmo_warnings_for b issues) ≤ 1).
Proof.
  assert ("GCOS" ≠ "WMO") as Hw by (vm_compute; discriminate).
  assert (0 < 1 < 2) as Hj by lia.
  assert (BillieJeanFacts.occurs_at "GCOS" (split_char newline three_lines) 0) as H0
    by (exists "GCOS data"; split; vm_compute; reflexivity).
  assert (BillieJeanFacts.occurs_at "GCOS" (split_char newline three_lines) 1) as H1
    by (exists "more GCOS"; split; vm_compute; reflexivity).
  assert (BillieJeanFacts.occurs_at "GCOS" (split_char newline three_lines) 2) as H2
    by (exists "GCOS again"; split; vm_compute; reflexivity).
  destruct (abbreviation_warned_once_at_first_use three_lines "GCOS" 0 1 2
              Hw Hj H0 H1 H2) as [HB HW].
  split.
  - apply HB.
    + apply (bool_decide_unpack _). vm_compute. exact I.
    + apply (bool_decide_unpack _). vm_compute. exact I.
  - apply HW.
    + apply (bool_decide_unpack _). vm_compute. exact I.
    + apply (bool_decide_unpack _). vm_compute. exact I.
Defined.

(** A level-1 heading followed by a level-3 heading, and headings of
    levels 1, 2, 3. *)
Definition doc_h1_h3 : string := "# A" +:+ str1 newline +:+ "### B".

Definition doc_h1_h2_h3 : string :=
  "# A" +:+ str1 newline +:+ "## B" +:+ str1 newline +:+ "### C".

(** C5, as stated, fails on the simpler reviewer: for [doc_h1_h3] it
    returns one issue, the level jump at line 2, and its severity is
    WARNING; no issue of the review is an ERROR. *)
Lemma heading_jump_is_a_warning :
  ∃ s',
    WMOContentReviewer.review WMOContentReviewer.init doc_h1_h3
    = Ok ([WMOFacts.jump_issue (1, 1, "A") (2, 3, "B")], s')
    ∧ WMOContentReviewer.severity (WMOFacts.jump_issue (1, 1, "A") (2, 3, "B"))
      = WMOContentReviewer.WARNING
    ∧ ¬ ∃ issues s'' i,
          WMOContentReviewer.review WMOContentReviewer.init doc_h1_h3
          = Ok (issues, s'')
          ∧ i ∈ issues
          ∧ WMOContentReviewer.severity i = WMOContentReviewer.ERROR.
Proof.
  remember (WMOContentReviewer.review _ _) as r eqn:Er. vm_compute in Er. subst r.
  eexists. split; [reflexivity|]. split; [reflexivity|].
  intros (issues & s'' & i & [= <- _] & Hi & Hs).
  apply list_elem_of_singleton in Hi as ->. discriminate Hs.
Qed.

(** C5, amended.  The richer reviewer reports, as ERROR issues of the
    accessibility check, a first heading that is not of level 1, at that
    heading's line, and every heading that is more than one level deeper
    than the heading before it, at the later heading's line: one issue
    for levels 1, 3 and none for levels 1, 2, 3, nor when no level
    increases by more than one after a first heading of level 1.  The
    simpler reviewer reports the same jumps as WARNING issues of category
    Document Structure; its heading check reports nothing else but
    headings of more than 70 characters, so nothing about the level of
    the first heading; its accessibility check reports a first HTML
    heading of the text that is not [h1], as a WARNING at line 0.  The
    levels are those of the document: for a document of Markdown
    headings, HTML headings and lines of text, the collected headings
    are its heading lines with their line numbers and levels. *)
Theorem heading_hierarchy_issues (text : string) :
  (∀ self, ∃ issues sa s' hs,
     BillieJean.review self text = Ok (issues, sa, s')
     ∧ BillieJean.collect_headings (split_char newline text) = Ok hs
     ∧ filter BillieJeanFacts.is_hierarchy_issue issues
       ≡ₚ BillieJeanFacts.hierarchy_issues hs)
  ∧ (∀ self, ∃ issues s' hs,
       WMOContentReviewer.review self text = Ok (issues, s')
       ∧ WMOContentReviewer.collect_headings (split_char newline text) = Ok hs
       ∧ filter WMOFacts.wmo_is_jump issues
         ≡ₚ match hs with [] => [] | h0 :: tl => WMOFacts.jump_issues h0 tl end
       ∧ filter WMOHeadings.is_structure issues ≡ₚ WMOFacts.heading_walk None hs
       ∧ filter WMOHeadings.is_page_start issues
         = match WMOContentReviewer.findall_group1 IGNORECASE_DOTALL
                   WMOContentReviewer.rx_html_heading_any text with
           | [] => []
           | h0 :: _ =>
               if negb (String.eqb h0 "1") then [WMOHeadings.page_start_issue] else []
           end)
  ∧ (∀ self ls, ls ≠ [] → Forall HeadingDocs.valid ls →
       ∃ issues sa s',
         BillieJean.review self (HeadingDocs.render ls) = Ok (issues, sa, s')
         ∧ BillieJean.collect_headings (split_char newline (HeadingDocs.render ls))
           = Ok (HeadingDocs.headings_of 1 ls)
         ∧ filter BillieJeanFacts.is_hierarchy_issue issues
           ≡ₚ BillieJeanFacts.hierarchy_issues (HeadingDocs.headings_of 1 ls))
  ∧ (∀ self ls, ls ≠ [] → Forall HeadingDocs.valid ls →
       ∃ issues s',
         WMOContentReviewer.review self (HeadingDocs.render ls) = Ok (issues, s')
         ∧ WMOContentReviewer.collect_headings
             (split_char newline (HeadingDocs.render ls))
           = Ok (HeadingDocs.headings_of 1 ls)
         ∧ filter WMOHeadings.is_structure issues
           ≡ₚ match HeadingDocs.headings_of 1 ls with
              | [] => []
              | h0 :: tl => WMOFacts.jump_issues h0 tl
              end)
  ∧ (∀ hs, Forall (λ i, BillieJean.severity i = BillieJean.ERROR)
                  (BillieJeanFacts.hierarchy_issues hs))
  ∧ (∀ h1 h3, BillieJean.h_level h1 = 1 → BillieJean.h_level h3 = 3 →
       BillieJeanFacts.hierarchy_issues [h1; h3] = [BillieJeanFacts.skip_issue h1 h3]
       ∧ BillieJean.line_number (BillieJeanFacts.skip_issue h1 h3)
         = BillieJean.h_line h3)
  ∧ (∀ h1 h2 h3,
       BillieJean.h_level h1 = 1 → BillieJean.h_level h2 = 2 →
       BillieJean.h_level h3 = 3 →
       BillieJeanFacts.hierarchy_issues [h1; h2; h3] = [])
  ∧ (∀ h0 tl, BillieJean.h_level h0 ≠ 1 →
       BillieJeanFacts.h1_issue h0 ∈ BillieJeanFacts.hierarchy_issues (h0 :: tl)
       ∧ BillieJean.line_number (BillieJeanFacts.h1_issue h0) = BillieJean.h_line h0)
  ∧ (∀ h0 tl, BillieJean.h_level h0 = 1 → BillieJeanFacts.no_skip (h0 :: tl) →
       BillieJeanFacts.hierarchy_issues (h0 :: tl) = [])
  ∧ (∀ hs k hp hc, hs !! k = Some hp → hs !! S k = Some hc →
       BillieJean.h_level hp + 1 < BillieJean.h_level hc →
       BillieJeanFacts.skip_issue hp hc ∈ BillieJeanFacts.hierarchy_issues hs)
  ∧ (∀ h0 tl, Forall (λ i, WMOContentReviewer.severity i = WMOContentReviewer.WARNING)
                     (WMOFacts.jump_issues h0 tl))
  ∧ (∀ h1 h3, WMOContentReviewer.h_level h1 = 1 → WMOContentReviewer.h_level h3 = 3 →
       WMOFacts.jump_issues h1 [h3] = [WMOFacts.jump_issue h1 h3]
       ∧ WMOContentReviewer.line_number (WMOFacts.jump_issue h1 h3)
         = WMOContentReviewer.h_line h3)
  ∧ (∀ h0 tl, WMOFacts.wmo_no_skip (h0 :: tl) → WMOFacts.jump_issues h0 tl = [])
  ∧ (∀ hs i, i ∈ WMOFacts.heading_walk None hs →
       (∃ k hp hc, hs !! k = Some hp ∧ hs !! S k = Some hc
                   ∧ WMOContentReviewer.h_level hp + 1 < WMOContentReviewer.h_level hc
                   ∧ i = WMOFacts.jump_issue hp hc)
       ∨ (∃ h, h ∈ hs ∧ 70 < String.length (WMOContentReviewer.h_text h)
               ∧ i = WMOFacts.long_heading_issue h)).
Proof.
  split.
  { intros self.
    destruct (BillieJeanFacts.review_hierarchy self text)
      as (issues & sa & s' & hs & H).
    by exists issues, sa, s', hs. }
  split.
  { intros self.
    destruct (WMOHeadings.wmo_review_headings self text) as (issues & s' & hs & H).
    by exists issues, s', hs. }
  split.
  { intros self ls Hne Hv.
    destruct (BillieJeanFacts.review_hierarchy self (HeadingDocs.render ls))
      as (issues & sa & s' & hs & E & Eh & Hf).
    rewrite HeadingDocs.collect_headings_render in Eh by done.
    injection Eh as <-. exists issues, sa, s'.
    split; [done|]. split; [by apply HeadingDocs.collect_headings_render|done]. }
  split.
  { intros self ls Hne Hv.
    destruct (WMOHeadings.wmo_review_headings self (HeadingDocs.render ls))
      as (issues & s' & hs & E & Eh & _ & Hf & _).
    rewrite HeadingDocs.wmo_collect_headings_render in Eh by done.
    injection Eh as <-. exists issues, s'.
    split; [done|]. split; [by apply HeadingDocs.wmo_collect_headings_render|].
    by rewrite <-HeadingDocs.heading_walk_render_all. }
  split; [apply BillieJeanFacts.hierarchy_issues_error|].
  split.
  { intros h1 h3 H1 H3. split; [|done].
    cbn [BillieJeanFacts.hierarchy_issues BillieJeanFacts.skip_issues].
    rewrite H1, H3. reflexivity. }
  split.
  { intros h1 h2 h3 H1 H2 H3.
    cbn [BillieJeanFacts.hierarchy_issues BillieJeanFacts.skip_issues].
    rewrite H1, H2, H3. reflexivity. }
  split.
  { intros h0 tl H0. split; [|done]. cbn [BillieJeanFacts.hierarchy_issues].
    apply Nat.eqb_neq in H0. rewrite H0. apply elem_of_app. left. by left. }
  split.
  { intros h0 tl H0 Hn. cbn [BillieJeanFacts.hierarchy_issues].
    rewrite H0. by rewrite BillieJeanFacts.skip_issues_none. }
  split.
  { intros [|h0 tl] k hp hc Hp Hc Hlt; [done|].
    cbn [BillieJeanFacts.hierarchy_issues]. apply elem_of_app. right.
    by eapply BillieJeanFacts.skip_issues_elem. }
  split; [apply WMOFacts.jump_issues_warning|].
  split.
  { intros h1 h3 H1 H3. split; [|done]. cbn [WMOFacts.jump_issues].
    rewrite H1, H3. reflexivity. }
  split; [apply WMOFacts.jump_issues_none|].
  apply WMOHeadings.heading_walk_elem.
Qed.

Lemma heading_hierarchy_issues_witness :
  (∃ issues sa s',
     BillieJean.review (BillieJean.init BillieJean.UNKNOWN)
       (HeadingDocs.render [HeadingDocs.Md 1; HeadingDocs.Plain; HeadingDocs.Md 3])
     = Ok (issues, sa, s')
     ∧ filter BillieJeanFacts.is_hierarchy_issue issues
       = [BillieJeanFacts.skip_issue (1, 1, "Title") (3, 3, "Title")])
  ∧ (∃ issues sa s',
       BillieJean.review (BillieJean.init BillieJean.UNKNOWN)
         (HeadingDocs.render [HeadingDocs.Html 1; HeadingDocs.Md 2; HeadingDocs.Html 3])
       = Ok (issues, sa, s')
       ∧ filter BillieJeanFacts.is_hierarchy_issue issues = [])
  ∧ (∃ issues sa s',
       BillieJean.review (BillieJean.init BillieJean.UNKNOWN)
         (HeadingDocs.render [HeadingDocs.Md 2; HeadingDocs.Md 3; HeadingDocs.Html 3;
                              HeadingDocs.Md 1])
       = Ok (issues, sa, s')
       ∧ filter BillieJeanFacts.is_hierarchy_issue issues
         = [BillieJeanFacts.h1_issue (1, 2, "Title")])
  ∧ (∃ issues s',
       WMOContentReviewer.review WMOContentReviewer.init
         (HeadingDocs.render [HeadingDocs.Html 2; HeadingDocs.Md 4])
       = Ok (issues, s')
       ∧ filter WMOHeadings.is_structure issues
         = [WMOFacts.jump_issue (1, 2, "Title") (2, 4, "Title")]
       ∧ filter WMOHeadings.is_page_start issues = [WMOHeadings.page_start_issue])
  ∧ (∃ issues s',
       WMOContentReviewer.review WMOContentReviewer.init
         (HeadingDocs.render [HeadingDocs.Md 2; HeadingDocs.Md 3])
       = Ok (issues, s')
       ∧ filter WMOHeadings.is_structure issues = []
       ∧ filter WMOHeadings.is_page_start issues = []).
Proof.
  assert (∀ ls, bool_decide (Forall HeadingDocs.valid ls) = true →
                Forall HeadingDocs.valid ls) as Hv
    by (intros ls; apply bool_decide_eq_true_1).
  split.
  { destruct (proj1 (proj2 (proj2
      (heading_hierarchy_issues EmptyString))) (BillieJean.init BillieJean.UNKNOWN)
      [HeadingDocs.Md 1; HeadingDocs.Plain; HeadingDocs.Md 3]
      ltac:(discriminate) ltac:(apply Hv; reflexivity))
      as (issues & sa & s' & E & _ & Hf).
    exists issues, sa, s'. split; [exact E|].
    by apply Permutation_singleton_r in Hf. }
  split.
  { destruct (proj1 (proj2 (proj2
      (heading_hierarchy_issues EmptyString))) (BillieJean.init BillieJean.UNKNOWN)
      [HeadingDocs.Html 1; HeadingDocs.Md 2; HeadingDocs.Html 3]
      ltac:(discriminate) ltac:(apply Hv; reflexivity))
      as (issues & sa & s' & E & _ & Hf).
    exists issues, sa, s'. split; [exact E|].
    by apply Permutation_nil_r in Hf. }
  split.
  { destruct (proj1 (proj2 (proj2
      (heading_hierarchy_issues EmptyString))) (BillieJean.init BillieJean.UNKNOWN)
      [HeadingDocs.Md 2; HeadingDocs.Md 3; HeadingDocs.Html 3; HeadingDocs.Md 1]
      ltac:(discriminate) ltac:(apply Hv; reflexivity))
      as (issues & sa & s' & E & _ & Hf).
    exists issues, sa, s'. split; [exact E|].
    by apply Permutation_singleton_r in Hf. }
  split.
  { destruct (proj1 (proj2
      (heading_hierarchy_issues
         (HeadingDocs.render [HeadingDocs.Html 2; HeadingDocs.Md 4])))
      WMOContentReviewer.init) as (issues & s' & hs & E & Eh & _ & Hf & Hp).
    exists issues, s'. split; [exact E|].
    vm_compute in Eh. injection Eh as <-.
    split; [by apply Permutation_singleton_r in Hf|exact Hp]. }
  destruct (proj1 (proj2
    (heading_hierarchy_issues
       (HeadingDocs.render [HeadingDocs.Md 2; HeadingDocs.Md 3])))
    WMOContentReviewer.init) as (issues & s' & hs & E & Eh & _ & Hf & Hp).
  exists issues, s'. split; [exact E|].
  vm_compute in Eh. injection Eh as <-.
  split; [by apply Permutation_nil_r in Hf|exact Hp].
Defined.

(** C6, as stated, fails: the line [temp temp] has two whole-word
    occurrences of [temp], and the review has one issue about it. *)
Lemma informal_abbreviation_flagged_once :
  length (re_finditer no_flags (BillieJean.rx_whole_word "temp") (lower "temp temp")) = 2
  ∧ ∃ issues sa s',
      BillieJean.review (BillieJean.init BillieJean.UNKNOWN) "temp temp"
      = Ok (issues, sa, s')
      ∧ filter (BillieJeanFacts.is_informal "temp" 1) issues
        = [BillieJeanFacts.informal_issue "temp" "temperature" 1]
      ∧ length (filter (BillieJeanFacts.is_informal "temp" 1) issues) ≠ 2.
Proof.
  split; [vm_compute; reflexivity|].
  remember (BillieJean.review _ _) as r eqn:Er. vm_compute in Er. subst r.
  eexists _, _, _. split; [reflexivity|]. split; [vm_compute; reflexivity|].
  vm_compute. lia.
Qed.

(** C6, amended.  The richer reviewer flags [temp], [max], [min] and
    [info], the simpler one [temp], [max] and [min], as whole words of
    the lowercased line; for each line and each of these abbreviations
    the review has one issue if the line has at least one such
    occurrence, and none otherwise. *)
Theorem informal_abbreviation_once_per_line (text line : string) (j : nat) :
  split_char newline text !! j = Some line →
  (∀ self, ∃ issues sa s',
     BillieJean.review self text = Ok (issues, sa, s')
     ∧ ∀ e, e ∈ BillieJean.abbrev_issues →
         filter (BillieJeanFacts.is_informal e.1.2 (1 + j)) issues
         = if BillieJean.matches no_flags e.1.1 (lower line)
           then [BillieJeanFacts.informal_issue e.1.2 e.2 (1 + j)] else [])
  ∧ (∀ self, ∃ issues s',
       WMOContentReviewer.review self text = Ok (issues, s')
       ∧ ∀ e, e ∈ WMOContentReviewer.COMMON_ISSUES →
           filter (WMOFacts.is_terminology e.2 (1 + j)) issues
           = if WMOContentReviewer.matches no_flags e.1 (lower line)
             then [WMOFacts.terminology_issue e.2 (1 + j) line] else [])
  ∧ (λ e : regex * string * string, (e.1.1, e.1.2)) <$> BillieJean.abbrev_issues
    = (λ a, (BillieJean.rx_whole_word a, a)) <$> ["temp"; "max"; "min"; "info"]
  ∧ firstn 3 (fst <$> WMOContentReviewer.COMMON_ISSUES)
    = WMOContentReviewer.rx_whole_word <$> ["temp"; "max"; "min"]
  ∧ (∀ a, BillieJean.matches no_flags (BillieJean.rx_whole_word a) (lower line) = true
          ↔ re_finditer no_flags (BillieJean.rx_whole_word a) (lower line) ≠ []).
Proof.
  intros Hj. split.
  { intros self.
    destruct (BillieJeanFacts.review_informal self text) as (issues & sa & s' & E & H).
    exists issues, sa, s'. split; [done|]. intros e He. by apply H. }
  split.
  { intros self.
    destruct (WMOFacts.wmo_review_terminology self text) as (issues & s' & E & H).
    exists issues, s'. split; [done|]. intros e He. by apply H. }
  split; [reflexivity|]. split; [reflexivity|].
  intros a. unfold BillieJean.matches. rewrite re_search_finditer.
  destruct (re_finditer _ _ _) as [|m ms]; cbn [head].
  - split; [intros H; apply bool_decide_eq_true in H; by destruct H|done].
  - split; [done|]. intros _. apply bool_decide_eq_true. by eexists.
Qed.

Lemma informal_abbreviation_once_per_line_witness :
  ∃ issues sa s',
    BillieJean.review (BillieJean.init BillieJean.UNKNOWN) "temp temp"
    = Ok (issues, sa, s')
    ∧ ∀ e, e ∈ BillieJean.abbrev_issues →
        filter (BillieJeanFacts.is_informal e.1.2 (1 + 0)) issues
        = if BillieJean.matches no_flags e.1.1 (lower "temp temp")
          then [BillieJeanFacts.informal_issue e.1.2 e.2 (1 + 0)] else [].
Proof.
  apply (proj1 (informal_abbreviation_once_per_line "temp temp" "temp temp" 0
                  ltac:(vm_compute; reflexivity))).
Defined.

(** C7, as stated, fails for the checks that report what is absent.
    In the empty text no strategic keyword is found, and the strategic
    check of the richer reviewer adds its CRITICAL issue; there is no
    heading and no title, and the SEO check of the simpler reviewer adds
    its warning.  These are the issues of the two reviews. *)
Lemma nothing_found_still_reported :
  Forall (λ k, contains (lower k) (lower EmptyString) = false)
         BillieJeanFacts.all_keywords
  ∧ BillieJean.check_strategic_alignment
      (BillieJeanFacts.reset (BillieJean.init BillieJean.UNKNOWN) EmptyString)
    = Ok (BillieJean.emit
            (BillieJeanFacts.reset (BillieJean.init BillieJean.UNKNOWN) EmptyString)
            BillieJeanFacts.strategic_issue)
  ∧ (∃ sa s',
       BillieJean.review (BillieJean.init BillieJean.UNKNOWN) EmptyString
       = Ok ([BillieJeanFacts.strategic_issue], sa, s'))
  ∧ WMOContentReviewer.collect_headings (split_char newline EmptyString) = Ok []
  ∧ contains "<title>" (lower EmptyString) = false
  ∧ WMOContentReviewer.check_seo (WMOFacts.wmo_reset EmptyString)
    = Ok (WMOContentReviewer.emit (WMOFacts.wmo_reset EmptyString)
            WMOQuiet.missing_title_issue)
  ∧ (∃ s',
       WMOContentReviewer.review WMOContentReviewer.init EmptyString
       = Ok ([WMOQuiet.missing_title_issue], s')).
Proof.
  split; [apply (bool_decide_unpack _); vm_compute; exact I|].
  split; [vm_compute; reflexivity|].
  split.
  { remember (BillieJean.review _ _) as r eqn:Er. vm_compute in Er. subst r.
    eexists _, _. reflexivity. }
  split; [vm_compute; reflexivity|].
  split; [vm_compute; reflexivity|].
  split; [vm_compute; reflexivity|].
  remember (WMOContentReviewer.review _ _) as r eqn:Er. vm_compute in Er. subst r.
  eexists. reflexivity.
Qed.

(** C7, amended.  [review] returns for every text, in both reviewers,
    and no check raises in any state.  A check that finds none of the
    elements it looks for leaves the reviewer as it is, with two
    exceptions, which report an absence: the strategic check of the
    richer reviewer adds its CRITICAL issue when the text has no
    keyword, and the SEO check of the simpler reviewer adds its warning
    when the text has neither a title tag nor a hash followed by a
    space. *)
Theorem review_never_raises (text : string) :
  (∀ self, ∃ issues sa s', BillieJean.review self text = Ok (issues, sa, s'))
  ∧ (∀ self, ∃ issues s', WMOContentReviewer.review self text = Ok (issues, s'))
  (* no check raises *)
  ∧ (∀ s, (∃ s', BillieJean.check_strategic_alignment s = Ok s')
          ∧ (∃ s', BillieJean.check_accessibility_wcag s = Ok s')
          ∧ (∃ s', BillieJean.check_readability s = Ok s')
          ∧ (∃ s', BillieJean.check_seo s = Ok s')
          ∧ (∃ s', BillieJean.check_target_audience s = Ok s')
          ∧ (∃ s', BillieJean.check_links_and_references s = Ok s'))
  ∧ (∀ s, (∃ s', WMOContentReviewer.check_accessibility s = Ok s')
          ∧ (∃ s', WMOContentReviewer.check_heading_structure s = Ok s')
          ∧ (∃ s', WMOContentReviewer.check_links s = Ok s')
          ∧ (∃ s', WMOContentReviewer.check_seo s = Ok s'))
  (* the checks of the richer reviewer *)
  ∧ (∀ s,
       BillieJean.strategic_alignment s = BillieJean.StrategicAlignment_new →
       Forall (λ k, contains (lower k) (lower (BillieJean.content s)) = false)
              BillieJeanFacts.all_keywords →
       BillieJean.check_strategic_alignment s
       = Ok (BillieJean.emit s BillieJeanFacts.strategic_issue))
  ∧ (∀ s,
       Forall (λ line,
         contains "world meteorological organization" (lower line) = false
         ∧ Forall (λ sentence, length (split_ws sentence) ≤ 30)
                  (re_split no_flags BillieJean.rx_sentence_end line)
         ∧ Forall (λ e, re_search IGNORECASE e.1 line = None)
                  BillieJean.passive_patterns
         ∧ Forall (λ e, re_search no_flags e.1.1 (lower line) = None)
                  BillieJean.abbrev_issues
         ∧ re_search no_flags BillieJean.rx_italics line = None)
         (BillieJean.content_lines s) →
       BillieJean.check_style_guide_compliance s = s)
  ∧ (∀ s,
       re_finditer IGNORECASE BillieJean.img_pattern (BillieJean.content s) = [] →
       Forall (λ line,
         re_match no_flags BillieJean.rx_md_heading line = None
         ∧ re_finditer IGNORECASE BillieJean.rx_html_heading line = [])
         (BillieJean.content_lines s) →
       re_finditer IGNORECASE BillieJean.link_pattern (BillieJean.content s) = [] →
       BillieJean.check_accessibility_wcag s = Ok s)
  ∧ (∀ s,
       Forall (λ sentence, is_empty (strip sentence) = true)
              (re_split no_flags BillieJean.rx_sentence_end (BillieJean.content s)) →
       Forall (λ term, contains term (lower (BillieJean.content s)) = false)
              BillieJean.technical_terms →
       BillieJean.check_readability s = Ok s)
  ∧ (∀ s,
       Forall (λ line, Forall (λ e, contains e.1 (lower line) = false)
                              BillieJean.terminology_guide)
              (BillieJean.content_lines s) →
       BillieJean.check_terminology s = s)
  ∧ (∀ s,
       Forall (λ line, Forall (λ e, contains e.1 line = false)
                              BillieJean.WMO_ABBREVIATIONS)
              (BillieJean.content_lines s) →
       BillieJean.check_abbreviations s = s)
  ∧ (∀ s,
       Forall (λ line,
         re_match no_flags BillieJean.rx_md_title line = None
         ∧ re_search IGNORECASE BillieJean.rx_html_title line = None)
         (BillieJean.content_lines s) →
       Forall (λ line, length (split_ws line) ≤ 10)
              (firstn 20 (BillieJean.content_lines s)) →
       length (split_ws (BillieJean.content s)) ≤ 800 →
       BillieJean.check_news_article_standards s = s)
  ∧ (∀ s,
       contains "<meta" (lower (BillieJean.content s)) = false →
       re_search IGNORECASE BillieJean.rx_meta_description (BillieJean.content s)
       = None →
       BillieJean.check_seo s = Ok s)
  ∧ (∀ s,
       re_finditer no_flags BillieJean.rx_technical (lower (BillieJean.content s))
       = [] →
       BillieJean.check_target_audience s = Ok s)
  ∧ (∀ s,
       Forall (λ line,
         contains "  " line = false
         ∧ re_search no_flags BillieJean.rx_missing_space line = None)
         (BillieJean.content_lines s) →
       BillieJean.check_formatting s = s)
  ∧ (∀ s,
       re_finditer IGNORECASE BillieJean.rx_html_link (BillieJean.content s) = [] →
       re_finditer no_flags BillieJean.rx_md_link (BillieJean.content s) = [] →
       BillieJean.check_links_and_references s = Ok s)
  (* the checks of the simpler reviewer *)
  ∧ (∀ s,
       Forall (λ line, Forall (λ e, re_search no_flags e.1 (lower line) = None)
                              WMOContentReviewer.COMMON_ISSUES)
              (WMOContentReviewer.content_lines s) →
       WMOContentReviewer.check_terminology s = s)
  ∧ (∀ s,
       Forall (λ line, Forall (λ a, contains a line = false)
                              WMOContentReviewer.WMO_ABBREVIATIONS)
              (WMOContentReviewer.content_lines s) →
       WMOContentReviewer.check_abbreviations s = s)
  ∧ (∀ s,
       Forall (λ line,
         re_search IGNORECASE (Lit "world meteorological organization") line = None
         ∧ Forall (λ sentence, length (split_ws sentence) ≤ 40)
                  (re_split no_flags WMOContentReviewer.rx_sentence_end line)
         ∧ Forall (λ p, re_search IGNORECASE p line = None)
                  WMOContentReviewer.passive_indicators)
         (WMOContentReviewer.content_lines s) →
       WMOContentReviewer.check_style_guide s = s)
  ∧ (∀ s,
       re_finditer IGNORECASE WMOContentReviewer.img_pattern
         (WMOContentReviewer.content s) = [] →
       WMOContentReviewer.findall_group1 IGNORECASE_DOTALL
         WMOContentReviewer.rx_html_heading_any (WMOContentReviewer.content s) = [] →
       re_finditer IGNORECASE WMOContentReviewer.link_pattern
         (WMOContentReviewer.content s) = [] →
       WMOContentReviewer.check_accessibility s = Ok s)
  ∧ (∀ s,
       Forall (λ line,
         contains "  " line = false
         ∧ re_search IGNORECASE WMOContentReviewer.rx_its line = None
         ∧ re_search no_flags WMOContentReviewer.rx_pronoun line = None)
         (WMOContentReviewer.content_lines s) →
       WMOContentReviewer.check_grammar_and_clarity s = s)
  ∧ (∀ s,
       Forall (λ line,
         re_search IGNORECASE WMOContentReviewer.rx_temperature line = None
         ∧ re_finditer no_flags WMOContentReviewer.rx_date line = [])
         (WMOContentReviewer.content_lines s) →
       WMOContentReviewer.check_technical_accuracy s = s)
  ∧ (∀ s,
       Forall (λ line,
         re_match no_flags WMOContentReviewer.rx_md_heading line = None
         ∧ re_finditer IGNORECASE WMOContentReviewer.rx_html_heading line = [])
         (WMOContentReviewer.content_lines s) →
       WMOContentReviewer.check_heading_structure s = Ok s)
  ∧ (∀ s,
       re_finditer IGNORECASE WMOContentReviewer.html_link_pattern
         (WMOContentReviewer.content s) = [] →
       re_finditer no_flags WMOContentReviewer.md_link_pattern
         (WMOContentReviewer.content s) = [] →
       WMOContentReviewer.check_links s = Ok s)
  ∧ (∀ s,
       contains "<meta" (lower (WMOContentReviewer.content s)) = false →
       re_search IGNORECASE WMOContentReviewer.rx_meta_content
         (WMOContentReviewer.content s) = None →
       WMOContentReviewer.check_seo s
       = Ok (if negb (contains "<title>" (lower (WMOContentReviewer.content s)))
                && negb (contains "# " (WMOContentReviewer.content s))
             then WMOContentReviewer.emit s WMOQuiet.missing_title_issue
             else s)).
Proof.
  split.
  { intros self. destruct (BillieJeanFacts.review_spec self text) as (p & _ & E).
    by eexists _, _, _. }
  split.
  { intros self. destruct (WMOFacts.wmo_review_spec self text) as (p & _ & E).
    by eexists _, _. }
  split.
  { intros s. repeat split.
    - unfold BillieJean.check_strategic_alignment. cbv zeta.
      rewrite BillieJeanFacts.get_coverage_value, bind_Ok.
      destruct (_ <? _)%float; by eexists.
    - destruct (BillieJeanFacts.check_accessibility_wcag_spec s)
        as (hs & l1 & l2 & _ & E & _). by eexists.
    - destruct (BillieJeanFacts.check_readability_ok s) as (s' & E & _). by exists s'.
    - destruct (BillieJeanFacts.check_seo_ok s) as (s' & E & _). by exists s'.
    - destruct (BillieJeanFacts.check_target_audience_ok s) as (s' & E & _).
      by exists s'.
    - destruct (BillieJeanFacts.check_links_and_references_ok s) as (s' & E & _).
      by exists s'. }
  split.
  { intros s. repeat split.
    - destruct (WMOFacts.wmo_check_accessibility_ok s) as (s' & E & _). by exists s'.
    - destruct (WMOFacts.wmo_check_heading_structure_spec s) as (hs & _ & E).
      by eexists.
    - destruct (WMOFacts.wmo_check_links_ok s) as (s' & E & _). by exists s'.
    - destruct (WMOFacts.wmo_check_seo_ok s) as (s' & E & _). by exists s'. }
  split; [apply BillieJeanQuiet.check_strategic_alignment_nothing|].
  split; [apply BillieJeanQuiet.check_style_guide_compliance_nothing|].
  split; [apply BillieJeanQuiet.check_accessibility_wcag_quiet|].
  split; [apply BillieJeanQuiet.check_readability_nothing|].
  split; [apply BillieJeanQuiet.check_terminology_nothing|].
  split; [apply BillieJeanQuiet.check_abbreviations_nothing|].
  split; [apply BillieJeanQuiet.check_news_article_standards_nothing|].
  split; [apply BillieJeanQuiet.check_seo_nothing|].
  split; [apply BillieJeanQuiet.check_target_audience_nothing|].
  split; [apply BillieJeanQuiet.check_formatting_nothing|].
  split; [apply BillieJeanQuiet.check_links_and_references_nothing|].
  split; [apply WMOQuiet.wmo_check_terminology_nothing|].
  split; [apply WMOQuiet.wmo_check_abbreviations_nothing|].
  split; [apply WMOQuiet.wmo_check_style_guide_nothing|].
  split; [apply WMOQuiet.wmo_check_accessibility_nothing|].
  split; [apply WMOQuiet.wmo_check_grammar_and_clarity_nothing|].
  split; [apply WMOQuiet.wmo_check_technical_accuracy_nothing|].
  split; [apply WMOQuiet.wmo_check_heading_structure_nothing|].
  split; [apply WMOQuiet.wmo_check_links_nothing|].
  apply WMOQuiet.wmo_check_seo_nothing.
Qed.

(** A text without markup, as a news article and for the simpler
    reviewer. *)
Definition plain_article : BillieJean.t :=
  BillieJeanFacts.reset (BillieJean.init BillieJean.NEWS_ARTICLE) "plain text".

Definition plain_page : WMOContentReviewer.t := WMOFacts.wmo_reset "plain text".

Lemma review_never_raises_witness :
  (BillieJean.check_strategic_alignment plain_article
   = Ok (BillieJean.emit plain_article BillieJeanFacts.strategic_issue)
   ∧ BillieJean.check_style_guide_compliance plain_article = plain_article
   ∧ BillieJean.check_accessibility_wcag plain_article = Ok plain_article
   ∧ BillieJean.check_readability
       (BillieJeanFacts.reset (BillieJean.init BillieJean.UNKNOWN) EmptyString)
     = Ok (BillieJeanFacts.reset (BillieJean.init BillieJean.UNKNOWN) EmptyString)
   ∧ BillieJean.check_terminology plain_article = plain_article
   ∧ BillieJean.check_abbreviations plain_article = plain_article
   ∧ BillieJean.check_news_article_standards plain_article = plain_article
   ∧ BillieJean.check_seo plain_article = Ok plain_article
   ∧ BillieJean.check_target_audience plain_article = Ok plain_article
   ∧ BillieJean.check_formatting plain_article = plain_article
   ∧ BillieJean.check_links_and_references plain_article = Ok plain_article)
  ∧ (WMOContentReviewer.check_terminology plain_page = plain_page
     ∧ WMOContentReviewer.check_abbreviations plain_page = plain_page
     ∧ WMOContentReviewer.check_style_guide plain_page = plain_page
     ∧ WMOContentReviewer.check_accessibility plain_page = Ok plain_page
     ∧ WMOContentReviewer.check_grammar_and_clarity plain_page = plain_page
     ∧ WMOContentReviewer.check_technical_accuracy plain_page = plain_page
     ∧ WMOContentReviewer.check_heading_structure plain_page = Ok plain_page
     ∧ WMOContentReviewer.check_links plain_page = Ok plain_page
     ∧ WMOContentReviewer.check_seo plain_page
       = Ok (WMOContentReviewer.emit plain_page WMOQuiet.missing_title_issue)).
Proof.
  pose proof (review_never_raises "plain text")
    as (_ & _ & _ & _ & B1 & B2 & B3 & B4 & B5 & B6 & B7 & B8 & B9 & B10 & B11
        & W1 & W2 & W3 & W4 & W5 & W6 & W7 & W8 & W9).
  split.
  - split; [apply B1; Quiet.nothing_there|].
    split; [apply B2; Quiet.nothing_there|].
    split; [apply B3; Quiet.nothing_there|].
    split; [apply B4; Quiet.nothing_there|].
    split; [apply B5; Quiet.nothing_there|].
    split; [apply B6; Quiet.nothing_there|].
    split; [apply B7; Quiet.nothing_there|].
    split; [apply B8; Quiet.nothing_there|].
    split; [apply B9; Quiet.nothing_there|].
    split; [apply B10; Quiet.nothing_there|].
    apply B11; Quiet.nothing_there.
  - split; [apply W1; Quiet.nothing_there|].
    split; [apply W2; Quiet.nothing_there|].
    split; [apply W3; Quiet.nothing_there|].
    split; [apply W4; Quiet.nothing_there|].
    split; [apply W5; Quiet.nothing_there|].
    split; [apply W6; Quiet.nothing_there|].
    split; [apply W7; Quiet.nothing_there|].
    split; [apply W8; Quiet.nothing_there|].
    apply (W9 plain_page); Quiet.nothing_there.
Defined.

(** C8.  What [review] returns depends on the text and on the content
    type the reviewer was built with, and on nothing a former review left
    behind: two reviewers of the same content type return the same, and a
    reviewer that has reviewed another document returns what a fresh one
    does.  The simpler reviewer has no content type. *)
Theorem review_independent_of_history (text : string) :
  (∀ self1 self2,
     BillieJean.content_type self1 = BillieJean.content_type self2 →
     BillieJean.review self1 text = BillieJean.review self2 text)
  ∧ (∀ self other issues sa s',
       BillieJean.review self other = Ok (issues, sa, s') →
       BillieJean.review s' text
       = BillieJean.review (BillieJean.init (BillieJean.content_type self)) text)
  ∧ (∀ self, WMOContentReviewer.review self text
             = WMOContentReviewer.review WMOContentReviewer.init text).
Proof.
  assert (∀ self1 self2,
     BillieJean.content_type self1 = BillieJean.content_type self2 →
     BillieJean.review self1 text = BillieJean.review self2 text) as H.
  { intros self1 self2 Hct.
    rewrite (BillieJeanFacts.review_reset self1), (BillieJeanFacts.review_reset self2).
    by rewrite (BillieJeanFacts.reset_content_type self1 self2 text Hct). }
  split; [exact H|]. split.
  - intros self other issues sa s' E. apply H.
    by rewrite (BillieJeanFacts.review_final_content_type _ _ _ _ _ E).
  - intros self.
    rewrite (WMOFacts.wmo_review_reset self).
    by rewrite (WMOFacts.wmo_review_reset WMOContentReviewer.init).
Qed.

Lemma review_independent_of_history_witness :
  ∃ issues sa s',
    BillieJean.review (BillieJean.init BillieJean.NEWS_ARTICLE) "GCOS rainfall"
    = Ok (issues, sa, s')
    ∧ BillieJean.review s' "flood"
      = BillieJean.review (BillieJean.init BillieJean.NEWS_ARTICLE) "flood".
Proof.
  destruct (BillieJeanFacts.review_spec
              (BillieJean.init BillieJean.NEWS_ARTICLE) "GCOS rainfall")
    as (p & _ & E).
  eexists _, _, _. split; [exact E|].
  exact (proj1 (proj2 (review_independent_of_history "flood")) _ _ _ _ _ E).
Defined.

(** C9.  The severity filter returns the issues whose severity is in the
    set, in their order: a sublist of the list, holding exactly the
    issues of the list with such a severity, each as often as the list
    has it.  Both reviewers. *)
Theorem severity_filter_is_subsequence (S : gset string) :
  (∀ issues : list BillieJean.ReviewIssue,
     BillieJean.filter_by_severity S issues `sublist_of` issues
     ∧ (∀ i, i ∈ BillieJean.filter_by_severity S issues
             ↔ i ∈ issues ∧ BillieJean.value (BillieJean.severity i) ∈ S)
     ∧ (∀ l, l `sublist_of` issues →
             Forall (λ i, BillieJean.value (BillieJean.severity i) ∈ S) l →
             l `sublist_of` BillieJean.filter_by_severity S issues))
  ∧ (∀ issues : list WMOContentReviewer.Issue,
       WMOContentReviewer.filter_by_severity S issues `sublist_of` issues
       ∧ (∀ i, i ∈ WMOContentReviewer.filter_by_severity S issues
               ↔ i ∈ issues
                 ∧ WMOContentReviewer.value (WMOContentReviewer.severity i) ∈ S)
       ∧ (∀ l, l `sublist_of` issues →
               Forall (λ i, WMOContentReviewer.value (WMOContentReviewer.severity i) ∈ S) l →
               l `sublist_of` WMOContentReviewer.filter_by_severity S issues)).
Proof.
  split; intros issues.
  - unfold BillieJean.filter_by_severity. split; [apply sublist_filter|].
    split; [intros i; rewrite list_elem_of_filter; tauto|].
    intros l Hl HP. rewrite <-(filter_all _ l HP). by apply filter_sublist_mono.
  - unfold WMOContentReviewer.filter_by_severity. split; [apply sublist_filter|].
    split; [intros i; rewrite list_elem_of_filter; tauto|].
    intros l Hl HP. rewrite <-(filter_all _ l HP). by apply filter_sublist_mono.
Qed.

Lemma severity_filter_is_subsequence_witness :
  [BillieJeanFacts.strategic_issue]
  `sublist_of` BillieJean.filter_by_severity {["CRITICAL"]}
                 [BillieJeanFacts.strategic_issue; BillieJeanFacts.h1_issue (1, 2, "A")].
Proof.
  apply (proj2 (proj2 (proj1 (severity_filter_is_subsequence {["CRITICAL"]}) _))).
  - apply sublist_skip, sublist_nil_l.
  - constructor; [|done]. vm_compute. reflexivity.
Defined.

(** * Further properties *)

(** The five strategic areas, in the order of the flags. *)
Definition strategic_areas : list string := [
  "Earth system monitoring"; "Early warnings"; "Climate action";
  "Capacity development"; "Hydrometeorological services"].

(** The areas whose flag is [b]. *)
Definition areas_with (b : bool) (sa : BillieJean.StrategicAlignment) : list string :=
  (filter (λ p : bool * string, p.1 = b)
          (zip (BillieJeanFacts.flags_of sa) strategic_areas)).*2.

Lemma areas_with_sublist b sa : areas_with b sa `sublist_of` strategic_areas.
Proof.
  unfold areas_with.
  assert ((zip (BillieJeanFacts.flags_of sa) strategic_areas).*2 = strategic_areas)
    as E by reflexivity.
  rewrite <-E at 2. apply fmap_sublist, sublist_filter.
Qed.

(** X1.  The covered and the missing areas split the five areas: the
    covered ones are those whose flag is set and the missing ones the
    others, both in the order of the flags; no area is in both lists;
    and the coverage is 20 times the number of covered areas. *)
Theorem covered_and_missing_areas (sa : BillieJean.StrategicAlignment) :
  BillieJean.get_covered_areas sa = areas_with true sa
  ∧ BillieJean.get_missing_areas sa = areas_with false sa
  ∧ BillieJean.get_covered_areas sa ++ BillieJean.get_missing_areas sa
    ≡ₚ strategic_areas
  ∧ BillieJean.get_covered_areas sa `sublist_of` strategic_areas
  ∧ BillieJean.get_missing_areas sa `sublist_of` strategic_areas
  ∧ (∀ a, a ∈ BillieJean.get_covered_areas sa → a ∉ BillieJean.get_missing_areas sa)
  ∧ length (BillieJean.get_covered_areas sa) + length (BillieJean.get_missing_areas sa) = 5
  ∧ BillieJean.get_coverage sa
    = Ok (float_of_nat (20 * length (BillieJean.get_covered_areas sa))).
Proof.
  assert (BillieJean.get_covered_areas sa = areas_with true sa) as Ec
    by (destruct sa as [[] [] [] [] []]; reflexivity).
  assert (BillieJean.get_missing_areas sa = areas_with false sa) as Em
    by (destruct sa as [[] [] [] [] []]; reflexivity).
  split; [done|]. split; [done|].
  split; [destruct sa as [[] [] [] [] []];
          apply (bool_decide_unpack _); vm_compute; exact I|].
  split; [rewrite Ec; apply areas_with_sublist|].
  split; [rewrite Em; apply areas_with_sublist|].
  split; [destruct sa as [[] [] [] [] []]; apply Forall_forall;
          apply (bool_decide_unpack _); vm_compute; exact I|].
  split; destruct sa as [[] [] [] [] []]; vm_compute; reflexivity.
Qed.

Lemma sum_ones {A} (l : list A) : sum_list ((λ _, 1) <$> l) = length l.
Proof. induction l as [|x l IH]; [done|]. cbn. by rewrite IH. Qed.

Lemma bj_count_severity_cons sev i issues :
  BillieJean.count_severity sev (i :: issues)
  = (if BillieJean.Severity_eqb (BillieJean.severity i) sev then 1 else 0)
    + BillieJean.count_severity sev issues.
Proof.
  unfold BillieJean.count_severity. cbn [List.filter].
  by destruct (BillieJean.Severity_eqb _ _).
Qed.

Lemma wmo_count_severity_cons sev i issues :
  WMOContentReviewer.count_severity sev (i :: issues)
  = (if WMOContentReviewer.Severity_eqb (WMOContentReviewer.severity i) sev
     then 1 else 0)
    + WMOContentReviewer.count_severity sev issues.
Proof.
  unfold WMOContentReviewer.count_severity. cbn [List.filter].
  by destruct (WMOContentReviewer.Severity_eqb _ _).
Qed.

(** X2.  The counts of the summary add up to the total, in both
    reviewers; and after the severity filter the count of a severity is
    its count before the filter if the filter allows its name, and 0
    otherwise. *)
Theorem summary_counts_add_up (S : gset string) :
  (∀ issues,
     BillieJean.critical (BillieJean.summary_of issues)
     + BillieJean.errors (BillieJean.summary_of issues)
     + BillieJean.warnings (BillieJean.summary_of issues)
     + BillieJean.suggestions (BillieJean.summary_of issues)
     = BillieJean.total_issues (BillieJean.summary_of issues))
  ∧ (∀ issues,
       WMOContentReviewer.errors (WMOContentReviewer.summary_of issues)
       + WMOContentReviewer.warnings (WMOContentReviewer.summary_of issues)
       + WMOContentReviewer.info (WMOContentReviewer.summary_of issues)
       + WMOContentReviewer.suggestions (WMOContentReviewer.summary_of issues)
       = WMOContentReviewer.total_issues (WMOContentReviewer.summary_of issues))
  ∧ (∀ sev issues,
       BillieJean.count_severity sev (BillieJean.filter_by_severity S issues)
       = if decide (BillieJean.value sev ∈ S)
         then BillieJean.count_severity sev issues else 0)
  ∧ (∀ sev issues,
       WMOContentReviewer.count_severity sev
         (WMOContentReviewer.filter_by_severity S issues)
       = if decide (WMOContentReviewer.value sev ∈ S)
         then WMOContentReviewer.count_severity sev issues else 0).
Proof.
  split; [|split; [|split]].
  - intros issues. cbn. induction issues as [|i issues IH]; [done|].
    rewrite !bj_count_severity_cons. cbn [length].
    destruct (BillieJean.severity i); cbn; lia.
  - intros issues. cbn. induction issues as [|i issues IH]; [done|].
    rewrite !wmo_count_severity_cons. cbn [length].
    destruct (WMOContentReviewer.severity i); cbn; lia.
  - intros sev issues. unfold BillieJean.filter_by_severity.
    induction issues as [|i issues IH]; [by destruct (decide _)|].
    rewrite filter_cons, bj_count_severity_cons.
    destruct (decide (BillieJean.value (BillieJean.severity i) ∈ S)) as [Hi|Hi].
    + rewrite bj_count_severity_cons, IH.
      destruct (decide (BillieJean.value sev ∈ S)) as [Hs|Hs]; [done|].
      destruct (BillieJean.severity i), sev; try done; by destruct Hs.
    + rewrite IH. destruct (decide (BillieJean.value sev ∈ S)) as [Hs|Hs]; [|done].
      destruct (BillieJean.severity i), sev; try done; by destruct Hi.
  - intros sev issues. unfold WMOContentReviewer.filter_by_severity.
    induction issues as [|i issues IH]; [by destruct (decide _)|].
    rewrite filter_cons, wmo_count_severity_cons.
    destruct (decide (WMOContentReviewer.value (WMOContentReviewer.severity i) ∈ S))
      as [Hi|Hi].
    + rewrite wmo_count_severity_cons, IH.
      destruct (decide (WMOContentReviewer.value sev ∈ S)) as [Hs|Hs]; [done|].
      destruct (WMOContentReviewer.severity i), sev; try done; by destruct Hs.
    + rewrite IH. destruct (decide (WMOContentReviewer.value sev ∈ S)) as [Hs|Hs]; [|done].
      destruct (WMOContentReviewer.severity i), sev; try done; by destruct Hi.
Qed.

(** X3.  With the default value of [--severity] the filter keeps every
    issue, in both reviewers; so does every filter that allows the names
    of all severities. *)
Theorem default_filter_keeps_all :
  (∀ sev, BillieJean.value sev ∈ BillieJean.parse_severity BillieJean.default_severity)
  ∧ (∀ sev, WMOContentReviewer.value sev
            ∈ WMOContentReviewer.parse_severity WMOContentReviewer.default_severity)
  ∧ (∀ issues,
       BillieJean.filter_by_severity
         (BillieJean.parse_severity BillieJean.default_severity) issues = issues)
  ∧ (∀ issues,
       WMOContentReviewer.filter_by_severity
         (WMOContentReviewer.parse_severity WMOContentReviewer.default_severity) issues
       = issues)
  ∧ (∀ S issues, (∀ sev, BillieJean.value sev ∈ S) →
       BillieJean.filter_by_severity S issues = issues)
  ∧ (∀ S issues, (∀ sev, WMOContentReviewer.value sev ∈ S) →
       WMOContentReviewer.filter_by_severity S issues = issues).
Proof.
  assert (∀ sev, BillieJean.value sev
                 ∈ BillieJean.parse_severity BillieJean.default_severity) as HB
    by (intros []; vm_compute; reflexivity).
  assert (∀ sev, WMOContentReviewer.value sev
                 ∈ WMOContentReviewer.parse_severity WMOContentReviewer.default_severity)
    as HW by (intros []; vm_compute; reflexivity).
  assert (∀ S issues, (∀ sev, BillieJean.value sev ∈ S) →
            BillieJean.filter_by_severity S issues = issues) as FB.
  { intros S issues H. apply filter_all, Forall_forall. intros i _. apply H. }
  assert (∀ S issues, (∀ sev, WMOContentReviewer.value sev ∈ S) →
            WMOContentReviewer.filter_by_severity S issues = issues) as FW.
  { intros S issues H. apply filter_all, Forall_forall. intros i _. apply H. }
  split; [done|]. split; [done|].
  split; [intros issues; by apply FB|]. split; [intros issues; by apply FW|]. done.
Qed.

Lemma default_filter_keeps_all_witness :
  BillieJean.filter_by_severity
    {["CRITICAL"; "ERROR"; "WARNING"; "SUGGESTION"]} [BillieJeanFacts.strategic_issue]
  = [BillieJeanFacts.strategic_issue].
Proof.
  apply (proj1 (proj2 (proj2 (proj2 (proj2 default_filter_keeps_all))))).
  intros []; vm_compute; reflexivity.
Defined.

Lemma bj_exit_code_spec issues :
  BillieJean.exit_code issues = 1
  ↔ ∃ i, i ∈ issues
         ∧ (BillieJean.severity i = BillieJean.CRITICAL
            ∨ BillieJean.severity i = BillieJean.ERROR).
Proof.
  unfold BillieJean.exit_code.
  destruct (existsb _ issues) eqn:E.
  - split; [intros _|done]. apply existsb_exists in E as (i & Hi & Hs).
    exists i. split; [by apply list_elem_of_In|].
    destruct (BillieJean.severity i); try done; [by left|by right].
  - split; [done|]. intros (i & Hi & Hs). exfalso.
    apply not_true_iff_false in E. apply E. apply existsb_exists. exists i.
    split; [by apply list_elem_of_In|]. by destruct Hs as [-> | ->].
Qed.

Lemma wmo_exit_code_spec issues :
  WMOContentReviewer.exit_code issues = 1
  ↔ ∃ i, i ∈ issues ∧ WMOContentReviewer.severity i = WMOContentReviewer.ERROR.
Proof.
  unfold WMOContentReviewer.exit_code.
  destruct (existsb _ issues) eqn:E.
  - split; [intros _|done]. apply existsb_exists in E as (i & Hi & Hs).
    exists i. split; [by apply list_elem_of_In|].
    by destruct (WMOContentReviewer.severity i).
  - split; [done|]. intros (i & Hi & Hs). exfalso.
    apply not_true_iff_false in E. apply E. apply existsb_exists. exists i.
    split; [by apply list_elem_of_In|]. by rewrite Hs.
Qed.

(** X4.  [main], from the review on, returns for every content and every
    value of [--severity]; the reviewer is left with the issues that
    passed the filter; the exit status is 1 exactly when one of them is
    CRITICAL or an ERROR (an ERROR, for the simpler reviewer), and 0
    otherwise: a filter that allows neither name always exits with 0,
    and a document that mentions no strategic keyword exits with 1
    whenever the filter allows CRITICAL. *)
Theorem main_exit_status (content arg : string) :
  (∀ ct, ∃ reviewer alignment summary code issues sa s',
     BillieJean.main_review ct content arg = Ok (reviewer, alignment, summary, code)
     ∧ BillieJean.review (BillieJean.init ct) content = Ok (issues, sa, s')
     ∧ alignment = sa
     ∧ BillieJean.issues reviewer
       = BillieJean.filter_by_severity (BillieJean.parse_severity arg) issues
     ∧ summary = BillieJean.summary_of (BillieJean.issues reviewer)
     ∧ (code = 1 ∨ code = 0)
     ∧ (code = 1 ↔ ∃ i, i ∈ BillieJean.issues reviewer
                        ∧ (BillieJean.severity i = BillieJean.CRITICAL
                           ∨ BillieJean.severity i = BillieJean.ERROR))
     ∧ ("CRITICAL" ∉ BillieJean.parse_severity arg →
        "ERROR" ∉ BillieJean.parse_severity arg → code = 0)
     ∧ ((∀ k, k ∈ BillieJeanFacts.all_keywords →
              BillieJeanFacts.mentions content k = false) →
        "CRITICAL" ∈ BillieJean.parse_severity arg → code = 1))
  ∧ (∃ reviewer summary code issues s',
       WMOContentReviewer.main_review content arg = Ok (reviewer, summary, code)
       ∧ WMOContentReviewer.review WMOContentReviewer.init content = Ok (issues, s')
       ∧ WMOContentReviewer.issues reviewer
         = WMOContentReviewer.filter_by_severity
             (WMOContentReviewer.parse_severity arg) issues
       ∧ summary = WMOContentReviewer.summary_of (WMOContentReviewer.issues reviewer)
       ∧ (code = 1 ∨ code = 0)
       ∧ (code = 1 ↔ ∃ i, i ∈ WMOContentReviewer.issues reviewer
                          ∧ WMOContentReviewer.severity i = WMOContentReviewer.ERROR)
       ∧ ("ERROR" ∉ WMOContentReviewer.parse_severity arg → code = 0)).
Proof.
  split.
  - intros ct.
    destruct (BillieJeanFacts.review_strategic (BillieJean.init ct) content)
      as (issues & s' & cov & E & Ecov & Hstrat).
    set (sa := BillieJeanFacts.alignment_of content) in *.
    unfold BillieJean.main_review. cbv zeta. rewrite E, bind_Ok. cbv beta iota zeta.
    set (filtered := BillieJean.filter_by_severity _ issues).
    eexists _, _, _, _, issues, sa, s'. split; [reflexivity|].
    split; [done|]. split; [done|].
    assert (BillieJean.issues (BillieJean.set_issues s' filtered) = filtered) as ->
      by by destruct s'.
    split; [done|]. split; [done|].
    split; [unfold BillieJean.exit_code; destruct (existsb _ _); [by left|by right]|].
    split; [apply bj_exit_code_spec|]. split.
    + intros Hc He.
      destruct (BillieJean.exit_code filtered) as [|[|n]] eqn:Ex; [done| |].
      * apply bj_exit_code_spec in Ex as (i & Hi & Hs).
        apply list_elem_of_filter in Hi as [Hi _].
        destruct Hs as [Hs|Hs]; rewrite Hs in Hi; done.
      * unfold BillieJean.exit_code in Ex. by destruct (existsb _ _).
    + intros Hk Hc. apply bj_exit_code_spec.
      unfold sa in Ecov. rewrite (BillieJeanFacts.alignment_of_none content Hk) in Ecov.
      injection Ecov as <-.
      exists BillieJeanFacts.strategic_issue. split; [|by left].
      apply list_elem_of_filter. split; [done|].
      assert (BillieJeanFacts.strategic_issue
              ∈ filter BillieJeanFacts.is_strategic issues) as Hin
        by (rewrite Hstrat; by left).
      by apply list_elem_of_filter in Hin as [_ Hin].
  - destruct (WMOFacts.wmo_review_spec WMOContentReviewer.init content) as (p & _ & E).
    unfold WMOContentReviewer.main_review. cbv zeta. rewrite E, bind_Ok.
    cbv beta iota zeta.
    set (filtered := WMOContentReviewer.filter_by_severity _ _).
    eexists _, _, _, _, _. split; [reflexivity|]. split; [reflexivity|].
    cbn [WMOContentReviewer.issues WMOContentReviewer.set_issues].
    split; [done|]. split; [done|].
    split; [unfold WMOContentReviewer.exit_code; destruct (existsb _ _); [by left|by right]|].
    split; [apply wmo_exit_code_spec|].
    intros He.
    destruct (WMOContentReviewer.exit_code filtered) as [|[|n]] eqn:Ex; [done| |].
    + apply wmo_exit_code_spec in Ex as (i & Hi & Hs).
      apply list_elem_of_filter in Hi as [Hi _]. rewrite Hs in Hi. done.
    + unfold WMOContentReviewer.exit_code in Ex. by destruct (existsb _ _).
Qed.

Lemma main_exit_status_witness :
  ∃ reviewer alignment summary,
    BillieJean.main_review BillieJean.UNKNOWN "Hello" "critical, error"
    = Ok (reviewer, alignment, summary, 1).
Proof.
  destruct (proj1 (main_exit_status "Hello" "critical, error") BillieJean.UNKNOWN)
    as (reviewer & alignment & summary & code & issues & sa & s' & E & _ & _ & _ & _
        & _ & _ & _ & Hnone).
  exists reviewer, alignment, summary. rewrite E. do 2 f_equal. apply Hnone.
  - apply (forall_keywords (λ k, BillieJeanFacts.mentions "Hello" k = false)).
    vm_compute. exact I.
  - vm_compute. reflexivity.
Defined.

(** The flag of a pillar. *)
Definition flag_of (p : BillieJean.Priority) (sa : BillieJean.StrategicAlignment) : bool :=
  match p with
  | BillieJean.p_earth_system_monitoring => BillieJean.earth_system_monitoring sa
  | BillieJean.p_early_warnings => BillieJean.early_warnings sa
  | BillieJean.p_climate_action => BillieJean.climate_action sa
  | BillieJean.p_capacity_development => BillieJean.capacity_development sa
  | BillieJean.p_hydrometeorological_services =>
      BillieJean.hydrometeorological_services sa
  end.

Lemma keywords_of_table p ks :
  (p, ks) ∈ BillieJean.STRATEGIC_KEYWORDS ↔ ks = BillieJeanFacts.keywords_of p.
Proof.
  split.
  - intros H. unfold BillieJean.STRATEGIC_KEYWORDS in H.
    repeat (apply elem_of_cons in H as [H|H]; [by injection H as -> ->|]).
    by apply elem_of_nil in H.
  - intros ->. destruct p; apply (bool_decide_unpack _); vm_compute; exact I.
Qed.

(** X5.  The alignment [review] returns, which is also the one the
    reviewer keeps, has the flag of a pillar set exactly when the
    lowercased text contains the lowercased form of one of the pillar's
    keywords. *)
Theorem strategic_flags (self : BillieJean.t) (text : string) :
  ∃ issues sa s',
    BillieJean.review self text = Ok (issues, sa, s')
    ∧ BillieJean.strategic_alignment s' = sa
    ∧ ∀ p, flag_of p sa = true
           ↔ ∃ ks k, (p, ks) ∈ BillieJean.STRATEGIC_KEYWORDS ∧ k ∈ ks
                     ∧ contains (lower k) (lower text) = true.
Proof.
  destruct (BillieJeanFacts.review_spec self text) as (p0 & _ & E).
  eexists _, _, _. split; [exact E|]. split; [reflexivity|].
  intros p.
  assert (flag_of p (BillieJeanFacts.alignment_of text)
          = BillieJeanFacts.has_keyword (lower text) p) as -> by by destruct p.
  unfold BillieJeanFacts.has_keyword. split.
  - intros (k & Hk & Hc)%existsb_exists.
    exists (BillieJeanFacts.keywords_of p), k.
    split; [by apply keywords_of_table|]. split; [by apply list_elem_of_In|done].
  - intros (ks & k & Hks & Hk & Hc). apply keywords_of_table in Hks as ->.
    apply existsb_exists. exists k. split; [by apply list_elem_of_In|done].
Qed.

(** X6.  The list [review] returns is a rearrangement of the issue list
    the reviewer keeps; in it no issue comes after one with a greater
    sort key, so that issues of one severity are in ascending line
    order; and the issues of one severity and line are in the order in
    which the checks appended them.  Both reviewers. *)
Theorem review_result_order (text : string) :
  (∀ self, ∃ issues sa s',
     BillieJean.review self text = Ok (issues, sa, s')
     ∧ issues ≡ₚ BillieJean.issues s'
     ∧ (∀ i j a b, i < j → issues !! i = Some a → issues !! j = Some b →
          key_le (BillieJean.sort_key a) (BillieJean.sort_key b)
          ∧ (BillieJean.severity a = BillieJean.severity b →
             BillieJean.line_number a ≤ BillieJean.line_number b))
     ∧ (∀ k, filter (λ x, BillieJean.sort_key x = k) issues
             = filter (λ x, BillieJean.sort_key x = k) (BillieJean.issues s')))
  ∧ (∀ self, ∃ issues s',
       WMOContentReviewer.review self text = Ok (issues, s')
       ∧ issues ≡ₚ WMOContentReviewer.issues s'
       ∧ (∀ i j a b, i < j → issues !! i = Some a → issues !! j = Some b →
            key_le (WMOContentReviewer.sort_key a) (WMOContentReviewer.sort_key b)
            ∧ (WMOContentReviewer.severity a = WMOContentReviewer.severity b →
               WMOContentReviewer.line_number a ≤ WMOContentReviewer.line_number b))
       ∧ (∀ k, filter (λ x, WMOContentReviewer.sort_key x = k) issues
               = filter (λ x, WMOContentReviewer.sort_key x = k)
                        (WMOContentReviewer.issues s'))).
Proof.
  split; intros self.
  - destruct (BillieJeanFacts.review_spec self text) as (p & _ & E).
    eexists _, _, _. split; [exact E|]. cbn [BillieJean.issues BillieJeanFacts.final_state].
    split; [apply sorted_Permutation|]. split; [|intros k; apply sorted_stable].
    intros i j a b Hij Ha Hb.
    pose proof (key_ordered_lookup _ _ i j a b (sorted_ordered _ _) Hij Ha Hb) as Hle.
    split; [done|]. intros Hs. apply key_le_iff in Hle as [Hlt|[_ Hn]]; [|done].
    unfold BillieJean.sort_key in Hlt. cbn [fst] in Hlt.
    by rewrite Hs, str_ltb_irrefl in Hlt.
  - destruct (WMOFacts.wmo_review_spec self text) as (p & _ & E).
    eexists _, _. split; [exact E|].
    cbn [WMOContentReviewer.issues WMOFacts.wmo_final_state].
    split; [apply sorted_Permutation|]. split; [|intros k; apply sorted_stable].
    intros i j a b Hij Ha Hb.
    pose proof (key_ordered_lookup _ _ i j a b (sorted_ordered _ _) Hij Ha Hb) as Hle.
    split; [done|]. intros Hs. apply key_le_iff in Hle as [Hlt|[_ Hn]]; [|done].
    unfold WMOContentReviewer.sort_key in Hlt. cbn [fst] in Hlt.
    by rewrite Hs, str_ltb_irrefl in Hlt.
Qed.

(** X7.  Every issue of a review points at the document, with line 0,
    or at one of the lines of the text, and its excerpt, the context,
    has at most 100 characters; for the simpler reviewer the bound on
    the excerpt holds for the issues that are not about links.  A text
    has one line more than it has newlines. *)
Theorem issue_locations (text : string) :
  (∀ self, ∃ issues sa s',
     BillieJean.review self text = Ok (issues, sa, s')
     ∧ Forall (λ i, BillieJean.line_number i ≤ length (split_char newline text)
                    ∧ String.length (BillieJean.context i) ≤ 100) issues)
  ∧ (∀ self, ∃ issues s',
       WMOContentReviewer.review self text = Ok (issues, s')
       ∧ Forall (λ i, WMOContentReviewer.line_number i
                      ≤ length (split_char newline text)
                      ∧ (WMOContentReviewer.category i ≠ "Links" →
                         String.length (WMOContentReviewer.context i) ≤ 100)) issues)
  ∧ length (split_char newline text) = count_char newline text + 1.
Proof.
  split; [|split; [|apply Bounds.split_char_length]].
  - intros self. destruct (BillieJeanLines.review_located self text) as (l & s' & E & H).
    eexists _, _, _. split; [exact E|]. by rewrite sorted_Permutation.
  - intros self. destruct (WMOLines.wmo_review_located self text) as (l & s' & E & H).
    eexists _, _. split; [exact E|]. by rewrite sorted_Permutation.
Qed.

(** X8.  The warning about an abbreviation of the table is decided by
    the first line that contains it: the review has one warning about
    it, at that line, if the abbreviation is not WMO and that line does
    not define it, and none otherwise, whatever the later lines hold.
    Both reviewers. *)
Theorem abbreviation_first_use (text a : string) :
  (∀ self full, (a, full) ∈ BillieJean.WMO_ABBREVIATIONS →
     ∃ issues sa s',
       BillieJean.review self text = Ok (issues, sa, s')
       ∧ BillieJeanFacts.warnings_for a issues
         = match WMOFacts.wmo_first_line_with a (split_char newline text) with
           | Some (j, line) =>
               if negb (BillieJean.is_defined a full line) && negb (String.eqb a "WMO")
               then [BillieJeanFacts.abbreviation_warning_issue a full (1 + j)]
               else []
           | None => []
           end)
  ∧ (∀ self, a ∈ WMOContentReviewer.WMO_ABBREVIATIONS →
       ∃ issues s',
         WMOContentReviewer.review self text = Ok (issues, s')
         ∧ WMOFacts.wmo_warnings_for a issues
           = match WMOFacts.wmo_first_line_with a (split_char newline text) with
             | Some (j, line) =>
                 if negb (WMOContentReviewer.matches no_flags
                            (WMOContentReviewer.rx_defined a) line)
                    && negb (String.eqb a "WMO")
                 then [WMOFacts.wmo_abbreviation_warning a (1 + j) line]
                 else []
             | None => []
             end)
  ∧ (∀ j line, WMOFacts.wmo_first_line_with a (split_char newline text) = Some (j, line) →
       split_char newline text !! j = Some line ∧ contains a line = true
       ∧ ∀ j' l', j' < j → split_char newline text !! j' = Some l' →
                  contains a l' = false).
Proof.
  split; [|split].
  - intros self full Hin.
    destruct (BillieJeanSteps.review_first_use self text a full Hin)
      as (issues & sa & s' & E & H).
    by exists issues, sa, s'.
  - intros self Hin.
    destruct (WMOSteps.wmo_review_first_use self text a Hin) as (issues & s' & E & H).
    by exists issues, s'.
  - intros j line. apply WMOFacts.wmo_first_line_with_lookup.
Qed.

Lemma abbreviation_first_use_witness :
  ∃ issues sa s',
    BillieJean.review (BillieJean.init BillieJean.UNKNOWN)
      ("Global Climate Observing System (GCOS)" +:+ str1 newline +:+ "GCOS data")
    = Ok (issues, sa, s')
    ∧ BillieJeanFacts.warnings_for "GCOS" issues = [].
Proof.
  destruct (proj1 (abbreviation_first_use
                     ("Global Climate Observing System (GCOS)"
                      +:+ str1 newline +:+ "GCOS data") "GCOS")
              (BillieJean.init BillieJean.UNKNOWN) "Global Climate Observing System")
    as (issues & sa & s' & E & H).
  - apply (bool_decide_unpack _). vm_compute. exact I.
  - exists issues, sa, s'. split; [exact E|]. rewrite H. vm_compute. reflexivity.
Defined.

(** X9.  A reviewer that was not built for news articles reports no
    issue of the news article standards. *)
Theorem news_standards_only_for_articles (self : BillieJean.t) (text : string) :
  BillieJean.content_type self ≠ BillieJean.NEWS_ARTICLE →
  ∃ issues sa s',
    BillieJean.review self text = Ok (issues, sa, s')
    ∧ Forall (λ i, BillieJean.category i ≠ "News Article Standards"
                   ∧ BillieJean.category i ≠ "News Article Standards - Storytelling")
             issues.
Proof.
  intros Hct.
  destruct (BillieJeanSteps.review_news_only self text Hct)
    as (issues & sa & s' & E & H).
  exists issues, sa, s'. split; [exact E|].
  eapply Forall_impl; [exact H|]. intros i Hi. unfold BillieJeanSteps.news_categories in Hi.
  split; intros Hc; apply Hi; rewrite Hc; [by left|right; by left].
Qed.

Lemma news_standards_only_for_articles_witness :
  ∃ issues sa s',
    BillieJean.review (BillieJean.init BillieJean.WEB_PAGE) "# A Title In Title Case"
    = Ok (issues, sa, s')
    ∧ Forall (λ i, BillieJean.category i ≠ "News Article Standards"
                   ∧ BillieJean.category i ≠ "News Article Standards - Storytelling")
             issues.
Proof.
  apply (news_standards_only_for_articles
           (BillieJean.init BillieJean.WEB_PAGE) "# A Title In Title Case").
  vm_compute. discriminate.
Defined.
